(* ===== verification/_CoqProject ===== *)
-Q . S2P
Prelude.v
Ieee.v
PyDict.v
PyText.v
PyJson.v
PyUuid.v
PyTime.v
PyHash.v
PyPath.v
Prog.v
Interleave.v
Domain.v
Database.v
Cache.v
World.v
Ports.v
Repository.v
Storage.v
Broker.v
Upload.v
Process.v
Consume.v
Service.v
Reads.v
Retention.v
Schemas.v
Processing.v
Kernel.v
Resampling.v
Loader.v
Pipeline.v
Benchmark.v
Kafka.v
Config.v
Middleware.v
Migrations.v
AlembicEnv.v
Logging.v
Lifecycle.v
Wiring.v
Mutex.v
Invariant.v
History.v
Sanitize.v
RateLimit.v
DlqReplay.v
Api.v
Batches.v
Concrete.v
Scenarios.v
Incidents.v
