(* ===== verification/Prelude.v ===== *)
(** * Image Processing Service: verification development (root file)

    The program is an asynchronous Python service ([src/src]): a FastAPI server
    that takes uploads, stores their files, keeps their rows in PostgreSQL and
    publishes a task for each; a worker that consumes the tasks from Kafka and
    makes thumbnails; retention sweeps; a tool that replays dead letters; the
    migrations of its tables.  Its layers are ports and adapters: the use cases
    ([application/use_cases]) call four abstract collaborators
    ([domain/interfaces]), which [infrastructure] implements and
    [presentation] exposes over HTTP.

    ** How the program is modelled

    A coroutine is a tree of atomic actions over a shared state, each action
    the code between two awaits, ending in a result or an exception ([Prog.v]).
    [run] executes one alone; [pstep] interleaves several.  The shared state of
    the service is the record [world] ([World.v]): the heap of [Image] objects
    (the cache aliases the objects its callers mutate), the two tables, the
    cache, the files, the queues and a trace of metrics and sleeps.  Clocks,
    random UUIDs and the faults of every external operation (refused, failed
    half-way, done with the acknowledgement lost) are an oracle in the state:
    theorems hold for every schedule of faults they do not exclude by name.
    Exceptions are the type [exn], with the classes that [except] tests.

    A statement sent to PostgreSQL is one action.  [save] and
    [complete_idempotency_record] are two: a [SELECT], and at the commit an
    [UPDATE] of the columns that differ from what was selected ([flush_txn],
    [key_flush_txn]); as transactions are READ COMMITTED, anything may come
    between.  Rows that no [ORDER BY] tells apart come in an order that each
    statement chooses anew ([pg_scan], by the number of the statement).

    ** The files

    - the language and its standard library: [PyDict], [PyText], [PyJson],
      [PyUuid], [PyTime], [PyHash] (an executable SHA-256), [PyPath]; for the C++,
      [Ieee] (binary floating point on rational values);
    - the machinery: this file (tactics, generic lemmas), [Prog] (coroutines,
      weakest preconditions, invariants of actions), [Interleave] (a
      rely-guarantee logic for interleaved coroutines);
    - [Domain]: [domain/entities], [application/dto];
    - [Ports]: [domain/interfaces], as records of coroutines with classes of laws
      ([RepoLaws], [StorageLaws], [ProcessorLaws], [BrokerLaws]): the contract
      against which the use cases are proved and which the adapters discharge;
    - the adapters: [Database] (the tables and statements of
      [database/models.py] and [postgres_image_repository.py]), [Cache]
      ([cache/in_memory_cache.py]), [Repository] (the PostgreSQL repository and
      [cache/cached_image_repository.py]), [Storage]
      ([storage/local_image_storage.py]), [Broker]
      ([messaging/in_memory_message_broker.py]), [Kafka]
      ([messaging/kafka_message_broker.py]), [Processing]
      ([processing/image_validator.py], [pillow_processor.py],
      [cpp_processor.py], [factory.py]), [Kernel] and [Resampling] (the compiled
      module of [src/cpp/fast_resize.cpp], and what it computes), [Loader] (where [cpp_processor.py]
      looks for the compiled module), [Pipeline] ([processing/pipeline.py]);
    - the use cases: [Upload] (with [idempotency.py]), [Process], [Consume],
      [Reads] ([get_image.py], [list_images.py]), [Retention];
    - the compositions: [Service] (upload, then worker), [Mutex] (concurrent
      uploads under one key), [Invariant] (all requests and workers together),
      [History] (what they do to one image over time), [Batches] (a batch
      request among the others);
    - the edges: [Sanitize], [RateLimit], [Schemas] ([schemas/image_schemas.py]),
      [Api] (routes, authentication), [Wiring] (the cached constructors of
      [dependencies.py]), [Middleware] (metrics, correlation ids, health
      check), [Logging] ([logging_config.py]), [Config] ([config.py]),
      [Lifecycle] ([main.py], [worker.py], [database/session.py],
      [observability/setup.py], [metrics.py]), [Migrations]
      ([src/migrations/versions]) and [AlembicEnv] ([src/migrations/env.py]),
      [DlqReplay] ([dlq_replay.py]), [Benchmark] ([cpp/benchmark_resize.py]);
    - [Concrete] and [Scenarios]: instances of the parameters, and each theorem
      applied where its hypotheses hold; examples that run the definitions;
      [Incidents]: short runs that end badly, each an order of steps or a fault
      the code does not guard against.

    A definition has the name of the function, method or class it translates,
    inside a Module named after the class where there is one.

    ** What the theorems show

    - From end to end: an upload followed by a round of the worker leaves a
      completed image with its thumbnail ([upload_to_thumbnail]); each use case
      does what it promises on every branch and under every fault that its
      theorem does not exclude ([upload_succeeds], [upload_replays],
      [process_settles], [process_missing], [process_replays], [consume_task],
      [consume_malformed], the reads); a sweep deletes what has expired at its
      instant, and counts exactly the images whose files it could not delete
      ([retention_sweep]); tasks that always fail
      end in the dead-letter queue after the configured attempts
      ([retries_exhaust]), and dead letters can be replayed
      ([dead_letter_replays], [replay_at_least_once]).
    - Under concurrency: uploads under one idempotency key create one image
      whatever their interleaving ([one_upload_per_key]); any mix of requests
      and worker rounds keeps tables and cache well formed
      ([service_invariant]); over time, an image keeps its name, file, tags and
      dates and never becomes pending again ([image_history]; that a completed
      one has its thumbnail is not true: [completed_without_thumbnail]);
      a batch never exceeds its concurrency and always
      ends ([batch_completes]), also among other requests ([batch_endpoint]),
      where it does nothing that its single requests could not do
      ([batch_refines_requests]); the gauge of active requests
      ([gauge_balance]).
    - Idempotency: repeating a request with its key replays the response
      ([upload_idempotent]); equal request hashes mean equal requests, up to a
      SHA-256 collision ([hash_identifies_request]); an upload that fails frees
      its key, but for the three causes that [upload_settles_key] names: it was
      cancelled, the deletion of the key failed, or its claim was not
      acknowledged.
    - Refinement: the cache is a log of writes with expiry
      ([cache_refines_log]); the rate limiter is a log of accepted requests
      ([limiter_refines_log], [limiter_bound]); both processors implement their
      port ([backend_contract]); the queue is FIFO ([fifo_delivery]).
    - The compiled kernel: its float arithmetic fits an image into the box, in
      proportion ([fit_dimensions_correct]); both resize loops stay inside of
      their buffers and interpolate ([resize_correct]); no thumbnail of the
      service meets its undefined behaviour ([cpp_thumbnail_defined]).
    - Data: rows and files come back as they were written
      ([save_get_roundtrip], [store_retrieve]); a JSON log line is an object with
      the formatter's keys, each with its field of the record or of the context
      ([json_log_line]); what is published to Kafka is in the topic, in
      order and at least once, and can be decoded, but the adapter never makes its
      consumer: the constructor refuses [rebalance_listener], so that every
      [consume] raises ([kafka_delivers]; the worker is therefore proved correct
      against the port and the in-memory broker);
      the migrations are idempotent and reversible, and their
      tables take the rows the repository writes ([migrations_correct]);
      pages are full, in order and as many as [count] says, and list every row
      exactly once when no two dates are equal ([list_pages_complete],
      [list_images_window]; [listed_twice_or_never] when two are); sweeps delete what has expired
      ([sweep_deletes_expired]).
    - At the edges: a request reaches its handler exactly when authenticated,
      admitted and valid ([request_gate]); only validated files are stored
      ([upload_endpoint], [validation_verdict]); file names stay inside the
      storage ([sanitize_safe], [sanitized_name_fits], [store_path_contained]);
      what the shutdown closes and what it leaves open ([lifespan_shutdown]);
      requests share their collaborators ([wiring_shares]); a migration run is
      all or nothing ([alembic_run]).

    ** Parameters and assumptions

    Code that is not in the repository is a parameter, its documented behaviour
    a class or hypothesis: the Unicode and float tables ([PyTables]), the order
    of the unsorted scan of each statement ([Postgres]), what the operating system does with paths
    ([FileSystem]), Pillow ([Pillow], [PillowLaws]), how FastAPI runs a route's dependencies
    ([FastAPI]), aiokafka ([Aiokafka] with [AiokafkaLaws] in [Kafka]; [Clients]
    with [KafkaLaws] in [DlqReplay]), OpenTelemetry ([OpenTelemetry]), Alembic ([Alembic], [AlembicLaws]).
    That UUIDs are drawn once is a hypothesis of the theorems that need it
    ([fresh_uuids], [starting]), about the draws of the run.  A SHA-256
    collision is never assumed away: it is a case of the conclusion.

    ** Bounds and fuel

    Integers are unbounded, as in Python; those of the C++ kernel are 32 bits
    wide, out of range is undefined, and its [float] tells [MAX_SIDE] positions
    of a row apart, which is the bound of its theorems; the columns of PostgreSQL are 32 bits
    wide and its texts bounded, and a row that does not fit is refused
    ([image_row_ok], [key_row_ok]).  Instants are integers of microseconds, so a
    [float] period of seconds is rounded to a microsecond.  The JSON scanner
    recurses on fuel, twice the length of its input and two
    ([scan_fuel]): [scan_once_fuel] shows that more never changes its answer.
    The decimal and hexadecimal printers bound their digits by the bits of the
    number.  The replay loop has fuel: one more than the limit on inspected records
    is enough for it to end ([replay_at_least_once]).  Loops that run until a
    signal ([rounds], [worker_loop]) take the number of rounds, over which the
    theorems quantify.  The batch pipeline needs none: its termination is
    well-foundedness of its steps, among other requests too.  A back-off is
    exact, and fails where its power of two is too large for a [float]
    ([retry_delay], [retry_overflow]); a product beyond the largest [float],
    which Python makes infinite, is still a number, and nobody waits for its end.

    ** What is not modelled

    Logging calls (but for the records the formatters print) and elapsed times
    of metrics; the pools of database connections (their
    sizes are data of [build_engine]); parsing, routing and serialization of
    HTTP (FastAPI and Pydantic) and the reading of the environment
    (pydantic-settings): requests and settings arrive parsed; argparse, signal
    handlers and [__main__] blocks; that the construction of a use case, which
    FastAPI does before it calls the handler, raises (a 500, on which
    [respond] has nothing to say); in the worker process of the pool, a C++
    module that does not load is one of the faults of making a thumbnail;
    what a C++ compiler may do to the rounding of
    products and sums (fused operations).  The recursion
    limit of the interpreter and [MemoryError] are not modelled.  A topic of the
    Kafka laws has one partition. *)

From Stdlib Require Export ZArith Lia.
From stdpp Require Export base tactics option list list_numbers numbers gmap strings sorting.

#[global] Set Default Goal Selector "!".

(** ** Automation databases *)

Create HintDb service.

(** ** Shared tactics *)

(** Turn the boolean tests of the code into arithmetic facts. *)
Ltac zbool :=
  repeat match goal with
  | H : (_ =? _)%Z = true |- _ => apply Z.eqb_eq in H
  | H : (_ =? _)%Z = false |- _ => apply Z.eqb_neq in H
  | H : (_ <? _)%Z = true |- _ => apply Z.ltb_lt in H
  | H : (_ <? _)%Z = false |- _ => apply Z.ltb_ge in H
  | H : (_ <=? _)%Z = true |- _ => apply Z.leb_le in H
  | H : (_ <=? _)%Z = false |- _ => apply Z.leb_gt in H
  | H : _ && _ = true |- _ => apply andb_true_iff in H as [? ?]
  | H : _ || _ = false |- _ => apply orb_false_iff in H as [? ?]
  | H : negb _ = true |- _ => apply negb_true_iff in H
  | H : negb _ = false |- _ => apply negb_false_iff in H
  end.

(** Decide one boolean comparison of the goal whose outcome [lia] can find. *)
Ltac zdecide :=
  repeat match goal with
  | |- context [(?a =? ?b)%Z] =>
      first [ rewrite (proj2 (Z.eqb_eq a b)) by lia
            | rewrite (proj2 (Z.eqb_neq a b)) by lia ]
  | |- context [(?a <? ?b)%Z] =>
      first [ rewrite (proj2 (Z.ltb_lt a b)) by lia
            | rewrite (proj2 (Z.ltb_ge a b)) by lia ]
  | |- context [(?a <=? ?b)%Z] =>
      first [ rewrite (proj2 (Z.leb_le a b)) by lia
            | rewrite (proj2 (Z.leb_gt a b)) by lia ]
  end.

(** ** Generic list operations and lemmas *)

(** The longest prefix all of whose elements satisfy [p], and the rest. *)
Fixpoint take_while {A} (p : A → bool) (l : list A) : list A :=
  match l with
  | [] => []
  | x :: l' => if p x then x :: take_while p l' else []
  end.

Fixpoint drop_while {A} (p : A → bool) (l : list A) : list A :=
  match l with
  | [] => []
  | x :: l' => if p x then drop_while p l' else l
  end.

Lemma take_drop_while {A} (p : A → bool) (l : list A) :
  take_while p l ++ drop_while p l = l.
Proof. induction l as [|x l IH]; simpl; [done|]. destruct (p x); simpl; congruence. Qed.

Lemma take_while_Forall {A} (p : A → bool) (l : list A) :
  Forall (λ x, p x = true) (take_while p l).
Proof. induction l as [|x l IH]; simpl; [done|]. destruct (p x) eqn:E; auto. Qed.

Lemma take_while_all {A} (p : A → bool) (l1 l2 : list A) :
  Forall (λ x, p x = true) l1 →
  (match l2 with [] => True | x :: _ => p x = false end) →
  take_while p (l1 ++ l2) = l1 ∧ drop_while p (l1 ++ l2) = l2.
Proof.
  intros H1 H2. induction H1 as [|x l1 Hx H1 [IH1 IH2]]; simpl.
  - destruct l2 as [|y l2]; simpl; [done|]. by rewrite H2.
  - rewrite Hx. by rewrite IH1, IH2.
Qed.

Lemma drop_while_none {A} (p : A → bool) (l : list A) :
  Forall (λ x, p x = false) l → drop_while p l = l.
Proof. destruct 1 as [|x l Hx]; simpl; [done|]. by rewrite Hx. Qed.

Lemma take_while_none_after {A} (p : A → bool) (l1 : list A) x l2 :
  Forall (λ y, p y = true) l1 → p x = false →
  take_while p (l1 ++ x :: l2) = l1.
Proof. intros H1 Hx. by apply take_while_all. Qed.

Lemma drop_while_head {A} (p : A → bool) (l : list A) x l' :
  drop_while p l = x :: l' → p x = false.
Proof.
  induction l as [|y l IH]; simpl; [done|].
  destruct (p y) eqn:E; [done|]. by intros [= -> ->].
Qed.

Lemma Forall_impl_bool {A} (p q : A → bool) (l : list A) :
  (∀ x, p x = true → q x = true) →
  Forall (λ x, p x = true) l → Forall (λ x, q x = true) l.
Proof. intros H Hl. eapply Forall_impl; [exact Hl|]. auto. Qed.

Lemma list_filter_all {A} (P : A → Prop) `{∀ x, Decision (P x)} (l : list A) :
  Forall P l → filter P l = l.
Proof. induction 1 as [|x l Hx _ IH]; [done|]. by rewrite filter_cons_True, IH. Qed.

(** One element of a list steps down. *)
Definition list_step {A} (R : A → A → Prop) (l' l : list A) : Prop :=
  ∃ i x x', l !! i = Some x ∧ R x' x ∧ l' = <[i := x']> l.

Lemma list_step_wf {A} (R : A → A → Prop) : (∀ x, Acc R x) → ∀ l, Acc (list_step R) l.
Proof.
  intros HR l. induction l as [|x l IH].
  { constructor. by intros l' (i & x & x' & ? & _). }
  revert x. induction IH as [l _ IHl]. intros x. induction (HR x) as [x _ IHx].
  constructor. intros l' ([|i] & x0 & x' & Hi & Hx & ->); cbn in Hi; simplify_eq/=.
  - by apply IHx.
  - apply IHl. by exists i, x0, x'.
Qed.
