(* ===== verification/Ieee.v ===== *)
(** * Binary floating point

    The arithmetic of [float] and [double] in [src/cpp/fast_resize.cpp]: IEEE 754
    with rounding to nearest, ties to even.  A number is its rational value; the
    result of an operation is the exact one, rounded to the precision.  The
    exponent range is left open: the values of the program come from 32-bit
    integers by a few operations and neither overflow nor become subnormal. *)

From Stdlib Require Export QArith Qabs Qround Qpower Lqa.
From S2P Require Import Prelude.
Local Open Scope Z_scope.

(** ** Rounding *)

Definition pow2 (e : Z) : Q := Qpower (inject_Z 2) e.

(** The exponent: [2 ^ ilog2 x <= |x| < 2 ^ (ilog2 x + 1)]. *)
Definition ilog2 (x : Q) : Z :=
  let k := Z.log2 (Z.abs (Qnum x)) - Z.log2 (Zpos (Qden x)) in
  if Qle_bool (pow2 k) (Qabs x) then k else k - 1.

Definition round_even (y : Q) : Z :=
  let f := Qfloor y in
  match Qcompare (y - inject_Z f) (1 # 2) with
  | Lt => f
  | Gt => f + 1
  | Eq => if Z.even f then f else f + 1
  end.

(** To [p] bits. *)
Definition rnd (p : Z) (x : Q) : Q :=
  let x := Qred x in
  if Qeq_bool x 0 then 0%Q
  else let e := ilog2 x + 1 - p in Qred (inject_Z (round_even (x / pow2 e)) * pow2 e).

(** Conversion to an integer, and [std::round]: halves away from zero. *)
Definition trunc (x : Q) : Z := Z.quot (Qnum x) (Zpos (Qden x)).
Definition round_half_away (x : Q) : Z :=
  if Qle_bool 0 x then Qfloor (x + (1 # 2)) else - Qfloor (- x + (1 # 2)).

(** [float] *)
Definition f32 (z : Z) : Q := rnd 24 (inject_Z z).
Definition fadd (x y : Q) : Q := rnd 24 (x + y).
Definition fsub (x y : Q) : Q := rnd 24 (x - y).
Definition fmul (x y : Q) : Q := rnd 24 (x * y).
Definition fdiv (x y : Q) : Q := rnd 24 (x / y).

(** [double] *)
Definition f64 (z : Z) : Q := rnd 53 (inject_Z z).
Definition dmul (x y : Q) : Q := rnd 53 (x * y).
Definition ddiv (x y : Q) : Q := rnd 53 (x / y).

(** A third and a tenth, whose encodings are well known. *)
Example third : fdiv (f32 1) (f32 3) = (11184811 # 33554432)%Q.
Proof. vm_compute. reflexivity. Qed.
Example tenth : ddiv (f64 1) (f64 10) = (3602879701896397 # 36028797018963968)%Q.
Proof. vm_compute. reflexivity. Qed.

(** ** Powers and exponents *)

Lemma pow2_pos e : (0 < pow2 e)%Q.
Proof. by apply Qpower_0_lt. Qed.

Lemma pow2_add a b : (pow2 (a + b) == pow2 a * pow2 b)%Q.
Proof. by apply Qpower_plus. Qed.

Lemma pow2_Z e : 0 ≤ e → (pow2 e == inject_Z (2 ^ e))%Q.
Proof. intros He. unfold pow2. by rewrite Zpower_Qpower. Qed.

Lemma pow2_mono a b : a ≤ b → (pow2 a <= pow2 b)%Q.
Proof. intros H. by apply Qpower_le_compat_l. Qed.

Lemma log2_bounds n : 0 < n → (pow2 (Z.log2 n) <= inject_Z n < 2 * pow2 (Z.log2 n))%Q.
Proof.
  intros Hn. destruct (Z.log2_spec n Hn) as [H1 H2]. rewrite pow2_Z by apply Z.log2_nonneg.
  rewrite Z.pow_succ_r in H2 by apply Z.log2_nonneg. change 2%Q with (inject_Z 2). rewrite <- inject_Z_mult.
  by rewrite <- Zle_Qle, <- Zlt_Qlt.
Qed.

Lemma Qabs_frac x : (Qabs x * inject_Z (Zpos (Qden x)) == inject_Z (Z.abs (Qnum x)))%Q.
Proof. destruct x as [n d]. unfold Qeq. cbn. lia. Qed.

Lemma Qle_bool_false x y : Qle_bool x y = false → (y < x)%Q.
Proof. intros E. apply Qnot_le_lt. intros H%Qle_bool_iff. congruence. Qed.

Lemma ilog2_spec x : ¬ (x == 0)%Q → (pow2 (ilog2 x) <= Qabs x < 2 * pow2 (ilog2 x))%Q.
Proof.
  intros Hx. set (n := Z.abs (Qnum x)). set (d := Zpos (Qden x)).
  assert (Hn : 0 < n) by (subst n; unfold Qeq in Hx; cbn in Hx; lia).
  assert (Hd : 0 < d) by (subst d; lia). pose proof (Qabs_frac x) as Hf. fold n d in Hf.
  destruct (log2_bounds n Hn) as [N1 N2], (log2_bounds d Hd) as [D1 D2].
  unfold ilog2. fold n d. set (k := Z.log2 n - Z.log2 d).
  assert (Hk : (pow2 (Z.log2 n) == pow2 k * pow2 (Z.log2 d))%Q) by (rewrite <- pow2_add; f_equiv; unfold k; lia).
  pose proof (pow2_pos k) as Pk. pose proof (pow2_pos (Z.log2 d)) as Pd.
  set (P := pow2 k) in *. set (D := pow2 (Z.log2 d)) in *. set (A := Qabs x) in *.
  assert (Hd' : (0 < inject_Z d)%Q) by (by rewrite (Zlt_Qlt 0 d) in Hd).
  assert (HA : (0 < A)%Q) by (apply (Qmult_lt_r _ _ _ Hd'); rewrite (Zlt_Qlt 0 n) in Hn; lra).
  assert (Hlow : (P < 2 * A)%Q) by (apply (Qmult_lt_r _ _ _ Pd); nra).
  assert (Hup : (A < 2 * P)%Q) by (apply (Qmult_lt_r _ _ _ Hd'); nra).
  destruct (Qle_bool P A) eqn:E; [apply Qle_bool_iff in E; by split|].
  pose proof (Qle_bool_false _ _ E) as E'.
  assert (H2 : (P == 2 * pow2 (k - 1))%Q).
  { unfold P. replace k with (1 + (k - 1)) at 1 by lia. by rewrite pow2_add. }
  split; lra.
Qed.

(** ** Error of rounding *)

Lemma floor_bounds y : (inject_Z (Qfloor y) <= y < inject_Z (Qfloor y) + 1)%Q.
Proof.
  split; [apply Qfloor_le|]. pose proof (Qlt_floor y) as H. rewrite inject_Z_plus in H. exact H.
Qed.

Lemma round_even_error y : (y - (1 # 2) <= inject_Z (round_even y) <= y + (1 # 2))%Q.
Proof.
  destruct (floor_bounds y) as [H1 H2]. unfold round_even.
  destruct (Qcompare_spec (y - inject_Z (Qfloor y)) (1 # 2)); [destruct (Z.even _)|..];
    rewrite ?inject_Z_plus; change (inject_Z 1) with 1%Q; split; lra.
Qed.

Lemma inject_lt a b : (inject_Z a < inject_Z b + 1)%Q → a ≤ b.
Proof. change 1%Q with (inject_Z 1). rewrite <- inject_Z_plus, <- Zlt_Qlt. lia. Qed.

Lemma round_even_Z y z : (y == inject_Z z)%Q → round_even y = z.
Proof. intros Hy. pose proof (round_even_error y). apply Z.le_antisymm; apply inject_lt; lra. Qed.

#[export] Instance rnd_proper p : Proper (Qeq ==> eq) (rnd p).
Proof. intros x y H. unfold rnd. by rewrite (Qred_complete _ _ H). Qed.

Lemma rnd_0 p x : (x == 0)%Q → rnd p x = 0%Q.
Proof. by intros ->. Qed.

(** What is rounded: a number of units in the last place. *)
Lemma rnd_ulp p x : ¬ (x == 0)%Q →
  ∃ m e, (rnd p x == inject_Z m * pow2 e)%Q ∧ (x / pow2 e - (1 # 2) <= inject_Z m <= x / pow2 e + (1 # 2))%Q ∧
    (m = round_even (Qred x / pow2 e))%Z ∧ (pow2 (p - 1) * pow2 e <= Qabs x < pow2 p * pow2 e)%Q.
Proof.
  intros Hx. assert (Hr : ¬ (Qred x == 0)%Q) by (by rewrite Qred_correct). unfold rnd.
  destruct (Qeq_bool (Qred x) 0) eqn:E; [by apply Qeq_bool_iff in E|]. set (e := ilog2 (Qred x) + 1 - p).
  exists (round_even (Qred x / pow2 e)), e. split; [apply Qred_correct|]. split; [|split; [done|]].
  - pose proof (round_even_error (Qred x / pow2 e)) as H.
    assert (Hq : (Qred x / pow2 e == x / pow2 e)%Q) by (by rewrite Qred_correct). lra.
  - pose proof (ilog2_spec _ Hr) as H. assert (Ha : (Qabs (Qred x) == Qabs x)%Q) by (by rewrite Qred_correct).
    rewrite Ha in H. rewrite <- !pow2_add.
    replace (p - 1 + e) with (ilog2 (Qred x)) by (unfold e; lia).
    replace (p + e) with (1 + ilog2 (Qred x)) by (unfold e; lia). by rewrite pow2_add.
Qed.

(** The relative error is at most half a unit in the last place. *)
Lemma rnd_error p x : (Qabs (rnd p x - x) <= Qabs x * pow2 (- p))%Q.
Proof.
  destruct (Qeq_dec x 0) as [Hx|Hx]; [rewrite (rnd_0 p x Hx), Hx; change (Qabs (0 - 0)) with 0%Q; change (Qabs 0) with 0%Q; lra|].
  destruct (rnd_ulp p x Hx) as (m & e & Hm & Hb & _ & Hl & _). pose proof (pow2_pos e) as Pe.
  assert (Hq : (x == x / pow2 e * pow2 e)%Q) by (field; lra). set (q := (x / pow2 e)%Q) in *.
  assert (Hp : (pow2 (p - 1) * pow2 (- p) == 1 # 2)%Q).
  { rewrite <- pow2_add. replace (p - 1 + - p) with (-1) by lia. reflexivity. }
  pose proof (pow2_pos (- p)) as Pp. apply Qabs_Qle_condition.
  assert (He : (pow2 e * (1 # 2) <= Qabs x * pow2 (- p))%Q) by (rewrite <- Hp; nra).
  rewrite Hm. split; nra.
Qed.

(** For a number that is not negative. *)
Lemma rnd_bounds p x : (0 <= x)%Q → (x * (1 - pow2 (- p)) <= rnd p x <= x * (1 + pow2 (- p)))%Q.
Proof.
  intros Hx. pose proof (rnd_error p x) as H. rewrite (Qabs_pos x) in H by done.
  apply Qabs_Qle_condition in H. split; lra.
Qed.

(** Integers of [p] bits are not changed. *)
Lemma rnd_Z p z x : 0 < p → Z.abs z < 2 ^ p → (x == inject_Z z)%Q → (rnd p x == inject_Z z)%Q.
Proof.
  intros Hp Hz Hx. destruct (Qeq_dec x 0) as [H0|H0]; [rewrite (rnd_0 p x H0), <- Hx; by rewrite H0|].
  destruct (rnd_ulp p x H0) as (m & e & Hm & _ & Hr & Hl & Hu).
  assert (Ha : (Qabs x == inject_Z (Z.abs z))%Q) by (rewrite Hx; unfold Qeq; cbn; lia). rewrite Ha in Hl.
  assert (He : e ≤ 0).
  { destruct (Z.le_gt_cases e 0) as [|He]; [done|]. exfalso. rewrite <- pow2_add in Hl.
    assert (pow2 p <= pow2 (p - 1 + e))%Q as Hle by (apply pow2_mono; lia).
    rewrite (pow2_Z p) in Hle by lia. assert (Hc : (inject_Z (2 ^ p) <= inject_Z (Z.abs z))%Q) by lra.
    rewrite <- Zle_Qle in Hc. lia. }
  assert (Hq : (Qred x / pow2 e == inject_Z (z * 2 ^ (- e)))%Q).
  { rewrite Qred_correct, Hx, inject_Z_mult, <- pow2_Z by lia. unfold pow2. rewrite Qpower_opp. reflexivity. }
  rewrite (round_even_Z _ _ Hq) in Hr. subst m. rewrite Hm, inject_Z_mult, <- pow2_Z, <- Qmult_assoc, <- pow2_add by lia.
  rewrite Z.add_opp_diag_l. cbn. ring.
Qed.

(** A number of the unit interval stays in it. *)
Lemma rnd_unit p x : 0 < p → (0 <= x <= 1)%Q → (0 <= rnd p x <= 1)%Q.
Proof.
  intros Hp [H0 H1]. destruct (Qeq_dec x 0) as [Hx|Hx]; [rewrite (rnd_0 p x Hx); lra|].
  destruct (rnd_ulp p x Hx) as (m & e & Hm & Hb & _ & Hl & Hu). rewrite (Qabs_pos x) in Hl, Hu by done.
  pose proof (pow2_pos e) as Pe. rewrite Hm.
  assert (Hq : (x == x / pow2 e * pow2 e)%Q) by (field; lra). set (q := (x / pow2 e)%Q) in *.
  assert (Hq0 : (0 <= q)%Q) by nra. assert (0 ≤ m) as Hm0 by (apply inject_lt; change (inject_Z 0) with 0%Q; lra).
  split; [rewrite Zle_Qle in Hm0; change (inject_Z 0) with 0%Q in Hm0; nra|].
  destruct (Z.le_gt_cases e 0) as [He|He].
  - assert (Ei : (1 == inject_Z (2 ^ (- e)) * pow2 e)%Q).
    { rewrite <- pow2_Z, <- pow2_add, Z.add_opp_diag_l by lia. reflexivity. }
    assert (Hle : (q <= inject_Z (2 ^ (- e)))%Q) by nra.
    assert (m ≤ 2 ^ (- e)) as Hme by (apply inject_lt; lra). rewrite Zle_Qle in Hme. nra.
  - exfalso. assert (1 < pow2 (p - 1) * pow2 e)%Q; [|lra]. rewrite <- pow2_add, pow2_Z by lia.
    change 1%Q with (inject_Z 1). rewrite <- Zlt_Qlt. apply Z.pow_gt_1; lia.
Qed.

(** ** Conversions to integers *)

Lemma trunc_floor x : (0 <= x)%Q → trunc x = Qfloor x.
Proof. destruct x as [n d]. unfold Qle, trunc, Qfloor. cbn. intros H. apply Z.quot_div_nonneg; lia. Qed.

Lemma round_half_away_spec x :
  (0 <= x)%Q → (x - (1 # 2) <= inject_Z (round_half_away x) <= x + (1 # 2))%Q.
Proof.
  intros Hx. unfold round_half_away. rewrite (proj2 (Qle_bool_iff 0 x)) by done.
  pose proof (floor_bounds (x + (1 # 2))). split; lra.
Qed.

(** ** Operations *)

(** The relative errors of the two precisions, as numbers. *)
Definition u32 : Q := 1 # 16777216.
Definition u64 : Q := 1 # 9007199254740992.

Lemma f32_bounds x : (0 <= x)%Q → (x * (1 - u32) <= rnd 24 x <= x * (1 + u32))%Q.
Proof. intros Hx. exact (rnd_bounds 24 x Hx). Qed.

Lemma f64_bounds x : (0 <= x)%Q → (x * (1 - u64) <= rnd 53 x <= x * (1 + u64))%Q.
Proof. intros Hx. exact (rnd_bounds 53 x Hx). Qed.

Lemma f32_error x b : (Qabs x <= b)%Q → (x - b * u32 <= rnd 24 x <= x + b * u32)%Q.
Proof.
  intros Hb. pose proof (rnd_error 24 x) as H. change (pow2 (Z.opp 24)) with u32 in H.
  assert (Hm : (Qabs x * u32 <= b * u32)%Q) by (unfold u32; lra).
  assert (H' : (Qabs (rnd 24 x - x) <= b * u32)%Q) by lra. apply Qabs_Qle_condition in H'. split; lra.
Qed.

Lemma f32_Z z x : Z.abs z < 16777216 → (x == inject_Z z)%Q → (rnd 24 x == inject_Z z)%Q.
Proof. intros. by apply rnd_Z. Qed.

Lemma f64_Z z x : Z.abs z < 9007199254740992 → (x == inject_Z z)%Q → (rnd 53 x == inject_Z z)%Q.
Proof. intros. by apply rnd_Z. Qed.

(** Comparison of integers and of their values. *)
Lemma inject_le a b : a ≤ b → (inject_Z a <= inject_Z b)%Q.
Proof. by rewrite <- Zle_Qle. Qed.
Lemma inject_pos a : 1 ≤ a → (1 <= inject_Z a)%Q.
Proof. apply (inject_le 1). Qed.
