(* ===== verification/PyDict.v ===== *)
(** * Python dictionaries

    A [dict] keeps its items in insertion order: assigning to a present key
    keeps its place, a new key goes last.  Iteration order matters to the
    sources ([min] over a dict returns the first minimal key), so a dict is an
    association list with distinct keys rather than a finite map; [dict_map]
    relates it to one. *)

From S2P Require Import Prelude.

Section dict.
Context {K V : Type} `{Countable K}.
Implicit Types (d : list (K * V)) (k : K) (v : V).

(** [d.get(k)] *)
Fixpoint dict_get k d : option V :=
  match d with
  | [] => None
  | (k', v) :: d' => if decide (k = k') then Some v else dict_get k d'
  end.

(** [d[k] = v] *)
Fixpoint dict_set k v d : list (K * V) :=
  match d with
  | [] => [(k, v)]
  | (k', v') :: d' => if decide (k = k') then (k', v) :: d' else (k', v') :: dict_set k v d'
  end.

(** [d.pop(k, None)] *)
Fixpoint dict_del k d : list (K * V) :=
  match d with
  | [] => []
  | (k', v) :: d' => if decide (k = k') then d' else (k', v) :: dict_del k d'
  end.

(** [k in d] *)
Definition dict_in k d : bool := bool_decide (is_Some (dict_get k d)).

Definition dict_wf d : Prop := NoDup d.*1.

(** Deleting a list of keys, one after the other. *)
Definition dict_del_all (ks : list K) d : list (K * V) := fold_left (λ d k, dict_del k d) ks d.

Definition dict_map d : gmap K V := list_to_map d.

Lemma dict_get_None k d : dict_get k d = None ↔ k ∉ d.*1.
Proof.
  induction d as [|[k' v'] d IH]; cbn; [set_solver|].
  destruct (decide (k = k')) as [->|Hne]; set_solver.
Qed.

Lemma dict_get_Some_in k v d : dict_get k d = Some v → (k, v) ∈ d.
Proof.
  induction d as [|[k' v'] d IH]; cbn; [done|].
  destruct (decide (k = k')) as [->|Hne]; [intros [= ->]; left|]. set_solver.
Qed.

Lemma dict_get_in k v d : dict_wf d → (k, v) ∈ d → dict_get k d = Some v.
Proof.
  unfold dict_wf. induction d as [|[k' v'] d IH]; cbn; [set_solver|].
  intros [Hk Hd]%NoDup_cons [Hin|Hin]%elem_of_cons.
  - injection Hin as -> ->. by rewrite decide_True.
  - rewrite decide_False; [auto|]. intros ->. apply Hk.
    apply list_elem_of_fmap. by exists (k', v).
Qed.

Lemma dict_in_spec k d : dict_in k d = true ↔ k ∈ d.*1.
Proof.
  unfold dict_in. rewrite bool_decide_eq_true, <- not_eq_None_Some, dict_get_None.
  destruct (decide (k ∈ d.*1)); tauto.
Qed.

Lemma dict_set_keys_present k v d : k ∈ d.*1 → (dict_set k v d).*1 = d.*1.
Proof.
  induction d as [|[k' v'] d IH]; cbn; [set_solver|].
  destruct (decide (k = k')) as [->|Hne]; [done|]. intros Hk. cbn. f_equal. set_solver.
Qed.

Lemma dict_set_keys_absent k v d : k ∉ d.*1 → (dict_set k v d).*1 = d.*1 ++ [k].
Proof.
  induction d as [|[k' v'] d IH]; cbn; [done|]. intros Hk.
  rewrite decide_False by set_solver. cbn. f_equal. apply IH. set_solver.
Qed.

Lemma dict_set_absent k v d : k ∉ d.*1 → dict_set k v d = d ++ [(k, v)].
Proof.
  induction d as [|[k' v'] d IH]; cbn; [done|]. intros Hk.
  rewrite decide_False by set_solver. cbn. f_equal. apply IH. set_solver.
Qed.

Lemma dict_set_wf k v d : dict_wf d → dict_wf (dict_set k v d).
Proof.
  unfold dict_wf. intros Hd. destruct (decide (k ∈ d.*1)).
  - by rewrite dict_set_keys_present.
  - rewrite dict_set_keys_absent by done. apply NoDup_app. split_and!; [done| |].
    + set_solver.
    + apply NoDup_singleton.
Qed.

Lemma dict_del_keys k d : (dict_del k d).*1 `sublist_of` d.*1.
Proof.
  induction d as [|[k' v'] d IH]; cbn; [done|].
  destruct (decide (k = k')); cbn; [by apply sublist_cons|by apply sublist_skip].
Qed.

Lemma dict_del_wf k d : dict_wf d → dict_wf (dict_del k d).
Proof. unfold dict_wf. intros Hd. eapply sublist_NoDup; [done|apply dict_del_keys]. Qed.

Lemma dict_get_set k k' v d :
  dict_get k (dict_set k' v d) = if decide (k = k') then Some v else dict_get k d.
Proof.
  induction d as [|[k1 v1] d IH]; cbn.
  - by destruct (decide (k = k')).
  - destruct (decide (k' = k1)) as [->|]; cbn.
    + by destruct (decide (k = k1)).
    + rewrite IH. destruct (decide (k = k1)), (decide (k = k')); congruence.
Qed.

Lemma dict_get_del_ne k k' d : k ≠ k' → dict_get k (dict_del k' d) = dict_get k d.
Proof.
  intros Hne. induction d as [|[k1 v1] d IH]; cbn; [done|].
  destruct (decide (k' = k1)) as [->|]; cbn; [by rewrite decide_False|]. by rewrite IH.
Qed.

Lemma dict_get_del_eq k d : dict_wf d → dict_get k (dict_del k d) = None.
Proof.
  unfold dict_wf. induction d as [|[k1 v1] d IH]; cbn; [done|].
  intros [Hk Hd]%NoDup_cons. destruct (decide (k = k1)) as [->|]; cbn.
  - by apply dict_get_None.
  - rewrite decide_False by done. auto.
Qed.

Lemma dict_del_length k d :
  length (dict_del k d) = (length d - if dict_in k d then 1 else 0)%nat.
Proof.
  unfold dict_in. induction d as [|[k1 v1] d IH]; cbn; [done|].
  destruct (decide (k = k1)) as [->|]; cbn; [lia|]. rewrite IH.
  case_bool_decide as Hs; [|lia].
  destruct d; [by destruct Hs|]. cbn. lia.
Qed.

Lemma dict_del_length_le k d : (length (dict_del k d) ≤ length d)%nat.
Proof. rewrite dict_del_length. lia. Qed.

Lemma dict_set_length k v d :
  length (dict_set k v d) = (length d + if dict_in k d then 0 else 1)%nat.
Proof.
  unfold dict_in. induction d as [|[k1 v1] d IH]; cbn; [done|].
  destruct (decide (k = k1)) as [->|]; cbn; [lia|]. rewrite IH. lia.
Qed.

Lemma dict_del_all_wf ks d : dict_wf d → dict_wf (dict_del_all ks d).
Proof. revert d. induction ks; intros d Hd; cbn; [done|]. auto using dict_del_wf. Qed.

Lemma dict_get_del_all k ks d :
  dict_wf d → dict_get k (dict_del_all ks d) = if decide (k ∈ ks) then None else dict_get k d.
Proof.
  revert d. induction ks as [|k' ks IH]; intros d Hd; cbn; [done|].
  fold (dict_del_all ks (dict_del k' d)). rewrite IH by auto using dict_del_wf.
  destruct (decide (k ∈ ks)); [by rewrite decide_True by set_solver|].
  destruct (decide (k = k')) as [->|].
  - rewrite decide_True by set_solver. by apply dict_get_del_eq.
  - rewrite decide_False by set_solver. by apply dict_get_del_ne.
Qed.

Lemma dict_del_all_length_le ks d : (length (dict_del_all ks d) ≤ length d)%nat.
Proof.
  revert d. induction ks as [|k ks IH]; intros d; cbn; [done|].
  fold (dict_del_all ks (dict_del k d)). etrans; [apply IH|]. apply dict_del_length_le.
Qed.

(** The finite map a dict denotes. *)
Lemma dict_map_get d k : dict_wf d → dict_map d !! k = dict_get k d.
Proof.
  intros Hd. unfold dict_map. destruct (dict_get k d) as [v|] eqn:E.
  - apply elem_of_list_to_map_1; [done|]. by apply dict_get_Some_in.
  - apply not_elem_of_list_to_map_1. by apply dict_get_None.
Qed.

Lemma dict_map_set d k v : dict_wf d → dict_map (dict_set k v d) = <[k:=v]> (dict_map d).
Proof.
  intros Hd. apply map_eq. intros k'.
  rewrite dict_map_get, dict_get_set by auto using dict_set_wf.
  rewrite lookup_insert, dict_map_get by done.
  destruct (decide (k = k')), (decide (k' = k)); congruence.
Qed.

Lemma dict_map_del d k : dict_wf d → dict_map (dict_del k d) = delete k (dict_map d).
Proof.
  intros Hd. apply map_eq. intros k'. rewrite dict_map_get by auto using dict_del_wf.
  rewrite lookup_delete. destruct (decide (k = k')) as [->|].
  - by apply dict_get_del_eq.
  - rewrite dict_get_del_ne by done. by rewrite dict_map_get.
Qed.

End dict.

#[export] Hint Resolve dict_set_wf dict_del_wf dict_del_all_wf : service.
