(* ===== verification/PyText.v ===== *)
(** * Python text: [str], [bytes] and the integer conversions the service uses

    A Python [str] is the list of its code points and a [bytes] object the list
    of its bytes, both as [Z].  This file models the standard-library
    operations on them that the sources call: [strip], [split], [replace],
    [str(int)], [int(s, 16)], [repr], UTF-8 encoding and decoding with the
    error handlers ["strict"], ["replace"] and ["surrogatepass"].

    The Unicode character database and the float formatter are tables, not
    code: they are the class [PyTables]. *)

From S2P Require Import Prelude.
Local Open Scope Z_scope.

Abbreviation pystr := (list Z).
Abbreviation pybytes := (list Z).

(** String literals of the sources (all of them ASCII). *)
Fixpoint lit (s : string) : pystr :=
  match s with
  | EmptyString => []
  | String a s' => Z.of_N (Ascii.N_of_ascii a) :: lit s'
  end.

(** Tables of the Python runtime: the character database ([isprintable],
    [unicodedata.decimal], NFKD), the text of a float literal's value under
    [repr], the text of the JSON decoder's error for an input, and the
    decoders other than UTF-8. *)
Class PyTables := {
  tbl_printable : Z → bool;
  tbl_decimal : Z → option Z;
  tbl_upper : Z → pystr;
  tbl_nfkd : pystr → pystr;
  tbl_float_repr : pystr → pystr;
  tbl_json_error : pybytes → pystr;
  tbl_decode_wide : pystr → pybytes → option pystr
}.

(** ** Character classes *)

Definition is_digit (c : Z) : bool := (48 <=? c) && (c <=? 57).
Definition is_upper (c : Z) : bool := (65 <=? c) && (c <=? 90).
Definition is_lower (c : Z) : bool := (97 <=? c) && (c <=? 122).
Definition is_ascii (c : Z) : bool := (0 <=? c) && (c <? 128).

(** [str.upper]; outside ASCII a character may become several. *)
Definition upper_char `{PyTables} (c : Z) : pystr :=
  if is_ascii c then [if is_lower c then c - 32 else c] else tbl_upper c.
Definition py_upper `{PyTables} (s : pystr) : pystr := concat (map upper_char s).

(** Surrogates cannot be encoded; scalar values are what a decoder produces. *)
Definition is_surrogate (c : Z) : bool := (55296 <=? c) && (c <=? 57343).
Definition is_scalar (c : Z) : bool := (0 <=? c) && (c <? 1114112) && negb (is_surrogate c).
Definition is_byte (b : Z) : bool := (0 <=? b) && (b <? 256).

(** [str.isspace] for one character. *)
Definition is_space (c : Z) : bool :=
  ((9 <=? c) && (c <=? 13)) || ((28 <=? c) && (c <=? 32)) || (c =? 133) || (c =? 160) ||
  (c =? 5760) || ((8192 <=? c) && (c <=? 8202)) || (c =? 8232) || (c =? 8233) ||
  (c =? 8239) || (c =? 8287) || (c =? 12288).

(** ** [str] methods *)

Definition py_lstrip (p : Z → bool) (s : pystr) : pystr := drop_while p s.
Definition py_rstrip (p : Z → bool) (s : pystr) : pystr := reverse (drop_while p (reverse s)).
Definition py_strip (p : Z → bool) (s : pystr) : pystr := py_rstrip p (py_lstrip p s).

(** [s.split(sep)[0]] and [s.rsplit(sep, 1)[-1]] for a one-character separator. *)
Definition py_split_first (sep : Z) (s : pystr) : pystr := take_while (λ c, negb (c =? sep)) s.
Definition py_rsplit_last (sep : Z) (s : pystr) : pystr :=
  reverse (take_while (λ c, negb (c =? sep)) (reverse s)).

Fixpoint starts_with (pat s : pystr) : bool :=
  match pat, s with
  | [], _ => true
  | p :: pat', c :: s' => (p =? c) && starts_with pat' s'
  | _ :: _, [] => false
  end.

(** [s.replace(pat, rep)] for a non-empty [pat]: leftmost, non-overlapping.
    [skip] counts the characters of a match still to be dropped. *)
Fixpoint replace_go (pat rep : pystr) (skip : nat) (s : pystr) : pystr :=
  match s with
  | [] => []
  | c :: s' =>
      match skip with
      | S k => replace_go pat rep k s'
      | O => if starts_with pat s then rep ++ replace_go pat rep (length pat - 1) s'
             else c :: replace_go pat rep 0 s'
      end
  end.

Definition py_replace (pat rep s : pystr) : pystr := replace_go pat rep 0 s.

(** [sep.join(parts)] *)
Fixpoint py_join (sep : pystr) (parts : list pystr) : pystr :=
  match parts with
  | [] => []
  | [p] => p
  | p :: ps => p ++ sep ++ py_join sep ps
  end.

(** Lexicographic order on code points, as [sorted] uses for [str] keys. *)
Fixpoint str_leb (s t : pystr) : bool :=
  match s, t with
  | [], _ => true
  | _ :: _, [] => false
  | a :: s', b :: t' => if a =? b then str_leb s' t' else a <? b
  end.

(** ** Integers as text *)

Definition of_digits (b : Z) (l : list Z) : Z := fold_left (λ a d, a * b + d) l 0.

Fixpoint digits_acc (b : Z) (fuel : nat) (n : Z) (acc : list Z) : list Z :=
  match fuel with
  | O => acc
  | S f => let acc' := n mod b :: acc in
           if n / b =? 0 then acc' else digits_acc b f (n / b) acc'
  end.

(** The digits of [n >= 0], most significant first; [log2 n + 1] of them are
    enough in any base. *)
Definition digits (b n : Z) : list Z := digits_acc b (S (Z.to_nat (Z.log2 n))) n [].

(** [str(z)] *)
Definition str_of_Z (z : Z) : pystr :=
  if z <? 0 then 45 :: map (Z.add 48) (digits 10 (- z)) else map (Z.add 48) (digits 10 z).

Definition hex_char (d : Z) : Z := if d <? 10 then 48 + d else 87 + d.

Definition hex_val (c : Z) : option Z :=
  if is_digit c then Some (c - 48)
  else if (97 <=? c) && (c <=? 102) then Some (c - 87)
  else if (65 <=? c) && (c <=? 70) then Some (c - 55)
  else None.

(** [format(n, "0kx")] for [0 <= n < 16^k]. *)
Fixpoint hex_fixed (k : nat) (n : Z) : pystr :=
  match k with
  | O => []
  | S k' => hex_fixed k' (n / 16) ++ [hex_char (n mod 16)]
  end.

(** [int(s, 16)]: surrounding white space, a sign, a [0x] prefix and single
    underscores between digits are accepted, and decimal digits of other
    scripts count as digits. *)
Definition to_ascii_digit `{PyTables} (c : Z) : Z :=
  if is_ascii c then c
  else if is_space c then 32
  else match tbl_decimal c with Some d => 48 + d | None => 63 end.

Fixpoint hex_run (prev_under : bool) (acc : Z) (s : pystr) : option Z :=
  match s with
  | [] => if prev_under then None else Some acc
  | c :: s' =>
      if c =? 95 then if prev_under then None else hex_run true acc s'
      else match hex_val c with
           | Some d => hex_run false (acc * 16 + d) s'
           | None => None
           end
  end.

Definition hex_prefix (s : pystr) : pystr :=
  match s with
  | 48 :: x :: s' =>
      if (x =? 120) || (x =? 88)
      then match s' with 95 :: s'' => s'' | _ => s' end else s
  | _ => s
  end.

Definition int16 `{PyTables} (s : pystr) : option Z :=
  let s := py_strip is_space (map to_ascii_digit s) in
  let '(neg, s) := match s with
                   | c :: s' => if c =? 45 then (true, s')
                                else if c =? 43 then (false, s') else (false, s)
                   | [] => (false, s)
                   end in
  match hex_prefix s with
  | [] => None
  | c :: s' => if c =? 95 then None
               else (if neg : bool then Z.opp else id) <$> hex_run false 0 (c :: s')
  end.

(** ** [repr] of a string *)

Definition repr_char `{PyTables} (q c : Z) : pystr :=
  if (c =? q) || (c =? 92) then [92; c]
  else if c =? 9 then lit "\t"
  else if c =? 10 then lit "\n"
  else if c =? 13 then lit "\r"
  else if (c <? 32) || (c =? 127) then lit "\x" ++ hex_fixed 2 c
  else if c <? 127 then [c]
  else if tbl_printable c then [c]
  else if c <? 256 then lit "\x" ++ hex_fixed 2 c
  else if c <? 65536 then lit "\u" ++ hex_fixed 4 c
  else lit "\U" ++ hex_fixed 8 c.

Definition py_repr `{PyTables} (s : pystr) : pystr :=
  let q := if existsb (Z.eqb 39) s && negb (existsb (Z.eqb 34) s) then 34 else 39 in
  q :: concat (map (repr_char q) s) ++ [q].

(** ** UTF-8 *)

Definition utf8_encode1 (c : Z) : option pybytes :=
  if c <? 0 then None
  else if c <? 128 then Some [c]
  else if c <? 2048 then Some [192 + c / 64; 128 + c mod 64]
  else if is_surrogate c then None
  else if c <? 65536 then Some [224 + c / 4096; 128 + c / 64 mod 64; 128 + c mod 64]
  else if c <? 1114112 then
    Some [240 + c / 262144; 128 + c / 4096 mod 64; 128 + c / 64 mod 64; 128 + c mod 64]
  else None.

(** [s.encode()]; [None] is [UnicodeEncodeError]. *)
Definition utf8_encode (s : pystr) : option pybytes :=
  l ← mapM utf8_encode1 s; Some (concat l).

Definition cont (b : Z) : bool := (128 <=? b) && (b <=? 191).

(** The smallest and largest second byte after the lead byte [b]. *)
Definition second_ok (surr : bool) (b c : Z) : bool :=
  if b =? 224 then (160 <=? c) && (c <=? 191)
  else if b =? 237 then (128 <=? c) && (c <=? if surr then 191 else 159)
  else if b =? 240 then (144 <=? c) && (c <=? 191)
  else if b =? 244 then (128 <=? c) && (c <=? 143)
  else cont c.

(** One decoding step at the head of a non-empty input: a code point with the
    number of bytes it takes, or the length of the ill-formed prefix (the
    maximal subpart) an error handler replaces. *)
Definition utf8_scan (surr : bool) (s : pybytes) : (Z * nat) + nat :=
  match s with
  | [] => inr 1%nat
  | b :: s1 =>
      if b <? 128 then inl (b, 1%nat)
      else if (194 <=? b) && (b <=? 223) then
        match s1 with
        | c :: _ => if cont c then inl ((b - 192) * 64 + (c - 128), 2%nat) else inr 1%nat
        | [] => inr 1%nat
        end
      else if (224 <=? b) && (b <=? 239) then
        match s1 with
        | c :: s2 =>
            if second_ok surr b c then
              match s2 with
              | d :: _ => if cont d
                          then inl ((b - 224) * 4096 + (c - 128) * 64 + (d - 128), 3%nat)
                          else inr 2%nat
              | [] => inr 2%nat
              end
            else inr 1%nat
        | [] => inr 1%nat
        end
      else if (240 <=? b) && (b <=? 244) then
        match s1 with
        | c :: s2 =>
            if second_ok surr b c then
              match s2 with
              | d :: s3 =>
                  if cont d then
                    match s3 with
                    | e :: _ =>
                        if cont e
                        then inl ((b - 240) * 262144 + (c - 128) * 4096 +
                                  (d - 128) * 64 + (e - 128), 4%nat)
                        else inr 3%nat
                    | [] => inr 3%nat
                    end
                  else inr 2%nat
              | [] => inr 2%nat
              end
            else inr 1%nat
        | [] => inr 1%nat
        end
      else inr 1%nat
  end.

Fixpoint utf8_replace_go (skip : nat) (s : pybytes) : pystr :=
  match s with
  | [] => []
  | _ :: s' =>
      match skip with
      | S k => utf8_replace_go k s'
      | O => match utf8_scan false s with
             | inl (c, n) => c :: utf8_replace_go (n - 1) s'
             | inr n => 65533 :: utf8_replace_go (n - 1) s'
             end
      end
  end.

(** [b.decode(errors="replace")] *)
Definition utf8_decode_replace (s : pybytes) : pystr := utf8_replace_go 0 s.

Fixpoint utf8_strict_go (surr : bool) (skip : nat) (s : pybytes) : option pystr :=
  match s with
  | [] => Some []
  | _ :: s' =>
      match skip with
      | S k => utf8_strict_go surr k s'
      | O => match utf8_scan surr s with
             | inl (c, n) => cons c <$> utf8_strict_go surr (n - 1) s'
             | inr _ => None
             end
      end
  end.

(** [b.decode("utf-8")] ([surr = false]) and
    [b.decode("utf-8", "surrogatepass")] ([surr = true]). *)
Definition utf8_decode (surr : bool) (s : pybytes) : option pystr := utf8_strict_go surr 0 s.

(** ** Lemmas: digits *)

Lemma of_digits_app b l1 l2 :
  of_digits b (l1 ++ l2) = fold_left (λ a d, a * b + d) l2 (of_digits b l1).
Proof. unfold of_digits. by rewrite fold_left_app. Qed.

Lemma digits_acc_value b fuel n acc :
  2 ≤ b → 0 ≤ n < 2 ^ Z.of_nat fuel → (0 < fuel)%nat →
  of_digits b (digits_acc b fuel n acc) = fold_left (λ a d, a * b + d) acc n.
Proof.
  intros Hb. revert n acc. induction fuel as [|f IH]; intros n acc Hn Hf; [lia|].
  cbn [digits_acc]. pose proof (Z.div_mod n b ltac:(lia)) as Hdm.
  destruct (n / b =? 0) eqn:E; zbool.
  - cbn. unfold of_digits. cbn. f_equal. nia.
  - assert (n / b < 2 ^ Z.of_nat f).
    { apply Z.div_lt_upper_bound; [lia|]. rewrite Nat2Z.inj_succ, Z.pow_succ_r in Hn by lia. nia. }
    assert (0 ≤ n / b) by (apply Z.div_pos; lia).
    rewrite IH; [|lia|].
    + cbn. f_equal. nia.
    + destruct f; [|lia]. simpl in *. lia.
Qed.

Lemma digits_value b n : 2 ≤ b → 0 ≤ n → of_digits b (digits b n) = n.
Proof.
  intros Hb Hn. unfold digits. rewrite digits_acc_value; [done|done| |lia].
  split; [done|]. rewrite Nat2Z.inj_succ, Z2Nat.id by apply Z.log2_nonneg.
  destruct (decide (n = 0)) as [->|]; [done|]. apply Z.log2_spec. lia.
Qed.

Lemma digits_acc_range b fuel n acc :
  2 ≤ b → Forall (λ d, 0 ≤ d < b) acc → Forall (λ d, 0 ≤ d < b) (digits_acc b fuel n acc).
Proof.
  intros Hb. revert n acc. induction fuel as [|f IH]; intros n acc Hacc; [done|]. cbn.
  assert (Forall (λ d, 0 ≤ d < b) (n mod b :: acc)).
  { constructor; [|done]. apply Z.mod_pos_bound. lia. }
  destruct (n / b =? 0); auto.
Qed.

Lemma digits_range b n : 2 ≤ b → Forall (λ d, 0 ≤ d < b) (digits b n).
Proof. intros. by apply digits_acc_range. Qed.

(** The leading digit of a number with more than one digit is not zero. *)
Lemma digits_acc_head b fuel n acc :
  2 ≤ b → 0 < n < 2 ^ Z.of_nat fuel →
  ∃ d l, digits_acc b fuel n acc = d :: l ∧ 0 < d < b.
Proof.
  intros Hb. revert n acc. induction fuel as [|f IH]; intros n acc Hn; [simpl in Hn; lia|].
  cbn [digits_acc]. pose proof (Z.div_mod n b ltac:(lia)) as Hdm.
  pose proof (Z.mod_pos_bound n b ltac:(lia)).
  destruct (n / b =? 0) eqn:E; zbool.
  - eexists _, _. split; [done|]. nia.
  - apply IH. split.
    + pose proof (Z.div_pos n b). lia.
    + apply Z.div_lt_upper_bound; [lia|]. rewrite Nat2Z.inj_succ, Z.pow_succ_r in Hn by lia. nia.
Qed.

Lemma digits_head b n : 2 ≤ b → 0 < n → ∃ d l, digits b n = d :: l ∧ 0 < d < b.
Proof.
  intros Hb Hn. apply digits_acc_head; [done|]. split; [done|].
  rewrite Nat2Z.inj_succ, Z2Nat.id by apply Z.log2_nonneg. apply Z.log2_spec. lia.
Qed.

Lemma digits_0 b : 2 ≤ b → digits b 0 = [0].
Proof. intros. cbn. rewrite Z.mod_0_l, Z.div_0_l by lia. done. Qed.

(** ** Lemmas: fixed-width hexadecimal *)

Lemma hex_fixed_length k n : length (hex_fixed k n) = k.
Proof.
  revert n. induction k as [|k IH]; intros n; [done|]. cbn.
  rewrite length_app, IH. cbn. lia.
Qed.

Lemma hex_val_char d : 0 ≤ d < 16 → hex_val (hex_char d) = Some d.
Proof.
  intros. unfold hex_val, hex_char, is_digit.
  destruct (d <? 10) eqn:E; zbool; zdecide; cbn; f_equal; lia.
Qed.

(** Lower-case hexadecimal digits, the only characters [hex_fixed] produces. *)
Definition is_hex_char (c : Z) : bool := is_digit c || ((97 <=? c) && (c <=? 102)).

Lemma hex_fixed_chars k n : Forall (λ c, is_hex_char c = true) (hex_fixed k n).
Proof.
  revert n. induction k as [|k IH]; intros n; cbn; [done|].
  apply Forall_app; split; [done|]. constructor; [|done].
  pose proof (Z.mod_pos_bound n 16 ltac:(lia)).
  unfold is_hex_char, hex_char, is_digit. destruct (n mod 16 <? 10) eqn:E; zbool; zdecide; done.
Qed.

Lemma hex_run_app u acc l1 l2 r :
  hex_run u acc l1 = Some r → (l1 = [] → u = false) → hex_run u acc (l1 ++ l2) = hex_run false r l2.
Proof.
  revert u acc. induction l1 as [|c l1 IH]; intros u acc H Hu; cbn in *.
  - rewrite Hu in * by done. congruence.
  - destruct (c =? 95).
    + destruct u; [done|]. apply IH; [done|]. intros ->. done.
    + destruct (hex_val c); [|done]. apply IH; [done|]. done.
Qed.

Lemma hex_run_fixed k n acc :
  hex_run false acc (hex_fixed k n) = Some (acc * 16 ^ Z.of_nat k + n mod 16 ^ Z.of_nat k).
Proof.
  revert n acc. induction k as [|k IH]; intros n acc; cbn -[Z.pow].
  - rewrite Z.pow_0_r, Z.mod_1_r. f_equal. lia.
  - pose proof (Z.mod_pos_bound n 16 ltac:(lia)) as Hb.
    erewrite hex_run_app by (apply IH || done). cbn -[Z.pow].
    assert ((hex_char (n mod 16) =? 95) = false) as ->.
    { unfold hex_char. destruct (n mod 16 <? 10) eqn:E; zbool; apply Z.eqb_neq; lia. }
    rewrite hex_val_char by done. f_equal.
    rewrite Nat2Z.inj_succ, Z.pow_succ_r by lia.
    assert (0 < 16 ^ Z.of_nat k) by (apply Z.pow_pos_nonneg; lia).
    rewrite Z.rem_mul_r by lia. lia.
Qed.

(** ** Lemmas: UTF-8 *)

(** Every scalar value is encoded, and one decoding step at its encoding,
    whatever follows, gives it back and consumes exactly its bytes. *)
Lemma utf8_scan_encode1 surr c :
  is_scalar c = true →
  ∃ l, utf8_encode1 c = Some l ∧ l ≠ [] ∧
       ∀ rest, utf8_scan surr (l ++ rest) = inl (c, length l).
Proof.
  unfold is_scalar, is_surrogate. intros H. zbool.
  unfold utf8_encode1, is_surrogate. rewrite (proj2 (Z.ltb_ge c 0)) by lia.
  destruct (c <? 128) eqn:E1; [|destruct (c <? 2048) eqn:E2; [|
    replace ((55296 <=? c) && (c <=? 57343)) with false by (symmetry; done);
    destruct (c <? 65536) eqn:E3; [|rewrite (proj2 (Z.ltb_lt c 1114112)) by done]]];
  zbool; eexists; (split; [done|]); (split; [done|]); intros rest; cbn [app utf8_scan length].
  - by rewrite (proj2 (Z.ltb_lt c 128)) by done.
  - unfold cont. Z.to_euclidean_division_equations. zdecide. cbn. repeat f_equal. lia.
  - assert (c < 55296 ∨ 57343 < c) as Hs by (apply andb_false_iff in H0; lia).
    unfold second_ok, cont. Z.to_euclidean_division_equations.
    zdecide. cbn [andb].
    destruct (224 + q1 =? 224) eqn:F1; [|destruct (224 + q1 =? 237) eqn:F2;
      [destruct surr|zdecide; cbn [andb]]]; zbool; zdecide; cbn; repeat f_equal; lia.
  - unfold second_ok, cont. Z.to_euclidean_division_equations.
    zdecide. cbn [andb].
    destruct (240 + q2 =? 240) eqn:F1; [|destruct (240 + q2 =? 244) eqn:F2];
      zbool; zdecide; cbn; repeat f_equal; lia.
Qed.

Lemma utf8_strict_skip surr l rest :
  utf8_strict_go surr (length l) (l ++ rest) = utf8_strict_go surr 0 rest.
Proof. induction l as [|x l IH]; [done|]. exact IH. Qed.

Lemma utf8_replace_skip l rest :
  utf8_replace_go (length l) (l ++ rest) = utf8_replace_go 0 rest.
Proof. induction l as [|x l IH]; [done|]. exact IH. Qed.

Lemma utf8_strict_step surr l c rest :
  l ≠ [] → utf8_scan surr (l ++ rest) = inl (c, length l) →
  utf8_strict_go surr 0 (l ++ rest) = cons c <$> utf8_strict_go surr 0 rest.
Proof.
  destruct l as [|x l]; [done|]. intros _ Hs. cbn [app utf8_strict_go] in *.
  rewrite Hs. cbn [length]. replace (S (length l) - 1)%nat with (length l) by lia.
  by rewrite utf8_strict_skip.
Qed.

Lemma utf8_replace_step l c rest :
  l ≠ [] → utf8_scan false (l ++ rest) = inl (c, length l) →
  utf8_replace_go 0 (l ++ rest) = c :: utf8_replace_go 0 rest.
Proof.
  destruct l as [|x l]; [done|]. intros _ Hs. cbn [app utf8_replace_go] in *.
  rewrite Hs. cbn [length]. replace (S (length l) - 1)%nat with (length l) by lia.
  by rewrite utf8_replace_skip.
Qed.

(** A string of scalar values is encodable and both decoders invert it. *)
Lemma utf8_roundtrip s :
  Forall (λ c, is_scalar c = true) s →
  ∃ b, utf8_encode s = Some b ∧ (∀ surr, utf8_decode surr b = Some s) ∧
       utf8_decode_replace b = s.
Proof.
  induction 1 as [|c s Hc Hs (b & Hb & Hd & Hr)]; [by exists []|].
  unfold utf8_encode in *. cbn in *.
  destruct (mapM utf8_encode1 s) as [ls|] eqn:E; [|done]. injection Hb as <-.
  destruct (utf8_scan_encode1 false c Hc) as (l & Hl & Hne & Hscan).
  rewrite Hl. cbn. eexists. split; [done|]. split.
  - intros surr. unfold utf8_decode in *.
    destruct (utf8_scan_encode1 surr c Hc) as (l' & Hl' & _ & Hscan').
    assert (l' = l) as -> by congruence.
    erewrite utf8_strict_step by eauto. by rewrite Hd.
  - unfold utf8_decode_replace in *. erewrite utf8_replace_step by eauto. by f_equal.
Qed.

Lemma ascii_scalar c : is_ascii c = true → is_scalar c = true.
Proof. unfold is_ascii, is_scalar, is_surrogate. intros. zbool. zdecide. done. Qed.

Lemma utf8_encode_ascii s : Forall (λ c, is_ascii c = true) s → utf8_encode s = Some s.
Proof.
  unfold utf8_encode. induction 1 as [|c s Hc Hs IH]; [done|]. cbn.
  destruct (mapM utf8_encode1 s); [|done]. injection IH as IH.
  unfold utf8_encode1, is_ascii in *. zbool. zdecide. cbn. by rewrite IH.
Qed.

Lemma utf8_decode_ascii surr s :
  Forall (λ c, is_ascii c = true) s → utf8_decode surr s = Some s.
Proof.
  intros H. destruct (utf8_roundtrip s) as (b & Hb & Hd & _).
  - by eapply Forall_impl_bool; [apply ascii_scalar|].
  - rewrite utf8_encode_ascii in Hb by done. injection Hb as <-. apply Hd.
Qed.

Lemma utf8_replace_ascii s :
  Forall (λ c, is_ascii c = true) s → utf8_decode_replace s = s.
Proof.
  intros H. destruct (utf8_roundtrip s) as (b & Hb & _ & Hr).
  - by eapply Forall_impl_bool; [apply ascii_scalar|].
  - rewrite utf8_encode_ascii in Hb by done. injection Hb as <-. apply Hr.
Qed.

Example utf8_replace_ex :
  utf8_decode_replace [226; 130; 172; 226; 130; 65; 255; 237; 160; 128] =
  [8364; 65533; 65; 65533; 65533; 65533; 65533].
Proof. reflexivity. Qed.

(** ** Lemmas: stripping and replacing *)

Lemma py_strip_id p s :
  Forall (λ c, p c = false) s → py_strip p s = s.
Proof.
  intros H. unfold py_strip, py_rstrip, py_lstrip.
  rewrite (drop_while_none p s) by done.
  rewrite drop_while_none; [apply reverse_involutive|].
  by apply Forall_reverse.
Qed.

Lemma starts_with_head_ne p pat c s : p ≠ c → starts_with (p :: pat) (c :: s) = false.
Proof. intros. cbn. by rewrite (proj2 (Z.eqb_neq p c)). Qed.

(** Nothing is replaced when the first character of the pattern is absent. *)
Lemma py_replace_absent p pat rep s :
  Forall (λ c, p ≠ c) s → py_replace (p :: pat) rep s = s.
Proof.
  unfold py_replace. induction 1 as [|c s Hc Hs IH]; [done|].
  cbn [replace_go]. rewrite starts_with_head_ne by done. by f_equal.
Qed.

Lemma py_replace_char c s : py_replace [c] [] s = filter (λ x, c ≠ x) s.
Proof.
  unfold py_replace. induction s as [|x s IH]; [done|]. cbn [replace_go starts_with].
  destruct (c =? x) eqn:E; zbool.
  - subst. rewrite filter_cons_False by (intros []; done). exact IH.
  - rewrite filter_cons_True by done. cbn. by f_equal.
Qed.

Lemma lit_app s t : lit (s +:+ t) = lit s ++ lit t.
Proof. induction s as [|a s IH]; [done|]. simpl. f_equal. exact IH. Qed.

#[export] Hint Resolve ascii_scalar : service.

(** ** Decoding yields scalar values *)

Lemma is_scalar_intro c : 0 ≤ c < 1114112 → ¬ (55296 ≤ c ≤ 57343) → is_scalar c = true.
Proof.
  intros Hc Hs. unfold is_scalar, is_surrogate. apply andb_true_iff. split; [by zdecide|].
  apply negb_true_iff, andb_false_iff. destruct (decide (c < 55296)); [left|right]; apply Z.leb_gt; lia.
Qed.

Lemma second_ok_bounds b c :
  second_ok false b c = true →
  128 ≤ c ≤ 191 ∧ (b = 224 → 160 ≤ c) ∧ (b = 237 → c ≤ 159) ∧ (b = 240 → 144 ≤ c) ∧ (b = 244 → c ≤ 143).
Proof.
  unfold second_ok, cont. intros H. repeat case_match; zbool; subst; split_and!; lia.
Qed.

Lemma utf8_scan_scalar s c n :
  Forall (λ b, 0 ≤ b) s → utf8_scan false s = inl (c, n) → is_scalar c = true.
Proof.
  intros Hs. destruct s as [|b s]; [done|]. apply Forall_cons in Hs as [Hb Hs]. cbn [utf8_scan].
  destruct (b <? 128) eqn:E1; [intros [= <- _]; zbool; apply is_scalar_intro; lia|]. zbool.
  destruct ((194 <=? b) && (b <=? 223)) eqn:E2.
  { destruct s as [|c1 s]; [done|]. destruct (cont c1) eqn:Ec; [|done]. intros Hcc; simplify_eq.
    unfold cont in *. zbool. apply is_scalar_intro; lia. }
  destruct ((224 <=? b) && (b <=? 239)) eqn:E3.
  { destruct s as [|c1 s]; [done|]. destruct (second_ok false b c1) eqn:Es; [|done].
    destruct s as [|d s]; [done|]. destruct (cont d) eqn:Ed; [|done]. intros Hcc; simplify_eq.
    apply second_ok_bounds in Es. unfold cont in *. zbool. apply is_scalar_intro; lia. }
  destruct ((240 <=? b) && (b <=? 244)) eqn:E4; [|done].
  destruct s as [|c1 s]; [done|]. destruct (second_ok false b c1) eqn:Es; [|done].
  destruct s as [|d s]; [done|]. destruct (cont d) eqn:Ed; [|done].
  destruct s as [|e s]; [done|]. destruct (cont e) eqn:Ee; [|done]. intros Hcc; simplify_eq.
  apply second_ok_bounds in Es. unfold cont in *. zbool. apply is_scalar_intro; lia.
Qed.

Lemma utf8_decode_replace_scalar s :
  Forall (λ b, 0 ≤ b) s → Forall (λ c, is_scalar c = true) (utf8_decode_replace s).
Proof.
  unfold utf8_decode_replace. generalize 0%nat as k. intros k Hs. revert k.
  induction Hs as [|b s Hb Hs IH]; intros k; [done|]. cbn [utf8_replace_go].
  destruct k as [|k]; [|apply IH].
  destruct (utf8_scan false (b :: s)) as [[c n]|n] eqn:E; constructor; try apply IH; [|done].
  eapply utf8_scan_scalar; [|exact E]. by constructor.
Qed.
