(* ===== verification/PyJson.v ===== *)
(** * Python's [json] module, as the service uses it

    [dumps] is [json.dumps] with its default [ensure_ascii=True] (separators
    are arguments), [loads] is [json.loads] on [bytes]: encoding detection,
    decoding and the scanner, following the C accelerator of the standard
    library.  A float keeps the text of its literal.  Every way [json.loads]
    fails is a [ValueError] (JSONDecodeError, UnicodeDecodeError, the digit
    limit of [int]), so [loads] returns an option; the recursion limit of the
    interpreter is not modelled.

    The main result is the round trip [loads_dumps]. *)

From S2P Require Import Prelude PyDict PyText.
Local Open Scope Z_scope.

Inductive json :=
| JNull
| JBool (b : bool)
| JInt (z : Z)
| JFloat (literal : pystr)
| JStr (s : pystr)
| JArr (l : list json)
| JObj (l : list (pystr * json)).

(** ** Encoder *)

(** [json.encoder.ESCAPE_ASCII] *)
Definition json_escape1 (c : Z) : pystr :=
  if c =? 34 then [92; 34]
  else if c =? 92 then [92; 92]
  else if c =? 10 then lit "\n"
  else if c =? 13 then lit "\r"
  else if c =? 9 then lit "\t"
  else if c =? 12 then lit "\f"
  else if c =? 8 then lit "\b"
  else if (32 <=? c) && (c <=? 126) then [c]
  else if c <? 65536 then lit "\u" ++ hex_fixed 4 c
  else lit "\u" ++ hex_fixed 4 (55296 + (c - 65536) / 1024) ++
       lit "\u" ++ hex_fixed 4 (56320 + (c - 65536) mod 1024).

Definition json_quote (s : pystr) : pystr := 34 :: concat (map json_escape1 s) ++ [34].

Fixpoint dumps_with `{PyTables} (isep ksep : pystr) (v : json) : pystr :=
  match v with
  | JNull => lit "null"
  | JBool true => lit "true"
  | JBool false => lit "false"
  | JInt z => str_of_Z z
  | JFloat f => tbl_float_repr f
  | JStr s => json_quote s
  | JArr l => lit "[" ++ py_join isep (map (dumps_with isep ksep) l) ++ lit "]"
  | JObj l => lit "{" ++
      py_join isep (map (λ '(k, x), json_quote k ++ ksep ++ dumps_with isep ksep x) l) ++ lit "}"
  end.

(** [json.dumps(v)] *)
Definition dumps `{PyTables} (v : json) : pystr := dumps_with (lit ", ") (lit ": ") v.

(** [sort_keys=True]: an insertion sort of the items by key. *)
Fixpoint insert_key (kv : pystr * json) (l : list (pystr * json)) : list (pystr * json) :=
  match l with
  | [] => [kv]
  | kv' :: l' => if str_leb kv.1 kv'.1 then kv :: l else kv' :: insert_key kv l'
  end.

Definition sort_keys (l : list (pystr * json)) : list (pystr * json) := foldr insert_key [] l.

(** ** Decoder *)

Definition json_ws (c : Z) : bool := (c =? 32) || (c =? 9) || (c =? 10) || (c =? 13).
Definition skip_ws (s : pystr) : pystr := drop_while json_ws s.

Definition hex4 (a b c d : Z) : option Z :=
  x ← hex_val a; y ← hex_val b; z ← hex_val c; w ← hex_val d;
  Some (((x * 16 + y) * 16 + z) * 16 + w).

Definition json_unescape1 (c : Z) : option Z :=
  if (c =? 34) || (c =? 92) || (c =? 47) then Some c
  else if c =? 98 then Some 8
  else if c =? 102 then Some 12
  else if c =? 110 then Some 10
  else if c =? 114 then Some 13
  else if c =? 116 then Some 9
  else None.

Definition is_high (u : Z) : bool := (55296 <=? u) && (u <=? 56319).
Definition is_low (u : Z) : bool := (56320 <=? u) && (u <=? 57343).

(** The characters up to the closing quote, and what follows it. *)
Fixpoint scan_string (s : pystr) : option (pystr * pystr) :=
  match s with
  | [] => None
  | c :: s1 =>
      if c =? 34 then Some ([], s1)
      else if c =? 92 then
        match s1 with
        | [] => None
        | e :: s2 =>
            if e =? 117 then
              match s2 with
              | a1 :: a2 :: a3 :: a4 :: s3 =>
                  match hex4 a1 a2 a3 a4 with
                  | None => None
                  | Some u =>
                      match s3 with
                      | c1 :: c2 :: b1 :: b2 :: b3 :: b4 :: s4 =>
                          if is_high u && (c1 =? 92) && (c2 =? 117) then
                            match hex4 b1 b2 b3 b4 with
                            | None => None
                            | Some v =>
                                if is_low v then
                                  prod_map (cons (65536 + (u - 55296) * 1024 + (v - 56320))) id
                                    <$> scan_string s4
                                else prod_map (cons u) id <$> scan_string s3
                            end
                          else prod_map (cons u) id <$> scan_string s3
                      | _ => prod_map (cons u) id <$> scan_string s3
                      end
                  end
              | _ => None
              end
            else match json_unescape1 e with
                 | Some x => prod_map (cons x) id <$> scan_string s2
                 | None => None
                 end
        end
      else if c <=? 31 then None
      else prod_map (cons c) id <$> scan_string s1
  end.

Fixpoint strip_prefix (pat s : pystr) : option pystr :=
  match pat, s with
  | [], _ => Some s
  | p :: pat', c :: s' => if p =? c then strip_prefix pat' s' else None
  | _ :: _, [] => None
  end.

(** The interpreter's limit on the digits of an [int] literal. *)
Definition int_max_str_digits : nat := 4300.

(** The integer part: a single [0], or digits not starting with [0]. *)
Definition scan_int_part (s : pystr) : option (pystr * pystr) :=
  match s with
  | [] => None
  | c :: s' =>
      if c =? 48 then Some ([48], s')
      else if is_digit c then Some (take_while is_digit s, drop_while is_digit s)
      else None
  end.

Definition scan_frac (s : pystr) : pystr * pystr :=
  match s with
  | c :: d :: s' =>
      if (c =? 46) && is_digit d
      then (c :: take_while is_digit (d :: s'), drop_while is_digit (d :: s')) else ([], s)
  | _ => ([], s)
  end.

Definition scan_exp (s : pystr) : pystr * pystr :=
  match s with
  | c :: s1 =>
      if (c =? 101) || (c =? 69) then
        let '(sg, s2) := match s1 with
                         | d :: s2 => if (d =? 43) || (d =? 45) then ([d], s2) else ([], s1)
                         | [] => ([], s1)
                         end in
        match take_while is_digit s2 with
        | [] => ([], s)
        | ds => (c :: sg ++ ds, drop_while is_digit s2)
        end
      else ([], s)
  | [] => ([], s)
  end.

(** [_match_number]: an [int] when there is neither fraction nor exponent. *)
Definition scan_sign (s : pystr) : bool * pystr :=
  match s with
  | c :: s' => if c =? 45 then (true, s') else (false, s)
  | [] => (false, s)
  end.

Definition scan_number (s : pystr) : option (json * pystr) :=
  let '(neg, s0) := scan_sign s in
  '(ip, s1) ← scan_int_part s0;
  let '(fr, s2) := scan_frac s1 in
  let '(ex, s3) := scan_exp s2 in
  match fr ++ ex with
  | [] =>
      if bool_decide (length ip ≤ int_max_str_digits)%nat then
        let n := of_digits 10 (map (λ c, c - 48) ip) in
        Some (JInt (if neg : bool then - n else n), s3)
      else None
  | _ => Some (JFloat ((if neg : bool then [45] else []) ++ ip ++ fr ++ ex), s3)
  end.

(** Try the literal [pat]; otherwise continue. *)
Definition scan_const (pat : pystr) (v : json) (s : pystr) (other : option (json * pystr)) :
    option (json * pystr) :=
  match strip_prefix pat s with Some r => Some (v, r) | None => other end.

Definition scan_atom (s : pystr) : option (json * pystr) :=
  scan_const (lit "null") JNull s
  (scan_const (lit "true") (JBool true) s
  (scan_const (lit "false") (JBool false) s
  (scan_const (lit "NaN") (JFloat (lit "NaN")) s
  (scan_const (lit "Infinity") (JFloat (lit "Infinity")) s
  (scan_const (lit "-Infinity") (JFloat (lit "-Infinity")) s
  (scan_number s)))))).

(** [scan_once]: one value at the head of [s].  Each call passes on less fuel
    than it has; twice the length of the text, plus two, is enough
    ([scan_once_fuel]). *)
Fixpoint scan_once (fuel : nat) (s : pystr) {struct fuel} : option (json * pystr) :=
  match fuel with
  | O => None
  | S f =>
      match s with
      | [] => None
      | c :: s1 =>
          if c =? 34 then '(x, r) ← scan_string s1; Some (JStr x, r)
          else if c =? 123 then
            match skip_ws s1 with
            | d :: r => if d =? 125 then Some (JObj [], r) else scan_members f [] (d :: r)
            | [] => None
            end
          else if c =? 91 then
            match skip_ws s1 with
            | d :: r => if d =? 93 then Some (JArr [], r) else scan_elems f [] (d :: r)
            | [] => None
            end
          else scan_atom s
      end
  end
with scan_elems (fuel : nat) (acc : list json) (s : pystr) {struct fuel} : option (json * pystr) :=
  match fuel with
  | O => None
  | S f =>
      '(v, r) ← scan_once f s;
      match skip_ws r with
      | d :: r' =>
          if d =? 93 then Some (JArr (acc ++ [v]), r')
          else if d =? 44 then scan_elems f (acc ++ [v]) (skip_ws r')
          else None
      | [] => None
      end
  end
with scan_members (fuel : nat) (acc : list (pystr * json)) (s : pystr) {struct fuel} :
    option (json * pystr) :=
  match fuel with
  | O => None
  | S f =>
      match s with
      | c :: s1 =>
          if c =? 34 then
            '(k, r) ← scan_string s1;
            match skip_ws r with
            | d :: r1 =>
                if d =? 58 then
                  '(v, r2) ← scan_once f (skip_ws r1);
                  match skip_ws r2 with
                  | e :: r3 =>
                      if e =? 125 then Some (JObj (dict_set k v acc), r3)
                      else if e =? 44 then scan_members f (dict_set k v acc) (skip_ws r3)
                      else None
                  | [] => None
                  end
                else None
            | [] => None
            end
          else None
      | [] => None
      end
  end.

Definition scan_fuel (s : pystr) : nat := (2 * length s + 2)%nat.

(** [JSONDecoder.decode]: a byte-order mark is refused, white space around the
    value is skipped and nothing else may follow it. *)
Definition json_decode_str (s : pystr) : option json :=
  if starts_with [65279] s then None else
  let s0 := skip_ws s in
  '(v, r) ← scan_once (scan_fuel s0) s0;
  match skip_ws r with [] => Some v | _ => None end.

(** [json.detect_encoding]; only UTF-8 is decoded here. *)
Inductive encoding := Utf8 | Utf8Sig | Wide (name : pystr).

Definition detect_encoding (b : pybytes) : encoding :=
  if starts_with [0; 0; 254; 255] b || starts_with [255; 254; 0; 0] b then Wide (lit "utf-32")
  else if starts_with [254; 255] b || starts_with [255; 254] b then Wide (lit "utf-16")
  else if starts_with [239; 187; 191] b then Utf8Sig
  else match b with
       | b0 :: b1 :: b2 :: b3 :: _ =>
           if b0 =? 0 then if b1 =? 0 then Wide (lit "utf-32-be") else Wide (lit "utf-16-be")
           else if b1 =? 0 then
             if (b2 =? 0) && (b3 =? 0) then Wide (lit "utf-32-le") else Wide (lit "utf-16-le")
           else Utf8
       | [b0; b1] =>
           if b0 =? 0 then Wide (lit "utf-16-be")
           else if b1 =? 0 then Wide (lit "utf-16-le") else Utf8
       | _ => Utf8
       end.

(** [json.loads(b)] for [bytes]; [None] is one of the [ValueError]s. *)
Definition loads `{PyTables} (b : pybytes) : option json :=
  s ← match detect_encoding b with
      | Utf8 => utf8_decode true b
      | Utf8Sig => utf8_decode true (drop 3 b)
      | Wide enc => tbl_decode_wide enc b
      end;
  json_decode_str s.

(** [json.loads(s)] for [str] *)
Definition loads_str (s : pystr) : option json := json_decode_str s.

(** ** [str(v)], [isinstance(v, int)], truth value *)

Fixpoint py_repr_json `{PyTables} (v : json) : pystr :=
  match v with
  | JNull => lit "None"
  | JBool true => lit "True"
  | JBool false => lit "False"
  | JInt z => str_of_Z z
  | JFloat f => tbl_float_repr f
  | JStr s => py_repr s
  | JArr l => lit "[" ++ py_join (lit ", ") (map py_repr_json l) ++ lit "]"
  | JObj l => lit "{" ++
      py_join (lit ", ") (map (λ '(k, x), py_repr k ++ lit ": " ++ py_repr_json x) l) ++ lit "}"
  end.

Definition py_str_json `{PyTables} (v : json) : pystr :=
  match v with JStr s => s | _ => py_repr_json v end.

(** The integer a JSON value is for [isinstance(v, int)]: [bool] is a subclass. *)
Definition json_as_int (v : json) : option Z :=
  match v with
  | JInt z => Some z
  | JBool b => Some (if b then 1 else 0)
  | _ => None
  end.

Definition json_truthy `{PyTables} (v : json) : bool :=
  match v with
  | JNull => false
  | JBool b => b
  | JInt z => negb (z =? 0)
  | JFloat f => negb (bool_decide (tbl_float_repr f = lit "0.0") ||
                      bool_decide (tbl_float_repr f = lit "-0.0"))
  | JStr s => negb (bool_decide (s = []))
  | JArr l => match l with [] => false | _ => true end
  | JObj l => match l with [] => false | _ => true end
  end.

(** ** The values that survive a round trip

    Strings of scalar values (no lone surrogates), objects with distinct keys,
    integers below the digit limit, no floats. *)

Definition str_ok (s : pystr) : bool := forallb is_scalar s.

Fixpoint json_ok (v : json) : bool :=
  match v with
  | JNull | JBool _ => true
  | JInt z => bool_decide (length (digits 10 (Z.abs z)) ≤ int_max_str_digits)%nat
  | JFloat _ => false
  | JStr s => str_ok s
  | JArr l => forallb json_ok l
  | JObj l => bool_decide (NoDup l.*1) && forallb (λ '(k, x), str_ok k && json_ok x) l
  end.

(** Induction over nested values. *)
Section json_induction.
Variable P : json → Prop.
Hypothesis P_null : P JNull.
Hypothesis P_bool : ∀ b, P (JBool b).
Hypothesis P_int : ∀ z, P (JInt z).
Hypothesis P_float : ∀ f, P (JFloat f).
Hypothesis P_str : ∀ s, P (JStr s).
Hypothesis P_arr : ∀ l, Forall P l → P (JArr l).
Hypothesis P_obj : ∀ l, Forall (λ kv, P kv.2) l → P (JObj l).

Fixpoint json_rect_nested (v : json) : P v :=
  match v with
  | JNull => P_null
  | JBool b => P_bool b
  | JInt z => P_int z
  | JFloat f => P_float f
  | JStr s => P_str s
  | JArr l => P_arr l
      ((fix go l := match l return Forall P l with
                    | [] => Forall_nil_2 P
                    | x :: l' => Forall_cons_2 P x l' (json_rect_nested x) (go l')
                    end) l)
  | JObj l => P_obj l
      ((fix go l := match l return Forall (λ kv, P kv.2) l with
                    | [] => Forall_nil_2 _
                    | x :: l' => Forall_cons_2 (λ kv, P kv.2) x l' (json_rect_nested x.2) (go l')
                    end) l)
  end.
End json_induction.

(** ** Strings *)

Lemma hex4_fixed n :
  0 ≤ n < 65536 →
  ∃ a b c d, hex_fixed 4 n = [a; b; c; d] ∧ hex4 a b c d = Some n.
Proof.
  intros Hn. cbn [hex_fixed app]. eexists _, _, _, _. split; [done|].
  unfold hex4. rewrite !hex_val_char by (apply Z.mod_pos_bound; lia). cbn.
  f_equal. Z.to_euclidean_division_equations. lia.
Qed.

Lemma scan_string_plain c rest :
  c ≠ 34 → c ≠ 92 → 31 < c → scan_string (c :: rest) = prod_map (cons c) id <$> scan_string rest.
Proof. intros. cbn [scan_string]. zdecide. done. Qed.

Lemma scan_string_unicode n rest :
  0 ≤ n < 65536 → is_high n = false →
  scan_string (lit "\u" ++ hex_fixed 4 n ++ rest) = prod_map (cons n) id <$> scan_string rest.
Proof.
  intros Hn Hh. destruct (hex4_fixed n Hn) as (a & b & c & d & -> & H4).
  cbn -[hex4]. rewrite H4, Hh. cbn. by destruct rest as [|? [|? [|? [|? [|? [|? ?]]]]]].
Qed.

Lemma scan_string_pair u v rest :
  0 ≤ u < 65536 → 0 ≤ v < 65536 → is_high u = true → is_low v = true →
  scan_string (lit "\u" ++ hex_fixed 4 u ++ lit "\u" ++ hex_fixed 4 v ++ rest) =
  prod_map (cons (65536 + (u - 55296) * 1024 + (v - 56320))) id <$> scan_string rest.
Proof.
  intros Hu Hv Hh Hl.
  destruct (hex4_fixed u Hu) as (a & b & c & d & -> & H4).
  destruct (hex4_fixed v Hv) as (a' & b' & c' & d' & -> & H4').
  cbn -[hex4 is_high is_low]. rewrite H4, Hh. cbn -[hex4 is_low]. by rewrite H4', Hl.
Qed.

Lemma scan_string_escape1 c rest :
  is_scalar c = true →
  scan_string (json_escape1 c ++ rest) = prod_map (cons c) id <$> scan_string rest.
Proof.
  unfold is_scalar, is_surrogate. intros H. zbool.
  assert (c < 55296 ∨ 57343 < c) as Hs by (apply andb_false_iff in H0; lia).
  unfold json_escape1.
  destruct (c =? 34) eqn:E1; [zbool; by subst|].
  destruct (c =? 92) eqn:E2; [zbool; by subst|].
  destruct (c =? 10) eqn:E3; [zbool; by subst|].
  destruct (c =? 13) eqn:E4; [zbool; by subst|].
  destruct (c =? 9) eqn:E5; [zbool; by subst|].
  destruct (c =? 12) eqn:E6; [zbool; by subst|].
  destruct (c =? 8) eqn:E7; [zbool; by subst|].
  destruct ((32 <=? c) && (c <=? 126)) eqn:E8; zbool; [by apply scan_string_plain; lia|].
  destruct (c <? 65536) eqn:E9; zbool; rewrite <- !app_assoc.
  - apply scan_string_unicode; [lia|]. unfold is_high. apply andb_false_iff. lia.
  - rewrite scan_string_pair; unfold is_high, is_low;
      [|Z.to_euclidean_division_equations; try (zdecide; done); lia..].
    do 3 f_equal. Z.to_euclidean_division_equations. lia.
Qed.

Lemma scan_string_quote s rest :
  str_ok s = true → scan_string (concat (map json_escape1 s) ++ 34 :: rest) = Some (s, rest).
Proof.
  unfold str_ok. induction s as [|c s IH]; [done|]. cbn [forallb map concat].
  intros [Hc Hs]%andb_true_iff. rewrite <- app_assoc, scan_string_escape1 by done.
  by rewrite IH.
Qed.

(** ** Numbers *)

(** The character after a number must not continue it. *)
Definition num_stop (s : pystr) : Prop :=
  match s with
  | [] => True
  | c :: _ => is_digit c = false ∧ c ≠ 46 ∧ c ≠ 101 ∧ c ≠ 69
  end.

Lemma dec_digits_chars n : Forall (λ c, is_digit c = true) (map (Z.add 48) (digits 10 n)).
Proof.
  apply Forall_fmap. eapply Forall_impl; [apply digits_range; lia|].
  intros d Hd. unfold is_digit. cbn in *. zdecide. done.
Qed.

Lemma dec_digits_back n :
  0 ≤ n → of_digits 10 (map (λ c, c - 48) (map (Z.add 48) (digits 10 n))) = n.
Proof.
  intros. rewrite map_map. erewrite map_ext; [|intros d; apply Z.add_simpl_l].
  rewrite map_id. apply digits_value; lia.
Qed.

Lemma scan_int_part_digits n rest :
  0 ≤ n → num_stop rest →
  scan_int_part (map (Z.add 48) (digits 10 n) ++ rest) =
  Some (map (Z.add 48) (digits 10 n), rest).
Proof.
  intros Hn Hr. destruct (decide (n = 0)) as [->|Hne].
  { by rewrite digits_0. }
  pose proof (dec_digits_chars n) as Hall.
  destruct (digits_head 10 n) as (d & l & E & Hd); [lia..|]. rewrite E in *.
  cbn [map app scan_int_part]. zdecide.
  pose proof (proj1 (proj1 (Forall_cons _ _ _) Hall)) as Hd'. cbn in Hd'.
  change (Z.add 48 d) with (48 + d). rewrite Hd'. f_equal.
  change (48 + d :: map (Z.add 48) l ++ rest) with (map (Z.add 48) (d :: l) ++ rest).
  destruct (take_while_all is_digit (map (Z.add 48) (d :: l)) rest) as [-> ->]; [done| |done].
  destruct rest; [done|]. apply Hr.
Qed.

Lemma scan_frac_stop s : num_stop s → scan_frac s = ([], s).
Proof.
  destruct s as [|c [|d s]]; [done..|]. intros (_ & Hc & _). cbn.
  by rewrite (proj2 (Z.eqb_neq c 46)).
Qed.

Lemma scan_exp_stop s : num_stop s → scan_exp s = ([], s).
Proof.
  destruct s as [|c s]; [done|]. intros (_ & _ & Hc & Hc'). cbn.
  by rewrite (proj2 (Z.eqb_neq c 101)), (proj2 (Z.eqb_neq c 69)).
Qed.

Lemma dec_digits_head n :
  0 ≤ n → ∃ c l, map (Z.add 48) (digits 10 n) = c :: l ∧ is_digit c = true.
Proof.
  intros Hn. pose proof (dec_digits_chars n) as Hall.
  destruct (decide (n = 0)) as [->|]; [by eexists _, _|].
  destruct (digits_head 10 n) as (d & l & E' & _); [lia..|]. rewrite E' in *.
  apply Forall_cons in Hall as [Hc _]. eexists _, _. eauto.
Qed.

Lemma scan_sign_digits n rest (neg : bool) :
  0 ≤ n →
  scan_sign ((if neg then [45] else []) ++ map (Z.add 48) (digits 10 n) ++ rest) =
  (neg, map (Z.add 48) (digits 10 n) ++ rest).
Proof.
  intros Hn. destruct neg; [done|].
  destruct (dec_digits_head n Hn) as (c & l & -> & Hc).
  unfold is_digit in Hc. zbool. cbn. zdecide. done.
Qed.

Lemma scan_number_digits n rest (neg : bool) :
  0 ≤ n → num_stop rest → (length (digits 10 n) ≤ int_max_str_digits)%nat →
  scan_number ((if neg then [45] else []) ++ map (Z.add 48) (digits 10 n) ++ rest) =
  Some (JInt (if neg then - n else n), rest).
Proof.
  intros Hn Hr Hlen. unfold scan_number. rewrite scan_sign_digits by done.
  rewrite scan_int_part_digits by done.
  pose proof (dec_digits_back n Hn) as Hback. rewrite <- (length_map (Z.add 48)) in Hlen.
  remember (map (Z.add 48) (digits 10 n)) as ds eqn:Hds. cbn -[int_max_str_digits of_digits].
  rewrite scan_frac_stop by done. rewrite scan_exp_stop by done.
  cbn -[int_max_str_digits of_digits]. rewrite bool_decide_true by done. by rewrite Hback.
Qed.

(** The first character of a printed integer. *)
Lemma str_of_Z_head z : ∃ c l, str_of_Z z = c :: l ∧ (is_digit c = true ∨ c = 45) .
Proof.
  unfold str_of_Z. destruct (z <? 0) eqn:E; zbool; [by eexists _, _; eauto|].
  destruct (dec_digits_head z E) as (c & l & -> & Hc). eauto.
Qed.

Lemma scan_atom_int z rest :
  num_stop rest → (length (digits 10 (Z.abs z)) ≤ int_max_str_digits)%nat →
  scan_atom (str_of_Z z ++ rest) = Some (JInt z, rest).
Proof.
  intros Hr Hlen.
  assert (scan_number (str_of_Z z ++ rest) = Some (JInt z, rest)) as Hnum.
  { unfold str_of_Z. destruct (z <? 0) eqn:E; zbool.
    - rewrite Z.abs_neq in Hlen by lia.
      etrans; [exact (scan_number_digits (- z) rest true ltac:(lia) Hr Hlen)|].
      do 3 f_equal. lia.
    - rewrite Z.abs_eq in Hlen by lia. by apply (scan_number_digits z rest false). }
  unfold scan_atom. rewrite Hnum.
  assert (∃ c d l, str_of_Z z ++ rest = c :: l ∧
            (is_digit c = true ∨ c = 45 ∧ ∃ l', l = d :: l' ∧ is_digit d = true))
    as (c & d & l & -> & Hcd).
  { unfold str_of_Z. destruct (z <? 0) eqn:E; zbool.
    - destruct (dec_digits_head (- z)) as (c & l & -> & Hc); [lia|]. cbn. naive_solver.
    - destruct (dec_digits_head z E) as (c & l & -> & Hc). exists c, 0. cbn. naive_solver. }
  unfold scan_const. destruct Hcd as [Hc|(-> & l' & -> & Hd)].
  - unfold is_digit in Hc. zbool. cbn. zdecide. done.
  - unfold is_digit in Hd. zbool. cbn. zdecide. done.
Qed.

(** ** Round trip *)

Section roundtrip.
Context `{PyTables} (iws kws : pystr).
Hypothesis Hiws : Forall (λ c, json_ws c = true) iws.
Hypothesis Hkws : Forall (λ c, json_ws c = true) kws.

Abbreviation D := (dumps_with (44 :: iws) (58 :: kws)).

(** A printed value starts neither with white space nor with a closing bracket. *)
Definition value_head (s : pystr) : Prop :=
  ∃ c l, s = c :: l ∧ json_ws c = false ∧ c ≠ 93 ∧ c ≠ 125 ∧ c < 128.

Lemma dumps_head v : json_ok v = true → value_head (D v).
Proof.
  unfold value_head. destruct v as [|[]|z|f|s|l|l]; cbn [json_ok]; intros Hok;
    try done; try (by eexists _, _).
  cbn. destruct (str_of_Z_head z) as (c & l & -> & Hc). exists c, l. split; [done|].
  unfold is_digit, json_ws in *. destruct Hc as [Hc| ->]; [|done]. zbool.
  zdecide. split_and!; [done|lia..].
Qed.

Lemma skip_ws_head s rest : value_head s → skip_ws (s ++ rest) = s ++ rest.
Proof. intros (c & l & -> & Hc & _). cbn. by rewrite Hc. Qed.

Lemma skip_ws_sep ws s rest :
  Forall (λ c, json_ws c = true) ws → value_head s → skip_ws (ws ++ s ++ rest) = s ++ rest.
Proof.
  intros Hws (c & l & -> & Hc & _). unfold skip_ws.
  by apply (take_while_all json_ws ws ((c :: l) ++ rest)).
Qed.

Definition scans (v : json) : Prop :=
  json_ok v = true → ∀ f rest, num_stop rest → (2 * length (D v) + 1 ≤ f)%nat →
  scan_once f (D v ++ rest) = Some (v, rest).

Lemma scan_elems_dumps l :
  Forall scans l → forallb json_ok l = true → l ≠ [] →
  ∀ f acc rest, (2 * length (py_join (44%Z :: iws) (map D l)) + 2 ≤ f)%nat →
  scan_elems f acc (py_join (44 :: iws) (map D l) ++ 93 :: rest) = Some (JArr (acc ++ l), rest).
Proof.
  induction 1 as [|v l Hv Hl IH]; [done|]. cbn [forallb]. intros [Hok Hoks]%andb_true_iff _.
  intros [|f] acc rest Hf; [lia|]. cbn [scan_elems map].
  destruct l as [|v' l'].
  - cbn [map py_join] in *. rewrite (Hv Hok) by (try lia; repeat split; done). done.
  - cbn [map] in *.
    change (py_join (44 :: iws) (D v :: D v' :: map D l'))
      with (D v ++ (44 :: iws) ++ py_join (44 :: iws) (D v' :: map D l')) in *.
    rewrite length_app in Hf. cbn [length app] in Hf. rewrite length_app in Hf.
    rewrite <- !app_assoc. rewrite (Hv Hok) by (try lia; repeat split; done).
    cbn [mbind option_bind]. cbn [app]. change (skip_ws (44 :: ?x)) with (44 :: x). cbn -[py_join].
    assert (value_head (py_join (44 :: iws) (D v' :: map D l'))) as Hh.
    { cbn [forallb] in Hoks. apply andb_true_iff in Hoks as [Hok' _].
      destruct (dumps_head v' Hok') as (c & t & E & Hc). exists c. rewrite E.
      destruct l'; cbn; eexists; (split; [done|]); done. }
    rewrite skip_ws_sep by done. rewrite IH by (done || lia). by rewrite <- app_assoc.
Qed.

Abbreviation member := (λ '(k, x), json_quote k ++ (58 :: kws) ++ D x).

Lemma members_head k x l :
  value_head (py_join (44 :: iws) (map member ((k, x) :: l))).
Proof. destruct l as [|[? ?] ?]; eexists _, _; (split; [done|]); done. Qed.

Lemma scan_members_dumps l :
  Forall (λ kv, scans kv.2) l → forallb (λ '(k, x), str_ok k && json_ok x) l = true → l ≠ [] →
  ∀ f acc rest, NoDup (acc.*1 ++ l.*1) →
  (2 * length (py_join (44%Z :: iws) (map member l)) + 2 ≤ f)%nat →
  scan_members f acc (py_join (44 :: iws) (map member l) ++ 125 :: rest) =
  Some (JObj (acc ++ l), rest).
Proof.
  induction 1 as [|[k x] l Hv Hl IH]; [done|]. cbn [forallb].
  intros [[Hk Hx]%andb_true_iff Hoks]%andb_true_iff _.
  intros [|f] acc rest Hnd Hf; [lia|].
  assert (k ∉ acc.*1) as Hkacc.
  { apply NoDup_app in Hnd as (_ & Hd & _). intros Hin. apply (Hd k Hin). left. }
  assert (NoDup ((acc ++ [(k, x)]).*1 ++ l.*1)) as Hnd'.
  { rewrite fmap_app, <- app_assoc. exact Hnd. }
  assert (∀ s, (2 * length (D x) + 1 ≤ f)%nat → num_stop s →
    scan_members (S f) acc (json_quote k ++ (58 :: kws) ++ D x ++ s) =
    match skip_ws s with
    | e :: r3 => if e =? 125 then Some (JObj (acc ++ [(k, x)]), r3)
                 else if e =? 44 then scan_members f (acc ++ [(k, x)]) (skip_ws r3) else None
    | [] => None
    end) as Hstep.
  { intros s Hf' Hs. unfold json_quote. cbn [app scan_members]. zdecide. cbn [Z.eqb Pos.eqb].
    rewrite <- app_assoc. cbn [app]. rewrite scan_string_quote by done. cbn [mbind option_bind].
    change (skip_ws (58 :: ?y)) with (58 :: y). cbn [Z.eqb Pos.eqb].
    rewrite skip_ws_sep by (done || by apply dumps_head). cbn [snd] in Hv.
    rewrite (Hv Hx) by done. cbn [mbind option_bind]. by rewrite dict_set_absent. }
  destruct l as [|[k' x'] l'].
  - cbn [map py_join] in *. rewrite !length_app in Hf. cbn [length] in Hf.
    rewrite <- !app_assoc. rewrite Hstep by (try lia; repeat split; done). done.
  - pose proof (members_head k' x' l') as Hh.
    change (py_join (44 :: iws) (map member ((k, x) :: (k', x') :: l'))) with
      ((json_quote k ++ (58 :: kws) ++ D x) ++ (44 :: iws) ++
       py_join (44 :: iws) (map member ((k', x') :: l'))) in *.
    rewrite !length_app in Hf. cbn [length] in Hf.
    rewrite <- !app_assoc. rewrite Hstep by (try lia; repeat split; done).
    cbn [app]. change (skip_ws (44 :: ?y)) with (44 :: y). cbn [Z.eqb Pos.eqb].
    rewrite skip_ws_sep by done. rewrite IH by (done || lia). by rewrite <- app_assoc.
Qed.

Lemma scan_dumps v : scans v.
Proof.
  induction v as [|b|z|f|s|l Hl|l Hl] using json_rect_nested; unfold scans;
    intros Hok [|n] rest Hr Hn; try lia; cbn [json_ok] in Hok.
  - done.
  - by destruct b.
  - cbn [dumps_with]. apply bool_decide_eq_true in Hok.
    rewrite <- (scan_atom_int z rest Hr Hok).
    destruct (str_of_Z_head z) as (c & l & -> & Hc). cbn [app scan_once].
    unfold is_digit in Hc. destruct Hc as [Hc| ->]; [|done]. zbool. zdecide. done.
  - done.
  - cbn [dumps_with]. unfold json_quote. cbn [app scan_once]. zdecide. cbn [Z.eqb Pos.eqb].
    rewrite <- app_assoc. cbn [app]. by rewrite scan_string_quote.
  - cbn [dumps_with] in *. rewrite !length_app in Hn. cbn [lit length] in Hn.
    destruct l as [|v l]; [done|]. rewrite <- !app_assoc.
    pose proof (scan_elems_dumps (v :: l) Hl Hok ltac:(done) n [] rest) as He.
    assert (value_head (py_join (44 :: iws) (map D (v :: l)))) as Hh.
    { cbn [forallb] in Hok. apply andb_true_iff in Hok as [Hok _].
      destruct (dumps_head v Hok) as (c & t & E & Hc). exists c. cbn. rewrite E.
      destruct l; cbn; eexists; (split; [done|]); done. }
    remember (py_join (44 :: iws) (map D (v :: l))) as txt. cbn.
    rewrite (skip_ws_head txt) by done. destruct Hh as (c & t & -> & Hc & Hc1 & Hc2 & _).
    cbn [app]. rewrite (proj2 (Z.eqb_neq c 93)) by done. apply He. lia.
  - cbn [dumps_with] in *. rewrite !length_app in Hn. cbn [lit length] in Hn.
    apply andb_true_iff in Hok as [Hnd%bool_decide_eq_true Hok].
    destruct l as [|[k x] l]; [done|]. rewrite <- !app_assoc.
    pose proof (scan_members_dumps ((k, x) :: l) Hl Hok ltac:(done) n [] rest Hnd) as He.
    pose proof (members_head k x l) as Hh.
    remember (py_join (44 :: iws) (map member ((k, x) :: l))) as txt. cbn.
    rewrite (skip_ws_head txt) by done. destruct Hh as (c & t & -> & Hc & Hc1 & Hc2 & _).
    cbn [app]. rewrite (proj2 (Z.eqb_neq c 125)) by done. apply He. lia.
Qed.

Lemma json_decode_dumps v : json_ok v = true → json_decode_str (D v) = Some v.
Proof.
  intros Hok. pose proof (dumps_head v Hok) as Hh.
  pose proof (scan_dumps v Hok (scan_fuel (D v)) [] I ltac:(unfold scan_fuel; lia)) as Hs.
  pose proof (skip_ws_head (D v) [] Hh) as Hw. rewrite !app_nil_r in *.
  unfold json_decode_str. rewrite Hw, Hs.
  destruct Hh as (c & l & -> & _ & _ & _ & Hc). cbn [starts_with].
  by rewrite (proj2 (Z.eqb_neq 65279 c)) by lia.
Qed.

(** The output is printable enough: no NUL and no byte above 127. *)
Definition is_text (c : Z) : bool := (0 <? c) && (c <? 128).

Abbreviation text s := (Forall (λ c, is_text c = true) s).

(** A string literal is printable ASCII, whatever the string holds. *)
Definition printable (c : Z) : bool := (32 <=? c) && (c <=? 126).

Lemma hex_fixed_printable k n : Forall (λ c, printable c = true) (hex_fixed k n).
Proof.
  eapply Forall_impl_bool; [|apply hex_fixed_chars].
  unfold is_hex_char, printable, is_digit. intros c Hc.
  apply orb_true_iff in Hc as [Hc|Hc]; zbool; zdecide; done.
Qed.

Lemma json_escape1_printable c : Forall (λ c, printable c = true) (json_escape1 c).
Proof.
  unfold json_escape1.
  repeat (case_match; [try (by repeat constructor)|]).
  - apply Forall_app; split; [by repeat constructor|]. apply hex_fixed_printable.
  - rewrite !Forall_app. split_and!; try apply hex_fixed_printable; by repeat constructor.
Qed.

Lemma json_quote_printable s : Forall (λ c, printable c = true) (json_quote s).
Proof.
  unfold json_quote. constructor; [done|]. apply Forall_app; split; [|by repeat constructor].
  induction s as [|c s IH]; [done|]. cbn. apply Forall_app; split; [apply json_escape1_printable|done].
Qed.

Lemma printable_text s : Forall (λ c, printable c = true) s → text s.
Proof.
  apply Forall_impl_bool. unfold printable, is_text. intros c Hc. zbool. zdecide. done.
Qed.

Lemma json_quote_text s : text (json_quote s).
Proof. apply printable_text, json_quote_printable. Qed.

(** ASCII texts have no surrogate. *)
Lemma text_str_ok s : text s → str_ok s = true.
Proof.
  intros Hs. unfold str_ok. apply forallb_forall. intros c Hc%list_elem_of_In.
  pose proof (proj1 (Forall_forall _ _) Hs c Hc) as Ht. apply ascii_scalar. unfold is_text, is_ascii in *.
  zbool. zdecide. done.
Qed.

Lemma ws_text ws : Forall (λ c, json_ws c = true) ws → text ws.
Proof.
  apply Forall_impl_bool. unfold json_ws, is_text. intros c Hc.
  destruct (c =? 32) eqn:?, (c =? 9) eqn:?, (c =? 10) eqn:?, (c =? 13) eqn:?;
    try done; zbool; by subst.
Qed.

Lemma py_join_Forall (P : Z → Prop) sep l : Forall P sep → Forall (Forall P) l → Forall P (py_join sep l).
Proof.
  intros Hsep. induction 1 as [|s l Hs Hl IH]; [constructor|].
  destruct l as [|s' l]; [done|]. change (py_join sep (s :: s' :: l))
    with (s ++ sep ++ py_join sep (s' :: l)). by rewrite !Forall_app.
Qed.

Lemma str_of_Z_text z : text (str_of_Z z).
Proof.
  assert (∀ n, text (map (Z.add 48) (digits 10 n))) as Hd.
  { intros n. eapply Forall_impl_bool; [|apply dec_digits_chars].
    unfold is_digit, is_text. intros c Hc. zbool. zdecide. done. }
  unfold str_of_Z. destruct (z <? 0); [constructor; [done|]|]; apply Hd.
Qed.

Lemma dumps_text v : json_ok v = true → text (D v).
Proof.
  pose proof (ws_text iws Hiws). pose proof (ws_text kws Hkws).
  induction v as [|b|z|f|s|l Hl|l Hl] using json_rect_nested; cbn [json_ok dumps_with]; intros Hok.
  - by repeat constructor.
  - destruct b; by repeat constructor.
  - apply str_of_Z_text.
  - done.
  - apply json_quote_text.
  - rewrite !Forall_app. split_and!; [by repeat constructor| |by repeat constructor].
    apply py_join_Forall; [by constructor|].
    induction Hl as [|v l Hv Hl IH]; cbn in *; [constructor|].
    apply andb_true_iff in Hok as [? ?]. constructor; auto.
  - rewrite !Forall_app. split_and!; [by repeat constructor| |by repeat constructor].
    apply andb_true_iff in Hok as [_ Hok]. apply py_join_Forall; [by constructor|].
    induction Hl as [|[k v] l Hv Hl IH]; cbn [forallb map] in *; [constructor|].
    apply andb_true_iff in Hok as [[? ?]%andb_true_iff ?]. constructor; [|auto].
    rewrite !Forall_app. split_and!; [apply json_quote_text|by constructor|auto].
Qed.

Lemma text_ascii s : text s → Forall (λ c, is_ascii c = true) s.
Proof.
  apply Forall_impl_bool. unfold is_text, is_ascii. intros c Hc. zbool. zdecide. done.
Qed.

Lemma detect_encoding_text s : text s → detect_encoding s = Utf8.
Proof.
  intros Hs. unfold detect_encoding.
  destruct s as [|a s]; [done|]. apply Forall_cons in Hs as [Ha Hs].
  unfold is_text in Ha. zbool. cbn [starts_with]. zdecide. cbn [andb orb].
  destruct s as [|b s]; [done|]. apply Forall_cons in Hs as [Hb Hs].
  unfold is_text in Hb. zbool. zdecide. by destruct s as [|? [|? ?]].
Qed.

Lemma loads_text s : text s → loads s = json_decode_str s.
Proof.
  intros Hs. unfold loads. rewrite detect_encoding_text by done.
  by rewrite utf8_decode_ascii by by apply text_ascii.
Qed.
End roundtrip.

Abbreviation text s := (Forall (λ c, is_text c = true) s).

(** [json.loads(json.dumps(v).encode()) = v] for every separator the sources
    use, and [json.dumps] never fails to encode. *)
Lemma loads_dumps_with `{PyTables} iws kws v :
  Forall (λ c, json_ws c = true) iws → Forall (λ c, json_ws c = true) kws →
  json_ok v = true →
  loads (dumps_with (44 :: iws) (58 :: kws) v) = Some v ∧
  utf8_encode (dumps_with (44 :: iws) (58 :: kws) v) = Some (dumps_with (44 :: iws) (58 :: kws) v).
Proof.
  intros Hi Hk Hv. pose proof (dumps_text iws kws Hi Hk v Hv) as Ht. split.
  - rewrite loads_text by done. by apply json_decode_dumps.
  - apply utf8_encode_ascii. by apply text_ascii.
Qed.

Lemma loads_dumps `{PyTables} v : json_ok v = true → loads (dumps v) = Some v.
Proof. intros Hv. by apply (loads_dumps_with [32] [32]); [repeat constructor..|]. Qed.

Lemma dumps_encode `{PyTables} v : json_ok v = true → utf8_encode (dumps v) = Some (dumps v).
Proof. intros Hv. by apply (loads_dumps_with [32] [32]); [repeat constructor..|]. Qed.

Lemma dumps_is_text `{PyTables} v : json_ok v = true → text (dumps v).
Proof. intros Hv. by apply (dumps_text [32] [32]); [repeat constructor..|]. Qed.

Lemma loads_str_dumps `{PyTables} v : json_ok v = true → loads_str (dumps v) = Some v.
Proof. intros Hv. by apply (json_decode_dumps [32] [32]); [repeat constructor..|]. Qed.

(** Printing is injective on such values. *)
Lemma dumps_with_inj `{PyTables} iws kws v w :
  Forall (λ c, json_ws c = true) iws → Forall (λ c, json_ws c = true) kws →
  json_ok v = true → json_ok w = true →
  dumps_with (44 :: iws) (58 :: kws) v = dumps_with (44 :: iws) (58 :: kws) w → v = w.
Proof.
  intros Hi Hk Hv Hw E.
  destruct (loads_dumps_with iws kws v Hi Hk Hv) as [Lv _].
  destruct (loads_dumps_with iws kws w Hi Hk Hw) as [Lw _]. congruence.
Qed.

(** ** The scanner's fuel is enough

    Every scanner consumes input, so with fuel above twice the length of the
    text the result no longer depends on the fuel. *)

Lemma drop_while_length {A} (p : A → bool) l : (length (drop_while p l) ≤ length l)%nat.
Proof. rewrite <- (take_drop_while p l) at 2. rewrite length_app. lia. Qed.

Lemma skip_ws_length s : (length (skip_ws s) ≤ length s)%nat.
Proof. apply drop_while_length. Qed.

Lemma prod_map_Some {A B} (f : A → A) (o : option (A * B)) x r :
  prod_map f id <$> o = Some (x, r) → ∃ y, o = Some (y, r).
Proof. destruct o as [[y r']|]; cbn; [|done]. intros [= _ ->]. eauto. Qed.

Lemma scan_string_consumes s x r : scan_string s = Some (x, r) → (length r < length s)%nat.
Proof.
  revert x r. induction s as [s IH] using (induction_ltof1 _ (@length Z)).
  unfold ltof in IH. intros x r Hs.
  destruct s as [|c s1]; [done|]. cbn [scan_string] in Hs.
  repeat (case_match; simplify_eq; try (cbn; lia));
    apply prod_map_Some in Hs as [y Hy];
    (apply IH in Hy; [cbn in *; lia|cbn; lia]).
Qed.

Lemma strip_prefix_length pat s r :
  strip_prefix pat s = Some r → length s = (length pat + length r)%nat.
Proof.
  revert s. induction pat as [|p pat IH]; intros [|c s]; cbn; intros; simplify_eq; [done..|].
  case_match; [|done]. f_equal. auto.
Qed.

Lemma scan_frac_length s fr r : scan_frac s = (fr, r) → (length r ≤ length s)%nat.
Proof.
  unfold scan_frac. intros E. repeat case_match; simplify_eq; try done.
  etrans; [apply drop_while_length|]. cbn. lia.
Qed.

Lemma scan_exp_length s ex r : scan_exp s = (ex, r) → (length r ≤ length s)%nat.
Proof.
  unfold scan_exp. intros E. repeat case_match; simplify_eq; try done;
    (etrans; [apply drop_while_length|]; cbn; lia).
Qed.

Lemma scan_int_part_consumes s ip r : scan_int_part s = Some (ip, r) → (length r < length s)%nat.
Proof.
  unfold scan_int_part. intros E. repeat case_match; simplify_eq; [cbn; lia|].
  cbn [drop_while]. match goal with H : is_digit _ = true |- _ => rewrite H end.
  cbn. apply Nat.lt_succ_r. apply drop_while_length.
Qed.

Lemma scan_number_consumes s v r : scan_number s = Some (v, r) → (length r < length s)%nat.
Proof.
  unfold scan_number. intros E.
  destruct (scan_sign s) as [neg s0] eqn:E0.
  destruct (scan_int_part s0) as [[ip s1]|] eqn:E1; [|done]. cbn -[int_max_str_digits] in E.
  destruct (scan_frac s1) as [fr s2] eqn:E2. destruct (scan_exp s2) as [ex s3] eqn:E3.
  apply scan_int_part_consumes in E1. apply scan_frac_length in E2. apply scan_exp_length in E3.
  assert (r = s3) as -> by (destruct (fr ++ ex); repeat case_match; congruence).
  assert (length s0 ≤ length s)%nat; [|lia].
  unfold scan_sign in E0. repeat case_match; simplify_eq; cbn; lia.
Qed.

Lemma scan_atom_consumes s v r : scan_atom s = Some (v, r) → (length r < length s)%nat.
Proof.
  unfold scan_atom, scan_const. intros E.
  repeat (case_match; [simplify_eq;
    match goal with H : strip_prefix _ _ = Some _ |- _ => apply strip_prefix_length in H end;
    cbn in *; lia|]).
  by eapply scan_number_consumes.
Qed.

Lemma scan_consumes f :
  (∀ s v r, scan_once f s = Some (v, r) → length r < length s)%nat ∧
  (∀ acc s v r, scan_elems f acc s = Some (v, r) → length r < length s)%nat ∧
  (∀ acc s v r, scan_members f acc s = Some (v, r) → length r < length s)%nat.
Proof.
  induction f as [|f (IH1 & IH2 & IH3)]; [done|]. split_and!.
  - intros s v r E. destruct s as [|c s1]; [done|]. cbn [scan_once] in E.
    pose proof (skip_ws_length s1) as Hw. repeat (case_match; try done); simplify_eq.
    + destruct (scan_string s1) as [[x r']|] eqn:E1; [|done]. cbn in E. simplify_eq.
      apply scan_string_consumes in E1. cbn. lia.
    + cbn in *. lia.
    + apply IH3 in E. cbn in *. lia.
    + cbn in *. lia.
    + apply IH2 in E. cbn in *. lia.
    + by apply scan_atom_consumes in E.
  - intros acc s v r E. cbn [scan_elems] in E.
    destruct (scan_once f s) as [[x r1]|] eqn:E1; [|done]. apply IH1 in E1. cbn [mbind option_bind] in E.
    pose proof (skip_ws_length r1) as Hw. repeat (case_match; try done); simplify_eq; cbn in *.
    + lia.
    + apply IH2 in E. pose proof (skip_ws_length l). lia.
  - intros acc s v r E. cbn [scan_members] in E. destruct s as [|c s1]; [done|].
    case_match; [|done]. destruct (scan_string s1) as [[k r0]|] eqn:E0; [|done].
    apply scan_string_consumes in E0. cbn [mbind option_bind] in E.
    pose proof (skip_ws_length r0) as Hw0. destruct (skip_ws r0) as [|d r1] eqn:Ed; [done|].
    case_match; [|done]. pose proof (skip_ws_length r1) as Hw1.
    destruct (scan_once f (skip_ws r1)) as [[x r2]|] eqn:E1; [|done]. apply IH1 in E1.
    cbn [mbind option_bind] in E. pose proof (skip_ws_length r2) as Hw2.
    repeat (case_match; try done); simplify_eq; cbn in *.
    + lia.
    + apply IH3 in E. pose proof (skip_ws_length l). lia.
Qed.

Lemma scan_fuel_mono f :
  (∀ g s, 2 * length s + 1 ≤ f → f ≤ g → scan_once g s = scan_once f s)%nat ∧
  (∀ g acc s, 2 * length s + 2 ≤ f → f ≤ g → scan_elems g acc s = scan_elems f acc s)%nat ∧
  (∀ g acc s, 2 * length s + 2 ≤ f → f ≤ g → scan_members g acc s = scan_members f acc s)%nat.
Proof.
  induction f as [|f (IH1 & IH2 & IH3)]; [split_and!; intros; lia|].
  pose proof (scan_consumes f) as (C1 & _ & _). split_and!; intros [|g]; intros; try lia.
  - destruct s as [|c s1]; [done|]. cbn [scan_once length] in *.
    pose proof (skip_ws_length s1) as Hw. destruct (skip_ws s1) as [|d r]; [done|]. cbn in Hw.
    rewrite IH3 by (cbn; lia). by rewrite IH2 by (cbn; lia).
  - cbn [scan_elems]. rewrite IH1 by lia.
    destruct (scan_once f s) as [[x r1]|] eqn:E1; [|done]. apply C1 in E1. cbn [mbind option_bind].
    pose proof (skip_ws_length r1) as Hw. destruct (skip_ws r1) as [|d r]; [done|]. cbn in Hw.
    pose proof (skip_ws_length r). by rewrite IH2 by lia.
  - cbn [scan_members]. destruct s as [|c s1]; [done|]. cbn [length] in *.
    case_match; [|done]. destruct (scan_string s1) as [[k r0]|] eqn:E0; [|done].
    apply scan_string_consumes in E0. cbn [mbind option_bind].
    pose proof (skip_ws_length r0) as Hw0. destruct (skip_ws r0) as [|d r1]; [done|].
    cbn in Hw0. case_match; [|done]. pose proof (skip_ws_length r1) as Hw1.
    rewrite IH1 by lia.
    destruct (scan_once f (skip_ws r1)) as [[x r2]|] eqn:E1; [|done]. apply C1 in E1.
    cbn [mbind option_bind]. pose proof (skip_ws_length r2) as Hw2.
    destruct (skip_ws r2) as [|e r3]; [done|]. cbn in Hw2.
    pose proof (skip_ws_length r3). by rewrite IH3 by lia.
Qed.

Lemma scan_once_fuel s g : (scan_fuel s ≤ g)%nat → scan_once g s = scan_once (scan_fuel s) s.
Proof. intros. apply (scan_fuel_mono (scan_fuel s)); unfold scan_fuel in *; lia. Qed.
