(* ===== verification/PyUuid.v ===== *)
(** * UUIDs

    A [uuid.UUID] is its 128-bit integer.  [uuid_str] is [str(u)] and
    [uuid_parse] the constructor [uuid.UUID(s)] on a string ([None] is
    [ValueError]). *)

From S2P Require Import Prelude PyText.
Local Open Scope Z_scope.

Definition uuid_ok (u : Z) : Prop := 0 ≤ u < 2 ^ 128.

#[export] Instance uuid_ok_dec u : Decision (uuid_ok u).
Proof. unfold uuid_ok. apply _. Defined.

(** [str(u)]: 32 hexadecimal digits in groups of 8-4-4-4-12. *)
Definition uuid_str (u : Z) : pystr :=
  let h := hex_fixed 32 u in
  take 8 h ++ [45] ++ take 4 (drop 8 h) ++ [45] ++ take 4 (drop 12 h) ++ [45] ++
  take 4 (drop 16 h) ++ [45] ++ drop 20 h.

(** [u.hex] *)
Definition uuid_hex (u : Z) : pystr := hex_fixed 32 u.

Definition is_brace (c : Z) : bool := (c =? 123) || (c =? 125).

(** [uuid.UUID(s)] *)
Definition uuid_parse `{PyTables} (s : pystr) : option Z :=
  let s := py_replace (lit "uuid:") [] (py_replace (lit "urn:") [] s) in
  let s := py_replace [45] [] (py_strip is_brace s) in
  if bool_decide (length s = 32%nat) then
    n ← int16 s;
    if bool_decide (uuid_ok n) then Some n else None
  else None.

(** ** Round trip *)

Definition is_hex_or_dash (c : Z) : bool := is_hex_char c || (c =? 45).

Lemma uuid_str_chars u : Forall (λ c, is_hex_or_dash c = true) (uuid_str u).
Proof.
  assert (Forall (λ c, is_hex_or_dash c = true) (hex_fixed 32 u)) as H.
  { eapply Forall_impl_bool; [|apply hex_fixed_chars]. unfold is_hex_or_dash. by intros ? ->. }
  unfold uuid_str. revert H. generalize (hex_fixed 32 u) as h. intros h H.
  rewrite !Forall_app, !Forall_singleton. auto 10 using Forall_take, Forall_drop.
Qed.

Lemma uuid_str_length u : length (uuid_str u) = 36%nat.
Proof.
  unfold uuid_str. rewrite !length_app, !length_take, !length_drop, hex_fixed_length. done.
Qed.

Lemma filter_dash_id l : Forall (λ c, is_hex_char c = true) l → filter (λ x, 45 ≠ x) l = l.
Proof.
  induction 1 as [|x l Hx Hl IH]; [done|].
  rewrite filter_cons_True; [by f_equal|]. by intros <-.
Qed.

(** A list of 32 elements is the concatenation of the five groups. *)
Lemma groups_join (h : list Z) :
  take 8 h ++ take 4 (drop 8 h) ++ take 4 (drop 12 h) ++ take 4 (drop 16 h) ++ drop 20 h = h.
Proof.
  replace (drop 20 h) with (drop 4 (drop 16 h)) by by rewrite drop_drop.
  rewrite take_drop. replace (drop 16 h) with (drop 4 (drop 12 h)) by by rewrite drop_drop.
  rewrite take_drop. replace (drop 12 h) with (drop 4 (drop 8 h)) by by rewrite drop_drop.
  by rewrite !take_drop.
Qed.

Lemma uuid_str_undash u : py_replace [45] [] (uuid_str u) = hex_fixed 32 u.
Proof.
  rewrite py_replace_char. unfold uuid_str. pose proof (hex_fixed_chars 32 u) as Hc.
  revert Hc. generalize (hex_fixed 32 u) as h. intros h Hc. rewrite !filter_app.
  rewrite (filter_dash_id (take 8 h)) by auto using Forall_take.
  rewrite !(filter_dash_id (take 4 _)) by auto using Forall_take, Forall_drop.
  rewrite (filter_dash_id (drop 20 h)) by auto using Forall_drop.
  replace (filter (λ x, 45 ≠ x) [45]) with (@nil Z) by done. apply groups_join.
Qed.

Lemma hex_prefix_id s : Forall (λ c, is_hex_char c = true) s → hex_prefix s = s.
Proof.
  intros Hs. unfold hex_prefix. repeat (case_match; try done); subst;
    repeat match goal with H : Forall _ (_ :: _) |- _ => apply Forall_cons in H as [? ?] end;
    match goal with H : _ || _ = true |- _ => apply orb_true_iff in H as [H|H] end;
    zbool; subst; done.
Qed.

Lemma int16_fixed `{PyTables} k n :
  (0 < k)%nat → 0 ≤ n < 16 ^ Z.of_nat k → int16 (hex_fixed k n) = Some n.
Proof.
  intros Hk Hn. pose proof (hex_fixed_chars k n) as Hc. unfold int16.
  assert (map to_ascii_digit (hex_fixed k n) = hex_fixed k n) as ->.
  { rewrite <- (map_id (hex_fixed k n)) at 2. apply map_ext_Forall.
    eapply Forall_impl; [exact Hc|]. intros c Hx. unfold to_ascii_digit.
    replace (is_ascii c) with true; [done|]. unfold is_hex_char, is_digit, is_ascii in *.
    cbv beta in Hx. apply orb_true_iff in Hx as [Hx|Hx]; zbool; zdecide; done. }
  rewrite py_strip_id.
  2:{ eapply Forall_impl; [exact Hc|]. cbv beta. unfold is_hex_char, is_digit, is_space.
      intros c Hx. apply orb_true_iff in Hx as [Hx|Hx]; zbool; zdecide; done. }
  pose proof (hex_run_fixed k n 0) as Hrun. pose proof (hex_prefix_id _ Hc) as Hp.
  pose proof (hex_fixed_length k n) as Hlen. rewrite Z.mod_small in Hrun by done.
  destruct (hex_fixed k n) as [|c l]; [cbn in Hlen; lia|].
  apply Forall_cons in Hc as [Hc _]. unfold is_hex_char, is_digit in Hc.
  assert ((48 ≤ c ≤ 57) ∨ (97 ≤ c ≤ 102)) as Hr.
  { apply orb_true_iff in Hc as [Hc|Hc]; zbool; lia. }
  rewrite (proj2 (Z.eqb_neq c 45)), (proj2 (Z.eqb_neq c 43)), Hp by lia.
  by rewrite (proj2 (Z.eqb_neq c 95)), Hrun by lia.
Qed.

Lemma uuid_roundtrip `{PyTables} u : uuid_ok u → uuid_parse (uuid_str u) = Some u.
Proof.
  intros Hu. pose proof (uuid_str_chars u) as Hc.
  assert (∀ c, c = 117 ∨ c = 123 ∨ c = 125 → Forall (λ x, c ≠ x) (uuid_str u)) as Hne.
  { intros c Hcs. eapply Forall_impl; [exact Hc|]. intros x Hx <-. by destruct Hcs as [-> |[-> | ->]]. }
  unfold uuid_parse. change (lit "uuid:") with (117 :: lit "uid:").
  change (lit "urn:") with (117 :: lit "rn:").
  rewrite (py_replace_absent 117 (lit "rn:")) by auto.
  rewrite (py_replace_absent 117 (lit "uid:")) by auto.
  rewrite py_strip_id.
  2:{ eapply Forall_impl; [exact Hc|]. cbv beta. intros x Hx. unfold is_brace.
      destruct (x =? 123) eqn:E1; zbool; [by subst|]. destruct (x =? 125) eqn:E2; zbool; [by subst|done]. }
  rewrite uuid_str_undash, hex_fixed_length. cbn [bool_decide].
  rewrite bool_decide_true by done. rewrite int16_fixed by (lia || exact Hu).
  cbn [mbind option_bind]. by rewrite bool_decide_true.
Qed.

Lemma uuid_str_inj `{PyTables} u v : uuid_ok u → uuid_ok v → uuid_str u = uuid_str v → u = v.
Proof.
  intros Hu Hv E. apply uuid_roundtrip in Hu, Hv. congruence.
Qed.

Lemma uuid_str_ascii u : Forall (λ c, is_ascii c = true) (uuid_str u).
Proof.
  eapply Forall_impl_bool; [|apply uuid_str_chars].
  unfold is_hex_or_dash, is_hex_char, is_digit, is_ascii. intros c Hc.
  apply orb_true_iff in Hc as [[Hc|Hc]%orb_true_iff|Hc]; zbool; zdecide; done.
Qed.

#[export] Hint Resolve uuid_roundtrip uuid_str_ascii : service.
