(* ===== verification/PyTime.v ===== *)
(** * [datetime.isoformat]

    A [datetime] in UTC is its count of microseconds since 1970; its text is
    that of [datetime.now(UTC).isoformat()]. *)

From S2P Require Import Prelude PyText PyJson.
Local Open Scope Z_scope.

(** [n] in [k] decimal digits, with leading zeros. *)
Fixpoint dec_fixed (k : nat) (n : Z) : pystr :=
  match k with
  | O => []
  | S k' => dec_fixed k' (n / 10) ++ [48 + n mod 10]
  end.

(** The proleptic Gregorian date of a day number (day 0 is 1970-01-01). *)
Definition civil (days : Z) : Z * Z * Z :=
  let z := days + 719468 in
  let era := z / 146097 in
  let doe := z mod 146097 in
  let yoe := (doe - doe / 1460 + doe / 36524 - doe / 146096) / 365 in
  let doy := doe - (365 * yoe + yoe / 4 - yoe / 100) in
  let mp := (5 * doy + 2) / 153 in
  let d := doy - (153 * mp + 2) / 5 + 1 in
  let m := if mp <? 10 then mp + 3 else mp - 9 in
  let y := yoe + era * 400 + (if m <=? 2 then 1 else 0) in
  (y, m, d).

Definition isoformat (t : Z) : pystr :=
  let us := t mod 1000000 in
  let s := t / 1000000 in
  let '(y, m, d) := civil (s / 86400) in
  let sod := s mod 86400 in
  dec_fixed 4 y ++ lit "-" ++ dec_fixed 2 m ++ lit "-" ++ dec_fixed 2 d ++ lit "T" ++
  dec_fixed 2 (sod / 3600) ++ lit ":" ++ dec_fixed 2 (sod / 60 mod 60) ++ lit ":" ++
  dec_fixed 2 (sod mod 60) ++ (if us =? 0 then [] else lit "." ++ dec_fixed 6 us) ++ lit "+00:00".

Example isoformat_epoch : isoformat 0 = lit "1970-01-01T00:00:00+00:00".
Proof. vm_compute. reflexivity. Qed.

Example isoformat_leap : isoformat 1709210096000001 = lit "2024-02-29T12:34:56.000001+00:00".
Proof. vm_compute. reflexivity. Qed.

Example isoformat_before : isoformat (-1) = lit "1969-12-31T23:59:59.999999+00:00".
Proof. vm_compute. reflexivity. Qed.

Lemma dec_fixed_text k n : text (dec_fixed k n).
Proof.
  revert n. induction k as [|k IH]; intros n; cbn; [done|]. apply Forall_app. split; [apply IH|].
  constructor; [|done]. pose proof (Z.mod_pos_bound n 10). unfold is_text. zdecide. done.
Qed.

Lemma lit_text s : forallb is_text (lit s) = true → text (lit s).
Proof. rewrite forallb_forall, Forall_forall. intros Hs c Hc. apply Hs. by apply list_elem_of_In. Qed.

(** The text of a date is ASCII. *)
Lemma isoformat_text t : text (isoformat t).
Proof.
  unfold isoformat. destruct (civil _) as [[y m] d]. rewrite !Forall_app.
  split_and!; try apply dec_fixed_text; try (apply lit_text; reflexivity).
  destruct (_ =? 0); [done|]. apply Forall_app. split; [apply lit_text; reflexivity|apply dec_fixed_text].
Qed.
