(* ===== verification/PyHash.v ===== *)
(** * [hashlib.sha256]

    An executable SHA-256 (FIPS 180-4) on byte lists, with words as [Z] below
    [2^32] and the wrap-around of addition written out.  The service uses the
    hexadecimal digest: 64 characters as the request hash of an idempotency
    record, the first 12 as the prefix of a stored file's name. *)

From S2P Require Import Prelude PyText.
Local Open Scope Z_scope.

Definition w32 (x : Z) : Z := x mod 2 ^ 32.
Definition add32 (x y : Z) : Z := w32 (x + y).
Definition rotr (n x : Z) : Z := Z.lor (Z.shiftr x n) (w32 (Z.shiftl x (32 - n))).
Definition ch (x y z : Z) : Z := Z.lxor (Z.land x y) (Z.land (Z.lxor x (2 ^ 32 - 1)) z).
Definition maj (x y z : Z) : Z := Z.lxor (Z.lxor (Z.land x y) (Z.land x z)) (Z.land y z).
Definition big_sigma0 (x : Z) : Z := Z.lxor (Z.lxor (rotr 2 x) (rotr 13 x)) (rotr 22 x).
Definition big_sigma1 (x : Z) : Z := Z.lxor (Z.lxor (rotr 6 x) (rotr 11 x)) (rotr 25 x).
Definition small_sigma0 (x : Z) : Z := Z.lxor (Z.lxor (rotr 7 x) (rotr 18 x)) (Z.shiftr x 3).
Definition small_sigma1 (x : Z) : Z := Z.lxor (Z.lxor (rotr 17 x) (rotr 19 x)) (Z.shiftr x 10).

(** The constants of the standard: the first 32 bits of the fractional parts of
    the cube roots of the first 64 primes, and of the square roots of the first
    eight. *)
Definition is_prime (n : nat) : bool :=
  forallb (λ d, negb (n mod d =? 0)%nat) (seq 2 (n - 2)).
Definition primes (n : nat) : list Z := map Z.of_nat (take n (List.filter is_prime (seq 2 400))).

(** The integer cube root, below [2 ^ bits]. *)
Fixpoint cbrt (bits : nat) (r n : Z) : Z :=
  match bits with
  | O => r
  | S b =>
      let r' := r + 2 ^ Z.of_nat b in
      cbrt b (if r' * r' * r' <=? n then r' else r) n
  end.

Definition round_constants : list Z :=
  Eval vm_compute in map (λ p, w32 (cbrt 36 0 (p * 2 ^ 96))) (primes 64).

Record sha_state := ShaState { sa : Z; sb : Z; sc : Z; sd : Z; se : Z; sf : Z; sg : Z; sh : Z }.

Definition sha_init : sha_state :=
  Eval vm_compute in
  match map (λ p, w32 (Z.sqrt (p * 2 ^ 64))) (primes 8) with
  | [a; b; c; d; e; f; g; h] => ShaState a b c d e f g h
  | _ => ShaState 0 0 0 0 0 0 0 0
  end.

Definition sha_round (st : sha_state) (kw : Z * Z) : sha_state :=
  let t1 := add32 (sh st) (add32 (big_sigma1 (se st))
              (add32 (ch (se st) (sf st) (sg st)) (add32 kw.1 kw.2))) in
  let t2 := add32 (big_sigma0 (sa st)) (maj (sa st) (sb st) (sc st)) in
  ShaState (add32 t1 t2) (sa st) (sb st) (sc st) (add32 (sd st) t1) (se st) (sf st) (sg st).

(** The message schedule, from the last 16 words, most recent first. *)
Fixpoint sha_expand (n : nat) (win : list Z) : list Z :=
  match n with
  | O => []
  | S n' =>
      let x := add32 (small_sigma1 (nth 1 win 0)) (add32 (nth 6 win 0)
                 (add32 (small_sigma0 (nth 14 win 0)) (nth 15 win 0))) in
      x :: sha_expand n' (x :: take 15 win)
  end.

Fixpoint be_words (n : nat) (b : pybytes) : list Z :=
  match n, b with
  | S n', b0 :: b1 :: b2 :: b3 :: b' =>
      (((b0 * 256 + b1) * 256 + b2) * 256 + b3) :: be_words n' b'
  | _, _ => []
  end.

Definition sha_block (st : sha_state) (b : pybytes) : sha_state :=
  let w := be_words 16 b in
  let ws := w ++ sha_expand 48 (reverse w) in
  let st' := fold_left sha_round (zip round_constants ws) st in
  ShaState (add32 (sa st) (sa st')) (add32 (sb st) (sb st')) (add32 (sc st) (sc st'))
           (add32 (sd st) (sd st')) (add32 (se st) (se st')) (add32 (sf st) (sf st'))
           (add32 (sg st) (sg st')) (add32 (sh st) (sh st')).

Fixpoint be_bytes (k : nat) (n : Z) : pybytes :=
  match k with
  | O => []
  | S k' => be_bytes k' (n / 256) ++ [n mod 256]
  end.

(** A one bit, zeros up to 56 modulo 64 bytes, the length in bits. *)
Definition sha_pad (b : pybytes) : pybytes :=
  let n := Z.of_nat (length b) in
  b ++ [128] ++ replicate (Z.to_nat ((55 - n) mod 64)) 0 ++ be_bytes 8 (8 * n).

(** One block per 64 bytes; [length / 64] of them, so the fuel is enough. *)
Fixpoint sha_blocks (fuel : nat) (st : sha_state) (b : pybytes) : sha_state :=
  match fuel, b with
  | S f, _ :: _ => sha_blocks f (sha_block st (take 64 b)) (drop 64 b)
  | _, _ => st
  end.

(** [hashlib.sha256(b).hexdigest()] *)
Definition sha256_hex (b : pybytes) : pystr :=
  let p := sha_pad b in
  let st := sha_blocks (length p) sha_init p in
  concat (map (hex_fixed 8) [sa st; sb st; sc st; sd st; se st; sf st; sg st; sh st]).

Lemma sha256_hex_length b : length (sha256_hex b) = 64%nat.
Proof.
  unfold sha256_hex. cbn [map concat]. rewrite !length_app, !hex_fixed_length. done.
Qed.

Lemma sha256_hex_chars b : Forall (λ c, is_hex_char c = true) (sha256_hex b).
Proof.
  unfold sha256_hex. cbn [map concat]. rewrite !Forall_app.
  split_and!; try apply hex_fixed_chars. done.
Qed.

(** Test vectors of the standard. *)
Example sha256_abc :
  sha256_hex (lit "abc") =
  lit "ba7816bf8f01cfea414140de5dae2223b00361a396177a9cb410ff61f20015ad".
Proof. vm_compute. reflexivity. Qed.

Example sha256_empty :
  sha256_hex [] = lit "e3b0c44298fc1c149afbf4c8996fb92427ae41e4649b934ca495991b7852b855".
Proof. vm_compute. reflexivity. Qed.

Example sha256_two_blocks :
  sha256_hex (lit "abcdbcdecdefdefgefghfghighijhijkijkljklmklmnlmnomnopnopq") =
  lit "248d6a61d20638b8e5c026930c3e6039a33ce45964ff2167f6ecedd419db06c1".
Proof. vm_compute. reflexivity. Qed.

#[global] Opaque sha256_hex.
