(* ===== verification/PyPath.v ===== *)
(** * [pathlib] paths

    A path is its text.  [path_name] is [PurePosixPath(s).name]: the last
    component after empty and ["."] components are dropped. *)

From S2P Require Import Prelude PyText.
Local Open Scope Z_scope.

(** [s.split(sep)] for a one-character separator. *)
Fixpoint py_split (sep : Z) (s : pystr) : list pystr :=
  match s with
  | [] => [[]]
  | c :: s' =>
      if c =? sep then [] :: py_split sep s'
      else match py_split sep s' with
           | p :: ps => (c :: p) :: ps
           | [] => [[c]]
           end
  end.

Definition slash : Z := 47.

Definition path_parts (s : pystr) : list pystr :=
  filter (λ p, p ≠ [] ∧ p ≠ [46]) (py_split slash s).

(** [PurePosixPath(s).name] *)
Definition path_name (s : pystr) : pystr := default [] (last (path_parts s)).

(** [str(Path(base) / name)] for a relative [name] without separators. *)
Definition path_join (base name : pystr) : pystr :=
  if bool_decide (base = [46]) || bool_decide (base = []) then name
  else if bool_decide (base = [slash]) then slash :: name
  else base ++ slash :: name.

(** ** Lemmas *)

Lemma py_split_nonempty sep s : py_split sep s ≠ [].
Proof. destruct s as [|c s]; cbn; [done|]. destruct (c =? sep); [done|]. by destruct (py_split sep s). Qed.

Lemma py_split_parts sep s p : p ∈ py_split sep s → sep ∉ p.
Proof.
  revert p. induction s as [|c s IH]; intros p; cbn.
  { intros ->%list_elem_of_singleton. apply not_elem_of_nil. }
  destruct (c =? sep) eqn:E; zbool.
  { intros [->|Hp]%elem_of_cons; [apply not_elem_of_nil|by apply IH]. }
  destruct (py_split sep s) as [|q qs].
  { intros ->%list_elem_of_singleton. apply not_elem_of_cons.
    split; [done|apply not_elem_of_nil]. }
  intros [->|Hp]%elem_of_cons; [|apply IH; by right].
  apply not_elem_of_cons. split; [done|]. apply IH. left.
Qed.

Lemma py_split_chars sep s p c : p ∈ py_split sep s → c ∈ p → c ∈ s.
Proof.
  revert p. induction s as [|x s IH]; intros p; cbn.
  { intros ->%list_elem_of_singleton. by intros ?%not_elem_of_nil. }
  destruct (x =? sep).
  { intros [->|Hp]%elem_of_cons; [by intros ?%not_elem_of_nil|]. right. by eapply IH. }
  destruct (py_split sep s) as [|q qs].
  { intros ->%list_elem_of_singleton. intros ->%list_elem_of_singleton. left. }
  intros [->|Hp]%elem_of_cons.
  - intros [->|Hc]%elem_of_cons; [left|right]. eapply IH; [left|done].
  - intros Hc. right. eapply IH; [by right|done].
Qed.

Lemma path_parts_elem s p :
  p ∈ path_parts s → p ≠ [] ∧ p ≠ [46] ∧ (slash ∉ p) ∧ (∀ c, c ∈ p → c ∈ s).
Proof.
  unfold path_parts. rewrite list_elem_of_filter. intros [[Hne Hd] Hin].
  split_and!; [done..|by eapply py_split_parts|]. intros c. by eapply py_split_chars.
Qed.

Lemma path_name_spec s :
  path_name s = [] ∨
  (path_name s ≠ [46] ∧ (slash ∉ path_name s) ∧ ∀ c, c ∈ path_name s → c ∈ s).
Proof.
  unfold path_name. destruct (last (path_parts s)) as [p|] eqn:E; [right|by left].
  apply last_Some_elem_of in E. apply path_parts_elem in E. naive_solver.
Qed.

Lemma path_name_no_slash s : slash ∉ path_name s.
Proof. destruct (path_name_spec s) as [->|(_ & H & _)]; [set_solver|done]. Qed.

Lemma py_split_single sep s : sep ∉ s → py_split sep s = [s].
Proof.
  induction s as [|c s IH]; intros Hs; cbn; [done|].
  rewrite (proj2 (Z.eqb_neq c sep)) by set_solver. rewrite IH by set_solver. done.
Qed.

Lemma py_split_app sep s t :
  sep ∉ t → py_split sep (s ++ sep :: t) = py_split sep s ++ [t].
Proof.
  intros Ht. induction s as [|c s IH]; cbn.
  - rewrite Z.eqb_refl. by rewrite py_split_single.
  - destruct (c =? sep) eqn:E; [by rewrite IH|]. rewrite IH.
    destruct (py_split sep s) as [|p ps] eqn:E'; [by apply py_split_nonempty in E'|done].
Qed.

(** The name of a joined path is the name that was joined. *)
Lemma path_name_join base name :
  slash ∉ name → name ≠ [] → name ≠ [46] → path_name (path_join base name) = name.
Proof.
  intros Hs Hne Hd.
  assert (path_name name = name) as Hn.
  { unfold path_name, path_parts. rewrite py_split_single by done.
    by rewrite filter_cons_True by done. }
  assert (∀ b, path_name (b ++ slash :: name) = name) as Happ.
  { intros b. unfold path_name, path_parts. rewrite py_split_app by done.
    rewrite filter_app, filter_cons_True by done. rewrite filter_nil. by rewrite last_snoc. }
  unfold path_join. destruct (_ || _); [done|]. case_bool_decide; [apply (Happ [])|apply Happ].
Qed.

Lemma path_join_inj base n1 n2 : path_join base n1 = path_join base n2 → n1 = n2.
Proof.
  unfold path_join. destruct (_ || _); [done|]. case_bool_decide; intros E; [by injection E|].
  apply app_inv_head in E. by injection E.
Qed.

Lemma starts_with_app pat s : starts_with pat (pat ++ s) = true.
Proof. induction pat as [|c pat IH]; cbn; [done|]. by rewrite Z.eqb_refl. Qed.
