(* ===== verification/Prog.v ===== *)
(** * Coroutines: a resumption monad with exceptions

    The service is asynchronous Python: a coroutine runs without interruption
    between two [await]s and may raise.  [prog St A] is such a coroutine over a
    shared state [St]: a tree of atomic actions [St → X * St] ending in a
    result or an exception.  [run] executes one coroutine alone; [pstep] lets
    the event loop interleave the actions of several.  [wp] is the weakest
    precondition of a sequential run, the form in which the components state
    what they promise. *)

From S2P Require Import Prelude PyText.

(** ** Exceptions *)

(** The exceptions the sources raise, catch or let through.  [ECancelled] is
    [asyncio.CancelledError], a [BaseException] that [except Exception] does
    not catch. *)
Inductive exn :=
| EIdempotencyConflict (msg : pystr)
| EIdempotencyInProgress (msg : pystr)
| EInvalidImage (msg : pystr)
| EValue (msg : pystr)
| EKey (key : pystr)
| EType (msg : pystr)
| EOS (msg : pystr)
| EFileNotFound (path : pystr)
| EDatabase (msg : pystr)
| EIntegrity
| EBroker (msg : pystr)
| EProcessor (msg : pystr)
| ERuntime (msg : pystr)
| EOverflow (msg : pystr)
| EZeroDivision
| EDecompressionBomb (msg : pystr)
| EModuleNotFound (msg : pystr)
| ETimeout
| EHTTP (status : Z) (detail : pystr)
| ECancelled.

#[export] Instance exn_eq_dec : EqDecision exn.
Proof. solve_decision. Defined.

(** [isinstance(e, Exception)] *)
Definition is_exception (e : exn) : bool :=
  match e with ECancelled => false | _ => true end.

(** [isinstance(e, OSError)] *)
Definition is_os_error (e : exn) : bool :=
  match e with EOS _ | EFileNotFound _ | ETimeout => true | _ => false end.

(** [isinstance(e, ValueError)]; the conflict error derives from it. *)
Definition is_value_error (e : exn) : bool :=
  match e with EValue _ | EIdempotencyConflict _ => true | _ => false end.

(** [str(e)] *)
Definition exn_str (e : exn) : pystr :=
  match e with
  | EIdempotencyConflict m | EIdempotencyInProgress m | EInvalidImage m | EValue m
  | EType m | EOS m | EDatabase m | EBroker m | EProcessor m | ERuntime m
  | EOverflow m | EDecompressionBomb m | EModuleNotFound m => m
  | EKey k => lit "'" ++ k ++ lit "'"
  | EFileNotFound p => lit "[Errno 2] No such file or directory: '" ++ p ++ lit "'"
  | EHTTP _ d => d
  | EZeroDivision => lit "float division by zero"
  | EIntegrity | ETimeout | ECancelled => []
  end.

Inductive outcome (A : Type) :=
| Ok (a : A)
| Exn (e : exn).
Arguments Ok {A} a.
Arguments Exn {A} e.

#[export] Instance outcome_ret : MRet outcome := @Ok.
#[export] Instance outcome_bind : MBind outcome := λ A B f o,
  match o with Ok a => f a | Exn e => Exn e end.

(** The value of a function that raises [e] when it has none. *)
Definition or_raise {A} (e : exn) (o : option A) : outcome A :=
  match o with Some a => Ok a | None => Exn e end.

(** Rewriting with this, instead of computing, keeps the kernel from evaluating
    the rest of the term. *)
Lemma or_raise_Some {A B} (e : exn) (a : A) (f : A → outcome B) : (or_raise e (Some a) ≫= f) = f a.
Proof. done. Qed.

(** ** Coroutines *)

Inductive prog (St A : Type) : Type :=
| Done (o : outcome A)
| Act (X : Type) (a : St → X * St) (k : X → prog St A).
Arguments Done {St A} o.
Arguments Act {St A} X a k.

Fixpoint prog_bind_def {St A B} (f : A → prog St B) (p : prog St A) : prog St B :=
  match p with
  | Done (Ok a) => f a
  | Done (Exn e) => Done (Exn e)
  | Act X a k => Act X a (λ x, prog_bind_def f (k x))
  end.

#[export] Instance prog_ret {St} : MRet (prog St) := λ A a, Done (Ok a).
#[export] Instance prog_bind {St} : MBind (prog St) := λ A B f p, prog_bind_def f p.

Definition raise {St A} (e : exn) : prog St A := Done (Exn e).

(** [try: p; except ...: h], the handler deciding what it catches. *)
Fixpoint try_except {St A} (p : prog St A) (h : exn → prog St A) : prog St A :=
  match p with
  | Done (Ok a) => Done (Ok a)
  | Done (Exn e) => h e
  | Act X a k => Act X a (λ x, try_except (k x) h)
  end.

(** [except] with a class test; other exceptions pass through. *)
Definition except_if {St A} (c : exn → bool) (p : prog St A) (h : exn → prog St A) : prog St A :=
  try_except p (λ e, if c e then h e else raise e).

(** [try: p; finally: q] *)
Definition try_finally {St A} (p : prog St A) (q : prog St unit) : prog St A :=
  x ← try_except p (λ e, q;; raise e); q;; mret x.

(** One atomic action, possibly raising. *)
Definition act {St A} (f : St → outcome A * St) : prog St A := Act (outcome A) f Done.
Definition modify {St} (f : St → St) : prog St unit := Act unit (λ w, (tt, f w)) (λ _, Done (Ok tt)).
Definition gets {St A} (f : St → A) : prog St A := Act A (λ w, (f w, w)) (λ x, Done (Ok x)).

(** A pure computation that may raise. *)
Definition lift {St A} (o : outcome A) : prog St A := Done o.

(** A [for] loop over a list. *)
Fixpoint for_each {St A} (l : list A) (f : A → prog St unit) : prog St unit :=
  match l with
  | [] => mret tt
  | x :: l' => f x;; for_each l' f
  end.

(** A comprehension [[f(x) for x in l]]. *)
Fixpoint map_prog {St A B} (f : A → prog St B) (l : list A) : prog St (list B) :=
  match l with
  | [] => mret []
  | x :: l' => y ← f x; ys ← map_prog f l'; mret (y :: ys)
  end.

(** ** Sequential execution *)

Fixpoint run {St A} (p : prog St A) (w : St) : outcome A * St :=
  match p with
  | Done o => (o, w)
  | Act X a k => let '(x, w') := a w in run (k x) w'
  end.

Section run.
Context {St : Type}.
Implicit Types (w : St).

Lemma run_ret {A} (a : A) w : run (mret a) w = (Ok a, w).
Proof. done. Qed.

Lemma run_bind {A B} (p : prog St A) (f : A → prog St B) w :
  run (p ≫= f) w = match run p w with
                   | (Ok a, w') => run (f a) w'
                   | (Exn e, w') => (Exn e, w')
                   end.
Proof.
  revert w. induction p as [[a|e]|X a k IH]; intros w; [done..|]. cbn.
  destruct (a w) as [x w']. apply IH.
Qed.

Lemma run_try {A} (p : prog St A) h w :
  run (try_except p h) w = match run p w with
                           | (Ok a, w') => (Ok a, w')
                           | (Exn e, w') => run (h e) w'
                           end.
Proof.
  revert w. induction p as [[a|e]|X a k IH]; intros w; [done..|]. cbn.
  destruct (a w) as [x w']. apply IH.
Qed.

Lemma run_except_if {A} (c : exn → bool) (p : prog St A) h w :
  run (except_if c p h) w = match run p w with
                            | (Ok a, w') => (Ok a, w')
                            | (Exn e, w') => if c e then run (h e) w' else (Exn e, w')
                            end.
Proof.
  unfold except_if. rewrite run_try. destruct (run p w) as [[a|e] w']; [done|].
  by destruct (c e).
Qed.

Lemma run_act {A} (f : St → outcome A * St) w : run (act f) w = f w.
Proof. cbn. by destruct (f w). Qed.

Lemma run_modify (f : St → St) w : run (modify f) w = (Ok tt, f w).
Proof. done. Qed.

Lemma run_gets {A} (f : St → A) w : run (gets f) w = (Ok (f w), w).
Proof. done. Qed.
End run.

Create Rewrite HintDb prog.
#[export] Hint Rewrite @run_ret @run_bind @run_try @run_except_if @run_act @run_modify @run_gets
  : prog.

(** ** Weakest preconditions of sequential runs *)

Definition wp {St A} (p : prog St A) (Q : outcome A → St → Prop) (w : St) : Prop :=
  Q (run p w).1 (run p w).2.

Section wp.
Context {St : Type}.

Lemma wp_run {A} (p : prog St A) (Q : outcome A → St → Prop) w o w' :
  wp p Q w → run p w = (o, w') → Q o w'.
Proof. unfold wp. intros HQ E. by rewrite E in HQ. Qed.

Lemma wp_intro {A} (p : prog St A) (Q : outcome A → St → Prop) w :
  (∀ o w', run p w = (o, w') → Q o w') → wp p Q w.
Proof. unfold wp. intros HQ. apply HQ. by destruct (run p w). Qed.

Lemma wp_mono {A} (p : prog St A) (Q R : outcome A → St → Prop) w :
  wp p Q w → (∀ o w', Q o w' → R o w') → wp p R w.
Proof. unfold wp. auto. Qed.

Lemma wp_and {A} (p : prog St A) (Q R : outcome A → St → Prop) w :
  wp p Q w → wp p R w → wp p (λ o w', Q o w' ∧ R o w') w.
Proof. done. Qed.

Lemma wp_done {A} (o : outcome A) (Q : outcome A → St → Prop) w : Q o w → wp (Done o) Q w.
Proof. done. Qed.

Lemma wp_ret {A} (a : A) (Q : outcome A → St → Prop) w : Q (Ok a) w → wp (mret a) Q w.
Proof. done. Qed.

Lemma wp_raise {A} e (Q : outcome A → St → Prop) w : Q (Exn e) w → wp (raise e) Q w.
Proof. done. Qed.

Lemma wp_bind {A B} (p : prog St A) (f : A → prog St B) (Q : outcome B → St → Prop) w :
  wp p (λ o w', match o with Ok a => wp (f a) Q w' | Exn e => Q (Exn e) w' end) w →
  wp (p ≫= f) Q w.
Proof. unfold wp. rewrite run_bind. by destruct (run p w) as [[a|e] w']. Qed.

Lemma wp_try {A} (p : prog St A) h (Q : outcome A → St → Prop) w :
  wp p (λ o w', match o with Ok a => Q (Ok a) w' | Exn e => wp (h e) Q w' end) w →
  wp (try_except p h) Q w.
Proof. unfold wp. rewrite run_try. by destruct (run p w) as [[a|e] w']. Qed.

Lemma wp_except_if {A} (c : exn → bool) (p : prog St A) h (Q : outcome A → St → Prop) w :
  wp p (λ o w', match o with
                | Ok a => Q (Ok a) w'
                | Exn e => if c e then wp (h e) Q w' else Q (Exn e) w'
                end) w →
  wp (except_if c p h) Q w.
Proof.
  unfold wp. rewrite run_except_if. destruct (run p w) as [[a|e] w']; [done|]. cbn. destruct (c e); auto.
Qed.

Lemma wp_finally {A} (p : prog St A) (q : prog St unit) (Q : outcome A → St → Prop) w :
  wp p (λ o w', wp q (λ o' w2, Q (match o' with Ok _ => o | Exn e => Exn e end) w2) w') w →
  wp (try_finally p q) Q w.
Proof.
  unfold wp, try_finally. rewrite run_bind, run_try. destruct (run p w) as [[a|e] w']; cbn; rewrite run_bind.
  - by destruct (run q w') as [[[]|e] w2].
  - by destruct (run q w') as [[[]|e'] w2].
Qed.

Lemma wp_act {A} (f : St → outcome A * St) (Q : outcome A → St → Prop) w :
  Q (f w).1 (f w).2 → wp (act f) Q w.
Proof. unfold wp. by rewrite run_act. Qed.

Lemma wp_modify (f : St → St) (Q : outcome unit → St → Prop) w : Q (Ok tt) (f w) → wp (modify f) Q w.
Proof. done. Qed.

Lemma wp_gets {A} (f : St → A) (Q : outcome A → St → Prop) w : Q (Ok (f w)) w → wp (gets f) Q w.
Proof. done. Qed.

(** A loop keeps an invariant its body keeps and stops at the first exception. *)
Lemma wp_for_each {A} (l : list A) (f : A → prog St unit) (I : St → Prop) (Q : outcome unit → St → Prop) w :
  (∀ x w, x ∈ l → I w → wp (f x) (λ o w', match o with Ok _ => I w' | Exn e => Q (Exn e) w' end) w) →
  (∀ w, I w → Q (Ok tt) w) → I w → wp (for_each l f) Q w.
Proof.
  revert w. induction l as [|x l IH]; intros w Hf HQ HI; cbn [for_each].
  - by apply wp_ret, HQ.
  - apply wp_bind. eapply wp_mono; [apply Hf; [left|done]|]. intros [a|e] w' H; [|done].
    apply IH; [|done..]. intros y w'' Hy. apply Hf. by right.
Qed.
End wp.

(** ** A coroutine on a part of the state *)

Fixpoint zoom {S T A} (get : T → S) (set : S → T → T) (p : prog S A) : prog T A :=
  match p with
  | Done o => Done o
  | Act X a k => Act X (λ t, let '(x, s) := a (get t) in (x, set s t)) (λ x, zoom get set (k x))
  end.

Lemma run_zoom {S T A} (get : T → S) (set : S → T → T) (p : prog S A) t :
  (∀ s t, get (set s t) = s) → (∀ s s' t, set s' (set s t) = set s' t) → (∀ t, set (get t) t = t) →
  run (zoom get set p) t = ((run p (get t)).1, set (run p (get t)).2 t).
Proof.
  intros Hgs Hss Hsg. revert t. induction p as [o|X a k IH]; intros t; cbn; [by rewrite Hsg|].
  destruct (a (get t)) as [x s]. by rewrite IH, Hgs, Hss.
Qed.

(** ** Interleaving *)

Section sched.
Context {St A : Type}.
Implicit Types (ts : list (prog St A)) (w : St).

(** One step of the event loop: some pending task performs its next action. *)
Inductive pstep : list (prog St A) * St → list (prog St A) * St → Prop :=
| pstep_act i X (a : St → X * St) k ts w x w' :
    ts !! i = Some (Act X a k) → a w = (x, w') →
    pstep (ts, w) (<[i := k x]> ts, w').

(** A task steps along a well-founded order, so no tasks run for ever. *)
Definition prog_lt (p' p : prog St A) : Prop :=
  match p with
  | Done _ => False
  | Act X a k => ∃ x, p' = k x
  end.

Lemma prog_lt_wf p : Acc prog_lt p.
Proof. induction p as [o|X a k IH]; constructor; [done|]. intros p' [x ->]. apply IH. Qed.

Lemma pstep_list_step c c' : pstep c c' → list_step prog_lt c'.1 c.1.
Proof. intros [i X a k ts w x w' Hi _]. exists i, (Act X a k), (k x). split_and!; [done|by eexists|done]. Qed.

(** The same, for an explicit schedule: the list of tasks to advance. *)
Fixpoint sched (order : list nat) (c : list (prog St A) * St) : list (prog St A) * St :=
  match order with
  | [] => c
  | i :: order' =>
      match c.1 !! i with
      | Some (Act X a k) => let '(x, w') := a c.2 in sched order' (<[i := k x]> c.1, w')
      | _ => sched order' c
      end
  end.

Lemma sched_reachable order c : rtc pstep c (sched order c).
Proof.
  revert c. induction order as [|i order IH]; intros [ts w]; [done|]. cbn.
  destruct (ts !! i) as [[o|X a k]|] eqn:E; [done| |done].
  destruct (a w) as [x w'] eqn:Ea. eapply rtc_l; [by econstructor|]. apply IH.
Qed.

(** Every action of [p] keeps [I]. *)
Fixpoint keeps (I : St → Prop) (p : prog St A) : Prop :=
  match p with
  | Done _ => True
  | Act X a k => (∀ w, I w → I (a w).2) ∧ ∀ x, keeps I (k x)
  end.

(** Then so does every interleaving of such tasks. *)
Lemma keeps_rtc I c c' :
  rtc pstep c c' → Forall (keeps I) c.1 → I c.2 → I c'.2 ∧ Forall (keeps I) c'.1.
Proof.
  induction 1 as [c|c c1 c' Hs _ IH]; [done|]. intros Hts HI.
  destruct Hs as [i X a k ts w x w' Hi Ha]; cbn in *.
  pose proof (proj1 (Forall_lookup _ _) Hts _ _ Hi) as [Haa Hkk]. apply IH.
  - by apply Forall_insert.
  - specialize (Haa w HI). by rewrite Ha in Haa.
Qed.
End sched.

(** Composition of tasks that keep an invariant. *)
Section keeps.
Context {St : Type} (I : St → Prop).

Lemma keeps_bind {A B} (p : prog St A) (f : A → prog St B) :
  keeps I p → (∀ x, keeps I (f x)) → keeps I (p ≫= f).
Proof. induction p as [[a|e]|X a k IH]; cbn; [auto..|]. intros [Ha Hk] Hf. split; [done|]. intros x. apply IH; auto. Qed.

Lemma keeps_try {A} (p : prog St A) h :
  keeps I p → (∀ e, keeps I (h e)) → keeps I (try_except p h).
Proof. induction p as [[a|e]|X a k IH]; cbn; [auto..|]. intros [Ha Hk] Hf. split; auto. Qed.

Lemma keeps_except_if {A} (c : exn → bool) (p : prog St A) h :
  keeps I p → (∀ e, keeps I (h e)) → keeps I (except_if c p h).
Proof. intros Hp Hh. apply keeps_try; [done|]. intros e. by destruct (c e). Qed.

Lemma keeps_for_each {A} (l : list A) f : (∀ x, keeps I (f x)) → keeps I (for_each l f).
Proof. intros Hf. induction l; cbn; [done|]. by apply keeps_bind. Qed.

Lemma keeps_map_prog {A B} (f : A → prog St B) (l : list A) :
  (∀ x, keeps I (f x)) → keeps I (map_prog f l).
Proof. intros Hf. induction l; cbn; [done|]. apply keeps_bind; [done|]. intros. by apply keeps_bind. Qed.

(** A sequential run is one of the interleavings. *)
Lemma keeps_run {A} (p : prog St A) w : keeps I p → I w → I (run p w).2.
Proof.
  revert w. induction p as [o|X a k IH]; intros w; cbn; [done|]. intros [Ha Hk] HI.
  specialize (Ha w HI). destruct (a w) as [x w']. by apply IH.
Qed.
End keeps.

#[export] Hint Resolve keeps_bind keeps_try keeps_except_if keeps_for_each keeps_map_prog : service.
