(* ===== verification/Interleave.v ===== *)
(** * Reasoning about interleaved coroutines

    A rely-guarantee logic for [pstep].  Each task is in a phase; each of its
    actions takes the shared state from a good one to a good one and makes a
    move the guarantee allows.  Being in a phase means seeing something of the
    state ([sees]); what a task knows besides is a predicate that no allowed
    move of any task falsifies.  [safe_reachable] is the
    soundness: an invariant of phases and state that allowed moves keep holds
    in every state any interleaving reaches. *)

From S2P Require Import Prelude PyText Prog.

(** Every action of [p] relates its states by [same]. *)
Fixpoint silent {St A} (same : St → St → Prop) (p : prog St A) : Prop :=
  match p with
  | Done _ => True
  | Act X a k => (∀ w, same w (a w).2) ∧ ∀ x, silent same (k x)
  end.

Section silent.
Context {St : Type} (same : St → St → Prop).

Lemma silent_bind {A B} (p : prog St A) (f : A → prog St B) :
  silent same p → (∀ x, silent same (f x)) → silent same (p ≫= f).
Proof. induction p as [[a|e]|X a k IH]; cbn; [auto..|]. intros [Ha Hk] Hf. split; [done|]. intros x. apply IH; auto. Qed.

Lemma silent_try {A} (p : prog St A) h :
  silent same p → (∀ e, silent same (h e)) → silent same (try_except p h).
Proof. induction p as [[a|e]|X a k IH]; cbn; [auto..|]. intros [Ha Hk] Hf. split; auto. Qed.

Lemma silent_act {A} (f : St → outcome A * St) : (∀ w, same w (f w).2) → silent same (act f).
Proof. done. Qed.
End silent.

Section safe.
Context {St Ph : Type}.
Context (good : St → Prop) (sees : Ph → St → Prop) (guar : Ph → St → St → Ph → Prop).

(** Knowledge no task can falsify. *)
Definition stable (κ : St → Prop) : Prop :=
  ∀ φ φ' w w', good w → good w' → sees φ w → guar φ w w' φ' → κ w → κ w'.

(** A task in phase [φ] that knows [κ] and ends as [Ψ] says. *)
Fixpoint safe {A} (φ : Ph) (κ : St → Prop) (p : prog St A)
    (Ψ : Ph → (St → Prop) → outcome A → Prop) : Prop :=
  match p with
  | Done o => Ψ φ κ o
  | Act X a k =>
      ∀ w, good w → sees φ w → κ w →
      let '(x, w') := a w in
      ∃ φ' κ', good w' ∧ guar φ w w' φ' ∧ stable κ' ∧ κ' w' ∧ safe φ' κ' (k x) Ψ
  end.

(** ** Rules *)

Lemma stable_and κ1 κ2 : stable κ1 → stable κ2 → stable (λ w, κ1 w ∧ κ2 w).
Proof. intros H1 H2 φ φ' w w' Hg Hg' Hs Hm [??]. split; [exact (H1 φ φ' w w' Hg Hg' Hs Hm ltac:(done))|exact (H2 φ φ' w w' Hg Hg' Hs Hm ltac:(done))]. Qed.

Lemma stable_true : stable (λ _, True).
Proof. done. Qed.

Lemma stable_pure (P : Prop) : stable (λ _, P).
Proof. intros φ φ' w w' _ _ _ _ H. exact H. Qed.

Lemma safe_mono {A} (p : prog St A) φ κ Ψ Ψ' :
  safe φ κ p Ψ → (∀ φ κ o, Ψ φ κ o → Ψ' φ κ o) → safe φ κ p Ψ'.
Proof.
  intros Hp HΨ. revert φ κ Hp. induction p as [o|X a k IH]; intros φ κ Hp; [by apply HΨ|].
  cbn in *. intros w Hg Hs Hk. specialize (Hp w Hg Hs Hk). destruct (a w) as [x w'].
  destruct Hp as (φ' & κ' & ? & ? & ? & ? & Hp). exists φ', κ'. split_and!; try done. by apply IH.
Qed.

Lemma safe_done {A} (o : outcome A) φ κ Ψ : Ψ φ κ o → safe φ κ (Done o) Ψ.
Proof. done. Qed.

Lemma safe_ret {A} (a : A) φ κ (Ψ : Ph → (St → Prop) → outcome A → Prop) :
  Ψ φ κ (Ok a) → safe φ κ (mret a) Ψ.
Proof. done. Qed.

Lemma safe_bind {A B} (p : prog St A) (f : A → prog St B) φ κ Ψ :
  safe φ κ p (λ φ' κ' o, match o with Ok a => safe φ' κ' (f a) Ψ | Exn e => Ψ φ' κ' (Exn e) end) →
  safe φ κ (p ≫= f) Ψ.
Proof.
  revert φ κ. induction p as [[a|e]|X a k IH]; intros φ κ Hp; [done..|]. cbn in *.
  intros w Hg Hs Hk. specialize (Hp w Hg Hs Hk). destruct (a w) as [x w'].
  destruct Hp as (φ' & κ' & ? & ? & ? & ? & Hp). exists φ', κ'. split_and!; try done. by apply IH.
Qed.

Lemma safe_try {A} (p : prog St A) (h : exn → prog St A) φ κ Ψ :
  safe φ κ p (λ φ' κ' o, match o with Ok a => Ψ φ' κ' (Ok a) | Exn e => safe φ' κ' (h e) Ψ end) →
  safe φ κ (try_except p h) Ψ.
Proof.
  revert φ κ. induction p as [[a|e]|X a k IH]; intros φ κ Hp; [done..|]. cbn in *.
  intros w Hg Hs Hk. specialize (Hp w Hg Hs Hk). destruct (a w) as [x w'].
  destruct Hp as (φ' & κ' & ? & ? & ? & ? & Hp). exists φ', κ'. split_and!; try done. by apply IH.
Qed.

Lemma safe_except_if {A} (c : exn → bool) (p : prog St A) h φ κ Ψ :
  safe φ κ p (λ φ' κ' o, match o with
                         | Ok a => Ψ φ' κ' (Ok a)
                         | Exn e => if c e then safe φ' κ' (h e) Ψ else Ψ φ' κ' (Exn e)
                         end) →
  safe φ κ (except_if c p h) Ψ.
Proof.
  intros Hp. apply safe_try. eapply safe_mono; [exact Hp|]. intros φ' κ' [a|e]; [done|]. by destruct (c e).
Qed.

Lemma safe_act {A} (f : St → outcome A * St) φ κ (Ψ : Ph → (St → Prop) → outcome A → Prop) :
  (∀ w, good w → sees φ w → κ w →
   ∃ φ' κ', good (f w).2 ∧ guar φ w (f w).2 φ' ∧ stable κ' ∧ κ' (f w).2 ∧ Ψ φ' κ' (f w).1) →
  safe φ κ (act f) Ψ.
Proof. intros H w Hg Hs Hk. specialize (H w Hg Hs Hk). by destruct (f w) as [o w']. Qed.

(** Actions that make no difference to the guarantee. *)
Lemma safe_silent {A} (same : St → St → Prop) (p : prog St A) φ κ Ψ :
  (∀ w w', same w w' → good w → good w' ∧ guar φ w w' φ) → stable κ →
  silent same p → (∀ o, Ψ φ κ o) → safe φ κ p Ψ.
Proof.
  intros Hsame Hst. induction p as [o|X a k IH]; [by intros; apply safe_done|]. intros [Ha Hk] HΨ.
  cbn. intros w Hg Hs Hw. specialize (Ha w). specialize (Hk (a w).1). destruct (a w) as [x w'].
  destruct (Hsame w w' Ha Hg) as [Hg' Hm]. exists φ, κ. split_and!; [done..| |by apply IH].
  by apply (Hst φ φ w w').
Qed.

(** One action whose effect a weakest precondition describes. *)
Lemma safe_act_wp {A} (f : St → outcome A * St) φ κ (Ψ : Ph → (St → Prop) → outcome A → Prop) :
  (∀ w, good w → sees φ w → κ w →
   wp (act f) (λ o w', ∃ φ' κ', good w' ∧ guar φ w w' φ' ∧ stable κ' ∧ κ' w' ∧ Ψ φ' κ' o) w) →
  safe φ κ (act f) Ψ.
Proof. intros H. apply safe_act. intros w Hg Hs Hw. specialize (H w Hg Hs Hw). unfold wp in H. by rewrite run_act in H. Qed.

(** ** Soundness *)

Section soundness.
Context {A : Type} (Ψ : Ph → (St → Prop) → outcome A → Prop) (Inv : list Ph → St → Prop).
Hypothesis inv_step : ∀ φs i φ φ' w w',
  Inv φs w → good w → good w' → φs !! i = Some φ → guar φ w w' φ' → Inv (<[i := φ']> φs) w'.
Hypothesis inv_sees : ∀ φs i φ w, Inv φs w → φs !! i = Some φ → sees φ w.

(** Each task is safe in its phase and what it knows holds. *)
Definition task_ok (w : St) (φ : Ph) (p : prog St A) : Prop :=
  ∃ κ, stable κ ∧ κ w ∧ safe φ κ p Ψ.

Definition config_ok (c : list (prog St A) * St) : Prop :=
  ∃ φs, good c.2 ∧ Inv φs c.2 ∧ Forall2 (task_ok c.2) φs c.1.

Lemma task_ok_other φ φ' w w' φj p :
  good w → good w' → sees φ w → guar φ w w' φ' → task_ok w φj p → task_ok w' φj p.
Proof. intros Hg Hg' Hse Hm (κ & Hst & Hk & Hs). exists κ. split_and!; [done| |done]. exact (Hst φ φ' w w' Hg Hg' Hse Hm Hk). Qed.

Lemma config_ok_step c c' : pstep c c' → config_ok c → config_ok c'.
Proof.
  intros Hstep. destruct Hstep as [i X a k ts w x w' Hi Ha]. intros (φs & Hg & HI & Hts). cbn in *.
  destruct (Forall2_lookup_r _ _ _ _ _ Hts Hi) as (φ & Hφ & κ & Hst & Hk & Hs).
  pose proof (inv_sees _ _ _ _ HI Hφ) as Hse. specialize (Hs w Hg Hse Hk). rewrite Ha in Hs. destruct Hs as (φ' & κ' & Hg' & Hm & Hst' & Hk' & Hs').
  exists (<[i := φ']> φs). split_and!; [done|by eapply inv_step|].
  apply Forall2_insert; [|by exists κ']. eapply Forall2_impl; [exact Hts|].
  intros φj p. by apply (task_ok_other φ φ').
Qed.

Lemma safe_reachable c c' : rtc pstep c c' → config_ok c → config_ok c'.
Proof. induction 1 as [|c1 c2 c3 Hs _ IH]; [done|]. intros Hc. by apply IH, (config_ok_step c1). Qed.
End soundness.
End safe.
