(* ===== verification/Domain.v ===== *)
(** * The domain layer: entities, retention policy, transfer objects

    Models [src/src/domain/entities] and [src/src/application/dto].  A
    [datetime] and a [timedelta] are integers of microseconds, the resolution
    of the Python types; the methods that read the clock take the reading as
    an argument. *)

From S2P Require Import Prelude PyText PyUuid.
Local Open Scope Z_scope.

#[global] Arguments lit : simpl never.
#[global] Arguments uuid_str : simpl never.

(** ** Image entity *)

Inductive ProcessingStatus := PENDING | PROCESSING | COMPLETED | FAILED.

#[export] Instance ProcessingStatus_eq_dec : EqDecision ProcessingStatus.
Proof. solve_decision. Defined.

(** [status.value] *)
Definition status_value (s : ProcessingStatus) : pystr :=
  match s with
  | PENDING => lit "pending"
  | PROCESSING => lit "processing"
  | COMPLETED => lit "completed"
  | FAILED => lit "failed"
  end.

(** [ProcessingStatus(text)]; [None] is [ValueError]. *)
Definition status_of (text : pystr) : option ProcessingStatus :=
  if decide (text = lit "pending") then Some PENDING
  else if decide (text = lit "processing") then Some PROCESSING
  else if decide (text = lit "completed") then Some COMPLETED
  else if decide (text = lit "failed") then Some FAILED
  else None.

Record ImageMetadata := MkMetadata {
  md_width : Z;
  md_height : Z;
  md_format : pystr;
  md_size_bytes : Z;
  md_channels : Z
}.

Record Image := MkImage {
  img_id : Z;
  img_filename : pystr;
  img_original_path : pystr;
  img_thumbnail_path : option pystr;
  img_metadata : option ImageMetadata;
  img_status : ProcessingStatus;
  img_tags : list pystr;
  img_created_at : Z;
  img_updated_at : Z;
  img_expires_at : option Z
}.

(** [_touch] *)
Definition touch (now : Z) (i : Image) : Image :=
  MkImage (img_id i) (img_filename i) (img_original_path i) (img_thumbnail_path i)
    (img_metadata i) (img_status i) (img_tags i) (img_created_at i) now (img_expires_at i).

Definition with_status (s : ProcessingStatus) (i : Image) : Image :=
  MkImage (img_id i) (img_filename i) (img_original_path i) (img_thumbnail_path i)
    (img_metadata i) s (img_tags i) (img_created_at i) (img_updated_at i) (img_expires_at i).

Definition mark_processing (now : Z) (i : Image) : Image := touch now (with_status PROCESSING i).

Definition mark_completed (now : Z) (thumbnail_path : pystr) (metadata : ImageMetadata)
    (i : Image) : Image :=
  let i := with_status COMPLETED i in
  let i := MkImage (img_id i) (img_filename i) (img_original_path i) (Some thumbnail_path)
             (Some metadata) (img_status i) (img_tags i) (img_created_at i) (img_updated_at i)
             (img_expires_at i) in
  touch now i.

Definition mark_failed (now : Z) (i : Image) : Image := touch now (with_status FAILED i).

(** [is_expired(now)]; [clock] is what [datetime.now(UTC)] would return. *)
Definition is_expired (clock : Z) (now : option Z) (i : Image) : bool :=
  match img_expires_at i with
  | None => false
  | Some e => e <=? default clock now
  end.

(** ** Retention policy *)

Record RetentionPolicy := MkPolicy {
  rp_name : pystr;
  rp_max_age : Z;
  rp_apply_to_tags : list pystr
}.

(** [matches]: an empty filter matches everything, otherwise the two tag sets
    must intersect. *)
Definition policy_matches (p : RetentionPolicy) (tags : list pystr) : bool :=
  match rp_apply_to_tags p with
  | [] => true
  | filter_tags =>
      negb (bool_decide ((list_to_set filter_tags ∩ list_to_set tags : gset pystr) = ∅))
  end.

(** ** Transfer objects *)

Record ImageUploadRequest := MkUploadRequest {
  ur_filename : pystr;
  ur_data : pybytes;
  ur_tags : list pystr;
  ur_ttl_hours : option Z
}.

Record ImageResponse := MkResponse {
  resp_id : Z;
  resp_filename : pystr;
  resp_status : pystr;
  resp_width : option Z;
  resp_height : option Z;
  resp_format : option pystr;
  resp_size_bytes : option Z;
  resp_tags : list pystr;
  resp_created_at : Z;
  resp_updated_at : Z;
  resp_expires_at : option Z;
  resp_thumbnail_available : bool
}.

Record ImageListResponse := MkListResponse {
  lr_images : list ImageResponse;
  lr_total : Z;
  lr_offset : Z;
  lr_limit : Z
}.

(** [_to_response] *)
Definition to_response (i : Image) : ImageResponse := {|
  resp_id := img_id i;
  resp_filename := img_filename i;
  resp_status := status_value (img_status i);
  resp_width := md_width <$> img_metadata i;
  resp_height := md_height <$> img_metadata i;
  resp_format := md_format <$> img_metadata i;
  resp_size_bytes := md_size_bytes <$> img_metadata i;
  resp_tags := img_tags i;
  resp_created_at := img_created_at i;
  resp_updated_at := img_updated_at i;
  resp_expires_at := img_expires_at i;
  resp_thumbnail_available := bool_decide (is_Some (img_thumbnail_path i))
|}.

(** A message of the processing queue ([src/src/domain/interfaces]). *)
Record Message := MkMessage {
  msg_topic : pystr;
  msg_key : pystr;
  msg_value : pybytes
}.

#[export] Instance Message_eq_dec : EqDecision Message.
Proof. solve_decision. Defined.

(** An idempotency record and a thumbnail, as the ports exchange them. *)
Record IdempotencyRecord := MkIdempotency {
  ir_scope : pystr;
  ir_key : pystr;
  ir_request_hash : pystr;
  ir_status : pystr;
  ir_image_id : option Z
}.

Record ProcessingResult := MkResult {
  pr_thumbnail_data : pybytes;
  pr_width : Z;
  pr_height : Z;
  pr_format : pystr;
  pr_size_bytes : Z;
  pr_channels : Z
}.

(** ** Lemmas *)

Lemma status_roundtrip s : status_of (status_value s) = Some s.
Proof. by destruct s. Qed.

Lemma status_of_value text s : status_of text = Some s → text = status_value s.
Proof. unfold status_of. intros E. repeat case_decide; by simplify_eq. Qed.

Lemma policy_matches_spec p tags :
  policy_matches p tags = true ↔
  rp_apply_to_tags p = [] ∨ ∃ t, t ∈ rp_apply_to_tags p ∧ t ∈ tags.
Proof.
  unfold policy_matches. destruct (rp_apply_to_tags p) as [|a l]; [naive_solver|].
  rewrite negb_true_iff, bool_decide_eq_false. split.
  - intros Hne. right. apply set_choose_L in Hne as [t Ht]. exists t. set_solver.
  - intros [?|(t & Ht & Ht')]; [done|]. intros E.
    assert (t ∈ (list_to_set (a :: l) ∩ list_to_set tags : gset (list Z))) as Hin by set_solver.
    rewrite E in Hin. set_solver.
Qed.

#[export] Hint Resolve status_roundtrip : service.
