(* ===== verification/Database.v ===== *)
(** * The PostgreSQL repository: tables, statements, entity mapping

    Models [src/src/infrastructure/database/models.py] and the statements and
    mapping helpers of [postgres_image_repository.py].  A statement is a function
    on the two tables that may raise; the coroutines around them are in
    [Repository.v].  [save] and [complete_idempotency_record] are two of
    them, a [SELECT] and the flush of what changed since, between which (READ
    COMMITTED) other transactions may commit.

    The server is the class [Postgres]: the order in which a scan returns rows
    that no [ORDER BY] sorts, which SQL leaves open, for each statement anew. *)

From S2P Require Import Prelude PyText PyUuid Prog Domain.
Local Open Scope Z_scope.

(** ** Rows *)

Record ImageModel := MkImageModel {
  m_id : Z;
  m_filename : pystr;
  m_original_path : pystr;
  m_thumbnail_path : option pystr;
  m_status : pystr;
  m_width : option Z;
  m_height : option Z;
  m_format : option pystr;
  m_size_bytes : option Z;
  m_channels : option Z;
  m_tags : option (list pystr);
  m_created_at : Z;
  m_updated_at : Z;
  m_expires_at : option Z
}.

Record IdempotencyKeyModel := MkKeyModel {
  k_scope : pystr;
  k_key : pystr;
  k_request_hash : pystr;
  k_status : pystr;
  k_image_id : option pystr;
  k_created_at : Z;
  k_updated_at : Z
}.

(** The column types: [text] holds no NUL and no surrogate, [varchar(n)] at
    most [n] characters, [integer] is 32 bits wide. *)
Definition pg_text (s : pystr) : bool := forallb (λ c, is_scalar c && negb (c =? 0)) s.
Definition pg_varchar (n : nat) (s : pystr) : bool := pg_text s && bool_decide (length s ≤ n)%nat.
Definition pg_int4 (z : Z) : bool := (- 2 ^ 31 <=? z) && (z <? 2 ^ 31).
Definition nullable {A} (p : A → bool) (o : option A) : bool :=
  match o with None => true | Some x => p x end.

Definition image_row_ok (m : ImageModel) : bool :=
  pg_varchar 512 (m_filename m) && pg_text (m_original_path m) &&
  nullable pg_text (m_thumbnail_path m) && pg_varchar 20 (m_status m) &&
  nullable pg_int4 (m_width m) && nullable pg_int4 (m_height m) &&
  nullable (pg_varchar 20) (m_format m) && nullable pg_int4 (m_size_bytes m) &&
  nullable pg_int4 (m_channels m) && nullable (forallb pg_text) (m_tags m).

Definition key_row_ok (k : IdempotencyKeyModel) : bool :=
  pg_varchar 32 (k_scope k) && pg_varchar 255 (k_key k) && pg_varchar 64 (k_request_hash k) &&
  pg_varchar 20 (k_status k) && nullable (pg_varchar 36) (k_image_id k).

#[export] Instance ImageModel_eq_dec : EqDecision ImageModel.
Proof. solve_decision. Defined.
#[export] Instance IdempotencyKeyModel_eq_dec : EqDecision IdempotencyKeyModel.
Proof. solve_decision. Defined.

Record db := MkDb {
  db_images : gmap Z ImageModel;
  db_keys : gmap (pystr * pystr) IdempotencyKeyModel
}.

Definition set_images (t : gmap Z ImageModel) (d : db) : db := MkDb t (db_keys d).
Definition set_keys (t : gmap (pystr * pystr) IdempotencyKeyModel) (d : db) : db :=
  MkDb (db_images d) t.

(** The server's choice: the order of an unsorted scan, which may be another in
    each statement; statements are told apart by a number. *)
Class Postgres := {
  pg_scan : nat → gmap Z ImageModel → list ImageModel;
  pg_scan_perm n t : pg_scan n t ≡ₚ (map_to_list t).*2
}.

(** ** Entity mapping *)

(** [_entity_to_model]; the metadata columns keep their values when the entity
    has no metadata. *)
Definition entity_to_model (e : Image) (m : ImageModel) : ImageModel := {|
  m_id := m_id m;
  m_filename := img_filename e;
  m_original_path := img_original_path e;
  m_thumbnail_path := img_thumbnail_path e;
  m_status := status_value (img_status e);
  m_width := match img_metadata e with Some d => Some (md_width d) | None => m_width m end;
  m_height := match img_metadata e with Some d => Some (md_height d) | None => m_height m end;
  m_format := match img_metadata e with Some d => Some (md_format d) | None => m_format m end;
  m_size_bytes :=
    match img_metadata e with Some d => Some (md_size_bytes d) | None => m_size_bytes m end;
  m_channels := match img_metadata e with Some d => Some (md_channels d) | None => m_channels m end;
  m_tags := Some (img_tags e);
  m_created_at := img_created_at e;
  m_updated_at := img_updated_at e;
  m_expires_at := img_expires_at e
|}.

(** [x or d] for an optional integer. *)
Definition or_int (o : option Z) (d : Z) : Z :=
  match o with Some z => if z =? 0 then d else z | None => d end.

(** [_model_to_entity] *)
Definition model_to_entity (m : ImageModel) : outcome Image :=
  let metadata :=
    match m_width m with
    | None => None
    | Some w => Some (MkMetadata w (or_int (m_height m) 0) (default [] (m_format m))
                        (or_int (m_size_bytes m) 0) (or_int (m_channels m) 3))
    end in
  s ← or_raise (EValue (m_status m ++ lit " is not a valid ProcessingStatus"))
        (status_of (m_status m));
  mret {|
    img_id := m_id m;
    img_filename := m_filename m;
    img_original_path := m_original_path m;
    img_thumbnail_path := m_thumbnail_path m;
    img_metadata := metadata;
    img_status := s;
    img_tags := default [] (m_tags m);
    img_created_at := m_created_at m;
    img_updated_at := m_updated_at m;
    img_expires_at := m_expires_at m
  |}.

(** [ImageModel(id=id)], before any attribute is assigned. *)
Definition new_image_model (id : Z) : ImageModel :=
  MkImageModel id [] [] None [] None None None None None None 0 0 None.

Fixpoint models_to_entities (l : list ImageModel) : outcome (list Image) :=
  match l with
  | [] => mret []
  | m :: l' => e ← model_to_entity m; es ← models_to_entities l'; mret (e :: es)
  end.

(** ** Transactions on [images] *)

(** [session.get(ImageModel, id)]: the row, before its conversion. *)
Definition get_txn (id : Z) (d : db) : outcome (option ImageModel * db) :=
  Ok (db_images d !! id, d).

Definition does_not_fit : exn := EDatabase (lit "value does not fit its column").
Definition stale_data : exn :=
  EDatabase (lit "UPDATE statement on table expected to update 1 row(s); 0 were matched.").

(** The flush of a loaded object writes the columns whose value is no longer the
    one that was loaded; the others stay as they are in the row by then. *)
Definition column {A} `{EqDecision A} (old new cur : A) : A := if decide (new = old) then cur else new.

Definition update_row (old new cur : ImageModel) : ImageModel := {|
  m_id := m_id cur;
  m_filename := column (m_filename old) (m_filename new) (m_filename cur);
  m_original_path := column (m_original_path old) (m_original_path new) (m_original_path cur);
  m_thumbnail_path := column (m_thumbnail_path old) (m_thumbnail_path new) (m_thumbnail_path cur);
  m_status := column (m_status old) (m_status new) (m_status cur);
  m_width := column (m_width old) (m_width new) (m_width cur);
  m_height := column (m_height old) (m_height new) (m_height cur);
  m_format := column (m_format old) (m_format new) (m_format cur);
  m_size_bytes := column (m_size_bytes old) (m_size_bytes new) (m_size_bytes cur);
  m_channels := column (m_channels old) (m_channels new) (m_channels cur);
  m_tags := column (m_tags old) (m_tags new) (m_tags cur);
  m_created_at := column (m_created_at old) (m_created_at new) (m_created_at cur);
  m_updated_at := column (m_updated_at old) (m_updated_at new) (m_updated_at cur);
  m_expires_at := column (m_expires_at old) (m_expires_at new) (m_expires_at cur)
|}.

(** The end of [save]: the entity's values go into the object that [session.get]
    answered, or into a new one, which the commit flushes.  The primary key
    refuses a second row; an [UPDATE] that finds no row any more is an error. *)
Definition flush_txn (e : Image) (model : option ImageModel) (d : db) : outcome (unit * db) :=
  match model with
  | None =>
      let m := entity_to_model e (new_image_model (img_id e)) in
      if image_row_ok m then
        match db_images d !! img_id e with
        | Some _ => Exn EIntegrity
        | None => Ok (tt, set_images (<[img_id e := m]> (db_images d)) d)
        end
      else Exn does_not_fit
  | Some old =>
      let new := entity_to_model e old in
      if decide (new = old) then Ok (tt, d)
      else
        match db_images d !! img_id e with
        | None => Exn stale_data
        | Some cur =>
            let m := update_row old new cur in
            if image_row_ok m then Ok (tt, set_images (<[img_id e := m]> (db_images d)) d)
            else Exn does_not_fit
        end
  end.

(** A save that no other transaction comes between. *)
Definition save_txn (e : Image) (d : db) : outcome (unit * db) :=
  '(model, d) ← get_txn (img_id e) d; flush_txn e model d.

(** [OFFSET] and [LIMIT] refuse negative numbers. *)
Definition sql_window {A} (offset limit : Z) (l : list A) : outcome (list A) :=
  if (offset <? 0) || (limit <? 0)
  then Exn (EDatabase (lit "OFFSET and LIMIT must not be negative"))
  else Ok (take (Z.to_nat limit) (drop (Z.to_nat offset) l)).

(** [if status: stmt.where(ImageModel.status == status)] *)
Definition status_where (status : option pystr) (m : ImageModel) : bool :=
  match status with
  | None => true
  | Some s => bool_decide (s = []) || bool_decide (m_status m = s)
  end.

Definition newest_first (a b : ImageModel) : Prop := m_created_at b ≤ m_created_at a.
#[export] Instance newest_first_dec a b : Decision (newest_first a b).
Proof. unfold newest_first. apply _. Defined.

(** [select(ImageModel).order_by(created_at.desc())] with the optional filter, as
    the [n]-th statement. *)
Definition list_query `{Postgres} (n : nat) (status : option pystr) (d : db) : list ImageModel :=
  merge_sort newest_first (filter (λ m, status_where status m = true) (pg_scan n (db_images d))).

Definition list_txn `{Postgres} (n : nat) (offset limit : Z) (status : option pystr) (d : db) :
    outcome (list ImageModel * db) :=
  rows ← sql_window offset limit (list_query n status d); Ok (rows, d).

(** [delete]: whether a row was deleted. *)
Definition delete_txn (id : Z) (d : db) : outcome (bool * db) :=
  Ok (bool_decide (is_Some (db_images d !! id)), set_images (delete id (db_images d)) d).

(** [expires_at IS NOT NULL AND expires_at <= now] *)
Definition expired_where (now : Z) (m : ImageModel) : bool :=
  match m_expires_at m with None => false | Some e => e <=? now end.

Definition expired_query `{Postgres} (n : nat) (now : Z) (d : db) : list ImageModel :=
  filter (λ m, expired_where now m = true) (pg_scan n (db_images d)).

Definition expired_txn `{Postgres} (n : nat) (now batch_size : Z) (d : db) : outcome (list ImageModel * db) :=
  rows ← sql_window 0 batch_size (expired_query n now d); Ok (rows, d).

(** [delete_expired_batch]: select for update, skipping the rows other
    transactions hold locked, then delete what was selected. *)
Definition sweep_txn `{Postgres} (n : nat) (now batch_size : Z) (locked : gset Z) (d : db) :
    outcome (list ImageModel * db) :=
  models ← sql_window 0 batch_size (filter (λ m, m_id m ∉ locked) (expired_query n now d));
  let ids := m_id <$> models in
  Ok (models,
      if bool_decide (models = []) then d
      else set_images (filter (λ kv, kv.1 ∉ ids) (db_images d)) d).

(** The rows become entities inside the transaction: a row that does not
    convert rolls it back. *)
Definition to_entities (o : outcome (list ImageModel * db)) : outcome (list Image * db) :=
  '(models, d) ← o; es ← models_to_entities models; Ok (es, d).

(** [count] *)
Definition count_txn (status : option pystr) (d : db) : outcome (Z * db) :=
  Ok (Z.of_nat (length (filter (λ m, status_where status m = true) (map_to_list (db_images d)).*2)), d).

(** ** Transactions on [idempotency_keys] *)

Definition key_get_txn `{PyTables} (scope key : pystr) (d : db) :
    outcome (option IdempotencyRecord * db) :=
  match db_keys d !! (scope, key) with
  | None => Ok (None, d)
  | Some k =>
      image_id ← match k_image_id k with
                 | None | Some [] => Ok None
                 | Some s => u ← or_raise (EValue (lit "badly formed hexadecimal UUID string"))
                                   (uuid_parse s);
                             Ok (Some u)
                 end;
      Ok (Some (MkIdempotency (k_scope k) (k_key k) (k_request_hash k) (k_status k) image_id), d)
  end.

(** [create_idempotency_record]: the primary key makes the second insert fail
    with an [IntegrityError], which the method turns into [False]. *)
Definition key_create_txn (created updated : Z) (scope key request_hash : pystr) (image_id : option Z) (d : db) :
    outcome (bool * db) :=
  let k := MkKeyModel scope key request_hash (lit "in_progress") (uuid_str <$> image_id) created updated in
  if key_row_ok k then
    match db_keys d !! (scope, key) with
    | Some _ => Ok (false, d)
    | None => Ok (true, set_keys (<[(scope, key) := k]> (db_keys d)) d)
    end
  else Exn does_not_fit.

(** [complete_idempotency_record] *)
Definition complete_key (now image_id : Z) (k : IdempotencyKeyModel) : IdempotencyKeyModel :=
  MkKeyModel (k_scope k) (k_key k) (k_request_hash k) (lit "completed") (Some (uuid_str image_id))
    (k_created_at k) now.

(** [session.get(IdempotencyKeyModel, ...)], and the flush of what changed. *)
Definition key_select_txn (scope key : pystr) (d : db) : outcome (option IdempotencyKeyModel * db) :=
  Ok (db_keys d !! (scope, key), d).

Definition update_key (old new cur : IdempotencyKeyModel) : IdempotencyKeyModel := {|
  k_scope := k_scope cur;
  k_key := k_key cur;
  k_request_hash := k_request_hash cur;
  k_status := column (k_status old) (k_status new) (k_status cur);
  k_image_id := column (k_image_id old) (k_image_id new) (k_image_id cur);
  k_created_at := k_created_at cur;
  k_updated_at := column (k_updated_at old) (k_updated_at new) (k_updated_at cur)
|}.

Definition key_flush_txn (now : Z) (scope key : pystr) (image_id : Z) (old : IdempotencyKeyModel) (d : db) :
    outcome (unit * db) :=
  let new := complete_key now image_id old in
  if decide (new = old) then Ok (tt, d)
  else
    match db_keys d !! (scope, key) with
    | None => Exn stale_data
    | Some cur => Ok (tt, set_keys (<[(scope, key) := update_key old new cur]> (db_keys d)) d)
    end.

(** A completion that no other transaction comes between. *)
Definition key_complete_txn (now : Z) (scope key : pystr) (image_id : Z) (d : db) :
    outcome (unit * db) :=
  '(model, d) ← key_select_txn scope key d;
  match model with
  | None => Ok (tt, d)
  | Some k => key_flush_txn now scope key image_id k d
  end.

(** [delete_idempotency_record] *)
Definition key_delete_txn (scope key : pystr) (d : db) : outcome (unit * db) :=
  Ok (tt, set_keys (delete (scope, key) (db_keys d)) d).

(** ** The invariant of the tables *)

(** A row is stored under its own id, fits its columns and has a known status. *)
Definition row_ok (id : Z) (m : ImageModel) : Prop :=
  m_id m = id ∧ image_row_ok m = true ∧ is_Some (status_of (m_status m)).

Definition db_ok (d : db) : Prop :=
  map_Forall row_ok (db_images d) ∧
  map_Forall (λ sk k, (k_scope k, k_key k) = sk ∧ key_row_ok k = true) (db_keys d).

(** ** Entity mapping: lemmas *)

Lemma or_int_id z : or_int (Some z) 0 = z.
Proof. unfold or_int. by destruct (z =? 0) eqn:E; zbool. Qed.

(** The metadata an entity can carry through the database: any dimensions, a
    channel count other than 0 (read back as 3); without metadata the row must
    not hold any from before. *)
Definition metadata_kept (e : Image) (old : option ImageModel) : Prop :=
  match img_metadata e with
  | Some d => md_channels d ≠ 0
  | None => match old with Some m => m_width m = None | None => True end
  end.

Lemma model_entity_back e m :
  m_id m = img_id e → metadata_kept e (Some m) →
  model_to_entity (entity_to_model e m) = Ok e.
Proof.
  unfold metadata_kept. destruct e as [id fn op th md st tg ca ua ea]; cbn. intros Hid Hmd.
  unfold model_to_entity. cbn -[or_int]. rewrite status_roundtrip, Hid. cbn -[or_int].
  destruct md as [[w h f sz ch]|]; cbn -[or_int] in *.
  - rewrite !or_int_id. unfold or_int. by rewrite (proj2 (Z.eqb_neq ch 0)).
  - by rewrite Hmd.
Qed.

Lemma model_to_entity_id m e : model_to_entity m = Ok e → img_id e = m_id m.
Proof.
  unfold model_to_entity. destruct (status_of (m_status m)); [|done]. cbn. by intros [= <-].
Qed.

Lemma model_to_entity_total m : is_Some (status_of (m_status m)) → ∃ e, model_to_entity m = Ok e.
Proof. unfold model_to_entity. intros [s ->]. cbn. eauto. Qed.

Lemma models_to_entities_total l :
  Forall (λ m, is_Some (status_of (m_status m))) l →
  ∃ es, models_to_entities l = Ok es ∧ Forall2 (λ m e, model_to_entity m = Ok e) l es.
Proof.
  induction 1 as [|m l Hm Hl (es & IH & IH2)]; [by exists []|]. cbn.
  destruct (model_to_entity_total m Hm) as [e He]. rewrite He. cbn. rewrite IH. cbn. eauto.
Qed.

Lemma models_to_entities_Ok l es :
  models_to_entities l = Ok es → Forall2 (λ m e, model_to_entity m = Ok e) l es.
Proof.
  revert es. induction l as [|m l IH]; intros es; cbn; [by intros [= <-]|].
  destruct (model_to_entity m) as [e|] eqn:E; [|done]. cbn.
  destruct (models_to_entities l) as [es'|]; [|done]. cbn. intros [= <-]. eauto.
Qed.

Lemma to_entities_Ok o es d :
  to_entities o = Ok (es, d) →
  ∃ models, o = Ok (models, d) ∧ Forall2 (λ m e, model_to_entity m = Ok e) models es.
Proof.
  unfold to_entities. destruct o as [[models d']|]; [|done]. cbn.
  destruct (models_to_entities models) as [es'|] eqn:E; [|done]. cbn. intros [= <- <-].
  exists models. split; [done|]. by apply models_to_entities_Ok.
Qed.

(** Updating the row an entity was read from. *)

Definition metadata_fits (d : ImageMetadata) : bool :=
  pg_int4 (md_width d) && pg_int4 (md_height d) && pg_varchar 20 (md_format d) &&
  pg_int4 (md_size_bytes d) && pg_int4 (md_channels d).

Lemma model_to_entity_inv m i :
  model_to_entity m = Ok i →
  m_id m = img_id i ∧ m_filename m = img_filename i ∧ m_original_path m = img_original_path i ∧
  m_thumbnail_path m = img_thumbnail_path i ∧ m_status m = status_value (img_status i) ∧
  default [] (m_tags m) = img_tags i.
Proof.
  unfold model_to_entity. destruct (status_of (m_status m)) as [s|] eqn:E; [|done]. cbn.
  intros [= <-]. cbn. by apply status_of_value in E.
Qed.

Lemma model_to_entity_kept m i : model_to_entity m = Ok i → metadata_kept i (Some m).
Proof.
  unfold model_to_entity, metadata_kept. destruct (status_of (m_status m)); [|done]. cbn -[or_int].
  intros [= <-]. cbn -[or_int]. destruct (m_width m); cbn -[or_int]; [|done].
  unfold or_int. destruct (m_channels m) as [c|]; [|done]. by destruct (c =? 0) eqn:E; zbool.
Qed.

Lemma or_int_fits o d : nullable pg_int4 o = true → pg_int4 d = true → pg_int4 (or_int o d) = true.
Proof. unfold or_int. destruct o as [z|]; cbn; [|done]. by destruct (z =? 0). Qed.

Lemma model_metadata_fits m i md :
  image_row_ok m = true → model_to_entity m = Ok i → img_metadata i = Some md →
  metadata_fits md = true.
Proof.
  destruct m. unfold image_row_ok. cbn [m_filename m_original_path m_thumbnail_path m_status m_width
    m_height m_format m_size_bytes m_channels m_tags]. intros Hm. zbool. unfold model_to_entity.
  cbn [m_status]. destruct (status_of _); [|done]. cbn -[or_int]. intros [= <-]. cbn -[or_int].
  destruct m_width0 as [w|]; [|done]. intros [= <-]. unfold metadata_fits.
  cbn [md_width md_height md_format md_size_bytes md_channels].
  rewrite !andb_true_iff. split_and!; [done|by apply or_int_fits| |by apply or_int_fits..].
  by destruct m_format0.
Qed.

Lemma row_refit m i i' :
  image_row_ok m = true → model_to_entity m = Ok i →
  img_filename i' = img_filename i → img_original_path i' = img_original_path i →
  img_tags i' = img_tags i → nullable pg_text (img_thumbnail_path i') = true →
  img_metadata i' = img_metadata i ∨ (∃ md, img_metadata i' = Some md ∧ metadata_fits md = true) →
  image_row_ok (entity_to_model i' m) = true.
Proof.
  intros Hm Hi Hfn Hop Htg Hth Hmd. pose proof (model_to_entity_inv _ _ Hi) as (_ & Hf & Hp & _ & _ & Ht).
  assert (∀ md, img_metadata i' = Some md → metadata_fits md = true) as Hfit.
  { intros md E. destruct Hmd as [Hmd|(md' & Hmd & ?)]; [|congruence].
    eapply model_metadata_fits; [exact Hm|exact Hi|congruence]. }
  unfold image_row_ok, entity_to_model in *. zbool.
  cbn [m_filename m_original_path m_thumbnail_path m_status m_width m_height m_format m_size_bytes
       m_channels m_tags] in *.
  assert (forallb pg_text (img_tags i) = true) as Htags.
  { rewrite <- Ht. by destruct (m_tags m). }
  rewrite Hfn, Hop, Htg, Hth, <- Hf, <- Hp. cbn [nullable]. rewrite Htags.
  assert (pg_varchar 20 (status_value (img_status i')) = true) as -> by by destruct (img_status i').
  destruct (img_metadata i') as [md|].
  - specialize (Hfit md eq_refl). unfold metadata_fits in Hfit. zbool.
    rewrite !andb_true_iff. by split_and!.
  - rewrite !andb_true_iff. by split_and!.
Qed.

(** *** Flushes *)

Lemma column_self {A} `{EqDecision A} (old new : A) : column old new old = new.
Proof. unfold column. by case_decide. Qed.

Lemma column_either {A} `{EqDecision A} (old new cur : A) : column old new cur = new ∨ column old new cur = cur.
Proof. unfold column. case_decide; auto. Qed.

Lemma update_row_self old new : m_id new = m_id old → update_row old new old = new.
Proof. intros Hid. unfold update_row. rewrite !column_self. destruct new. cbn in *. by f_equal. Qed.

Lemma update_key_self now id k : update_key k (complete_key now id k) k = complete_key now id k.
Proof. unfold update_key. by rewrite !column_self. Qed.

(** Without a transaction in between, a save writes every column. *)
Lemma save_txn_eq e d :
  db_ok d →
  save_txn e d =
  (let m := entity_to_model e (default (new_image_model (img_id e)) (db_images d !! img_id e)) in
   if image_row_ok m then Ok (tt, set_images (<[img_id e := m]> (db_images d)) d) else Exn does_not_fit).
Proof.
  intros [Hok _]. unfold save_txn, get_txn, flush_txn. cbn. destruct (db_images d !! img_id e) as [old|] eqn:E; [|done].
  cbn. destruct (map_Forall_lookup_1 _ _ _ _ Hok E) as (_ & Hrow & _). destruct (decide _) as [->|].
  - rewrite Hrow, insert_id by done. by destruct d.
  - by rewrite update_row_self.
Qed.

Lemma key_complete_txn_eq now scope key u d :
  key_complete_txn now scope key u d =
  match db_keys d !! (scope, key) with
  | None => Ok (tt, d)
  | Some k => Ok (tt, set_keys (<[(scope, key) := complete_key now u k]> (db_keys d)) d)
  end.
Proof.
  unfold key_complete_txn, key_select_txn, key_flush_txn. cbn. destruct (db_keys d !! (scope, key)) as [k|] eqn:E; [|done].
  destruct (decide _) as [->|].
  - rewrite insert_id by done. by destruct d.
  - by rewrite update_key_self.
Qed.

(** A row that a flush writes: the entity's value or the row's, column by column. *)
Lemma flush_txn_inv e model d r d' :
  flush_txn e model d = Ok (r, d') →
  d' = d ∨ ∃ m, image_row_ok m = true ∧ d' = set_images (<[img_id e := m]> (db_images d)) d ∧
    ((model = None ∧ db_images d !! img_id e = None ∧ m = entity_to_model e (new_image_model (img_id e))) ∨
     ∃ old cur, model = Some old ∧ db_images d !! img_id e = Some cur ∧
                m = update_row old (entity_to_model e old) cur).
Proof.
  unfold flush_txn. destruct model as [old|].
  - destruct (decide _); [intros [= _ <-]; by left|]. destruct (_ !! _) as [cur|] eqn:E; [|done].
    destruct (image_row_ok _) eqn:Hm; [|done]. intros [= _ <-]. right. eexists. split_and!; [exact Hm|done|].
    right. by exists old, cur.
  - destruct (image_row_ok _) eqn:Hm; [|done]. destruct (_ !! _) eqn:E; [done|]. intros [= _ <-].
    right. eexists. split_and!; [exact Hm|done|]. by left.
Qed.

Lemma key_flush_txn_inv now scope key u old d r d' :
  key_flush_txn now scope key u old d = Ok (r, d') →
  d' = d ∨ ∃ cur, db_keys d !! (scope, key) = Some cur ∧
    d' = set_keys (<[(scope, key) := update_key old (complete_key now u old) cur]> (db_keys d)) d.
Proof.
  unfold key_flush_txn. destruct (decide _); [intros [= _ <-]; by left|].
  destruct (_ !! _) as [cur|]; [|done]. intros [= _ <-]. right. by exists cur.
Qed.

Lemma flush_txn_keys e model d r d' : flush_txn e model d = Ok (r, d') → db_keys d' = db_keys d.
Proof. by intros [->|(m & _ & -> & _)]%flush_txn_inv. Qed.

Lemma save_txn_keys e d r d' : save_txn e d = Ok (r, d') → db_keys d' = db_keys d.
Proof. apply flush_txn_keys. Qed.

Lemma save_txn_row e d m :
  db_ok d → db_images d !! img_id e = Some m → m_id m = img_id e → metadata_kept e (Some m) →
  image_row_ok (entity_to_model e m) = true →
  save_txn e d = Ok (tt, set_images (<[img_id e := entity_to_model e m]> (db_images d)) d) ∧
  model_to_entity (entity_to_model e m) = Ok e.
Proof.
  intros Hok Hl Hid Hk Hr. rewrite save_txn_eq by done. rewrite Hl. cbv zeta.
  change (default (new_image_model (img_id e)) (Some m)) with m. rewrite Hr. split; [done|].
  by apply model_entity_back.
Qed.

(** ** Scans *)

Section scan.
Context `{Postgres} (n : nat).

Lemma scan_elem t m : m ∈ pg_scan n t ↔ ∃ id, t !! id = Some m.
Proof.
  rewrite (pg_scan_perm n t), list_elem_of_fmap. split.
  - intros ([id m'] & -> & Hin%elem_of_map_to_list). eauto.
  - intros [id Hid%elem_of_map_to_list]. by exists (id, m).
Qed.

Lemma scan_ids t : map_Forall row_ok t → m_id <$> pg_scan n t ≡ₚ (map_to_list t).*1.
Proof.
  intros Hok. rewrite (pg_scan_perm n t).
  assert ((m_id <$> (map_to_list t).*2) = (map_to_list t).*1) as ->; [|done].
  rewrite <- list_fmap_compose. apply list_fmap_ext. intros i [id m] Hi. cbn.
  apply list_elem_of_lookup_2, elem_of_map_to_list in Hi.
  by destruct (map_Forall_lookup_1 _ _ _ _ Hok Hi).
Qed.

Lemma scan_ids_nodup t : map_Forall row_ok t → NoDup (m_id <$> pg_scan n t).
Proof. intros Hok. rewrite (scan_ids t Hok). apply NoDup_fst_map_to_list. Qed.

Lemma scan_lookup t m : map_Forall row_ok t → m ∈ pg_scan n t → t !! m_id m = Some m.
Proof.
  intros Hok [id Hid]%scan_elem. by destruct (map_Forall_lookup_1 _ _ _ _ Hok Hid) as (-> & _).
Qed.

Lemma expired_query_elem now d m :
  m ∈ expired_query n now d ↔ expired_where now m = true ∧ ∃ id, db_images d !! id = Some m.
Proof. unfold expired_query. by rewrite list_elem_of_filter, scan_elem. Qed.

Lemma list_query_perm status d :
  list_query n status d ≡ₚ filter (λ m, status_where status m = true) (pg_scan n (db_images d)).
Proof. apply merge_sort_Permutation. Qed.

Lemma list_query_sorted status d : Sorted newest_first (list_query n status d).
Proof. apply Sorted_merge_sort. intros a b. unfold newest_first. lia. Qed.

Lemma NoDup_fmap_filter {A B} (f : A → B) (P : A → Prop) `{∀ x, Decision (P x)} (l : list A) :
  NoDup (f <$> l) → NoDup (f <$> filter P l).
Proof.
  induction l as [|x l IH]; [done|]. rewrite fmap_cons. intros [Hx Hl]%NoDup_cons.
  destruct (decide (P x)); [rewrite filter_cons_True by done|rewrite filter_cons_False by done; auto].
  cbn. apply NoDup_cons. split; [|auto]. intros Hin. apply Hx.
  apply list_elem_of_fmap in Hin as (y & -> & [_ Hy]%list_elem_of_filter).
  apply list_elem_of_fmap. eauto.
Qed.

(** ** The tables' invariant is kept *)

Lemma entity_to_model_status e m : status_of (m_status (entity_to_model e m)) = Some (img_status e).
Proof. cbn. apply status_roundtrip. Qed.

Lemma db_row_id d id m : db_ok d → db_images d !! id = Some m → m_id m = id.
Proof. intros [Hok _] Hid. by destruct (map_Forall_lookup_1 _ _ _ _ Hok Hid). Qed.

Lemma default_row_id e d :
  db_ok d → m_id (default (new_image_model (img_id e)) (db_images d !! img_id e)) = img_id e.
Proof.
  intros Hok. destruct (db_images d !! img_id e) as [m|] eqn:E; [|done]. by eapply db_row_id.
Qed.

(** Whatever was loaded, and whatever happened to the row since. *)
Lemma flush_txn_ok e model d r d' : flush_txn e model d = Ok (r, d') → db_ok d → db_ok d'.
Proof.
  intros Hf Hok. apply flush_txn_inv in Hf as [->|(m & Hrow & -> & Hm)]; [done|]. destruct Hok as [Hi Hk].
  split; [|done]. cbn. apply map_Forall_insert_2; [|done].
  destruct Hm as [(_ & _ & ->)|(old & cur & _ & E & ->)].
  - split_and!; [done|done|]. rewrite entity_to_model_status. eauto.
  - destruct (map_Forall_lookup_1 _ _ _ _ Hi E) as (Hid & _ & Hst). split_and!; [done|done|]. cbn.
    destruct (column_either (m_status old) (status_value (img_status e)) (m_status cur)) as [-> | ->]; [|done].
    rewrite status_roundtrip. eauto.
Qed.

Lemma save_txn_ok e d r d' : save_txn e d = Ok (r, d') → db_ok d → db_ok d'.
Proof. apply flush_txn_ok. Qed.

Lemma delete_txn_ok id d r d' : delete_txn id d = Ok (r, d') → db_ok d → db_ok d'.
Proof. intros [= _ <-] [Hi Hk]. split; [|done]. by apply map_Forall_delete. Qed.

Lemma map_Forall_filter_1 {K A} `{Countable K} (P : K → A → Prop) (Q : K * A → Prop)
  `{∀ x, Decision (Q x)} (m : gmap K A) : map_Forall P m → map_Forall P (filter Q m).
Proof. intros HP i x [Hi _]%map_lookup_filter_Some. by apply HP. Qed.

Lemma sweep_txn_ok now b locked d r d' : sweep_txn n now b locked d = Ok (r, d') → db_ok d → db_ok d'.
Proof.
  unfold sweep_txn. destruct (sql_window _ _ _) as [rows|]; [|done]. cbn.
  intros [= _ <-] [Hi Hk]. case_bool_decide; [done|]. split; [|done]. by apply map_Forall_filter_1.
Qed.

Lemma key_create_txn_ok t1 t2 s k h i d r d' :
  key_create_txn t1 t2 s k h i d = Ok (r, d') → db_ok d → db_ok d'.
Proof.
  unfold key_create_txn. case_match eqn:Erow; [|done]. case_match; intros [= _ <-] [Hi Hk]; [done|].
  split; [done|]. by apply map_Forall_insert_2.
Qed.

Lemma pg_text_app s t : pg_text (s ++ t) = pg_text s && pg_text t.
Proof. apply forallb_app. Qed.

Lemma ascii_pg_text s : Forall (λ c, (0 <? c) && (c <? 128) = true) s → pg_text s = true.
Proof.
  induction 1 as [|c s Hc Hs IH]; [done|]. cbn. zbool. unfold is_scalar, is_surrogate.
  zdecide. cbn. exact IH.
Qed.

Lemma uuid_str_varchar u : pg_varchar 36 (uuid_str u) = true.
Proof.
  unfold pg_varchar. rewrite uuid_str_length. rewrite bool_decide_true by lia.
  rewrite ascii_pg_text; [done|]. eapply Forall_impl_bool; [|apply uuid_str_chars].
  unfold is_hex_or_dash, is_hex_char, is_digit. intros c Hc.
  apply orb_true_iff in Hc as [[Hc|Hc]%orb_true_iff|Hc]; zbool; zdecide; done.
Qed.

Lemma complete_key_ok now u k : key_row_ok k = true → key_row_ok (complete_key now u k) = true.
Proof.
  unfold key_row_ok, complete_key.
  cbn [k_scope k_key k_request_hash k_status k_image_id nullable]. intros Hk. zbool.
  rewrite uuid_str_varchar.
  repeat match goal with E : pg_varchar _ _ = true |- _ => rewrite E; clear E end. done.
Qed.

Lemma key_flush_txn_ok now s k i old d r d' :
  key_flush_txn now s k i old d = Ok (r, d') → db_ok d → db_ok d'.
Proof.
  intros Hf Hok. apply key_flush_txn_inv in Hf as [->|(cur & E & ->)]; [done|]. destruct Hok as [Hi Hk].
  split; [done|]. destruct (map_Forall_lookup_1 _ _ _ _ Hk E) as [? Hrow].
  apply map_Forall_insert_2; [|done]. split; [done|]. revert Hrow. unfold key_row_ok.
  cbn [update_key k_scope k_key k_request_hash k_status k_image_id complete_key]. intros Hrow. zbool.
  destruct (column_either (k_status old) (lit "completed") (k_status cur)) as [-> | ->],
    (column_either (k_image_id old) (Some (uuid_str i)) (k_image_id cur)) as [-> | ->];
    cbn [nullable]; rewrite ?uuid_str_varchar;
    repeat match goal with E : _ = true |- _ => rewrite E; clear E end; done.
Qed.

Lemma key_complete_txn_ok now s k i d r d' :
  key_complete_txn now s k i d = Ok (r, d') → db_ok d → db_ok d'.
Proof.
  unfold key_complete_txn, key_select_txn. cbn. destruct (_ !! _); [apply key_flush_txn_ok|by intros [= _ <-]].
Qed.

Lemma key_delete_txn_ok s k d r d' : key_delete_txn s k d = Ok (r, d') → db_ok d → db_ok d'.
Proof. intros [= _ <-] [Hi Hk]. split; [done|]. by apply map_Forall_delete. Qed.

End scan.

(** Saving an entity under a new id. *)
Lemma save_txn_new e d r d' :
  db_ok d → db_images d !! img_id e = None → metadata_kept e None → save_txn e d = Ok (r, d') →
  let m := entity_to_model e (new_image_model (img_id e)) in
  d' = set_images (<[img_id e := m]> (db_images d)) d ∧ model_to_entity m = Ok e.
Proof.
  intros Hok. rewrite save_txn_eq by done. intros -> Hmd. cbn [default]. case_match; [|done]. intros [= _ <-].
  split; [done|]. apply model_entity_back; [done|]. unfold metadata_kept in *.
  by destruct (img_metadata e).
Qed.

Lemma key_complete_txn_images now s k i d r d' :
  key_complete_txn now s k i d = Ok (r, d') → db_images d' = db_images d.
Proof. rewrite key_complete_txn_eq. by case_match; intros [= _ <-]. Qed.

Lemma key_flush_txn_images now s k i old d r d' :
  key_flush_txn now s k i old d = Ok (r, d') → db_images d' = db_images d.
Proof. by intros [->|(cur & _ & ->)]%key_flush_txn_inv. Qed.

#[export] Hint Resolve save_txn_ok delete_txn_ok sweep_txn_ok key_create_txn_ok
  key_complete_txn_ok key_delete_txn_ok : service.

(** ** What the transactions promise *)

(** A list is determined by the values of a function that tells its elements apart. *)
Lemma fmap_eq_perm {A B} (f : A → B) (l1 l2 : list A) :
  l1 ≡ₚ l2 → f <$> l1 = f <$> l2 → NoDup (f <$> l1) → l1 = l2.
Proof.
  intros Hp Hf Hnd. assert (∀ x y, x ∈ l1 → y ∈ l1 → f x = f y → x = y) as Hinj.
  { intros x y [i Hi]%list_elem_of_lookup [j Hj]%list_elem_of_lookup E.
    assert (i = j) as ->; [|congruence].
    eapply NoDup_lookup; [exact Hnd| |]; rewrite list_lookup_fmap, ?Hi, ?Hj; cbn; [done|by rewrite E]. }
  apply list_eq. intros i. pose proof (f_equal (λ l, l !! i) Hf) as Hi. cbn in Hi. rewrite !list_lookup_fmap in Hi.
  destruct (l1 !! i) as [x|] eqn:Ex, (l2 !! i) as [y|] eqn:Ey; try done. f_equal. apply Hinj.
  - by eapply list_elem_of_lookup_2.
  - rewrite Hp. by eapply list_elem_of_lookup_2.
  - cbn in Hi. congruence.
Qed.

Lemma sorted_dates (l1 l2 : list ImageModel) :
  m_created_at <$> l1 = m_created_at <$> l2 → Sorted newest_first l2 → Sorted newest_first l1.
Proof.
  revert l2. induction l1 as [|a l1 IH]; intros [|b l2]; cbn; try done. intros [= Hab Hl] Hs.
  inversion Hs as [|? ? Hs' Hb]; subst. constructor; [by eapply IH|].
  destruct l1 as [|a' l1]; [constructor|]. destruct l2 as [|b' l2]; [done|]. injection Hl as Ha' _.
  inversion Hb as [|? ? Hn]; subst. constructor. unfold newest_first in *. by rewrite Ha', Hab.
Qed.

Section promises.
Context `{Postgres}.

(** The rows that pass the status filter. *)
Definition matching (status : option pystr) (d : db) : list ImageModel :=
  filter (λ m, status_where status m = true) (map_to_list (db_images d)).*2.

Lemma list_query_matching n status d : list_query n status d ≡ₚ matching status d.
Proof. rewrite list_query_perm. unfold matching. by rewrite (pg_scan_perm n). Qed.

Lemma matching_elem status d m :
  m ∈ matching status d ↔ status_where status m = true ∧ ∃ id, db_images d !! id = Some m.
Proof.
  unfold matching. rewrite list_elem_of_filter, list_elem_of_fmap. split.
  - intros [Hs ([id m'] & -> & Hin%elem_of_map_to_list)]. eauto.
  - intros [Hs [id Hid%elem_of_map_to_list]]. split; [done|]. by exists (id, m).
Qed.

Lemma matching_ids status d : db_ok d → NoDup (m_id <$> matching status d).
Proof.
  intros [Hok _]. unfold matching. apply NoDup_fmap_filter.
  rewrite <- (pg_scan_perm 0). by apply scan_ids_nodup.
Qed.

(** The [i]-th page of [limit] rows, read by the statement [ns i]. *)
Definition page (ns : nat → nat) (status : option pystr) (limit : Z) (d : db) (i : nat) : list ImageModel :=
  match list_txn (ns i) (Z.of_nat i * limit) limit status d with
  | Ok (rows, _) => rows
  | Exn _ => []
  end.

Lemma list_txn_window n offset limit status d :
  0 ≤ offset → 0 ≤ limit →
  list_txn n offset limit status d =
  Ok (take (Z.to_nat limit) (drop (Z.to_nat offset) (list_query n status d)), d).
Proof. intros. unfold list_txn, sql_window. zdecide. done. Qed.

Lemma page_window ns status limit d i :
  0 ≤ limit →
  page ns status limit d i = take (Z.to_nat limit) (drop (i * Z.to_nat limit) (list_query (ns i) status d)).
Proof.
  intros. unfold page. rewrite list_txn_window by lia.
  by replace (Z.to_nat (Z.of_nat i * limit)) with (i * Z.to_nat limit)%nat by lia.
Qed.

(** The first [k] windows of width [n] of a list are its first [k * n] elements. *)
Lemma concat_windows {A} (l : list A) n k :
  concat (map (λ i, take n (drop (i * n) l)) (seq 0 k)) = take (k * n) l.
Proof.
  induction k as [|k IH]; [done|].
  rewrite seq_S, map_app, concat_app, IH. cbn. rewrite app_nil_r.
  rewrite <- (take_drop (k * n) (take (n + k * n) l)). f_equal.
  - rewrite take_take. f_equal. lia.
  - rewrite <- (Nat.add_comm (k * n) n). by rewrite drop_take_drop || rewrite take_drop_commute.
Qed.

Lemma count_txn_length n status d :
  count_txn status d = Ok (Z.of_nat (length (list_query n status d)), d).
Proof. unfold count_txn. by rewrite list_query_matching. Qed.

(** Whatever the order of the scan, the dates come in the same order. *)
Lemma list_query_dates n n' status d :
  m_created_at <$> list_query n status d = m_created_at <$> list_query n' status d.
Proof.
  assert (∀ n, StronglySorted (λ a b, b ≤ a) (m_created_at <$> list_query n status d)) as Hs.
  { intros n0. pose proof (list_query_sorted n0 status d) as Hs. apply Sorted_StronglySorted; [intros ???; lia|].
    induction Hs as [|m l _ IH Hm]; cbn; [constructor|]. constructor; [done|]. by destruct Hm; constructor. }
  assert (AntiSymm (=) (λ a b : Z, b ≤ a)) by (intros a b ? ?; lia).
  apply (StronglySorted_unique (λ a b, b ≤ a)); [done..|]. by rewrite !list_query_matching.
Qed.

(** Rows with different dates have one order only. *)
Lemma list_query_unique n n' status d :
  NoDup (m_created_at <$> matching status d) → list_query n status d = list_query n' status d.
Proof.
  intros Hnd. apply (fmap_eq_perm m_created_at).
  - by rewrite !list_query_matching.
  - apply list_query_dates.
  - by rewrite !list_query_matching.
Qed.

Lemma StronglySorted_window {A} (R : A → A → Prop) (l : list A) i n :
  StronglySorted R l → StronglySorted R (take n (drop i l)).
Proof.
  intros Hs. rewrite <- (take_drop i l), <- (take_drop n (drop i l)) in Hs.
  by apply StronglySorted_app in Hs as (_ & _ & (_ & Hs & _)%StronglySorted_app).
Qed.

(** What a single page holds. *)
Lemma page_rows ns status limit d i :
  db_ok d → 0 < limit →
  NoDup (m_id <$> page ns status limit d i) ∧ Sorted newest_first (page ns status limit d i) ∧
  (∀ m, m ∈ page ns status limit d i → m ∈ matching status d) ∧
  length (page ns status limit d i) = (Z.to_nat limit `min` (length (matching status d) - i * Z.to_nat limit))%nat.
Proof.
  intros Hok Hlim. rewrite page_window by lia. split_and!.
  - rewrite fmap_take, fmap_drop. eapply sublist_NoDup; [|by etrans; [apply sublist_take|apply sublist_drop]].
    rewrite list_query_matching. by apply matching_ids.
  - apply StronglySorted_Sorted, StronglySorted_window, Sorted_StronglySorted; [|apply list_query_sorted].
    intros a b c. unfold newest_first. lia.
  - intros m Hm. rewrite <- (list_query_matching (ns i)).
    by apply subseteq_take, subseteq_drop in Hm.
  - rewrite length_take, length_drop. by rewrite list_query_matching.
Qed.

(** C31: pagination, of a table that does not change between the pages, each of
    which is a statement of its own.  A page holds rows that pass the status
    filter, none twice, newest first, and is full unless the rows end.  One
    after the other, the pages list as many rows as [count] says, with the dates
    of all matching rows in their order.  If no two matching rows have the same
    date, they list every matching row exactly once; rows of the same date may
    be listed twice or not at all, as [ORDER BY] says nothing of them. *)
Theorem list_pages_complete (d : db) (status : option pystr) (limit : Z) (k : nat) (ns : nat → nat) :
  db_ok d → 0 < limit → Z.of_nat (length (matching status d)) ≤ Z.of_nat k * limit →
  let listed := concat (map (page ns status limit d) (seq 0 k)) in
  (∀ i, NoDup (m_id <$> page ns status limit d i) ∧ Sorted newest_first (page ns status limit d i) ∧
        (∀ m, m ∈ page ns status limit d i → status_where status m = true ∧ db_images d !! m_id m = Some m) ∧
        length (page ns status limit d i) =
          (Z.to_nat limit `min` (length (matching status d) - i * Z.to_nat limit))%nat) ∧
  Sorted newest_first listed ∧
  m_created_at <$> listed ≡ₚ m_created_at <$> matching status d ∧
  count_txn status d = Ok (Z.of_nat (length listed), d) ∧
  (NoDup (m_created_at <$> matching status d) →
   NoDup (m_id <$> listed) ∧
   ∀ m, m ∈ listed ↔ status_where status m = true ∧ db_images d !! m_id m = Some m).
Proof.
  intros Hok Hlim Hk listed.
  assert (∀ m, m ∈ matching status d ↔ status_where status m = true ∧ db_images d !! m_id m = Some m) as Hin.
  { intros m. rewrite matching_elem. split; [|naive_solver]. intros [Hs [id Hid]].
    by rewrite (db_row_id _ _ _ Hok Hid). }
  assert (m_created_at <$> listed = m_created_at <$> list_query 0 status d) as Hdates.
  { unfold listed. rewrite concat_map, map_map.
    erewrite map_ext; [|intros i; rewrite page_window, fmap_take, fmap_drop, (list_query_dates _ 0) by lia; reflexivity].
    rewrite concat_windows. apply take_ge. rewrite length_fmap, list_query_matching. lia. }
  split_and!.
  - intros i. destruct (page_rows ns status limit d i Hok Hlim) as (H1 & H2 & H3 & H4). split_and!; try done.
    intros m Hm. by apply Hin, H3.
  - apply (sorted_dates _ (list_query 0 status d)); [done|apply list_query_sorted].
  - rewrite Hdates. by rewrite list_query_matching.
  - rewrite (count_txn_length 0). do 3 f_equal. by rewrite <- (length_fmap m_created_at listed), Hdates, length_fmap.
  - intros Hnd. assert (listed = list_query 0 status d) as ->.
    { unfold listed. erewrite map_ext; [|intros i; rewrite page_window, (list_query_unique _ 0) by (lia || done); reflexivity].
      rewrite concat_windows. apply take_ge. rewrite list_query_matching. lia. }
    split; [rewrite list_query_matching; by apply matching_ids|]. intros m. by rewrite list_query_matching.
Qed.

(** C30: saving an image and reading it back gives the same entity, whatever
    row was there before, as long as its metadata can be kept (a channel count
    of 0 is read back as 3); no other row and no idempotency record changes. *)
Theorem save_get_roundtrip (e : Image) (d d' : db) :
  db_ok d → metadata_kept e (db_images d !! img_id e) → save_txn e d = Ok (tt, d') →
  (∃ m, get_txn (img_id e) d' = Ok (Some m, d') ∧ model_to_entity m = Ok e) ∧
  (∀ id, id ≠ img_id e → get_txn id d' = Ok (db_images d !! id, d')) ∧
  db_keys d' = db_keys d.
Proof.
  unfold get_txn. intros Hok Hmd. rewrite save_txn_eq by done. cbn. case_match; [|done]. intros [= <-]. cbn.
  rewrite lookup_insert_eq. split_and!; [|intros; by rewrite lookup_insert_ne|done].
  eexists. split; [done|]. apply model_entity_back; [by apply default_row_id|].
  unfold metadata_kept in *. destruct (img_metadata e); [done|].
  by destruct (db_images d !! img_id e).
Qed.

(** The rows a sweep selects. *)
Lemma sweep_txn_inv n now batch locked d models d' :
  sweep_txn n now batch locked d = Ok (models, d') →
  0 ≤ batch ∧
  models = take (Z.to_nat batch) (filter (λ m, m_id m ∉ locked) (expired_query n now d)) ∧
  db_keys d' = db_keys d ∧
  (∀ id, db_images d' !! id = if decide (id ∈ m_id <$> models) then None else db_images d !! id).
Proof.
  unfold sweep_txn, sql_window. destruct (0 <? 0); [done|]. cbn.
  destruct (batch <? 0) eqn:Hb; [done|]. zbool. cbn. rewrite drop_0.
  intros [= <- <-]. split_and!; [done..|by case_bool_decide|].
  intros id. case_bool_decide as Hm.
  - rewrite Hm. cbn. by rewrite decide_False by set_solver.
  - cbn. rewrite map_lookup_filter. destruct (db_images d !! id); cbn.
    + case_decide as H1; case_decide as H2; done.
    + by case_decide.
Qed.

Lemma sweep_txn_rows n now batch locked d models d' :
  db_ok d → sweep_txn n now batch locked d = Ok (models, d') →
  Z.of_nat (length models) ≤ batch ∧
  NoDup (m_id <$> models) ∧
  (∀ m, m ∈ models →
     expired_where now m = true ∧ (m_id m ∉ locked) ∧ db_images d !! m_id m = Some m).
Proof.
  intros Hok Hs. pose proof (sweep_txn_inv _ _ _ _ _ _ _ Hs) as (Hb & Hm & _). split_and!.
  - rewrite Hm, length_take. lia.
  - rewrite Hm, fmap_take. eapply sublist_NoDup; [|apply sublist_take].
    do 2 apply NoDup_fmap_filter. apply scan_ids_nodup. by destruct Hok.
  - intros m Hin. rewrite Hm in Hin. apply elem_of_take in Hin as (i & Hi & _).
    apply list_elem_of_lookup_2, list_elem_of_filter in Hi as [Hlock [He [id Hid]]%expired_query_elem].
    split_and!; [done..|]. by rewrite (db_row_id _ _ _ Hok Hid).
Qed.

Lemma sweep_txn_complete n now batch locked d models d' id m :
  db_ok d → sweep_txn n now batch locked d = Ok (models, d') →
  Z.of_nat (length models) < batch →
  db_images d !! id = Some m → expired_where now m = true → id ∉ locked → id ∈ m_id <$> models.
Proof.
  intros Hok (Hb & Hm & _)%sweep_txn_inv Hlen Hid He Hn.
  apply list_elem_of_fmap. exists m. split; [symmetry; by eapply db_row_id|].
  assert (m ∈ filter (λ m, m_id m ∉ locked) (expired_query n now d)) as Hin'.
  { apply list_elem_of_filter. rewrite (db_row_id _ _ _ Hok Hid), expired_query_elem. eauto. }
  rewrite Hm, take_ge; [done|]. rewrite Hm, length_take in Hlen. lia.
Qed.

(** C32: a retention sweep returns at most [batch_size] rows, all expired, in
    the table and not locked by a concurrent sweep, no row twice; it deletes
    exactly those; and if it returns fewer than [batch_size], no unlocked
    expired row is left. *)
Theorem sweep_deletes_expired (n : nat) (now batch : Z) (locked : gset Z) (d : db)
    (models : list ImageModel) (d' : db) :
  db_ok d → sweep_txn n now batch locked d = Ok (models, d') →
  Z.of_nat (length models) ≤ batch ∧
  NoDup (m_id <$> models) ∧
  (∀ m, m ∈ models →
     expired_where now m = true ∧ (m_id m ∉ locked) ∧ db_images d !! m_id m = Some m) ∧
  (∀ id, db_images d' !! id = if decide (id ∈ m_id <$> models) then None else db_images d !! id) ∧
  (Z.of_nat (length models) < batch →
   ∀ id m, db_images d' !! id = Some m → expired_where now m = true → id ∈ locked) ∧
  db_ok d'.
Proof.
  intros Hok Hs. pose proof (sweep_txn_inv _ _ _ _ _ _ _ Hs) as (Hb & Hm & Hk & Hl).
  pose proof (sweep_txn_rows _ _ _ _ _ _ _ Hok Hs) as (H1 & H2 & H3). split_and!; [done..| |].
  - intros Hlen id m Hid He. destruct (decide (id ∈ locked)) as [|Hn]; [done|exfalso].
    rewrite Hl in Hid. case_decide as Hin; [done|]. apply Hin. by eapply sweep_txn_complete.
  - by eapply sweep_txn_ok.
Qed.

End promises.
