(* ===== verification/Cache.v ===== *)
(** * The in-memory TTL cache

    Models [src/src/infrastructure/cache/in_memory_cache.py].  An entry holds
    a reference to the [Image] object, not a copy, so the cache aliases the
    objects its callers mutate: the store maps an id to a heap location and an
    expiry instant of [time.monotonic].  Each method runs under the lock, so it
    is one atomic function; the clock readings are arguments, in the order the
    method takes them. *)

From S2P Require Import Prelude PyDict.
Local Open Scope Z_scope.

(** Identities of Python objects. *)
Abbreviation loc := positive.

Record CacheEntry := MkEntry { ce_image : loc; ce_expires_at : Z }.

Record InMemoryImageCache := MkCache {
  ttl_seconds : Z;
  max_size : Z;
  store_ : list (Z * CacheEntry)
}.

Definition with_store (st : list (Z * CacheEntry)) (c : InMemoryImageCache) : InMemoryImageCache :=
  MkCache (ttl_seconds c) (max_size c) st.

(** [get] *)
Definition cache_get (now : Z) (id : Z) (c : InMemoryImageCache) :
    option loc * InMemoryImageCache :=
  match dict_get id (store_ c) with
  | None => (None, c)
  | Some e =>
      if ce_expires_at e <? now then (None, with_store (dict_del id (store_ c)) c)
      else (Some (ce_image e), c)
  end.

(** [_evict_expired] *)
Definition evict_expired (now : Z) (c : InMemoryImageCache) : InMemoryImageCache :=
  let expired := (filter (λ kv, ce_expires_at kv.2 < now) (store_ c)).*1 in
  with_store (dict_del_all expired (store_ c)) c.

(** [min(self._store, key=...)]: the first key with the smallest expiry. *)
Fixpoint min_key (best : Z * Z) (l : list (Z * CacheEntry)) : Z :=
  match l with
  | [] => best.1
  | (k, e) :: l' =>
      if ce_expires_at e <? best.2 then min_key (k, ce_expires_at e) l' else min_key best l'
  end.

(** [_evict_oldest] *)
Definition evict_oldest (c : InMemoryImageCache) : InMemoryImageCache :=
  match store_ c with
  | [] => c
  | (k, e) :: l => with_store (dict_del (min_key (k, ce_expires_at e) l) (store_ c)) c
  end.

(** [len(self._store) >= self.max_size] *)
Definition cache_full (c : InMemoryImageCache) : bool := max_size c <=? Z.of_nat (length (store_ c)).

(** [set]; [now_evict] is read by [_evict_expired], [now] for the expiry. *)
Definition cache_set (now_evict now : Z) (id : Z) (image : loc) (c : InMemoryImageCache) :
    InMemoryImageCache :=
  let c1 :=
    if cache_full c && negb (dict_in id (store_ c)) then
      let c' := evict_expired now_evict c in
      if cache_full c' then evict_oldest c' else c'
    else c in
  with_store (dict_set id (MkEntry image (now + ttl_seconds c)) (store_ c1)) c1.

(** [invalidate] and [clear] *)
Definition cache_invalidate (id : Z) (c : InMemoryImageCache) : InMemoryImageCache :=
  with_store (dict_del id (store_ c)) c.

Definition cache_clear (c : InMemoryImageCache) : InMemoryImageCache := with_store [] c.

(** ** Invariant: distinct keys and a bounded size *)

Definition cache_ok (c : InMemoryImageCache) : Prop :=
  dict_wf (store_ c) ∧ Z.of_nat (length (store_ c)) ≤ Z.max 1 (max_size c).

(** What a lookup at time [now] can still return. *)
Definition live (now : Z) (c : InMemoryImageCache) (id : Z) : option loc :=
  e ← dict_get id (store_ c);
  if decide (ce_expires_at e < now) then None else Some (ce_image e).

(** The operations of the cache, for reachability. *)
Inductive cache_op :=
| OGet (now id : Z)
| OSet (now_evict now id : Z) (image : loc)
| OInvalidate (id : Z)
| OClear.

Definition cache_step (c : InMemoryImageCache) (op : cache_op) : InMemoryImageCache :=
  match op with
  | OGet now id => (cache_get now id c).2
  | OSet now_evict now id image => cache_set now_evict now id image c
  | OInvalidate id => cache_invalidate id c
  | OClear => cache_clear c
  end.

Definition empty_cache (ttl size : Z) : InMemoryImageCache := MkCache ttl size [].

(** The specification: the log of operations, last write wins.  For each id the
    object last set and when, unless it was invalidated since. *)
Definition log_step (id : Z) (s : option (loc * Z)) (op : cache_op) : option (loc * Z) :=
  match op with
  | OGet _ _ => s
  | OSet _ now id' image => if decide (id' = id) then Some (image, now) else s
  | OInvalidate id' => if decide (id' = id) then None else s
  | OClear => None
  end.

Definition last_set (id : Z) (ops : list cache_op) : option (loc * Z) :=
  fold_left (log_step id) ops None.

Definition run_cache (ttl size : Z) (ops : list cache_op) : InMemoryImageCache :=
  fold_left cache_step ops (empty_cache ttl size).

(** The ids ever set; no lookup later than [now]. *)
Definition set_ids (ops : list cache_op) : gset Z :=
  list_to_set (omap (λ op, match op with OSet _ _ id _ => Some id | _ => None end) ops).

Definition not_after (now : Z) (op : cache_op) : Prop :=
  match op with OGet t _ => t ≤ now | _ => True end.

(** ** Lemmas *)

Lemma cache_get_live now id c : (cache_get now id c).1 = live now c id.
Proof.
  unfold cache_get, live. destruct (dict_get id (store_ c)) as [e|]; [|done]. cbn.
  destruct (ce_expires_at e <? now) eqn:E; zbool; case_decide; (done || lia).
Qed.

(** A lookup returns an entry it found and may only drop entries. *)
Lemma cache_get_inv now id c :
  dict_wf (store_ c) →
  (∀ l, (cache_get now id c).1 = Some l → ∃ e, dict_get id (store_ c) = Some e ∧ ce_image e = l) ∧
  (∀ id' e, dict_get id' (store_ (cache_get now id c).2) = Some e →
            dict_get id' (store_ c) = Some e).
Proof.
  intros Hwf. unfold cache_get. destruct (dict_get id (store_ c)) as [e|] eqn:E; [|done].
  destruct (_ <? _); cbn; [|naive_solver]. split; [done|]. intros id' e' He'.
  destruct (decide (id' = id)) as [->|Hne].
  - by rewrite dict_get_del_eq in He'.
  - by rewrite dict_get_del_ne in He'.
Qed.

Lemma evict_expired_wf now c : dict_wf (store_ c) → dict_wf (store_ (evict_expired now c)).
Proof. intros. cbn. auto with service. Qed.

Lemma evict_oldest_wf c : dict_wf (store_ c) → dict_wf (store_ (evict_oldest c)).
Proof.
  unfold evict_oldest. intros Hwf. destruct (store_ c) as [|[k e] l] eqn:E; [by rewrite E|].
  by apply dict_del_wf.
Qed.

Lemma evict_expired_length now c :
  (length (store_ (evict_expired now c)) ≤ length (store_ c))%nat.
Proof. apply dict_del_all_length_le. Qed.

(** [evict_expired] drops exactly the entries that no lookup returns any more. *)
Lemma evict_expired_get now c id :
  dict_wf (store_ c) →
  dict_get id (store_ (evict_expired now c)) =
  (e ← dict_get id (store_ c); if decide (ce_expires_at e < now) then None else Some e).
Proof.
  intros Hwf. cbn. rewrite dict_get_del_all by done.
  destruct (dict_get id (store_ c)) as [e|] eqn:E; cbn.
  - case_decide as Hin; case_decide as Hlt; try done; exfalso.
    + apply list_elem_of_fmap in Hin as ([k e'] & -> & [Hlt' Hin]%list_elem_of_filter).
      apply dict_get_in in Hin; [|done]. cbn in *. simplify_eq. lia.
    + apply Hin. apply list_elem_of_fmap. exists (id, e). split; [done|].
      apply list_elem_of_filter. split; [done|]. by apply dict_get_Some_in.
  - by case_decide.
Qed.

Lemma min_key_spec best l :
  ∃ e, (min_key best l, e) ∈ (best :: (prod_map id ce_expires_at <$> l)) ∧
       e ≤ best.2 ∧ Forall (λ kv, e ≤ ce_expires_at kv.2) l.
Proof.
  revert best. induction l as [|[k e] l IH]; intros best; cbn.
  - exists best.2. destruct best. split_and!; [left|cbn; lia|done].
  - destruct (ce_expires_at e <? best.2) eqn:E; zbool.
    + destruct (IH (k, ce_expires_at e)) as (e' & Hin & Hle & Hall). cbn in Hle. exists e'.
      split_and!; [|lia|by constructor]. right. exact Hin.
    + destruct (IH best) as (e' & Hin & Hle & Hall). exists e'.
      split_and!; [|done|constructor; [cbn; lia|done]].
      apply elem_of_cons in Hin as [->|Hin]; [left|right; by right].
Qed.

(** [evict_oldest] removes one entry, and no entry expires before it. *)
Lemma evict_oldest_spec c :
  dict_wf (store_ c) → store_ c ≠ [] →
  ∃ k e, dict_get k (store_ c) = Some e ∧
         store_ (evict_oldest c) = dict_del k (store_ c) ∧
         Forall (λ kv, ce_expires_at e ≤ ce_expires_at kv.2) (store_ c).
Proof.
  unfold evict_oldest. intros Hwf Hne. destruct (store_ c) as [|[k e] l] eqn:E; [done|].
  destruct (min_key_spec (k, ce_expires_at e) l) as (x & Hin & Hle & Hall).
  set (m := min_key (k, ce_expires_at e) l) in *.
  assert (∃ e', (m, e') ∈ ((k, e) :: l) ∧ ce_expires_at e' = x) as (e' & He' & <-).
  { apply elem_of_cons in Hin as [[= -> ->]|Hin].
    - exists e. split; [left|done].
    - apply list_elem_of_fmap in Hin as ([k' e'] & [= -> ->] & Hin). exists e'. split; [by right|done]. }
  exists m, e'. split_and!; [by apply dict_get_in|done|by constructor].
Qed.

Lemma evict_oldest_length c :
  dict_wf (store_ c) →
  length (store_ (evict_oldest c)) = (length (store_ c) - 1)%nat.
Proof.
  intros Hwf. destruct (decide (store_ c = [])) as [E|Hne].
  { unfold evict_oldest. rewrite E. by rewrite E. }
  destruct (evict_oldest_spec c Hwf Hne) as (k & e & Hk & -> & _).
  rewrite dict_del_length. unfold dict_in. by rewrite Hk.
Qed.

Lemma cache_set_wf ne now id l c : dict_wf (store_ c) → dict_wf (store_ (cache_set ne now id l c)).
Proof.
  intros Hwf. unfold cache_set. cbn. apply dict_set_wf.
  destruct (_ && _); [|done]. destruct (cache_full _); auto using evict_oldest_wf, evict_expired_wf.
Qed.

Lemma evict_oldest_params c :
  ttl_seconds (evict_oldest c) = ttl_seconds c ∧ max_size (evict_oldest c) = max_size c.
Proof. unfold evict_oldest. by destruct (store_ c) as [|[k e] l]. Qed.

Lemma cache_set_params ne now id l c :
  ttl_seconds (cache_set ne now id l c) = ttl_seconds c ∧
  max_size (cache_set ne now id l c) = max_size c.
Proof.
  unfold cache_set. destruct (_ && _); [|done]. destruct (cache_full _); [|done].
  apply (evict_oldest_params (evict_expired ne c)).
Qed.

Lemma cache_set_get_eq ne now id l c :
  dict_get id (store_ (cache_set ne now id l c)) = Some (MkEntry l (now + ttl_seconds c)).
Proof. unfold cache_set. cbn. rewrite dict_get_set. by rewrite decide_True. Qed.

(** Room is made only when the cache is full and the key is new. *)
Lemma cache_set_get_room ne now id l c id' :
  cache_full c = false → id' ≠ id →
  dict_get id' (store_ (cache_set ne now id l c)) = dict_get id' (store_ c).
Proof. intros Hf Hne. unfold cache_set. rewrite Hf. cbn. rewrite dict_get_set. by rewrite decide_False. Qed.

Lemma cache_invalidate_get id id' c :
  dict_wf (store_ c) →
  dict_get id' (store_ (cache_invalidate id c)) =
  if decide (id' = id) then None else dict_get id' (store_ c).
Proof.
  intros Hwf. cbn. case_decide as E; [subst; by apply dict_get_del_eq|by apply dict_get_del_ne].
Qed.

Lemma evict_oldest_get_Some c id e :
  dict_wf (store_ c) →
  dict_get id (store_ (evict_oldest c)) = Some e → dict_get id (store_ c) = Some e.
Proof.
  intros Hwf E. destruct (decide (store_ c = [])) as [Hnil|Hnn].
  - unfold evict_oldest in E. rewrite Hnil in E. by rewrite Hnil in E.
  - destruct (evict_oldest_spec c Hwf Hnn) as (k & e' & _ & Hs & _).
    rewrite Hs in E. destruct (decide (id = k)) as [->|].
    + by rewrite dict_get_del_eq in E.
    + by rewrite dict_get_del_ne in E.
Qed.

(** An entry never appears out of nothing: it was there or it is the one set. *)
Lemma cache_set_get_Some ne now id l c id' e :
  dict_wf (store_ c) →
  dict_get id' (store_ (cache_set ne now id l c)) = Some e →
  (id' = id ∧ e = MkEntry l (now + ttl_seconds c)) ∨
  (id' ≠ id ∧ dict_get id' (store_ c) = Some e).
Proof.
  intros Hwf. unfold cache_set. cbn. rewrite dict_get_set. case_decide as Hid.
  { intros [= <-]. by left. }
  intros E. right. split; [done|]. destruct (_ && _); [|done].
  assert (dict_get id' (store_ (evict_expired ne c)) = Some e) as E'.
  { destruct (cache_full _); [|done]. by apply evict_oldest_get_Some; [apply evict_expired_wf|]. }
  rewrite evict_expired_get in E' by done.
  destruct (dict_get id' (store_ c)); cbn in E'; [|done]. by case_decide.
Qed.

(** ** The invariant is kept by every operation *)

Lemma cache_get_ok now id c : cache_ok c → cache_ok (cache_get now id c).2.
Proof.
  intros [Hwf Hlen]. unfold cache_get. destruct (dict_get id (store_ c)) as [e|]; [|done].
  destruct (_ <? _); [|done]. split; [by apply dict_del_wf|]. cbn.
  pose proof (dict_del_length_le id (store_ c)). lia.
Qed.

Lemma cache_set_ok ne now id l c : cache_ok c → cache_ok (cache_set ne now id l c).
Proof.
  intros [Hwf Hlen]. split; [by apply cache_set_wf|].
  destruct (cache_set_params ne now id l c) as [_ ->].
  unfold cache_set. cbn [with_store store_]. rewrite dict_set_length.
  destruct (cache_full c && negb (dict_in id (store_ c))) eqn:E; [|].
  - pose proof (evict_expired_length ne c).
    destruct (cache_full (evict_expired ne c)) eqn:Hf.
    + pose proof (evict_oldest_length (evict_expired ne c) (evict_expired_wf ne c Hwf)).
      case_match; lia.
    + unfold cache_full in Hf. zbool. change (max_size (evict_expired ne c)) with (max_size c) in Hf.
      case_match; lia.
  - apply andb_false_iff in E as [E|E].
    + unfold cache_full in E. zbool. case_match; lia.
    + zbool. rewrite E. lia.
Qed.

Lemma cache_invalidate_ok id c : cache_ok c → cache_ok (cache_invalidate id c).
Proof.
  intros [Hwf Hlen]. split; [by apply dict_del_wf|]. cbn.
  pose proof (dict_del_length_le id (store_ c)). lia.
Qed.

Lemma cache_clear_ok c : cache_ok (cache_clear c).
Proof. split; [apply NoDup_nil_2|]. cbn. lia. Qed.

#[export] Hint Resolve cache_get_ok cache_set_ok cache_invalidate_ok cache_clear_ok : service.

Lemma cache_step_ok c op : cache_ok c → cache_ok (cache_step c op).
Proof. destruct op; cbn; auto with service. Qed.

(** ** Refinement of the log *)

Lemma cache_step_params c op :
  ttl_seconds (cache_step c op) = ttl_seconds c ∧ max_size (cache_step c op) = max_size c.
Proof.
  destruct op as [now id|ne now id l|id|]; cbn [cache_step]; [|by apply cache_set_params|done..].
  unfold cache_get. destruct (dict_get _ _) as [e|]; [|done]. by destruct (_ <? _).
Qed.

Lemma run_cache_snoc ttl size ops op :
  run_cache ttl size (ops ++ [op]) = cache_step (run_cache ttl size ops) op.
Proof. unfold run_cache. by rewrite fold_left_app. Qed.

Lemma last_set_snoc id ops op : last_set id (ops ++ [op]) = log_step id (last_set id ops) op.
Proof. unfold last_set. by rewrite fold_left_app. Qed.

Lemma run_cache_ok ttl size ops :
  cache_ok (run_cache ttl size ops) ∧ ttl_seconds (run_cache ttl size ops) = ttl ∧
  max_size (run_cache ttl size ops) = size.
Proof.
  induction ops as [|op ops (IH1 & IH2 & IH3)] using rev_ind.
  - split; [split; [apply NoDup_nil_2|cbn; lia]|done].
  - rewrite run_cache_snoc. destruct (cache_step_params (run_cache ttl size ops) op) as [-> ->].
    split; [by apply cache_step_ok|done].
Qed.

(** An entry of the cache is the last set of its id. *)
Lemma run_cache_entry ttl size ops id e :
  dict_get id (store_ (run_cache ttl size ops)) = Some e →
  ∃ t, last_set id ops = Some (ce_image e, t) ∧ ce_expires_at e = t + ttl.
Proof.
  revert e. induction ops as [|op ops IH] using rev_ind; intros e; [done|].
  destruct (run_cache_ok ttl size ops) as ([Hwf _] & Httl & _).
  rewrite run_cache_snoc, last_set_snoc. destruct op as [now id'|ne now id' l|id'|]; cbn [cache_step log_step].
  - intros He. apply (proj2 (cache_get_inv now id' _ Hwf)) in He. by apply IH.
  - intros He. destruct (cache_set_get_Some _ _ _ _ _ _ _ Hwf He) as [[-> ->]|[Hne He']].
    + rewrite decide_True by done. cbn. rewrite Httl. eauto.
    + rewrite decide_False by done. auto.
  - intros He. rewrite cache_invalidate_get in He by done. repeat case_decide; naive_solver.
  - done.
Qed.

Lemma run_cache_ids ttl size ops :
  list_to_set (store_ (run_cache ttl size ops)).*1 ⊆ set_ids ops.
Proof.
  intros id Hid%elem_of_list_to_set. apply dict_in_spec in Hid. unfold dict_in in Hid.
  apply bool_decide_eq_true in Hid as [e He]. apply run_cache_entry in He as (t & Ht & _).
  revert Ht. generalize (ce_image e). revert t. induction ops as [|op ops IH] using rev_ind; [done|].
  intros t l. rewrite last_set_snoc. unfold set_ids. rewrite omap_app, list_to_set_app_L.
  fold (set_ids ops). destruct op as [now id'|ne now id' l'|id'|]; cbn; [| | |done].
  - intros ?%IH. set_solver.
  - case_decide; [set_solver|]. intros ?%IH. set_solver.
  - case_decide; [done|]. intros ?%IH. set_solver.
Qed.

(** With room for every id ever set, an insertion evicts nothing. *)
Lemma run_cache_room ttl size ops ne now id l :
  Z.of_nat (base.size (set_ids (ops ++ [OSet ne now id l]))) ≤ size →
  let c := run_cache ttl size ops in
  cache_full c && negb (dict_in id (store_ c)) = false.
Proof.
  intros Hroom c. destruct (run_cache_ok ttl size ops) as ([Hwf _] & _ & Hmax).
  destruct (dict_in id (store_ c)) eqn:Hin; [by rewrite andb_false_r|]. rewrite andb_true_r.
  unfold cache_full. apply Z.leb_gt. fold c in Hmax. rewrite Hmax.
  enough (S (length (store_ c)) ≤ base.size (set_ids (ops ++ [OSet ne now id l])))%nat by lia.
  assert (id ∉ (store_ c).*1) as Hid by (rewrite <- dict_in_spec, Hin; done).
  rewrite <- (length_fmap fst (store_ c)).
  rewrite <- (size_list_to_set (C:=gset Z) (store_ c).*1) by exact Hwf.
  change (S ?n) with (1 + n)%nat. rewrite <- (size_singleton (C:=gset Z) id).
  rewrite <- size_union by set_solver. apply subseteq_size.
  unfold set_ids. rewrite omap_app, list_to_set_app_L. fold (set_ids ops). cbn.
  pose proof (run_cache_ids ttl size ops). set_solver.
Qed.

Lemma cache_get_other now id id' c e :
  dict_get id (store_ c) = Some e → (id' = id → now ≤ ce_expires_at e) →
  dict_get id (store_ (cache_get now id' c).2) = Some e.
Proof.
  intros He Hnow. unfold cache_get. destruct (dict_get id' (store_ c)) as [e'|] eqn:E; [|done].
  destruct (_ <? _) eqn:Ex; [|done]. cbn. zbool.
  destruct (decide (id' = id)) as [->|Hne]; [simplify_eq; specialize (Hnow eq_refl); lia|].
  by rewrite dict_get_del_ne.
Qed.

Lemma set_ids_app ops op : set_ids ops ⊆ set_ids (ops ++ [op]).
Proof. unfold set_ids. rewrite omap_app, list_to_set_app_L. set_solver. Qed.

(** With room and a clock that does not run backwards, what was set and has not
    expired is there. *)
Lemma run_cache_complete ttl size ops now id l t :
  Z.of_nat (base.size (set_ids ops)) ≤ size → Forall (not_after now) ops →
  last_set id ops = Some (l, t) → now ≤ t + ttl →
  dict_get id (store_ (run_cache ttl size ops)) = Some (MkEntry l (t + ttl)).
Proof.
  revert l t. induction ops as [|op ops IH] using rev_ind; intros l t Hroom Hnow; [done|].
  apply Forall_app in Hnow as [Hnow [Hop _]%Forall_cons].
  pose proof (subseteq_size _ _ (set_ids_app ops op)) as Hsub.
  destruct (run_cache_ok ttl size ops) as ([Hwf _] & Httl & _).
  rewrite run_cache_snoc, last_set_snoc. destruct op as [now' id'|ne now' id' l'|id'|];
    cbn [cache_step log_step].
  - intros Hl Ht. apply cache_get_other; [apply IH; auto; lia|]. cbn in *. lia.
  - pose proof (run_cache_room ttl size ops ne now' id' l' Hroom) as Hfull. unfold cache_set. rewrite Hfull. cbn.
    rewrite dict_get_set. intros Hl Ht. destruct (decide (id = id')) as [->|Hne].
    + rewrite decide_True in Hl by done. simplify_eq. by rewrite Httl.
    + rewrite decide_False in Hl by done. apply IH; auto; lia.
  - intros Hl Ht. case_decide as Hne; [done|]. rewrite cache_invalidate_get by done.
    rewrite decide_False by done. apply IH; auto; lia.
  - done.
Qed.

(** ** Properties *)

(** C13: the cache refines the log of its operations.  Starting empty, whatever
    the sequence of lookups, insertions and invalidations: it never holds more
    than [max_size] entries (one, if [max_size] is not positive); a hit is the
    object of the last insertion of that id, not invalidated since, at most
    [ttl_seconds] old; and when no more than [max_size] ids were ever inserted,
    every such object is a hit. *)
Theorem cache_refines_log (ttl size now id : Z) (ops : list cache_op) (l : loc) :
  let c := run_cache ttl size ops in
  Z.of_nat (length (store_ c)) ≤ Z.max 1 size ∧
  ((cache_get now id c).1 = Some l → ∃ t, last_set id ops = Some (l, t) ∧ now ≤ t + ttl) ∧
  (Z.of_nat (base.size (set_ids ops)) ≤ size → Forall (not_after now) ops →
   (∃ t, last_set id ops = Some (l, t) ∧ now ≤ t + ttl) → (cache_get now id c).1 = Some l).
Proof.
  intros c. destruct (run_cache_ok ttl size ops) as ([_ Hlen] & _ & Hmax). fold c in Hlen, Hmax.
  rewrite Hmax in Hlen. rewrite cache_get_live. unfold live. split_and!; [done| |].
  - destruct (dict_get id (store_ c)) as [e|] eqn:E; [|done]. cbn. case_decide; [done|].
    intros [= <-]. apply run_cache_entry in E as (t & Ht & He). exists t. split; [done|lia].
  - intros Hroom Hnow (t & Ht & Hle). subst c.
    rewrite (run_cache_complete _ _ _ _ _ _ _ Hroom Hnow Ht Hle). cbn. rewrite decide_False; [done|lia].
Qed.
