(* ===== verification/World.v ===== *)
(** * The state the service runs on, and its environment

    [world] is everything the coroutines share: the heap of [Image] objects
    (an object is a location, so that the cache and a request can hold the
    same one), the database, the cache, the file system, the in-memory queues,
    and a trace of what only an observer sees (metrics, sleeps).

    The environment is an oracle consulted at each tick: the two clocks, the
    random UUIDs, and for each external operation whether it works, fails
    before taking effect, fails after taking effect (a lost acknowledgement) or
    fails half-way.  Theorems quantify over it, so they cover every schedule
    of faults. *)

From S2P Require Import Prelude PyText PyUuid Prog Domain Database Cache.
Local Open Scope Z_scope.

(** The operations that reach outside the process. *)
Inductive opname :=
| OpSave | OpGet | OpList | OpDelete | OpExpired | OpSweep | OpCount
| OpKeyGet | OpKeyCreate | OpKeyComplete | OpKeyDelete
| OpStore | OpRetrieve | OpRemove | OpThumbnail | OpPublish | OpConsume.

#[export] Instance opname_eq_dec : EqDecision opname.
Proof. solve_decision. Defined.

Inductive fault :=
| Fine
| FailBefore (e : exn)
| FailAfter (e : exn)
| FailPartial (n : nat) (e : exn).

Record env := MkEnv {
  e_now : nat → Z;
  e_mono : nat → Z;
  e_uuid : nat → Z;
  e_fault : opname → nat → fault
}.

(** What an observer of the process sees. *)
Inductive obs :=
| OSleep (duration : Z)
| OCount (name : pystr) (labels : list (pystr * pystr))
| ORecord (name : pystr) (labels : list (pystr * pystr)).

#[export] Instance obs_eq_dec : EqDecision obs.
Proof. solve_decision. Defined.

Definition sleep_of (o : obs) : option Z := match o with OSleep d => Some d | _ => None end.

Record world := MkWorld {
  w_heap : gmap loc Image;
  w_db : db;
  w_locked : gset Z;
  w_cache : InMemoryImageCache;
  w_fs : gmap pystr pybytes;
  w_queues : gmap pystr (list Message);
  w_trace : list obs;
  w_env : env;
  w_tick : nat
}.

Definition set_heap h w :=
  MkWorld h (w_db w) (w_locked w) (w_cache w) (w_fs w) (w_queues w) (w_trace w) (w_env w) (w_tick w).
Definition set_db d w :=
  MkWorld (w_heap w) d (w_locked w) (w_cache w) (w_fs w) (w_queues w) (w_trace w) (w_env w) (w_tick w).
Definition set_cache c w :=
  MkWorld (w_heap w) (w_db w) (w_locked w) c (w_fs w) (w_queues w) (w_trace w) (w_env w) (w_tick w).
Definition set_fs f w :=
  MkWorld (w_heap w) (w_db w) (w_locked w) (w_cache w) f (w_queues w) (w_trace w) (w_env w) (w_tick w).
Definition set_queues q w :=
  MkWorld (w_heap w) (w_db w) (w_locked w) (w_cache w) (w_fs w) q (w_trace w) (w_env w) (w_tick w).
Definition set_trace t w :=
  MkWorld (w_heap w) (w_db w) (w_locked w) (w_cache w) (w_fs w) (w_queues w) t (w_env w) (w_tick w).
Definition tick w :=
  MkWorld (w_heap w) (w_db w) (w_locked w) (w_cache w) (w_fs w) (w_queues w) (w_trace w) (w_env w)
    (S (w_tick w)).

(** The sleeps so far, in order. *)
Definition sleeps (w : world) : list Z := omap sleep_of (w_trace w).

Abbreviation coro := (prog world).

(** ** Clocks, identifiers, objects, observations *)

(** [datetime.now(UTC)], [time.monotonic()], [uuid.uuid4()] *)
Definition read_now : coro Z := Act Z (λ w, (e_now (w_env w) (w_tick w), tick w)) (λ x, Done (Ok x)).
Definition read_mono : coro Z := Act Z (λ w, (e_mono (w_env w) (w_tick w), tick w)) (λ x, Done (Ok x)).
Definition uuid4 : coro Z :=
  Act Z (λ w, (e_uuid (w_env w) (w_tick w) mod 2 ^ 128, tick w)) (λ x, Done (Ok x)).

Definition alloc (i : Image) : coro loc :=
  Act loc (λ w, let l := fresh (dom (w_heap w)) in (l, set_heap (<[l := i]> (w_heap w)) w))
    (λ l, Done (Ok l)).

(** Reading and mutating an object.  A Python reference is never dangling, so
    the error is unreachable from locations [alloc] returned. *)
Definition deref (l : loc) : coro Image :=
  act (λ w, (or_raise (ERuntime (lit "dangling reference")) (w_heap w !! l), w)).
Definition mutate (l : loc) (f : Image → Image) : coro unit :=
  modify (λ w, set_heap (alter f l (w_heap w)) w).

Definition observe (o : obs) : coro unit := modify (λ w, set_trace (w_trace w ++ [o]) w).

(** ** External operations *)

Definition external {A} (op : opname) (f : world → outcome (A * world))
    (partial : nat → world → world) : coro A :=
  act (λ w,
    let w1 := tick w in
    match e_fault (w_env w) op (w_tick w) with
    | Fine => match f w1 with Ok (a, w2) => (Ok a, w2) | Exn e => (Exn e, w1) end
    | FailBefore e => (Exn e, w1)
    | FailAfter e => match f w1 with Ok (_, w2) => (Exn e, w2) | Exn e' => (Exn e', w1) end
    | FailPartial n e => (Exn e, partial n w1)
    end).

(** One database transaction, all or nothing; [txn] may look at the rest of the
    state, for the object it saves or the rows others hold locked. *)
Definition txn {A} (op : opname) (f : world → outcome (A * db)) : coro A :=
  external op (λ w, '(a, d) ← f w; Ok (a, set_db d w)) (λ _ w, w).

Definition db_txn {A} (op : opname) (f : db → outcome (A * db)) : coro A := txn op (λ w, f (w_db w)).

(** No fault, respectively only faults that have no effect, on [op]. *)
Definition reliable (w : world) (op : opname) : Prop := ∀ t, e_fault (w_env w) op t = Fine.
Definition fails_cleanly (w : world) (op : opname) : Prop :=
  ∀ t, match e_fault (w_env w) op t with FailAfter _ => False | _ => True end.

(** [e] is an exception the environment injects into [op]. *)
Definition injects (w : world) (op : opname) (e : exn) : Prop :=
  ∃ t, e_fault (w_env w) op t = FailBefore e ∨ e_fault (w_env w) op t = FailAfter e ∨
       ∃ n, e_fault (w_env w) op t = FailPartial n e.

(** The possible results of a transaction whose fault-free result is [r]. *)
Inductive txn_result {A} (w : world) (op : opname) (r : outcome (A * db)) : outcome A → db → Prop :=
| txn_fine a d : r = Ok (a, d) → txn_result w op r (Ok a) d
| txn_raise e : r = Exn e → txn_result w op r (Exn e) (w_db w)
| txn_before e : injects w op e → txn_result w op r (Exn e) (w_db w)
| txn_after e a d :
    r = Ok (a, d) → injects w op e → ¬ fails_cleanly w op → txn_result w op r (Exn e) d.

Lemma reliable_no_inject w op e : reliable w op → ¬ injects w op e.
Proof. intros Hr (t & Ht). destruct Ht as [Ht|[Ht|[n Ht]]]; rewrite Hr in Ht; done. Qed.

Lemma txn_result_reliable {A} w op (r : outcome (A * db)) o d :
  reliable w op → txn_result w op r o d →
  match r with Ok (a, d') => o = Ok a ∧ d = d' | Exn e => o = Exn e ∧ d = w_db w end.
Proof.
  intros Hr [a d' ->|e ->|e Hi|e a d' _ Hi _]; [done|done|exfalso..];
    by apply (reliable_no_inject w op e).
Qed.

(** The invariant of the shared state: the tables and the cache are well formed. *)
Definition world_ok (w : world) : Prop := db_ok (w_db w) ∧ cache_ok (w_cache w).

Lemma txn_result_ok {A} w op (r : outcome (A * db)) o d :
  (∀ a d', r = Ok (a, d') → db_ok (w_db w) → db_ok d') →
  txn_result w op r o d → db_ok (w_db w) → db_ok d.
Proof. intros Hr [a d' ->|e _|e _|e a d' -> _ _] Hok; eauto. Qed.

Lemma txn_result_Ok {A} w op (r : outcome (A * db)) a d :
  txn_result w op r (Ok a) d → r = Ok (a, d).
Proof. intros Ht. by inversion Ht; simplify_eq. Qed.

Lemma txn_result_Exn {A} w op (r : outcome (A * db)) e d :
  txn_result w op r (Exn e) d → r = Exn e ∨ injects w op e.
Proof. intros Ht. inversion Ht; simplify_eq; auto. Qed.

(** A transaction that leaves a part of the database alone. *)
Lemma txn_result_keeps {A B} (part : db → B) w op (r : outcome (A * db)) o d :
  (∀ a d', r = Ok (a, d') → part d' = part (w_db w)) →
  txn_result w op r o d → part d = part (w_db w).
Proof. intros Hr [a d' ->|e _|e _|e a d' -> _ _]; eauto. Qed.

Lemma injects_env w w' op e : w_env w' = w_env w → injects w' op e → injects w op e.
Proof. unfold injects. by intros ->. Qed.

Lemma reliable_env w w' op : w_env w' = w_env w → reliable w op → reliable w' op.
Proof. unfold reliable. by intros ->. Qed.

Lemma world_ok_same w w' :
  w_db w' = w_db w → w_cache w' = w_cache w → world_ok w → world_ok w'.
Proof. unfold world_ok. by intros -> ->. Qed.

Lemma sleeps_same w w' : w_trace w' = w_trace w → sleeps w' = sleeps w.
Proof. unfold sleeps. by intros ->. Qed.

Lemma sleeps_observe w o :
  sleeps (set_trace (w_trace w ++ [o]) w) = sleeps w ++ option_list (sleep_of o).
Proof. unfold sleeps. cbn. rewrite omap_app. cbn. by destruct (sleep_of o). Qed.

(** ** Frames: what an operation leaves alone *)

(** A repository operation may change the database, the cache, the clock tick
    and allocate objects; it keeps [world_ok]. *)
Definition repo_frame (w w' : world) : Prop :=
  w_heap w ⊆ w_heap w' ∧ w_locked w' = w_locked w ∧ w_fs w' = w_fs w ∧
  w_queues w' = w_queues w ∧ w_trace w' = w_trace w ∧ w_env w' = w_env w ∧
  (world_ok w → world_ok w').

(** A storage operation may change the file system and the tick. *)
Definition storage_frame (w w' : world) : Prop :=
  w_heap w' = w_heap w ∧ w_db w' = w_db w ∧ w_locked w' = w_locked w ∧ w_cache w' = w_cache w ∧
  w_queues w' = w_queues w ∧ w_trace w' = w_trace w ∧ w_env w' = w_env w.

(** A broker operation may change the queues and the tick. *)
Definition broker_frame (w w' : world) : Prop :=
  w_heap w' = w_heap w ∧ w_db w' = w_db w ∧ w_locked w' = w_locked w ∧ w_cache w' = w_cache w ∧
  w_fs w' = w_fs w ∧ w_trace w' = w_trace w ∧ w_env w' = w_env w.

(** A processor call changes nothing but the tick. *)
Definition processor_frame (w w' : world) : Prop := broker_frame w w' ∧ w_queues w' = w_queues w.

#[export] Instance repo_frame_preorder : PreOrder repo_frame.
Proof.
  split.
  - intros w. by split_and!.
  - intros w1 w2 w3 (H1 & H2 & H3 & H4 & H5 & H6 & H7) (G1 & G2 & G3 & G4 & G5 & G6 & G7).
    split_and!; [by etrans|congruence..|auto].
Qed.

#[export] Instance storage_frame_preorder : PreOrder storage_frame.
Proof. split; [intros w; by repeat split|]. unfold storage_frame. intros ???. intuition congruence. Qed.

#[export] Instance broker_frame_preorder : PreOrder broker_frame.
Proof. split; [intros w; by repeat split|]. unfold broker_frame. intros ???. intuition congruence. Qed.

(** ** Weakest preconditions of the primitive actions *)

Lemma wp_read_now (Q : outcome Z → world → Prop) w :
  Q (Ok (e_now (w_env w) (w_tick w))) (tick w) → wp read_now Q w.
Proof. done. Qed.

Lemma wp_read_mono (Q : outcome Z → world → Prop) w :
  Q (Ok (e_mono (w_env w) (w_tick w))) (tick w) → wp read_mono Q w.
Proof. done. Qed.

Lemma wp_uuid4 (Q : outcome Z → world → Prop) w :
  Q (Ok (e_uuid (w_env w) (w_tick w) mod 2 ^ 128)) (tick w) → wp uuid4 Q w.
Proof. done. Qed.

Lemma wp_alloc i (Q : outcome loc → world → Prop) w :
  (∀ l, w_heap w !! l = None → Q (Ok l) (set_heap (<[l := i]> (w_heap w)) w)) → wp (alloc i) Q w.
Proof. intros HQ. apply HQ. apply not_elem_of_dom. apply is_fresh. Qed.

Lemma wp_deref l i (Q : outcome Image → world → Prop) w :
  w_heap w !! l = Some i → Q (Ok i) w → wp (deref l) Q w.
Proof. intros Hl HQ. apply wp_act. by rewrite Hl. Qed.

Lemma wp_mutate l f (Q : outcome unit → world → Prop) w :
  Q (Ok tt) (set_heap (alter f l (w_heap w)) w) → wp (mutate l f) Q w.
Proof. done. Qed.

Lemma wp_observe o (Q : outcome unit → world → Prop) w :
  Q (Ok tt) (set_trace (w_trace w ++ [o]) w) → wp (observe o) Q w.
Proof. done. Qed.

(** An external operation succeeds, or fails before, after or during its effect. *)
Lemma wp_external {A} op (f : world → outcome (A * world)) partial (Q : outcome A → world → Prop) w :
  match f (tick w) with
  | Ok (a, w') => Q (Ok a) w' ∧ ∀ e, injects w op e → Q (Exn e) w'
  | Exn e => Q (Exn e) (tick w)
  end →
  (∀ e, injects w op e → Q (Exn e) (tick w)) →
  (∀ n e, injects w op e → Q (Exn e) (partial n (tick w))) →
  wp (external op f partial) Q w.
Proof.
  intros HQ Hb Hp. apply wp_act. destruct (e_fault (w_env w) op (w_tick w)) as [|e|e|n e] eqn:Ef; cbn.
  - destruct (f (tick w)) as [[a w']|e]; [by destruct HQ|done].
  - apply Hb. exists (w_tick w). auto.
  - destruct (f (tick w)) as [[a w']|e']; [|done]. apply HQ. exists (w_tick w). auto.
  - apply Hp. exists (w_tick w). eauto.
Qed.

(** A transaction changes the database as [txn_result] says, and the tick. *)
Lemma wp_txn {A} op (f : world → outcome (A * db)) (Q : outcome A → world → Prop) w :
  (∀ o d, txn_result w op (f (tick w)) o d → Q o (set_db d (tick w))) → wp (txn op f) Q w.
Proof.
  intros HQ. apply wp_act. destruct (e_fault (w_env w) op (w_tick w)) as [|e|e|n e] eqn:Ef; cbn.
  - destruct (f (tick w)) as [[a d]|e] eqn:E; cbn; apply HQ; by constructor.
  - apply (HQ (Exn e) (w_db w)), txn_before. exists (w_tick w). auto.
  - destruct (f (tick w)) as [[a d]|e'] eqn:E; cbn.
    + apply HQ. eapply txn_after; [done|exists (w_tick w); auto|].
      intros Hc. specialize (Hc (w_tick w)). by rewrite Ef in Hc.
    + apply (HQ (Exn e') (w_db w)). by apply txn_raise.
  - apply (HQ (Exn e) (w_db w)), txn_before. exists (w_tick w). eauto.
Qed.

Lemma wp_db_txn {A} op (f : db → outcome (A * db)) (Q : outcome A → world → Prop) w :
  (∀ o d, txn_result w op (f (w_db w)) o d → Q o (set_db d (tick w))) → wp (db_txn op f) Q w.
Proof. intros HQ. apply wp_txn, HQ. Qed.

(** A transaction that keeps an invariant of the database keeps it under every
    fault, hence under every interleaving. *)
Lemma keeps_txn {A} (I : db → Prop) op (f : world → outcome (A * db)) :
  (∀ w a d', f w = Ok (a, d') → I (w_db w) → I d') → keeps (λ w, I (w_db w)) (txn op f).
Proof.
  intros Hf. split; [|done]. intros w HI.
  destruct (e_fault (w_env w) op (w_tick w)) as [|e|e|n e]; cbn; [|done| |done];
    (destruct (f (tick w)) as [[a d]|e'] eqn:E; cbn; [by eapply Hf|done]).
Qed.

Lemma keeps_db_txn {A} (I : db → Prop) op (f : db → outcome (A * db)) :
  (∀ d a d', f d = Ok (a, d') → I d → I d') → keeps (λ w, I (w_db w)) (db_txn op f).
Proof. intros Hf. apply keeps_txn. intros w. apply Hf. Qed.
