(* ===== verification/Ports.v ===== *)
(** * The ports: what a use case may assume of its collaborators

    Models [src/src/domain/interfaces].  A port is a record of coroutines; its
    laws are a class.  The use cases are proved against the laws, and each
    adapter proves that it has them. *)

From S2P Require Import Prelude PyText PyUuid PyHash Prog Domain Database Cache World.
Local Open Scope Z_scope.

(** ** [ImageRepository] *)

Record ImageRepository := MkRepository {
  repo_save : loc → coro loc;
  repo_get_by_id : Z → coro (option loc);
  repo_list_images : Z → Z → option pystr → coro (list Image);
  repo_delete : Z → coro bool;
  repo_get_expired : Z → coro (list Image);
  repo_delete_expired_batch : Z → coro (list Image);
  repo_count : option pystr → coro Z;
  repo_get_idem : pystr → pystr → coro (option IdempotencyRecord);
  repo_create_idem : pystr → pystr → pystr → option Z → coro bool;
  repo_complete_idem : pystr → pystr → Z → coro unit;
  repo_delete_idem : pystr → pystr → coro unit
}.

(** An operation that is one transaction and touches nothing else. *)
Definition same_but_db (w w' : world) : Prop :=
  w_heap w' = w_heap w ∧ w_locked w' = w_locked w ∧ w_cache w' = w_cache w ∧ w_fs w' = w_fs w ∧
  w_queues w' = w_queues w ∧ w_trace w' = w_trace w ∧ w_env w' = w_env w.

Definition txn_post {A} (op : opname) (f : db → outcome (A * db)) (w : world) (o : outcome A)
    (w' : world) : Prop :=
  txn_result w op (f (w_db w)) o (w_db w') ∧ same_but_db w w'.

(** [coh id w] says that looking up [id] in [w] gives the row of [id]. *)
Section posts.
Context (coh : Z → world → Prop).

(** [save] of the object at [l], whose value is [i]. *)
Definition save_post (l : loc) (i : Image) (w : world) (o : outcome loc) (w' : world) : Prop :=
  (∃ o', txn_result w OpSave (save_txn i (w_db w)) o' (w_db w') ∧
         o = match o' with Ok _ => Ok l | Exn e => Exn e end) ∧
  w_heap w' = w_heap w ∧ repo_frame w w' ∧
  (∀ id, id ≠ img_id i → coh id w → coh id w') ∧
  (o = Ok l → coh (img_id i) w').

(** [get_by_id]: an object whose value is the row, or [None]. *)
Definition get_post (id : Z) (w : world) (o : outcome (option loc)) (w' : world) : Prop :=
  match o with
  | Ok (Some l) =>
      ∃ i m, w_heap w' !! l = Some i ∧ db_images (w_db w) !! id = Some m ∧ model_to_entity m = Ok i
  | Ok None => db_images (w_db w) !! id = None
  | Exn e => injects w OpGet e
  end ∧
  w_db w' = w_db w ∧ repo_frame w w' ∧ (∀ id', coh id' w → coh id' w').

Definition delete_post (id : Z) (w : world) (o : outcome bool) (w' : world) : Prop :=
  txn_result w OpDelete (delete_txn id (w_db w)) o (w_db w') ∧
  w_heap w' = w_heap w ∧ repo_frame w w' ∧
  (∀ id', id' = id ∨ coh id' w → coh id' w').

Definition sweep_post `{Postgres} (batch_size : Z) (w : world) (o : outcome (list Image))
    (w' : world) : Prop :=
  (∃ n t, (w_tick w ≤ t < w_tick w')%nat ∧
     txn_result w OpSweep
       (to_entities (sweep_txn n (e_now (w_env w) t) batch_size (w_locked w) (w_db w))) o (w_db w')) ∧
  w_heap w' = w_heap w ∧ repo_frame w w' ∧
  (∀ es, o = Ok es → ∀ id, coh id w → coh id w').
End posts.

(** The laws say what an operation does when nothing else runs between its
    statements; what else may happen between them is in the adapters' code, and
    the theorems on interleavings are about that. *)
Class RepoLaws `{PyTables, Postgres} (r : ImageRepository) := {
  repo_coh : Z → world → Prop;
  (** Coherence depends on the objects, the images table and the cache only. *)
  repo_coh_frame id w w' :
    w_heap w ⊆ w_heap w' → db_images (w_db w') = db_images (w_db w) → w_cache w' = w_cache w →
    repo_coh id w → repo_coh id w';
  (** Mutating one image does not disturb another. *)
  repo_coh_mutate id l i f w :
    w_heap w !! l = Some i → img_id i ≠ id →
    repo_coh id w → repo_coh id (set_heap (alter f l (w_heap w)) w);
  repo_save_law l i w :
    w_heap w !! l = Some i → world_ok w →
    wp (repo_save r l) (save_post repo_coh l i w) w;
  repo_get_law id w :
    world_ok w → repo_coh id w →
    wp (repo_get_by_id r id) (get_post repo_coh id w) w;
  repo_list_law offset limit status w :
    wp (repo_list_images r offset limit status)
      (λ o w', ∃ n, txn_post OpList (λ d, to_entities (list_txn n offset limit status d)) w o w') w;
  repo_delete_law id w :
    world_ok w →
    wp (repo_delete r id) (delete_post repo_coh id w) w;
  repo_expired_law batch_size w :
    wp (repo_get_expired r batch_size)
      (λ o w', ∃ n now, txn_post OpExpired (λ d, to_entities (expired_txn n now batch_size d)) w o w') w;
  repo_sweep_law batch_size w :
    world_ok w →
    wp (repo_delete_expired_batch r batch_size) (sweep_post repo_coh batch_size w) w;
  repo_count_law status w :
    wp (repo_count r status) (txn_post OpCount (count_txn status) w) w;
  repo_get_idem_law scope key w :
    wp (repo_get_idem r scope key) (txn_post OpKeyGet (key_get_txn scope key) w) w;
  repo_create_idem_law scope key h u w :
    wp (repo_create_idem r scope key h u)
      (λ o w', ∃ t1 t2, txn_post OpKeyCreate (key_create_txn t1 t2 scope key h u) w o w') w;
  repo_complete_idem_law scope key u w :
    wp (repo_complete_idem r scope key u)
      (λ o w', ∃ now, txn_post OpKeyComplete (key_complete_txn now scope key u) w o w') w;
  repo_delete_idem_law scope key w :
    wp (repo_delete_idem r scope key) (txn_post OpKeyDelete (key_delete_txn scope key) w) w;
}.

(** ** [ImageStorage] *)

Record ImageStorage := MkStorage {
  st_store : pystr → pybytes → coro pystr;
  st_retrieve : pystr → coro pybytes;
  st_delete : pystr → coro bool
}.

(** The file system after a write of [data] at [path] that failed: as it was,
    written, or cut short. *)
Definition torn_write (path : pystr) (data : pybytes) (fs fs' : gmap pystr pybytes) : Prop :=
  fs' = fs ∨ ∃ n, fs' = <[path := take n data]> fs.

Class StorageLaws (s : ImageStorage) := {
  (** Where [store] puts a file; an exception when it refuses the name. *)
  st_path : pystr → pybytes → outcome pystr;
  st_store_law filename data w :
    wp (st_store s filename data)
      (λ o w',
         storage_frame w w' ∧
         match o with
         | Ok p => st_path filename data = Ok p ∧ w_fs w' = <[p := data]> (w_fs w)
         | Exn e =>
             (st_path filename data = Exn e ∧ w_fs w' = w_fs w) ∨
             (injects w OpStore e ∧
              ∃ p, st_path filename data = Ok p ∧ torn_write p data (w_fs w) (w_fs w'))
         end) w;
  st_retrieve_law path w :
    wp (st_retrieve s path)
      (λ o w',
         storage_frame w w' ∧ w_fs w' = w_fs w ∧
         match o with
         | Ok data => w_fs w !! path = Some data
         | Exn e => (e = EFileNotFound path ∧ w_fs w !! path = None) ∨ injects w OpRetrieve e
         end) w;
  st_delete_law path w :
    wp (st_delete s path)
      (λ o w',
         storage_frame w w' ∧
         match o with
         | Ok b => (b = bool_decide (is_Some (w_fs w !! path)) ∨
                    (b = false ∧ ∃ q, injects w OpRemove (EFileNotFound q))) ∧
                   (w_fs w' = delete path (w_fs w) ∨ b = false ∧ w_fs w' = w_fs w)
         | Exn e => injects w OpRemove e ∧ (w_fs w' = w_fs w ∨ w_fs w' = delete path (w_fs w))
         end) w
}.

(** ** [ImageProcessor] *)

(** The dictionary of [extract_metadata]. *)
Record Metadata := MkMeta {
  meta_width : Z;
  meta_height : Z;
  meta_format : option pystr;
  meta_size_bytes : Z;
  meta_channels : Z;
  meta_mode : pystr
}.

(** [generate_thumbnail] without a [max_size]: no caller passes one. *)
Record ImageProcessor := MkProcessor {
  proc_thumbnail : pybytes → coro ProcessingResult;
  proc_extract_metadata : pybytes → coro Metadata
}.

(** Processing is a function of the bytes: a result, or an exception. *)
Class ProcessorLaws (p : ImageProcessor) := {
  proc_fun : pybytes → outcome ProcessingResult;
  proc_thumbnail_law data w :
    wp (proc_thumbnail p data)
      (λ o w', processor_frame w w' ∧
               (o = proc_fun data ∨ ∃ e, o = Exn e ∧ injects w OpThumbnail e)) w;
  metadata_fun : pybytes → outcome Metadata;
  proc_extract_metadata_law data w :
    wp (proc_extract_metadata p data)
      (λ o w', processor_frame w w' ∧
               (o = metadata_fun data ∨ ∃ e, o = Exn e ∧ injects w OpThumbnail e)) w
}.

(** ** [MessageBroker] *)

Record MessageBroker := MkBroker {
  br_publish : Message → coro unit;
  br_consume : pystr → coro (option Message);
  br_close : coro unit
}.

Definition queue (topic : pystr) (w : world) : list Message := default [] (w_queues w !! topic).

(** The queues hold the same messages but for [topic], which holds [ms]. *)
Definition queues_are (topic : pystr) (ms : list Message) (w w' : world) : Prop :=
  queue topic w' = ms ∧ ∀ t, t ≠ topic → queue t w' = queue t w.

Class BrokerLaws (b : MessageBroker) := {
  br_publish_law m w :
    wp (br_publish b m)
      (λ o w',
         broker_frame w w' ∧
         (queues_are (msg_topic m) (queue (msg_topic m) w ++ [m]) w w' ∨
          (∀ t, queue t w' = queue t w)) ∧
         match o with
         | Ok _ => queues_are (msg_topic m) (queue (msg_topic m) w ++ [m]) w w'
         | Exn e => injects w OpPublish e ∨ (utf8_encode (msg_key m) = None ∧ is_exception e = true)
         end) w;
  br_consume_law topic w :
    wp (br_consume b topic)
      (λ o w',
         broker_frame w w' ∧
         match o with
         | Ok None => (queue topic w = [] ∨ ∃ e, injects w OpConsume e) ∧ ∀ t, queue t w' = queue t w
         | Ok (Some m) => queue topic w = m :: queue topic w' ∧ ∀ t, t ≠ topic → queue t w' = queue t w
         | Exn e => injects w OpConsume e
         end) w;
  br_close_law w :
    wp (br_close b) (λ _ w', broker_frame w w' ∧ ∀ t, queue t w' = queue t w ∨ queue t w' = []) w
}.

(** ** Lemmas on the laws *)

Lemma same_but_db_ok w w' :
  same_but_db w w' → (db_ok (w_db w) → db_ok (w_db w')) → world_ok w → world_ok w'.
Proof. intros (_ & _ & Hc & _) Hd [H1 H2]. split; [auto|by rewrite Hc]. Qed.

Lemma same_but_db_repo_frame w w' :
  same_but_db w w' → (db_ok (w_db w) → db_ok (w_db w')) → repo_frame w w'.
Proof.
  intros Hs Hd. pose proof (same_but_db_ok _ _ Hs Hd). destruct Hs as (Hh & ? & ? & ? & ? & ? & ?).
  split_and!; [by rewrite Hh|congruence..|done].
Qed.

Lemma txn_post_repo_frame {A} op (f : db → outcome (A * db)) w o w' :
  (∀ d a d', f d = Ok (a, d') → db_ok d → db_ok d') → txn_post op f w o w' → repo_frame w w'.
Proof.
  intros Hf [Ht Hs]. apply same_but_db_repo_frame; [done|]. apply (txn_result_ok _ _ _ _ _ ltac:(eauto) Ht).
Qed.

Lemma txn_post_mono {A} op (f : db → outcome (A * db)) w (p : coro A) Q :
  wp p (txn_post op f w) w →
  (∀ o w', txn_result w op (f (w_db w)) o (w_db w') → same_but_db w w' → Q o w') →
  wp p Q w.
Proof. intros Hp HQ. eapply wp_mono; [exact Hp|]. intros o w' [??]. by apply HQ. Qed.

(** A digest fits its column. *)
Lemma sha256_varchar b : pg_varchar 64 (sha256_hex b) = true.
Proof.
  unfold pg_varchar. rewrite sha256_hex_length. rewrite bool_decide_true by lia.
  rewrite ascii_pg_text; [done|]. eapply Forall_impl_bool; [|apply sha256_hex_chars].
  unfold is_hex_char, is_digit. intros c Hc. apply orb_true_iff in Hc as [Hc|Hc]; zbool; zdecide; done.
Qed.
