(* ===== verification/Repository.v ===== *)
(** * The repository adapters

    Models [src/src/infrastructure/database/postgres_image_repository.py] (the
    methods around the statements of [Database.v]) and
    [src/src/infrastructure/cache/cached_image_repository.py].  Both have the
    laws of the port; the cached one keeps, for each id, what the port calls
    coherence: a cached object's value is the row of its id. *)

From S2P Require Import Prelude PyDict PyText PyUuid Prog Domain Database Cache World Ports.
Local Open Scope Z_scope.

(** ** [PostgresImageRepository] *)

Module PostgresImageRepository.
Section methods.
Context `{PyTables, Postgres}.

(** The object's attributes are read after the row was, and flushed with the
    commit: other tasks run, and commit, between the two statements. *)
Definition save (image : loc) : coro loc :=
  i0 ← deref image;
  model ← db_txn OpSave (get_txn (img_id i0));
  i ← deref image;
  db_txn OpSave (flush_txn i model);;
  mret image.

(** A row becomes a fresh object.  The number of a statement is its instant. *)
Definition get_by_id (image_id : Z) : coro (option loc) :=
  model ← db_txn OpGet (get_txn image_id);
  match model with
  | None => mret None
  | Some m => i ← lift (model_to_entity m); l ← alloc i; mret (Some l)
  end.

Definition list_images (offset limit : Z) (status : option pystr) : coro (list Image) :=
  txn OpList (λ w, to_entities (list_txn (w_tick w) offset limit status (w_db w))).

Definition delete (image_id : Z) : coro bool := db_txn OpDelete (delete_txn image_id).

Definition get_expired (batch_size : Z) : coro (list Image) :=
  now ← read_now;
  txn OpExpired (λ w, to_entities (expired_txn (w_tick w) now batch_size (w_db w))).

Definition delete_expired_batch (batch_size : Z) : coro (list Image) :=
  now ← read_now;
  txn OpSweep (λ w, to_entities (sweep_txn (w_tick w) now batch_size (w_locked w) (w_db w))).

Definition count (status : option pystr) : coro Z := db_txn OpCount (count_txn status).

Definition get_idempotency_record (scope key : pystr) : coro (option IdempotencyRecord) :=
  db_txn OpKeyGet (key_get_txn scope key).

Definition create_idempotency_record (scope key request_hash : pystr) (image_id : option Z) :
    coro bool :=
  created ← read_now;
  updated ← read_now;
  db_txn OpKeyCreate (key_create_txn created updated scope key request_hash image_id).

Definition complete_idempotency_record (scope key : pystr) (image_id : Z) : coro unit :=
  model ← db_txn OpKeyComplete (key_select_txn scope key);
  match model with
  | None => mret tt
  | Some k => now ← read_now; db_txn OpKeyComplete (key_flush_txn now scope key image_id k)
  end.

Definition delete_idempotency_record (scope key : pystr) : coro unit :=
  db_txn OpKeyDelete (key_delete_txn scope key).

Definition repository : ImageRepository :=
  MkRepository save get_by_id list_images delete get_expired delete_expired_batch count
    get_idempotency_record create_idempotency_record complete_idempotency_record
    delete_idempotency_record.

End methods.
End PostgresImageRepository.

(** ** [CachedImageRepository] *)

(** The cache's coroutines: each holds the lock, never waits inside it, and so
    is one action. *)
Definition cache_get_coro (image_id : Z) : coro (option loc) :=
  Act (option loc)
    (λ w, let '(r, c) := cache_get (e_mono (w_env w) (w_tick w)) image_id (w_cache w) in
          (r, tick (set_cache c w)))
    (λ r, Done (Ok r)).

Definition cache_set_coro (image : loc) : coro unit :=
  act (λ w,
    match w_heap w !! image with
    | Some i =>
        (Ok tt, tick (tick (set_cache
           (cache_set (e_mono (w_env w) (w_tick w)) (e_mono (w_env w) (S (w_tick w)))
              (img_id i) image (w_cache w)) w)))
    | None => (Exn (ERuntime (lit "dangling reference")), w)
    end).

Definition cache_invalidate_coro (image_id : Z) : coro unit :=
  modify (λ w, set_cache (cache_invalidate image_id (w_cache w)) w).

Module CachedImageRepository.
Section methods.
Context (inner : ImageRepository).

Definition save (image : loc) : coro loc :=
  result ← repo_save inner image;
  i ← deref image;
  cache_invalidate_coro (img_id i);;
  mret result.

Definition get_by_id (image_id : Z) : coro (option loc) :=
  cached ← cache_get_coro image_id;
  match cached with
  | Some l => mret (Some l)
  | None =>
      image ← repo_get_by_id inner image_id;
      match image with
      | Some l => cache_set_coro l;; mret (Some l)
      | None => mret None
      end
  end.

Definition list_images (offset limit : Z) (status : option pystr) : coro (list Image) :=
  repo_list_images inner offset limit status.

Definition delete (image_id : Z) : coro bool :=
  cache_invalidate_coro image_id;;
  repo_delete inner image_id.

Definition get_expired (batch_size : Z) : coro (list Image) := repo_get_expired inner batch_size.

Definition delete_expired_batch (batch_size : Z) : coro (list Image) :=
  deleted ← repo_delete_expired_batch inner batch_size;
  for_each deleted (λ image, cache_invalidate_coro (img_id image));;
  mret deleted.

Definition count (status : option pystr) : coro Z := repo_count inner status.

Definition get_idempotency_record := repo_get_idem inner.
Definition create_idempotency_record := repo_create_idem inner.
Definition complete_idempotency_record := repo_complete_idem inner.
Definition delete_idempotency_record := repo_delete_idem inner.

Definition repository : ImageRepository :=
  MkRepository save get_by_id list_images delete get_expired delete_expired_batch count
    get_idempotency_record create_idempotency_record complete_idempotency_record
    delete_idempotency_record.

End methods.
End CachedImageRepository.

(** What the cache holds for [id] is what the database holds. *)
Definition cache_coherent (id : Z) (w : world) : Prop :=
  ∀ e, dict_get id (store_ (w_cache w)) = Some e →
  ∃ i m, w_heap w !! ce_image e = Some i ∧ img_id i = id ∧
         db_images (w_db w) !! id = Some m ∧ model_to_entity m = Ok i.

(** ** [PostgresImageRepository] has the laws *)

Section postgres_laws.
Context `{PyTables, Postgres}.

Lemma same_but_db_set d w : same_but_db w (set_db d (tick w)).
Proof. by repeat split. Qed.

Lemma wp_txn_post {A} op (f : db → outcome (A * db)) w : wp (db_txn op f) (txn_post op f w) w.
Proof. apply wp_db_txn. intros o d Ht. split; [done|by repeat split]. Qed.

(** [txn_result] looks at the database and the environment only. *)
Lemma txn_result_same {A} w w' op (r : outcome (A * db)) o d :
  w_env w' = w_env w → w_db w' = w_db w → txn_result w op r o d → txn_result w' op r o d.
Proof.
  intros He Hd [a d' ->|e ->|e Hi|e a d' -> Hi Hc].
  - by constructor.
  - rewrite <- Hd. by apply txn_raise.
  - rewrite <- Hd. apply txn_before. unfold injects in *. by rewrite He.
  - eapply txn_after; [done|..]; unfold injects, fails_cleanly in *; by rewrite He.
Qed.

Lemma wp_list_post offset limit status w :
  wp (PostgresImageRepository.list_images offset limit status)
    (λ o w', ∃ n, txn_post OpList (λ d, to_entities (list_txn n offset limit status d)) w o w') w.
Proof. apply wp_txn. intros o d Ht. eexists. split; [exact Ht|by repeat split]. Qed.

Lemma wp_expired_post batch_size w :
  wp (PostgresImageRepository.get_expired batch_size)
    (λ o w', ∃ n now, txn_post OpExpired (λ d, to_entities (expired_txn n now batch_size d)) w o w') w.
Proof.
  apply wp_bind, wp_read_now, wp_txn. intros o d Ht. do 2 eexists. split; [|by repeat split].
  by apply (txn_result_same (tick w) w).
Qed.

(** A [SELECT] answers from the tables and leaves them alone. *)
Lemma wp_select {A} op (sel : db → A) (Q : outcome A → world → Prop) w :
  Q (Ok (sel (w_db w))) (tick w) → (∀ e, injects w op e → Q (Exn e) (tick w)) →
  wp (db_txn op (λ d, Ok (sel d, d))) Q w.
Proof.
  intros Ho He. apply wp_db_txn. intros o d Ht.
  assert (set_db (w_db w) (tick w) = tick w) as E by by destruct w.
  inversion Ht; simplify_eq; rewrite E; auto.
Qed.

Lemma pg_save_wp l i w :
  w_heap w !! l = Some i →
  wp (PostgresImageRepository.save l)
    (λ o w', (∃ o', txn_result w OpSave (save_txn i (w_db w)) o' (w_db w') ∧
                    o = match o' with Ok _ => Ok l | Exn e => Exn e end) ∧ same_but_db w w') w.
Proof.
  intros Hl. unfold PostgresImageRepository.save.
  apply wp_bind, (wp_deref l i); [done|]. apply wp_bind, wp_select.
  - apply wp_bind, (wp_deref l i); [done|]. apply wp_bind, wp_db_txn. intros o d Ht.
    apply (txn_result_same _ w) in Ht; [|done..].
    destruct o as [[]|e]; [apply wp_ret|]; (split; [|by repeat split]).
    + by exists (Ok tt).
    + by exists (Exn e).
  - intros e Hi. split; [|by repeat split]. exists (Exn e). split; [|done]. exact (txn_before w _ _ e Hi).
Qed.

Lemma pg_save_frame (l : loc) i w (o : outcome loc) w' :
  (∃ o', txn_result w OpSave (save_txn i (w_db w)) o' (w_db w') ∧
         o = match o' with Ok _ => Ok l | Exn e => Exn e end) → same_but_db w w' → repo_frame w w'.
Proof.
  intros (o' & Ht & _) Hs. apply same_but_db_repo_frame; [done|].
  eapply txn_result_ok; [|exact Ht]. intros [] d' E. by eapply save_txn_ok.
Qed.

Lemma pg_get_wp id w :
  db_ok (w_db w) →
  wp (PostgresImageRepository.get_by_id id)
    (λ o w', match o with
             | Ok (Some l) =>
                 ∃ i m, w_heap w' !! l = Some i ∧ db_images (w_db w) !! id = Some m ∧
                        model_to_entity m = Ok i
             | Ok None => db_images (w_db w) !! id = None
             | Exn e => injects w OpGet e
             end ∧
             w_db w' = w_db w ∧ w_cache w' = w_cache w ∧ repo_frame w w') w.
Proof.
  intros Hok. apply wp_bind, wp_db_txn. intros o d Ht. unfold get_txn in Ht.
  assert (d = w_db w) as -> by (inversion Ht; by simplify_eq).
  assert (repo_frame w (set_db (w_db w) (tick w))) as Hf by by split_and!.
  destruct o as [[m|]|e].
  - assert (db_images (w_db w) !! id = Some m) as Hm by (inversion Ht; by simplify_eq).
    destruct (model_to_entity_total m) as [i Hi].
    { destruct Hok as [Hr _]. by destruct (map_Forall_lookup_1 _ _ _ _ Hr Hm) as (_ & _ & ?). }
    rewrite Hi. apply wp_bind, wp_done, wp_bind, wp_alloc. intros l Hl. apply wp_ret. split_and!; [|done..|].
    + exists i, m. split_and!; [|done..]. cbn. by rewrite lookup_insert_eq.
    + split_and!; [by apply insert_subseteq|done..].
  - assert (db_images (w_db w) !! id = None) as Hm by (inversion Ht; by simplify_eq).
    by apply wp_ret.
  - split_and!; [|done..]. by inversion Ht; simplify_eq.
Qed.

Lemma pg_sweep_wp batch_size w :
  wp (PostgresImageRepository.delete_expired_batch batch_size)
    (λ o w', (∃ n t, (w_tick w ≤ t < w_tick w')%nat ∧ txn_result w OpSweep
                (to_entities (sweep_txn n (e_now (w_env w) t) batch_size (w_locked w) (w_db w))) o (w_db w')) ∧
             same_but_db w w') w.
Proof.
  apply wp_bind, wp_read_now, wp_txn. intros o d Ht. split; [|by repeat split].
  eexists _, (w_tick w). split; [cbn; lia|].
  by apply (txn_result_same (tick w) w).
Qed.

Lemma pg_sweep_frame batch_size w o w' :
  (∃ n t, (w_tick w ≤ t < w_tick w')%nat ∧ txn_result w OpSweep
     (to_entities (sweep_txn n (e_now (w_env w) t) batch_size (w_locked w) (w_db w))) o (w_db w')) →
  same_but_db w w' → repo_frame w w'.
Proof.
  intros (n & t & _ & Ht) Hs. apply same_but_db_repo_frame; [done|].
  eapply txn_result_ok; [|exact Ht]. intros es d' E.
  apply to_entities_Ok in E as (models & E & _). by eapply sweep_txn_ok.
Qed.

Lemma pg_create_idem_wp scope key h u w :
  wp (PostgresImageRepository.create_idempotency_record scope key h u)
    (λ o w', ∃ t1 t2, txn_post OpKeyCreate (key_create_txn t1 t2 scope key h u) w o w') w.
Proof.
  apply wp_bind, wp_read_now, wp_bind, wp_read_now, wp_db_txn. intros o d Ht. do 2 eexists.
  split; [|by repeat split]. by apply (txn_result_same (tick (tick w)) w).
Qed.

Lemma pg_complete_idem_wp scope key u w :
  wp (PostgresImageRepository.complete_idempotency_record scope key u)
    (λ o w', ∃ now, txn_post OpKeyComplete (key_complete_txn now scope key u) w o w') w.
Proof.
  apply wp_bind, wp_select.
  - destruct (db_keys (w_db w) !! (scope, key)) as [k|] eqn:E.
    + apply wp_bind, wp_read_now, wp_db_txn. intros o d Ht. eexists. split; [|by repeat split].
      apply (txn_result_same _ w) in Ht; [|done..]. unfold key_complete_txn, key_select_txn. cbn.
      rewrite E. exact Ht.
    + apply wp_ret. exists 0. split; [|by repeat split]. apply txn_fine.
      unfold key_complete_txn, key_select_txn. cbn. by rewrite E.
  - intros e Hi. exists 0. split; [|by repeat split]. exact (txn_before w _ _ e Hi).
Qed.

#[export] Instance postgres_repo_laws : RepoLaws PostgresImageRepository.repository.
Proof.
  refine {| repo_coh := λ _ _, True |}; try done.
  - intros l i w Hl Hok. eapply wp_mono; [by apply pg_save_wp|]. intros o w' [Ho Hs].
    split_and!; [done|apply Hs|by eapply pg_save_frame|done..].
  - intros id w [Hok _] _. eapply wp_mono; [by apply pg_get_wp|]. intros o w' (Ho & Hd & _ & Hf).
    by split_and!.
  - intros. apply wp_list_post.
  - intros id w _. eapply wp_mono; [apply wp_txn_post|]. intros o w' [Ho Hs].
    split_and!; [done|apply Hs|by eapply txn_post_repo_frame; [apply delete_txn_ok|]|done].
  - intros. apply wp_expired_post.
  - intros batch w _. eapply wp_mono; [apply pg_sweep_wp|]. intros o w' [Ho Hs].
    split_and!; [done|apply Hs|by eapply pg_sweep_frame|done].
  - intros. apply wp_txn_post.
  - intros. apply wp_txn_post.
  - intros. apply pg_create_idem_wp.
  - intros. apply pg_complete_idem_wp.
  - intros. apply wp_txn_post.
Defined.
End postgres_laws.

(** ** [CachedImageRepository] has the laws *)

Section cached_laws.
Context `{PyTables, Postgres}.

Lemma cache_coherent_frame id w w' :
  w_heap w ⊆ w_heap w' → db_images (w_db w') = db_images (w_db w) → w_cache w' = w_cache w →
  cache_coherent id w → cache_coherent id w'.
Proof.
  intros Hh Hd Hc Hcoh e He. rewrite Hc in He. destruct (Hcoh e He) as (i & m & Hi & ? & ? & ?).
  exists i, m. rewrite Hd. split_and!; [|done..]. by eapply lookup_weaken.
Qed.

Lemma cache_coherent_mutate id l i f w :
  w_heap w !! l = Some i → img_id i ≠ id →
  cache_coherent id w → cache_coherent id (set_heap (alter f l (w_heap w)) w).
Proof.
  intros Hl Hne Hcoh e He. destruct (Hcoh e He) as (i' & m & Hi & Hid & ? & ?).
  exists i', m. split_and!; [|done..]. cbn. rewrite lookup_alter_ne; [done|].
  intros ->. rewrite Hl in Hi. by simplify_eq.
Qed.

(** A cache with fewer entries is as coherent. *)
Lemma cache_coherent_sub id w w' :
  w_heap w' = w_heap w → db_images (w_db w') !! id = db_images (w_db w) !! id →
  (∀ e, dict_get id (store_ (w_cache w')) = Some e → dict_get id (store_ (w_cache w)) = Some e) →
  cache_coherent id w → cache_coherent id w'.
Proof.
  intros Hh Hd Hs Hcoh e He. rewrite Hh, Hd. by apply Hcoh, Hs.
Qed.

Lemma cache_coherent_none id w :
  dict_get id (store_ (w_cache w)) = None → cache_coherent id w.
Proof. intros E e. by rewrite E. Qed.

(** What [invalidate] leaves of a cache. *)
Definition invalidated (ids : list Z) (w : world) : world :=
  set_cache (fold_left (λ c id, cache_invalidate id c) ids (w_cache w)) w.

Lemma fold_invalidate ids c :
  cache_ok c →
  cache_ok (fold_left (λ c id, cache_invalidate id c) ids c) ∧
  ∀ id, dict_get id (store_ (fold_left (λ c id, cache_invalidate id c) ids c)) =
        if decide (id ∈ ids) then None else dict_get id (store_ c).
Proof.
  revert c. induction ids as [|id' ids IH]; intros c Hok; cbn; [done|].
  destruct (IH _ (cache_invalidate_ok id' c Hok)) as [IH1 IH2]. split; [done|]. intros id.
  rewrite IH2, cache_invalidate_get by apply Hok.
  destruct (decide (id ∈ ids)); destruct (decide (id = id')); destruct (decide (id ∈ id' :: ids));
    set_solver.
Qed.

Lemma invalidated_frame ids w : cache_ok (w_cache w) → repo_frame w (invalidated ids w).
Proof.
  intros Hok. split_and!; [done..|]. intros [Hd _]. split; [done|]. by apply fold_invalidate.
Qed.

Lemma run_invalidate_all (es : list Image) w :
  run (for_each es (λ image, cache_invalidate_coro (img_id image))) w =
  (Ok tt, invalidated (img_id <$> es) w).
Proof.
  revert w. induction es as [|e es IH]; intros w; [by destruct w|]. cbn [for_each].
  rewrite run_bind. unfold cache_invalidate_coro at 1. rewrite run_modify, IH. by destruct w.
Qed.

Abbreviation cached := (CachedImageRepository.repository PostgresImageRepository.repository).

(** Invalidating the keys whose rows changed restores coherence. *)
Lemma invalidated_coherent ids w w' id :
  cache_ok (w_cache w) → w_heap w' = w_heap w → w_cache w' = w_cache w →
  (id ∉ ids → db_images (w_db w') !! id = db_images (w_db w) !! id) →
  id ∈ ids ∨ cache_coherent id w → cache_coherent id (invalidated ids w').
Proof.
  intros Hok Hh Hc Hd Hcoh. destruct (fold_invalidate ids _ Hok) as [_ Hget].
  destruct (decide (id ∈ ids)) as [Hin|Hin].
  - apply cache_coherent_none. cbn. rewrite Hc, Hget. by rewrite decide_True.
  - destruct Hcoh as [?|Hcoh]; [done|]. eapply cache_coherent_sub; [..|exact Hcoh]; cbn; [done|auto|].
    intros e. rewrite Hc, Hget. by rewrite decide_False.
Qed.

Lemma save_txn_other i d o d' w id :
  w_db w = d → txn_result w OpSave (save_txn i d) o d' → id ≠ img_id i →
  db_images d' !! id = db_images d !! id.
Proof.
  intros <- Ht Hne. apply (txn_result_keeps (λ d, db_images d !! id)) in Ht; [done|]. intros [] d1 E.
  apply flush_txn_inv in E as [->|(m & _ & -> & _)]; [done|]. cbn. by rewrite lookup_insert_ne.
Qed.

Lemma cached_save_law l i w :
  w_heap w !! l = Some i → world_ok w →
  wp (CachedImageRepository.save PostgresImageRepository.repository l)
    (save_post cache_coherent l i w) w.
Proof.
  intros Hl Hok. apply wp_bind. eapply wp_mono; [by apply (pg_save_wp l i)|].
  intros o w' [(o' & Ht & ->) Hs]. pose proof (pg_save_frame l i w _ w' (ex_intro _ o' (conj Ht eq_refl)) Hs) as Hf.
  assert (∀ id, id ≠ img_id i → db_images (w_db w') !! id = db_images (w_db w) !! id) as Hother.
  { intros id. by apply (save_txn_other i _ o' _ w). }
  destruct Hs as (Hh & _ & Hc & _). destruct o' as [[]|e].
  - apply wp_bind, (wp_deref l i); [by rewrite Hh|]. apply wp_bind, wp_modify, wp_ret.
    assert (repo_frame w (invalidated [img_id i] w')) as Hf'.
    { etrans; [exact Hf|]. apply invalidated_frame. by destruct Hf as (_ & _ & _ & _ & _ & _ & Hw), (Hw Hok). }
    split_and!; [by exists (Ok tt)|done|done| |].
    + intros id Hne Hcoh. apply (invalidated_coherent [img_id i] w w' id); try done; [apply Hok| |by right].
      intros _. by apply Hother.
    + intros _. apply (invalidated_coherent [img_id i] w w' (img_id i)); try done; [apply Hok| |left; set_solver].
      set_solver.
  - split_and!; [by exists (Exn e)|done|done| |done]. intros id Hne Hcoh.
    eapply cache_coherent_sub; [exact Hh|by apply Hother| |exact Hcoh]. intros e'. by rewrite Hc.
Qed.

(** The state after a cache lookup. *)
Lemma cache_get_frame id w :
  world_ok w →
  let w1 := tick (set_cache (cache_get (e_mono (w_env w) (w_tick w)) id (w_cache w)).2 w) in
  repo_frame w w1 ∧ ∀ id', cache_coherent id' w → cache_coherent id' w1.
Proof.
  intros [Hd Hc]. split.
  - split_and!; [done..|]. intros _. split; [done|]. by apply cache_get_ok.
  - intros id'. apply cache_coherent_sub; [done..|]. intros e. apply cache_get_inv, Hc.
Qed.

(** Storing the object that holds the row of [id]. *)
Lemma wp_cache_set l i m id w (Q : outcome unit → world → Prop) :
  world_ok w → w_heap w !! l = Some i → db_images (w_db w) !! id = Some m →
  model_to_entity m = Ok i →
  (∀ w', w_db w' = w_db w → w_heap w' = w_heap w → repo_frame w w' →
         (∀ id', cache_coherent id' w → cache_coherent id' w') → cache_coherent id w' → Q (Ok tt) w') →
  wp (cache_set_coro l) Q w.
Proof.
  intros [Hd Hc] Hl Hm Hi HQ. apply wp_act. rewrite Hl. cbn.
  assert (img_id i = id) as <-.
  { rewrite (model_to_entity_id _ _ Hi). by apply (db_row_id _ _ _ Hd). }
  assert (cache_coherent (img_id i) (tick (tick (set_cache (cache_set (e_mono (w_env w) (w_tick w))
    (e_mono (w_env w) (S (w_tick w))) (img_id i) l (w_cache w)) w)))) as Hnew.
  { intros e. cbn -[cache_set]. rewrite cache_set_get_eq. intros [= <-]. by exists i, m. }
  apply HQ; [done..| | |done].
  - split_and!; [done..|]. intros _. split; [done|]. by apply cache_set_ok.
  - intros id' Hcoh. destruct (decide (id' = img_id i)) as [->|Hne]; [done|].
    intros e He. apply cache_set_get_Some in He as [[? _]|[_ He]]; [done| |apply Hc].
    by apply Hcoh.
Qed.

Lemma cached_get_law id w :
  world_ok w → cache_coherent id w →
  wp (CachedImageRepository.get_by_id PostgresImageRepository.repository id)
    (get_post cache_coherent id w) w.
Proof.
  intros Hok Hcoh. destruct (cache_get_frame id w Hok) as [Hf1 Hcoh1].
  destruct (cache_get_inv (e_mono (w_env w) (w_tick w)) id (w_cache w) (proj1 (proj2 Hok))) as [Hhit _].
  apply wp_bind. unfold wp, cache_get_coro. cbn [run]. revert Hf1 Hcoh1 Hhit.
  destruct (cache_get _ id (w_cache w)) as [[l|] c] eqn:Eg; cbn [fst snd]; intros Hf1 Hcoh1 Hhit.
  - split_and!; [|done..]. destruct (Hhit l eq_refl) as (e & He & <-).
    destruct (Hcoh e He) as (i & m & ? & ? & ? & ?). by exists i, m.
  - set (w1 := tick (set_cache c w)) in *. pose proof Hf1 as (_ & _ & _ & _ & _ & _ & Hw).
    specialize (Hw Hok). fold (wp (image ← repo_get_by_id PostgresImageRepository.repository id;
      match image with Some l => cache_set_coro l;; mret (Some l) | None => mret None end)
      (get_post cache_coherent id w) w1).
    apply wp_bind. eapply wp_mono; [by apply (pg_get_wp id w1), Hw|].
    intros [[l|]|e] w2 (Ho & Hd & Hc & Hf); (assert (∀ id', cache_coherent id' w → cache_coherent id' w2) as Hcoh2
      by (intros id' ?; eapply cache_coherent_frame; [apply Hf|by rewrite Hd|done|auto]));
      pose proof (transitivity Hf1 Hf) as Hf2.
    + destruct Ho as (i & m & Hl & Hm & Hi). apply wp_bind. eapply (wp_cache_set l i m id); try done.
      * by apply Hf.
      * by rewrite Hd.
      * intros w3 Hd3 Hh3 Hf3 Hcoh3 _. apply wp_ret. split_and!.
        -- exists i, m. by rewrite Hh3.
        -- by rewrite Hd3, Hd.
        -- by etrans.
        -- auto.
    + apply wp_ret. by split_and!.
    + by split_and!.
Qed.

Lemma delete_txn_other id o d' w id' :
  txn_result w OpDelete (delete_txn id (w_db w)) o d' → id' ≠ id →
  db_images d' !! id' = db_images (w_db w) !! id'.
Proof.
  intros Ht Hne. unfold delete_txn in Ht.
  inversion Ht; simplify_eq; cbn; (done || by rewrite lookup_delete_ne).
Qed.

Lemma cached_delete_law id w :
  world_ok w →
  wp (CachedImageRepository.delete PostgresImageRepository.repository id)
    (delete_post cache_coherent id w) w.
Proof.
  intros Hok. pose proof (invalidated_frame [id] w (proj2 Hok)) as Hf.
  apply wp_bind, wp_modify. eapply wp_mono; [apply (wp_txn_post OpDelete (delete_txn id))|].
  intros o w' [Ht Hs]. split_and!.
  - by apply (txn_result_same (invalidated [id] w) w).
  - apply Hs.
  - etrans; [exact Hf|]. by eapply txn_post_repo_frame; [apply delete_txn_ok|].
  - intros id' Hcoh. destruct (decide (id' = id)) as [->|Hne].
    + apply cache_coherent_none. destruct Hs as (_ & _ & -> & _). cbn.
      apply dict_get_del_eq, Hok.
    + destruct Hcoh as [?|Hcoh]; [done|]. destruct Hs as (Hh & _ & Hc & _).
      apply (cache_coherent_sub id' w w'); [exact Hh| | |exact Hcoh].
      * exact (delete_txn_other id o (w_db w') _ id' Ht Hne).
      * intros e. rewrite Hc. cbn. by rewrite dict_get_del_ne.
Qed.

(** A sweep that returns deletes the rows of the images it returns. *)
Lemma sweep_entities_rows n now batch locked d es d' id :
  to_entities (sweep_txn n now batch locked d) = Ok (es, d') →
  id ∉ img_id <$> es → db_images d' !! id = db_images d !! id.
Proof.
  intros (models & Hs & Hes)%to_entities_Ok Hid.
  apply sweep_txn_inv in Hs as (_ & _ & _ & Hl). rewrite Hl. rewrite decide_False; [done|].
  intros (m & -> & Hm)%list_elem_of_fmap. apply Hid, list_elem_of_fmap.
  apply list_elem_of_lookup in Hm as [k Hk]. destruct (Forall2_lookup_l _ _ _ _ _ Hes Hk) as (e & He & Hme).
  exists e. split; [symmetry; by apply model_to_entity_id|]. by eapply list_elem_of_lookup_2.
Qed.

Lemma cached_sweep_law batch w :
  world_ok w →
  wp (CachedImageRepository.delete_expired_batch PostgresImageRepository.repository batch)
    (sweep_post cache_coherent batch w) w.
Proof.
  intros Hok. apply wp_bind. eapply wp_mono; [apply pg_sweep_wp|].
  intros o w' [Ho Hs]. pose proof (pg_sweep_frame batch w o w' Ho Hs) as Hf.
  destruct o as [es|e]; [|by split_and!; try apply Hs].
  assert (cache_ok (w_cache w')) as Hc'.
  { destruct Hf as (_ & _ & _ & _ & _ & _ & Hw). apply Hw, Hok. }
  apply wp_bind. unfold wp. rewrite run_invalidate_all. cbn [fst snd run].
  split_and!; [exact Ho|apply Hs|etrans; [exact Hf|by apply invalidated_frame]|].
  intros es' _ id Hcoh. destruct Hs as (Hh & _ & Hc & _).
  apply (invalidated_coherent _ w); [apply Hok|done..| |by right].
  destruct Ho as (n & t & _ & Ht). inversion Ht as [es0 d1 E| | |]; subst.
  intros Hid. by eapply sweep_entities_rows.
Qed.

#[export] Instance cached_repo_laws : RepoLaws cached.
Proof.
  refine {| repo_coh := cache_coherent |}.
  - apply cache_coherent_frame.
  - apply cache_coherent_mutate.
  - apply cached_save_law.
  - apply cached_get_law.
  - intros. apply wp_list_post.
  - apply cached_delete_law.
  - intros. apply wp_expired_post.
  - apply cached_sweep_law.
  - intros. apply wp_txn_post.
  - intros. apply wp_txn_post.
  - intros. apply pg_create_idem_wp.
  - intros. apply pg_complete_idem_wp.
  - intros. apply wp_txn_post.
Defined.
End cached_laws.
