(* ===== verification/Storage.v ===== *)
(** * The file storage

    Models [src/src/infrastructure/storage/local_image_storage.py].  The file
    system is a map from absolute paths to contents; what the operating system
    does with a path is the class [FileSystem]: [resolve], the names it
    refuses and the directories it does not make. *)

From S2P Require Import Prelude PyText PyHash PyPath Prog Database World Ports.
Local Open Scope Z_scope.

(** A file name: one component, not empty, not a dot entry. *)
Definition plain_name (name : pystr) : Prop :=
  name ≠ [] ∧ name ≠ lit "." ∧ name ≠ lit ".." ∧ slash ∉ name.

(** [Path.resolve], which follows symbolic links, the paths [open] refuses, and
    what [mkdir(parents=True, exist_ok=True)] raises for a directory.
    Nothing creates links in the storage directory, so a plain name resolves
    inside it.  Linux takes names of up to 255 bytes. *)
Class FileSystem := {
  fs_resolve : pystr → pystr;
  fs_refuses : pystr → option exn;
  fs_mkdir : pystr → option exn;
  fs_resolve_abs path : ∃ rest, fs_resolve path = slash :: rest;
  fs_resolve_child base name :
    plain_name name → fs_resolve (path_join base name) = path_join (fs_resolve base) name;
  fs_accepts dir name :
    Forall (λ c, 0 < c < 128) name → plain_name name → (length name ≤ 255)%nat →
    fs_refuses dir = None → fs_refuses (path_join dir name) = None;
  fs_too_long dir name :
    Forall (λ c, 0 < c < 128) name → plain_name name → (255 < length name)%nat →
    fs_refuses dir = None →
    ∃ m, fs_refuses (path_join dir name) = Some (EOS m)
}.

Module LocalImageStorage.
Section methods.
Context `{FileSystem} (base_dir : pystr).

(** [__init__]: the base directory is made if it is not there. *)
Definition init : outcome unit :=
  match fs_mkdir base_dir with
  | Some e => Exn e
  | None => Ok tt
  end.

(** The name of a stored file: twelve hexadecimal digits of the hash of its
    content, and the last component of the name given. *)
Definition safe_name (filename : pystr) (data : pybytes) : pystr :=
  let content_hash := take 12 (sha256_hex data) in
  let basename := match path_name filename with [] => lit "unnamed" | n => n end in
  content_hash ++ lit "_" ++ basename.

Definition store_path (filename : pystr) (data : pybytes) : outcome pystr :=
  let dest := fs_resolve (path_join base_dir (safe_name filename data)) in
  if negb (starts_with (fs_resolve base_dir) dest)
  then Exn (EValue (lit "Path traversal detected in filename"))
  else match fs_refuses dest with
       | Some e => Exn e
       | None => Ok dest
       end.

Definition write_bytes (dest : pystr) (data : pybytes) : coro unit :=
  external OpStore (λ w, Ok (tt, set_fs (<[dest := data]> (w_fs w)) w))
    (λ n w, set_fs (<[dest := take n data]> (w_fs w)) w).

Definition store (filename : pystr) (data : pybytes) : coro pystr :=
  dest ← lift (store_path filename data);
  write_bytes dest data;;
  mret dest.

Definition retrieve (path : pystr) : coro pybytes :=
  external OpRetrieve
    (λ w, data ← or_raise (EFileNotFound path) (w_fs w !! path); Ok (data, w)) (λ _ w, w).

Definition os_remove (path : pystr) : coro unit :=
  external OpRemove
    (λ w, _ ← or_raise (EFileNotFound path) (w_fs w !! path);
          Ok (tt, set_fs (delete path (w_fs w)) w)) (λ _ w, w).

Definition is_file_not_found (e : exn) : bool :=
  match e with EFileNotFound _ => true | _ => false end.

Definition delete (path : pystr) : coro bool :=
  except_if is_file_not_found (os_remove path;; mret true) (λ _, mret false).

Definition storage : ImageStorage := MkStorage store retrieve delete.

End methods.
End LocalImageStorage.

Lemma pg_text_join dir name :
  pg_text dir = true → Forall (λ c, 0 < c < 128) name → pg_text (path_join dir name) = true.
Proof.
  intros Hd Hn. assert (pg_text name = true) as Hname.
  { apply ascii_pg_text. eapply Forall_impl; [exact Hn|]. intros c Hc. cbv beta in *. apply andb_true_iff. split; apply Z.ltb_lt; lia. }
  unfold path_join. destruct (_ || _); [done|]. case_bool_decide; [exact Hname|].
  rewrite pg_text_app, Hd. exact Hname.
Qed.

(** ** The laws *)

Section laws.
Context `{FileSystem} (base_dir : pystr).

#[export] Instance local_storage_laws : StorageLaws (LocalImageStorage.storage base_dir).
Proof.
  refine {| st_path := LocalImageStorage.store_path base_dir |}.
  - intros filename data w. apply wp_bind, wp_done.
    destruct (LocalImageStorage.store_path base_dir filename data) as [p|e] eqn:Ep.
    + apply wp_bind, wp_external; cbn.
      * split; [by apply wp_ret|]. intros e Hi. split; [done|]. right. split; [done|]. exists p.
        split; [done|]. right. exists (length data). by rewrite firstn_all.
      * intros e Hi. split; [done|]. right. split; [done|]. exists p. split; [done|by left].
      * intros n e Hi. split; [done|]. right. split; [done|]. exists p. split; [done|right; by exists n].
    + split; [done|]. by left.
  - intros path w. apply wp_external; cbn;
      [|by intros; split; [done|auto]..].
    destruct (w_fs w !! path) as [data|] eqn:E; cbn; [|by split; auto].
    split; [done|]. intros e He. split; [done|auto].
  - intros path w. apply wp_except_if, wp_bind, wp_external; cbn.
    + destruct (w_fs w !! path) as [data|] eqn:E; cbn.
      * split.
        -- split; [done|]. auto.
        -- intros e Hi. destruct e; cbn; try (split; [done|]; split; [done|by right]).
           split; [done|]. split; [right; eauto|by left].
      * split; [done|]. split; [by left|by right].
    + intros e Hi. destruct e; cbn; try (split; [done|]; split; [done|by left]).
      split; [done|]. split; [right; eauto|by right].
    + intros n e Hi. destruct e; cbn; try (split; [done|]; split; [done|by left]).
      split; [done|]. split; [right; eauto|by right].
Defined.
End laws.

(** ** Properties *)

Section properties.
Context `{FileSystem} (base_dir : pystr).
Import LocalImageStorage.

Definition base_name (filename : pystr) : pystr :=
  match path_name filename with [] => lit "unnamed" | n => n end.

Lemma safe_name_eq filename data :
  safe_name filename data = take 12 (sha256_hex data) ++ lit "_" ++ base_name filename.
Proof. done. Qed.

Lemma base_name_no_slash filename : slash ∉ base_name filename.
Proof.
  unfold base_name. pose proof (path_name_no_slash filename) as Hn.
  destruct (path_name filename); [|done]. vm_compute. set_solver.
Qed.

Lemma hash_prefix_no_slash data : slash ∉ take 12 (sha256_hex data).
Proof.
  intros Hin. pose proof (sha256_hex_chars data) as Hc.
  assert (slash ∈ sha256_hex data) as Hin'.
  { rewrite <- (take_drop 12 (sha256_hex data)). apply elem_of_app. by left. }
  by pose proof (proj1 (Forall_forall _ _) Hc _ Hin').
Qed.

Lemma safe_name_plain filename data : plain_name (safe_name filename data).
Proof.
  assert (12 < length (safe_name filename data))%nat as Hlen.
  { rewrite safe_name_eq, !length_app, length_take, sha256_hex_length.
    change (length (lit "_")) with 1%nat. lia. }
  split_and!; [by intros E; rewrite E in Hlen; vm_compute in Hlen; lia..|].
  rewrite safe_name_eq, !not_elem_of_app. split_and!.
  - apply hash_prefix_no_slash.
  - vm_compute. set_solver.
  - apply base_name_no_slash.
Qed.

Lemma path_join_prefix base name rest :
  base = slash :: rest → starts_with base (path_join base name) = true.
Proof.
  intros ->. unfold path_join. rewrite !(bool_decide_false (slash :: rest = _)) by done. cbn [orb].
  destruct (decide (rest = [])) as [->|Hne].
  - rewrite bool_decide_true by done. apply (starts_with_app [slash]).
  - rewrite bool_decide_false by (by intros [= ?]). apply starts_with_app.
Qed.

(** The containment check passes for every name. *)
Lemma store_path_eq filename data :
  store_path base_dir filename data =
  let dest := path_join (fs_resolve base_dir) (safe_name filename data) in
  match fs_refuses dest with Some e => Exn e | None => Ok dest end.
Proof.
  unfold store_path. rewrite fs_resolve_child by apply safe_name_plain.
  destruct (fs_resolve_abs base_dir) as [rest Hr]. by erewrite path_join_prefix.
Qed.

(** A file directly in [dir]. *)
Definition directly_in (dir path : pystr) : Prop := ∃ name, plain_name name ∧ path = path_join dir name.

Lemma hash_prefix_length data : length (take 12 (sha256_hex data)) = 12%nat.
Proof. rewrite length_take, sha256_hex_length. lia. Qed.

Lemma safe_name_inj f1 d1 f2 d2 :
  safe_name f1 d1 = safe_name f2 d2 →
  take 12 (sha256_hex d1) = take 12 (sha256_hex d2) ∧ base_name f1 = base_name f2.
Proof.
  rewrite !safe_name_eq. intros E. apply app_inj_1 in E as [E1 E2]; [|by rewrite !hash_prefix_length].
  split; [done|]. by apply app_inv_head in E2.
Qed.

(** C28: containment.  Whatever the file name (separators, [..], absolute paths,
    control characters), a file is stored directly in the storage directory,
    under its hash prefix and the last component of the name; the only other
    outcome is the operating system refusing that name, never the path
    traversal error. *)
Theorem store_path_contained (filename : pystr) (data : pybytes) :
  match store_path base_dir filename data with
  | Ok p => directly_in (fs_resolve base_dir) p ∧
            path_name p = take 12 (sha256_hex data) ++ lit "_" ++ base_name filename
  | Exn e => fs_refuses (path_join (fs_resolve base_dir) (safe_name filename data)) = Some e
  end.
Proof.
  rewrite store_path_eq. cbn zeta. pose proof (safe_name_plain filename data) as Hp.
  destruct (fs_refuses _) as [e|] eqn:E; [done|]. split; [by exists (safe_name filename data)|].
  destruct Hp as (? & ? & _ & ?). by rewrite path_name_join.
Qed.

(** C29: content addressing.  A stored file reads back as it was written; a
    later [store] leaves it alone unless it has the same base name and the same
    hash prefix, and the same content under the same name gives the same path. *)
Theorem store_retrieve (f1 f2 : pystr) (d1 d2 : pybytes) (p1 p2 : pystr) (w : world) :
  (∀ op, op ∈ [OpStore; OpRetrieve] → reliable w op) →
  store_path base_dir f1 d1 = Ok p1 → store_path base_dir f2 d2 = Ok p2 →
  wp (store base_dir f1 d1) (λ o w1,
    o = Ok p1 ∧
    wp (retrieve p1) (λ o _, o = Ok d1) w1 ∧
    wp (store base_dir f2 d2) (λ _ w2,
      (base_name f1 ≠ base_name f2 ∨ take 12 (sha256_hex d1) ≠ take 12 (sha256_hex d2) →
       wp (retrieve p1) (λ o _, o = Ok d1) w2) ∧
      (base_name f1 = base_name f2 → d1 = d2 → p1 = p2 ∧ w_fs w2 = w_fs w1)) w1) w.
Proof.
  intros Hr Hp1 Hp2. assert (reliable w OpStore) as Hs by (apply Hr; set_solver).
  assert (reliable w OpRetrieve) as Hg by (apply Hr; set_solver).
  assert (∀ q d fs w', w_env w' = w_env w → w_fs w' = fs → fs !! q = Some d →
                       wp (retrieve q) (λ o _, o = Ok d) w') as Hread.
  { intros q d fs w' He Hfs Hq. apply wp_act. by rewrite He, Hg, Hfs, Hq || (cbn; rewrite He, Hg, Hfs, Hq). }
  assert (∀ f d p w', w_env w' = w_env w → store_path base_dir f d = Ok p →
                      run (store base_dir f d) w' = (Ok p, set_fs (<[p := d]> (w_fs w')) (tick w'))) as Hwrite.
  { intros f d p w' He Hp. unfold store. rewrite Hp. cbn. by rewrite He, Hs. }
  unfold wp at 1. rewrite (Hwrite f1 d1 p1 w eq_refl Hp1). cbn [fst snd].
  set (w1 := set_fs _ _). split_and!; [done| |].
  { eapply Hread; [done..|]. cbn. apply lookup_insert_eq. }
  unfold wp at 1. rewrite (Hwrite f2 d2 p2 w1 eq_refl Hp2). cbn [fst snd]. split.
  - intros Hne. eapply Hread; [done..|]. assert (p1 ≠ p2) as Hpne.
    { intros <-. rewrite store_path_eq in Hp1, Hp2. cbn zeta in *. repeat case_match; try done.
      assert (safe_name f1 d1 = safe_name f2 d2) as [??]%safe_name_inj.
      { eapply path_join_inj. by simplify_eq. }
      tauto. }
    cbn. rewrite lookup_insert_ne by done. apply lookup_insert_eq.
  - intros Hb <-. assert (p1 = p2) as ->.
    { rewrite store_path_eq, safe_name_eq in Hp1, Hp2. rewrite Hb in Hp1. rewrite Hp1 in Hp2. by simplify_eq. }
    split; [done|]. apply insert_insert_eq.
Qed.
End properties.
