(* ===== verification/Broker.v ===== *)
(** * The in-memory message broker

    Models [src/src/infrastructure/messaging/in_memory_message_broker.py]: one
    unbounded FIFO queue per topic, created when first used. *)

From S2P Require Import Prelude PyText Prog Domain World Ports.

Module InMemoryMessageBroker.

(** [_get_queue] *)
Definition get_queue (topic : pystr) (queues : gmap pystr (list Message)) :
    list Message * gmap pystr (list Message) :=
  match queues !! topic with
  | Some q => (q, queues)
  | None => ([], <[topic := []]> queues)
  end.

Definition publish (message : Message) : coro unit :=
  modify (λ w,
    let '(q, queues) := get_queue (msg_topic message) (w_queues w) in
    set_queues (<[msg_topic message := q ++ [message]]> queues) w).

Definition consume (topic : pystr) : coro (option Message) :=
  act (λ w,
    let '(q, queues) := get_queue topic (w_queues w) in
    match q with
    | [] => (Ok None, set_queues queues w)
    | m :: q' => (Ok (Some m), set_queues (<[topic := q']> queues) w)
    end).

Definition close : coro unit := modify (λ w, set_queues ∅ w).

Definition broker : MessageBroker := MkBroker publish consume close.

End InMemoryMessageBroker.

Section laws.
Import InMemoryMessageBroker.

Lemma get_queue_queue topic w : (get_queue topic (w_queues w)).1 = queue topic w.
Proof. unfold get_queue, queue. by destruct (w_queues w !! topic). Qed.

Lemma get_queue_others topic w t :
  default [] ((get_queue topic (w_queues w)).2 !! t) = queue t w.
Proof.
  unfold get_queue, queue. destruct (w_queues w !! topic) eqn:E; [done|]. cbn.
  destruct (decide (t = topic)) as [->|]; [by rewrite lookup_insert_eq, E|by rewrite lookup_insert_ne].
Qed.

Lemma queue_insert topic q queues w t :
  queue t (set_queues (<[topic := q]> queues) w) =
  if decide (t = topic) then q else default [] (queues !! t).
Proof.
  unfold queue. cbn. case_decide as E; [subst; by rewrite lookup_insert_eq|by rewrite lookup_insert_ne].
Qed.

#[export] Instance in_memory_broker_laws : BrokerLaws broker.
Proof.
  split.
  - intros m w. apply wp_modify.
    pose proof (get_queue_queue (msg_topic m) w) as Hq.
    pose proof (get_queue_others (msg_topic m) w) as Ho.
    destruct (get_queue (msg_topic m) (w_queues w)) as [q queues]. cbn in Hq, Ho. subst q.
    assert (queues_are (msg_topic m) (queue (msg_topic m) w ++ [m]) w
      (set_queues (<[msg_topic m := queue (msg_topic m) w ++ [m]]> queues) w)) as Hqs.
    { split; [by rewrite queue_insert, decide_True|]. intros t Ht.
      by rewrite queue_insert, decide_False. }
    split_and!; [done|by left|done].
  - intros topic w. apply wp_act.
    pose proof (get_queue_queue topic w) as Hq. pose proof (get_queue_others topic w) as Ho.
    destruct (get_queue topic (w_queues w)) as [q queues]. cbn in Hq, Ho. subst q.
    destruct (queue topic w) as [|m q'] eqn:E; cbn; (split; [done|]).
    + split; [by left|done].
    + split; [by rewrite queue_insert, decide_True|]. intros t Ht.
      by rewrite queue_insert, decide_False.
  - intros w. apply wp_modify. split; [done|]. intros t. by right.
Defined.
End laws.

(** ** Properties *)

(** Publish the messages one after the other, then consume as many. *)
Definition publish_all (ms : list Message) : coro unit :=
  for_each ms InMemoryMessageBroker.publish.

Definition drain (topic : pystr) (n : nat) : coro (list (option Message)) :=
  map_prog (λ _, InMemoryMessageBroker.consume topic) (replicate n tt).

Lemma run_publish_all ms w topic :
  queue topic (run (publish_all ms) w).2 = queue topic w ++ filter (λ m, msg_topic m = topic) ms
  ∧ (run (publish_all ms) w).1 = Ok tt.
Proof.
  revert w. induction ms as [|m ms IH]; intros w; [by rewrite app_nil_r|].
  unfold publish_all in *. cbn [for_each]. rewrite run_bind.
  pose proof (br_publish_law (b := InMemoryMessageBroker.broker) m w) as Hp. unfold wp in Hp.
  cbn [br_publish InMemoryMessageBroker.broker] in Hp.
  destruct (run (InMemoryMessageBroker.publish m) w) as [o w1] eqn:Er.
  unfold InMemoryMessageBroker.publish in Er. rewrite run_modify in Er. simplify_eq.
  destruct Hp as (_ & _ & [Hq Ho]). cbn [fst snd] in *.
  split; [|apply IH]. rewrite (proj1 (IH _)).
  destruct (decide (msg_topic m = topic)) as [<-|Hne].
  - rewrite Hq, filter_cons_True by done. by rewrite <- app_assoc.
  - rewrite Ho by done. by rewrite filter_cons_False.
Qed.

Lemma run_consume topic w :
  ∃ w', run (InMemoryMessageBroker.consume topic) w = (Ok (head (queue topic w)), w') ∧
        queue topic w' = tail (queue topic w).
Proof.
  unfold InMemoryMessageBroker.consume. rewrite run_act.
  pose proof (get_queue_queue topic w) as Hq. pose proof (get_queue_others topic w topic) as Ho.
  destruct (InMemoryMessageBroker.get_queue topic (w_queues w)) as [q queues]. cbn in Hq, Ho. subst q.
  destruct (queue topic w) as [|m q'] eqn:E; eexists; (split; [done|]).
  - exact Ho.
  - by rewrite queue_insert, decide_True.
Qed.

Lemma run_drain topic n w :
  ∃ w', run (drain topic n) w =
        (Ok (take n (map Some (queue topic w)) ++ replicate (n - length (queue topic w)) None), w') ∧
        queue topic w' = drop n (queue topic w).
Proof.
  revert w. induction n as [|n IH]; intros w.
  - exists w. by rewrite drop_0.
  - destruct (run_consume topic w) as (w1 & E1 & Hq1). destruct (IH w1) as (w2 & E2 & Hq2).
    exists w2. unfold drain in *. cbn [replicate map_prog]. rewrite run_bind, E1, run_bind, E2, run_ret.
    rewrite Hq2, Hq1. destruct (queue topic w) as [|m q]; cbn; [|done].
    by rewrite take_nil, drop_nil, Nat.sub_0_r.
Qed.

(** FIFO delivery.  Messages published to any topics are each consumed from
    their own topic, in the order of publication and after what was queued
    before, none lost or duplicated; then the topic is empty. *)
Theorem fifo_delivery (ms : list Message) (topic : pystr) (w : world) :
  let pending := queue topic w ++ filter (λ m, msg_topic m = topic) ms in
  wp (publish_all ms;; drain topic (S (length pending)))
    (λ o w', o = Ok (map Some pending ++ [None]) ∧ queue topic w' = []) w.
Proof.
  cbn zeta. destruct (run_publish_all ms w topic) as [Hq Ho].
  apply wp_bind. unfold wp at 1. rewrite Ho, <- Hq.
  set (w1 := (run (publish_all ms) w).2). clearbody w1. clear.
  destruct (run_drain topic (S (length (queue topic w1))) w1) as (w2 & E & Hq2).
  unfold wp. rewrite E. cbn [fst snd]. rewrite Hq2. split; [|by apply drop_ge; lia].
  rewrite take_ge by (rewrite length_map; lia).
  by replace (S (length (queue topic w1)) - length (queue topic w1))%nat with 1%nat by lia.
Qed.
