(* ===== verification/Upload.v ===== *)
(** * Uploading an image

    Models [src/src/application/use_cases/upload_image.py] and
    [src/src/application/use_cases/idempotency.py]. *)

From S2P Require Import Prelude PyText PyJson PyUuid PyHash Prog Domain Database Cache World Ports.
Local Open Scope Z_scope.

Definition IMAGE_PROCESSING_TOPIC : pystr := lit "image.processing".
Definition UPLOAD_SCOPE : pystr := lit "upload".

(** ** Time arithmetic *)

(** [timedelta(hours=h)] and [datetime + timedelta]: at most 999999999 days, and
    the years 1 to 9999. *)
Definition microseconds_per_hour : Z := 3600000000.
Definition datetime_min : Z := -62135596800000000.
Definition datetime_max : Z := 253402300799999999.

Definition timedelta_hours (h : Z) : outcome Z :=
  if Z.abs (h / 24) <=? 999999999 then Ok (h * microseconds_per_hour)
  else Exn (EOverflow (lit "days out of range")).

Definition datetime_add (t d : Z) : outcome Z :=
  if (datetime_min <=? t + d) && (t + d <=? datetime_max) then Ok (t + d)
  else Exn (EOverflow (lit "date value out of range")).

(** ** The request hash *)

(** The canonical JSON text of a request, keys sorted, no spaces. *)
Definition upload_payload `{PyTables} (filename : pystr) (data : pybytes) (tags : list pystr)
    (ttl_hours : option Z) : pystr :=
  dumps_with (lit ",") (lit ":") (JObj (sort_keys [
    (lit "filename", JStr filename);
    (lit "tags", JArr (map JStr tags));
    (lit "ttl_hours", match ttl_hours with Some h => JInt h | None => JNull end);
    (lit "content_sha256", JStr (sha256_hex data))])).

(** [_hash_upload_request]; the text is ASCII, so its encoding is itself. *)
Definition hash_upload_request `{PyTables} (filename : pystr) (data : pybytes) (tags : list pystr)
    (ttl_hours : option Z) : pystr :=
  sha256_hex (upload_payload filename data tags ttl_hours).

(** The processing task of an image. *)
Definition upload_message `{PyTables} (image_id : Z) : Message :=
  MkMessage IMAGE_PROCESSING_TOPIC (uuid_str image_id)
    (dumps (JObj [(lit "image_id", JStr (uuid_str image_id))])).

(** [Image(filename=..., original_path=..., tags=..., expires_at=...)] *)
Definition new_image (filename path : pystr) (tags : list pystr) (expires_at : option Z) : coro loc :=
  id ← uuid4;
  created ← read_now;
  updated ← read_now;
  alloc (MkImage id filename path None None PENDING tags created updated expires_at).

Definition in_progress_upload : exn :=
  EIdempotencyInProgress (lit "Upload with this Idempotency-Key is in progress").

Module UploadImage.
Section use_case.
Context `{PyTables}.
Context (repository : ImageRepository) (storage : ImageStorage) (broker : option MessageBroker).

(** [_record_upload], [_record_publish], [_record_publish_error] *)
Definition record_upload : coro unit := observe (OCount (lit "image_uploads_total") []).
Definition record_publish (topic : pystr) : coro unit :=
  observe (OCount (lit "broker_messages_published") [(lit "topic", topic)]).
Definition record_publish_error (topic : pystr) : coro unit :=
  observe (OCount (lit "broker_publish_errors") [(lit "topic", topic)]).

(** [_load_idempotent_replay] *)
Definition load_idempotent_replay (key request_hash : pystr) : coro (option ImageResponse) :=
  record ← repo_get_idem repository UPLOAD_SCOPE key;
  match record with
  | None => mret None
  | Some r =>
      if negb (bool_decide (ir_request_hash r = request_hash)) then
        raise (EIdempotencyConflict
          (lit "Idempotency-Key reuse with a different upload payload is not allowed"))
      else if bool_decide (ir_status r = lit "in_progress") then raise in_progress_upload
      else match ir_image_id r with
           | None =>
               raise (EIdempotencyConflict
                 (lit "Completed upload idempotency record does not reference an image"))
           | Some image_id =>
               image ← repo_get_by_id repository image_id;
               match image with
               | None => raise (EIdempotencyConflict (lit "Idempotency replay image no longer exists"))
               | Some l => i ← deref l; mret (Some (to_response i))
               end
           end
  end.

(** The claim of the key: a replayed response, or [None] to go on. *)
Definition claim (idempotency_key : option pystr) (request_hash : pystr) : coro (option ImageResponse) :=
  match idempotency_key with
  | None => mret None
  | Some key =>
      replay ← load_idempotent_replay key request_hash;
      match replay with
      | Some r => mret (Some r)
      | None =>
          claimed ← repo_create_idem repository UPLOAD_SCOPE key request_hash None;
          if (claimed : bool) then mret None
          else
            replay ← load_idempotent_replay key request_hash;
            match replay with
            | Some r => mret (Some r)
            | None => raise in_progress_upload
            end
      end
  end.

(** A failed publication is counted and forgotten. *)
Definition publish_task (image_id : Z) : coro unit :=
  match broker with
  | None => mret tt
  | Some b =>
      except_if is_exception
        (br_publish b (upload_message image_id);; record_publish IMAGE_PROCESSING_TOPIC)
        (λ _, record_publish_error IMAGE_PROCESSING_TOPIC)
  end.

(** The body of the [try]. *)
Definition upload (filename : pystr) (data : pybytes) (tags : list pystr) (ttl_hours : option Z)
    (idempotency_key : option pystr) : coro ImageResponse :=
  storage_path ← st_store storage filename data;
  expires_at ← match ttl_hours with
               | None => mret None
               | Some h =>
                   now ← read_now;
                   d ← lift (timedelta_hours h);
                   e ← lift (datetime_add now d);
                   mret (Some e)
               end;
  image ← new_image filename storage_path tags expires_at;
  saved ← repo_save repository image;
  record_upload;;
  s ← deref saved;
  publish_task (img_id s);;
  match idempotency_key with
  | None => mret tt
  | Some key => repo_complete_idem repository UPLOAD_SCOPE key (img_id s)
  end;;
  i ← deref saved;
  mret (to_response i).

(** [execute] *)
Definition execute (filename : pystr) (data : pybytes) (tags : option (list pystr))
    (ttl_hours : option Z) (idempotency_key : option pystr) : coro ImageResponse :=
  let normalized_tags := default [] tags in
  let request_hash := hash_upload_request filename data normalized_tags ttl_hours in
  replay ← claim idempotency_key request_hash;
  match replay with
  | Some r => mret r
  | None =>
      except_if is_exception (upload filename data normalized_tags ttl_hours idempotency_key)
        (λ e, match idempotency_key with
              | None => mret tt
              | Some key => repo_delete_idem repository UPLOAD_SCOPE key
              end;; raise e)
  end.

End use_case.
End UploadImage.

(** ** What an upload does *)

(** The image an upload makes, from the clock and the identifiers of [w]. *)
Record created (filename path : pystr) (tags : list pystr) (ttl_hours : option Z) (w : world)
    (i : Image) : Prop := {
  cr_filename : img_filename i = filename;
  cr_path : img_original_path i = path;
  cr_tags : img_tags i = tags;
  cr_status : img_status i = PENDING;
  cr_thumbnail : img_thumbnail_path i = None;
  cr_metadata : img_metadata i = None;
  cr_id : ∃ t, img_id i = e_uuid (w_env w) t mod 2 ^ 128;
  cr_created : ∃ t, img_created_at i = e_now (w_env w) t;
  cr_expires : match ttl_hours with
               | None => img_expires_at i = None
               | Some h => ∃ t, img_expires_at i = Some (e_now (w_env w) t + h * microseconds_per_hour)
               end
}.

(** The identifiers drawn are not in use. *)
Definition fresh_uuids (w : world) : Prop :=
  ∀ t, db_images (w_db w) !! (e_uuid (w_env w) t mod 2 ^ 128) = None.

(** The keys after an upload that completed [key] for [image_id]. *)
Definition keys_completed (key : option pystr) (image_id : Z) (d d' : db) : Prop :=
  match key with
  | None => db_keys d' = db_keys d
  | Some k =>
      ∃ now, db_keys d' = match db_keys d !! (UPLOAD_SCOPE, k) with
                          | None => db_keys d
                          | Some r => <[(UPLOAD_SCOPE, k) := complete_key now image_id r]> (db_keys d)
                          end
  end.

(** Expiry is out of the range of [datetime]. *)
Definition expiry_overflow (ttl_hours : option Z) (w : world) (e : exn) : Prop :=
  ∃ h t, ttl_hours = Some h ∧
         (d ← timedelta_hours h; datetime_add (e_now (w_env w) t) d) = Exn e.

Definition same_but_heap (w w' : world) : Prop :=
  w_db w' = w_db w ∧ w_locked w' = w_locked w ∧ w_cache w' = w_cache w ∧ w_fs w' = w_fs w ∧
  w_queues w' = w_queues w ∧ w_trace w' = w_trace w ∧ w_env w' = w_env w.

Definition same_but_queues (w w' : world) : Prop :=
  w_heap w' = w_heap w ∧ w_db w' = w_db w ∧ w_locked w' = w_locked w ∧ w_cache w' = w_cache w ∧
  w_fs w' = w_fs w ∧ w_env w' = w_env w.

(** The queues after [publish_task]. *)
Definition task_queued `{PyTables} (broker : option MessageBroker) (image_id : Z) (w w' : world) : Prop :=
  match broker with
  | None => ∀ t, queue t w' = queue t w
  | Some _ =>
      queues_are IMAGE_PROCESSING_TOPIC
        (queue IMAGE_PROCESSING_TOPIC w ++ [upload_message image_id]) w w'
  end.

Section proofs.
Context `{PyTables, Postgres, !RepoLaws repository, !StorageLaws storage}.
Context (broker : option MessageBroker)
  (broker_laws : ∀ b, broker = Some b → BrokerLaws b).

Lemma wp_new_image filename path tags ttl expires_at (Q : outcome loc → world → Prop) w :
  match ttl with
  | None => expires_at = None
  | Some h => ∃ t, expires_at = Some (e_now (w_env w) t + h * microseconds_per_hour)
  end →
  (∀ l i w', created filename path tags ttl w i → w_heap w !! l = None →
             w_heap w' = <[l := i]> (w_heap w) → same_but_heap w w' → Q (Ok l) w') →
  wp (new_image filename path tags expires_at) Q w.
Proof.
  intros Hx HQ. apply wp_bind, wp_uuid4, wp_bind, wp_read_now, wp_bind, wp_read_now, wp_alloc.
  intros l Hl. eapply HQ; [|exact Hl|done|by repeat split].
  split; [done..|eexists; done|eexists; done|]. by destruct ttl.
Qed.

Lemma uuid_str_encodes u : utf8_encode (uuid_str u) ≠ None.
Proof. by rewrite utf8_encode_ascii by apply uuid_str_ascii. Qed.

Lemma broker_frame_trace w w' t : broker_frame w w' → same_but_queues w (set_trace t w').
Proof. intros (? & ? & ? & ? & ? & ? & ?). by repeat split. Qed.

Lemma wp_publish_task image_id (Q : outcome unit → world → Prop) w :
  (∀ o w', same_but_queues w w' →
           match o with
           | Ok _ => task_queued broker image_id w w' ∨ ∃ e, injects w OpPublish e
           | Exn e => is_exception e = false ∧ injects w OpPublish e
           end → Q o w') →
  wp (UploadImage.publish_task broker image_id) Q w.
Proof.
  intros HQ. unfold UploadImage.publish_task. destruct broker as [b|] eqn:Eb.
  - pose proof (broker_laws b eq_refl). apply wp_except_if, wp_bind.
    eapply wp_mono; [apply (br_publish_law (upload_message image_id))|].
    intros [[]|e] w' (Hf & Hq & Ho).
    + apply wp_observe, HQ; [by apply broker_frame_trace|left; exact Ho].
    + destruct Ho as [Hi|Hi]; [|by destruct (uuid_str_encodes image_id (proj1 Hi))].
      destruct (is_exception e) eqn:Ee.
      * apply wp_observe, HQ; [by apply broker_frame_trace|]. right. by exists e.
      * apply HQ; [by apply (broker_frame_trace w w' (w_trace w'))|done].
  - apply HQ; [by repeat split|by left].
Qed.

(** The keys when the body of the [try] raised [e]: as they were, or completed
    for a stored image when that acknowledgement was what failed. *)
Definition keys_after_failure (key : option pystr) (e : exn) (w w' : world) : Prop :=
  db_keys (w_db w') = db_keys (w_db w) ∨
  injects w OpKeyComplete e ∧
  ∃ u, is_Some (db_images (w_db w') !! u) ∧ keys_completed key u (w_db w) (w_db w').

(** The outcomes of the body of the [try]. *)
Definition upload_post (filename : pystr) (data : pybytes) (tags : list pystr) (ttl : option Z)
    (key : option pystr) (w : world) (o : outcome ImageResponse) (w' : world) : Prop :=
  world_ok w' ∧ w_env w' = w_env w ∧
  match o with
  | Ok r => ∃ i p m,
      created filename p tags ttl w i ∧ st_path filename data = Ok p ∧ r = to_response i ∧
      db_images (w_db w') = <[img_id i := m]> (db_images (w_db w)) ∧ model_to_entity m = Ok i ∧
      keys_completed key (img_id i) (w_db w) (w_db w') ∧ w_fs w' = <[p := data]> (w_fs w) ∧
      (task_queued broker (img_id i) w w' ∨ ∃ e, injects w OpPublish e) ∧
      (∀ id, id = img_id i ∨ repo_coh id w → repo_coh id w')
  | Exn e =>
      keys_after_failure key e w w' ∧
      (st_path filename data = Exn e ∨ expiry_overflow ttl w e ∨
       (∃ p i, created filename p tags ttl w i ∧ st_path filename data = Ok p ∧
               save_txn i (w_db w) = Exn e) ∨
       injects w OpStore e ∨ injects w OpSave e ∨ (key ≠ None ∧ injects w OpKeyComplete e) ∨
       (is_exception e = false ∧ injects w OpPublish e))
  end.

(** After the image was saved in state [w]. *)
Lemma wp_upload_tail key l i (Q : outcome ImageResponse → world → Prop) w :
  w_heap w !! l = Some i → world_ok w →
  (∀ r w', world_ok w' → w_env w' = w_env w → w_fs w' = w_fs w →
           db_images (w_db w') = db_images (w_db w) → r = to_response i →
           keys_completed key (img_id i) (w_db w) (w_db w') →
           (task_queued broker (img_id i) w w' ∨ ∃ e, injects w OpPublish e) →
           (∀ id, repo_coh id w → repo_coh id w') → Q (Ok r) w') →
  (∀ e w', world_ok w' → w_env w' = w_env w → db_images (w_db w') = db_images (w_db w) →
           db_keys (w_db w') = db_keys (w_db w) ∨
             injects w OpKeyComplete e ∧ keys_completed key (img_id i) (w_db w) (w_db w') →
           (key ≠ None ∧ injects w OpKeyComplete e) ∨ (is_exception e = false ∧ injects w OpPublish e) →
           Q (Exn e) w') →
  wp (UploadImage.record_upload;;
      s ← deref l;
      UploadImage.publish_task broker (img_id s);;
      match key with
      | None => mret tt
      | Some k => repo_complete_idem repository UPLOAD_SCOPE k (img_id s)
      end;;
      i ← deref l;
      mret (to_response i)) Q w.
Proof.
  intros Hl Hok HQ HE. apply wp_bind, wp_observe, wp_bind, (wp_deref l i); [done|].
  apply wp_bind, wp_publish_task. intros o w1 (Hh & Hd & _ & Hc & Hf & He) Ho. cbn in Hh, Hd, Hc, Hf, He.
  assert (world_ok w1) as Hok1 by by apply (world_ok_same w).
  assert (∀ id, repo_coh id w → repo_coh id w1) as Hcoh1.
  { intros id. apply repo_coh_frame; [by rewrite Hh|by rewrite Hd|done]. }
  destruct o as [[]|e]; [|by apply HE; try done; [by rewrite Hd|left; by rewrite Hd|right]].
  assert (task_queued broker (img_id i) w w1 ∨ ∃ e, injects w OpPublish e) as Hq1 by exact Ho.
  destruct key as [k|]; apply wp_bind.
  - eapply wp_mono; [apply repo_complete_idem_law|]. intros o w2 (now & Ht & Hs).
    assert (world_ok w2) as Hok2.
    { eapply same_but_db_ok; [exact Hs| |done]. eapply txn_result_ok; [|exact Ht].
      intros ??. apply key_complete_txn_ok. }
    destruct Hs as (Hh2 & _ & Hc2 & Hf2 & Hqs2 & _ & He2).
    assert (db_images (w_db w2) = db_images (w_db w)) as Hdi.
    { rewrite <- Hd. eapply (txn_result_keeps db_images); [|exact Ht].
      intros ??. apply key_complete_txn_images. }
    assert (∀ d2, key_complete_txn now UPLOAD_SCOPE k (img_id i) (w_db w1) = Ok (tt, d2) →
            keys_completed (Some k) (img_id i) (w_db w) d2) as Hdone.
    { intros d2 E. exists now. rewrite key_complete_txn_eq, Hd in E.
      destruct (db_keys (w_db w) !! (UPLOAD_SCOPE, k)); by injection E as <-. }
    destruct o as [[]|e].
    + apply wp_bind, (wp_deref l i); [by rewrite Hh2, Hh|]. apply wp_ret.
      apply HQ; [done|congruence|congruence|done|done| | |].
      * apply txn_result_Ok in Ht. by apply Hdone.
      * destruct Hq1 as [Hq1|?]; [left|by right]. unfold task_queued, queues_are, queue in *.
        by rewrite Hqs2.
      * intros id Hid. apply (repo_coh_frame id w1); [by rewrite Hh2|by rewrite Hdi, Hd|done|auto].
    + assert (injects w OpKeyComplete e) as Hi.
      { apply (injects_env w w1); [done|]. apply txn_result_Exn in Ht as [Ht|Ht]; [|done].
        rewrite key_complete_txn_eq in Ht. by case_match. }
      apply HE; [done|congruence|done| |by left]. inversion Ht as [|e1 E|e1 Hi1|e1 [] d2 E]; subst.
      * rewrite key_complete_txn_eq in E. by case_match.
      * left. congruence.
      * right. split; [done|]. by apply Hdone.
  - apply wp_ret, wp_bind, (wp_deref l i); [by rewrite Hh|]. apply wp_ret.
    apply HQ; try done; by rewrite Hd.
Qed.

(** Reading the clock for the expiry. *)
Lemma wp_expiry ttl (Q : outcome (option Z) → world → Prop) w :
  (∀ x w', match ttl with
           | None => x = None
           | Some h => ∃ t, x = Some (e_now (w_env w) t + h * microseconds_per_hour)
           end → w_heap w' = w_heap w → same_but_heap w w' → Q (Ok x) w') →
  (∀ e w', expiry_overflow ttl w e → w_heap w' = w_heap w → same_but_heap w w' → Q (Exn e) w') →
  wp (match ttl with
      | None => mret None
      | Some h =>
          now ← read_now;
          d ← lift (timedelta_hours h);
          e ← lift (datetime_add now d);
          mret (Some e)
      end) Q w.
Proof.
  intros HQ HE. destruct ttl as [h|]; [|apply HQ; [done..|by repeat split]].
  apply wp_bind, wp_read_now.
  assert (∀ e, (d ← timedelta_hours h; datetime_add (e_now (w_env w) (w_tick w)) d) = Exn e →
               Q (Exn e) (tick w)) as HE'.
  { intros e E. apply HE; [by exists h, (w_tick w)|done|by repeat split]. }
  unfold lift. apply wp_bind, wp_done.
  destruct (timedelta_hours h) as [d|e] eqn:Ed; [|by apply HE'].
  apply wp_bind, wp_done. cbn [mbind outcome_bind] in HE'.
  destruct (datetime_add (e_now (w_env w) (w_tick w)) d) as [x|e] eqn:Ex; [|by apply HE'].
  apply wp_ret, HQ; [|done|by repeat split]. exists (w_tick w).
  unfold timedelta_hours in Ed. case_match; [|done]. injection Ed as <-.
  unfold datetime_add in Ex. case_match; [|done]. by injection Ex as <-.
Qed.

Lemma created_env filename p tags ttl w w' i :
  w_env w' = w_env w → created filename p tags ttl w' i → created filename p tags ttl w i.
Proof. intros E [? ? ? ? ? ? ? ? ?]. rewrite E in *. by split. Qed.

Lemma task_queued_same image_id w1 w2 w' :
  w_queues w1 = w_queues w2 → task_queued broker image_id w1 w' → task_queued broker image_id w2 w'.
Proof.
  intros E. unfold task_queued, queues_are. assert (∀ t, queue t w1 = queue t w2) as Hq.
  { intros t. unfold queue. by rewrite E. }
  destruct broker; [|intros Ht t; by rewrite Ht]. rewrite Hq. intros [H1 H2]. split; [done|].
  intros t Ht. by rewrite H2.
Qed.

Lemma keys_completed_same key image_id d1 d2 d' :
  db_keys d1 = db_keys d2 → keys_completed key image_id d1 d' → keys_completed key image_id d2 d'.
Proof. unfold keys_completed. intros ->. done. Qed.

Lemma created_fresh filename p tags ttl w i :
  fresh_uuids w → created filename p tags ttl w i →
  db_images (w_db w) !! img_id i = None ∧ metadata_kept i None.
Proof.
  intros Hf [? ? ? ? ? Hm [t ->] ? ?]. split; [apply Hf|]. unfold metadata_kept. by rewrite Hm.
Qed.

(** From the object made to the response. *)
Lemma wp_upload_saved filename data tags ttl key p l i w0 w :
  world_ok w → fresh_uuids w0 → created filename p tags ttl w0 i → st_path filename data = Ok p →
  w_heap w !! l = Some i → w_db w = w_db w0 → w_fs w = <[p := data]> (w_fs w0) →
  w_queues w = w_queues w0 → w_env w = w_env w0 → (∀ id, repo_coh id w0 → repo_coh id w) →
  wp (saved ← repo_save repository l;
      UploadImage.record_upload;;
      s ← deref saved;
      UploadImage.publish_task broker (img_id s);;
      match key with
      | None => mret tt
      | Some k => repo_complete_idem repository UPLOAD_SCOPE k (img_id s)
      end;;
      i ← deref saved;
      mret (to_response i)) (upload_post filename data tags ttl key w0) w.
Proof.
  intros Hok Hfr Hcr Hp Hl Hd Hf Hq He Hcoh. destruct (created_fresh _ _ _ _ _ _ Hfr Hcr) as [Hnew Hmd].
  apply wp_bind. eapply wp_mono; [by apply (repo_save_law l i)|].
  intros o w1 ((o' & Ht & ->) & Hh1 & Hf1 & Hcoh1 & Hcohi).
  destruct Hf1 as (_ & _ & Hfs1 & Hqs1 & _ & He1 & Hok1). specialize (Hok1 Hok).
  destruct o' as [[]|e].
  - apply txn_result_Ok in Ht. rewrite Hd in Ht. apply save_txn_new in Ht as [Hd1 Hmi]; [|rewrite <- Hd; apply Hok|done..].
    apply (wp_upload_tail key l i); [by rewrite Hh1|done| |].
    + intros r w2 Hok2 He2 Hf2 Hd2 -> Hk2 Hq2 Hcoh2. split_and!; [done|congruence|].
      eexists i, p, _. split_and!; [done..| |exact Hmi| | | |].
      * by rewrite Hd2, Hd1.
      * eapply keys_completed_same; [|exact Hk2]. by rewrite Hd1.
      * by rewrite Hf2, Hfs1.
      * destruct Hq2 as [Hq2|[e Hi]].
        -- left. eapply task_queued_same; [|exact Hq2]. by rewrite Hqs1.
        -- right. exists e. eapply injects_env; [|exact Hi]. by rewrite He1.
      * intros id Hid. apply Hcoh2. destruct (decide (id = img_id i)) as [->|Hne]; [by apply Hcohi|].
        destruct Hid as [?|Hid]; [done|]. auto.
    + intros e w2 Hok2 He2 Hi2 Hk2 Hi.
      assert (∀ op, injects w1 op e → injects w0 op e) as Hinj.
      { intros op. apply injects_env. by rewrite He1. }
      split_and!; [done|congruence| |].
      { destruct Hk2 as [Hk2|[Hc Hk2]]; [left; by rewrite Hk2, Hd1|right]. split; [auto|].
        exists (img_id i). split; [rewrite Hi2, Hd1; cbn; by rewrite lookup_insert_eq|].
        eapply keys_completed_same; [|exact Hk2]. by rewrite Hd1. }
      destruct Hi as [[Hk Hi]|[Hx Hi]]; naive_solver.
  - split_and!; [done|by rewrite He1| |].
    { left. rewrite <- Hd. eapply (txn_result_keeps db_keys); [|exact Ht].
      intros [] d1. apply save_txn_keys. }
    apply txn_result_Exn in Ht as [Ht|Ht].
    + right. right. left. exists p, i. by rewrite <- Hd.
    + do 4 right. left. eapply injects_env; [|exact Ht]. done.
Qed.

Lemma wp_upload filename data tags ttl key w :
  world_ok w → fresh_uuids w →
  wp (UploadImage.upload repository storage broker filename data tags ttl key)
    (upload_post filename data tags ttl key w) w.
Proof.
  intros Hok Hfr. apply wp_bind. eapply wp_mono; [apply st_store_law|].
  intros o w1 ((Hh1 & Hd1 & _ & Hc1 & Hq1 & _ & He1) & Ho).
  assert (world_ok w1) as Hok1 by by apply (world_ok_same w).
  destruct o as [p|e].
  2:{ split_and!; [done..|by left; rewrite Hd1|]. destruct Ho as [[? _]|[? _]]; auto 6. }
  destruct Ho as [Hp Hf1]. apply wp_bind, wp_expiry.
  - intros x w2 Hx Hh2 (Hd2 & _ & Hc2 & Hf2 & Hq2 & _ & He2). rewrite He1 in Hx.
    apply wp_bind, (wp_new_image _ _ _ ttl); [by rewrite He2, He1|].
    intros l i w3 Hcr Hl Hh3 (Hd3 & _ & Hc3 & Hf3 & Hq3 & _ & He3).
    eapply (wp_upload_saved _ _ _ _ _ p l i); try congruence; try done.
    + apply (world_ok_same w1); congruence.
    + eapply created_env; [|exact Hcr]. by rewrite He2.
    + rewrite Hh3. by rewrite lookup_insert_eq.
    + intros id. apply repo_coh_frame; [|congruence..].
      rewrite Hh3, Hh2, Hh1. apply insert_subseteq. by rewrite <- Hh1, <- Hh2.
  - intros e w2 Hx Hh2 (Hd2 & _ & Hc2 & Hf2 & Hq2 & _ & He2). split_and!.
    + apply (world_ok_same w1); congruence.
    + congruence.
    + left. congruence.
    + right. left. destruct Hx as (h & t & ? & ?). exists h, t. by rewrite <- He1.
Qed.

(** ** Replays *)

(** What a recorded key answers, from the tables alone. *)
Definition replay_answer (r : IdempotencyRecord) (request_hash : pystr) (d : db) : outcome ImageResponse :=
  if negb (bool_decide (ir_request_hash r = request_hash)) then
    Exn (EIdempotencyConflict
      (lit "Idempotency-Key reuse with a different upload payload is not allowed"))
  else if bool_decide (ir_status r = lit "in_progress") then Exn in_progress_upload
  else match ir_image_id r with
       | None =>
           Exn (EIdempotencyConflict
             (lit "Completed upload idempotency record does not reference an image"))
       | Some u =>
           match db_images d !! u with
           | None => Exn (EIdempotencyConflict (lit "Idempotency replay image no longer exists"))
           | Some m => i ← model_to_entity m; Ok (to_response i)
           end
       end.

(** Only the cache and the heap of the process may have changed. *)
Definition nothing_written (w w' : world) : Prop :=
  w_db w' = w_db w ∧ w_fs w' = w_fs w ∧ w_queues w' = w_queues w ∧ w_trace w' = w_trace w ∧
  w_env w' = w_env w ∧ (world_ok w → world_ok w').

Lemma key_get_txn_db scope key d r d' : key_get_txn scope key d = Ok (r, d') → d' = d.
Proof.
  unfold key_get_txn. destruct (db_keys d !! (scope, key)) as [k|]; [|by intros [= _ <-]].
  destruct (k_image_id k) as [[|c s]|]; cbn; [by intros [= _ <-]| |by intros [= _ <-]].
  destruct (uuid_parse (c :: s)); cbn; [by intros [= _ <-]|done].
Qed.

Lemma wp_load_replay key request_hash r w :
  world_ok w → reliable w OpKeyGet → reliable w OpGet →
  key_get_txn UPLOAD_SCOPE key (w_db w) = Ok (Some r, w_db w) →
  (∀ id, ir_image_id r = Some id → repo_coh id w) →
  wp (UploadImage.load_idempotent_replay repository key request_hash)
    (λ o w', o = (x ← replay_answer r request_hash (w_db w); Ok (Some x)) ∧ nothing_written w w') w.
Proof.
  intros Hok Hr1 Hr2 Hkey Hcoh. apply wp_bind.
  eapply wp_mono; [apply repo_get_idem_law|]. intros o w1 [Ht Hs].
  apply txn_result_reliable in Ht; [|done]. rewrite Hkey in Ht. destruct Ht as [-> Hd1].
  destruct Hs as (Hh & _ & Hc & Hf & Hq & Htr & He).
  assert (nothing_written w w1) as Hn.
  { split_and!; [done..|]. by apply world_ok_same. }
  unfold replay_answer. destruct (bool_decide (ir_request_hash r = request_hash)); [|by split].
  cbn [negb]. destruct (bool_decide (ir_status r = lit "in_progress")); [by split|].
  destruct (ir_image_id r) as [u|]; [|by split].
  apply wp_bind. eapply wp_mono.
  { apply (repo_get_law u w1); [by apply (world_ok_same w)|].
    apply (repo_coh_frame u w); [by rewrite Hh|by rewrite Hd1|done|auto]. }
  intros o w2 (Ho & Hd2 & Hf2 & _).
  assert (nothing_written w w2) as Hn2.
  { destruct Hf2 as (_ & _ & ? & ? & ? & ? & Hw). split_and!; [congruence..|]. intros _. apply Hw, Hn, Hok. }
  rewrite Hd1 in Ho. destruct o as [[l|]|e].
  - destruct Ho as (i & m & Hl & -> & Hm). apply wp_bind, (wp_deref l i); [done|].
    apply wp_ret. rewrite Hm. by split.
  - rewrite Ho. by split.
  - exfalso. eapply reliable_no_inject; [|exact Ho]. by eapply reliable_env.
Qed.

Lemma wp_execute_present (filename : pystr) (data : pybytes) (tags : option (list pystr))
    (ttl_hours : option Z) (key : pystr) (r : IdempotencyRecord) (w : world) :
  world_ok w → reliable w OpKeyGet → reliable w OpGet →
  key_get_txn UPLOAD_SCOPE key (w_db w) = Ok (Some r, w_db w) →
  (∀ id, ir_image_id r = Some id → repo_coh id w) →
  wp (UploadImage.execute repository storage broker filename data tags ttl_hours (Some key))
    (λ o w', o = replay_answer r (hash_upload_request filename data (default [] tags) ttl_hours) (w_db w) ∧
             nothing_written w w') w.
Proof.
  intros Hok Hr1 Hr2 Hkey Hcoh. apply wp_bind, wp_bind.
  eapply wp_mono; [by apply wp_load_replay|]. intros o w' [-> Hn].
  destruct (replay_answer r _ (w_db w)) as [x|e]; [|by split]. cbn. by apply wp_ret.
Qed.

(** An upload under a key that was used before answers from the tables:
    the recorded response when the payload is the same and the first upload
    completed, otherwise the conflict or in-progress error that the record
    calls for; and nothing is written. *)
Theorem upload_replays (filename : pystr) (data : pybytes) (tags : option (list pystr))
    (ttl_hours : option Z) (key : pystr) (r : IdempotencyRecord) (w : world) :
  world_ok w → reliable w OpKeyGet → reliable w OpGet →
  key_get_txn UPLOAD_SCOPE key (w_db w) = Ok (Some r, w_db w) →
  (∀ id, ir_image_id r = Some id → repo_coh id w) →
  wp (UploadImage.execute repository storage broker filename data tags ttl_hours (Some key))
    (λ o w', o = replay_answer r (hash_upload_request filename data (default [] tags) ttl_hours) (w_db w) ∧
             nothing_written w w') w.
Proof. apply wp_execute_present. Qed.

(** ** Fresh keys *)

(** A record that a key claim inserts, before and after completion. *)
Definition key_record (key request_hash status : pystr) (image_id : option Z)
    (k : IdempotencyKeyModel) : Prop :=
  k_scope k = UPLOAD_SCOPE ∧ k_key k = key ∧ k_request_hash k = request_hash ∧
  k_status k = status ∧ k_image_id k = uuid_str <$> image_id.

(** The state after a claim: the key is marked, nothing else has changed. *)
Definition claimed (key : option pystr) (request_hash : pystr) (w w' : world) : Prop :=
  same_but_db w w' ∧ db_images (w_db w') = db_images (w_db w) ∧ (world_ok w → world_ok w') ∧
  match key with
  | None => db_keys (w_db w') = db_keys (w_db w)
  | Some k => ∃ rec, key_record k request_hash (lit "in_progress") None rec ∧
                     db_keys (w_db w') = <[(UPLOAD_SCOPE, k) := rec]> (db_keys (w_db w))
  end.

Definition absent (key : option pystr) (d : db) : Prop :=
  match key with None => True | Some k => db_keys d !! (UPLOAD_SCOPE, k) = None end.

(** Why a claim of an absent key fails, and what it leaves: nothing, or the key
    claimed when the acknowledgement was lost. *)
Definition claim_failed (key : option pystr) (hash : pystr) (w : world) (e : exn) (w' : world) : Prop :=
  ∃ k, key = Some k ∧
  (injects w OpKeyGet e ∨ injects w OpKeyCreate e ∨ pg_varchar 255 k = false) ∧
  (w_db w' = w_db w ∨
   injects w OpKeyCreate e ∧ ¬ fails_cleanly w OpKeyCreate ∧ claimed key hash w w').

Lemma key_create_txn_new t1 t2 key request_hash d :
  db_keys d !! (UPLOAD_SCOPE, key) = None → pg_varchar 64 request_hash = true →
  match key_create_txn t1 t2 UPLOAD_SCOPE key request_hash None d with
  | Ok (b, d') => b = true ∧ db_images d' = db_images d ∧
      ∃ rec, key_record key request_hash (lit "in_progress") None rec ∧
             db_keys d' = <[(UPLOAD_SCOPE, key) := rec]> (db_keys d)
  | Exn _ => pg_varchar 255 key = false
  end.
Proof.
  intros Hkey Hh. unfold key_create_txn. destruct (key_row_ok _) eqn:Erow.
  - rewrite Hkey. split_and!; [done..|]. eexists. split; [|done]. by split_and!.
  - unfold key_row_ok in Erow. cbn [k_scope k_key k_request_hash k_status k_image_id] in Erow.
    rewrite Hh in Erow. change (pg_varchar 32 UPLOAD_SCOPE) with true in Erow.
    change (pg_varchar 20 (lit "in_progress")) with true in Erow. cbn in Erow.
    by rewrite !andb_true_r in Erow.
Qed.

Lemma wp_claim_fresh key b w :
  absent key (w_db w) →
  wp (UploadImage.claim repository key (sha256_hex b))
    (λ o w', match o with
             | Ok None => claimed key (sha256_hex b) w w'
             | Ok (Some _) => False
             | Exn e => claim_failed key (sha256_hex b) w e w' ∧ w_env w' = w_env w
             end) w.
Proof.
  intros Habs. destruct key as [k|]; [|by apply wp_ret; split_and!]. cbn in Habs.
  apply wp_bind, wp_bind. eapply wp_mono; [apply repo_get_idem_law|]. intros o w1 [Ht Hs].
  unfold key_get_txn in Ht. rewrite Habs in Ht. pose proof Hs as (_ & _ & _ & _ & _ & _ & He).
  destruct o as [x|e].
  2:{ split; [|done]. exists k. split; [done|]. apply txn_result_Exn in Ht as Hi.
      destruct Hi as [?|Hi]; [done|]. split; [by left|]. left. by inversion Ht; simplify_eq. }
  apply txn_result_Ok in Ht. injection Ht as <- Hd1. apply wp_ret, wp_bind.
  eapply wp_mono; [apply repo_create_idem_law|]. intros o w2 (t1 & t2 & Ht & Hs2).
  rewrite <- Hd1 in Ht. assert (same_but_db w w2) as Hs'.
  { destruct Hs as (? & ? & ? & ? & ? & ? & ?), Hs2 as (? & ? & ? & ? & ? & ? & ?). split_and!; congruence. }
  pose proof (key_create_txn_new t1 t2 k (sha256_hex b) (w_db w) Habs (sha256_varchar b)) as Hnew.
  destruct o as [x|e].
  - apply txn_result_Ok in Ht. rewrite Ht in Hnew. destruct Hnew as (-> & Hi & Hrec).
    apply wp_ret. split_and!; [done..| |done]. apply (same_but_db_ok w w2 Hs').
    by eapply key_create_txn_ok.
  - split; [|apply Hs']. exists k. split; [done|]. split.
    + apply txn_result_Exn in Ht as [Ht|Ht]; [rewrite Ht in Hnew; auto|].
      right. left. by apply (injects_env w w1).
    + inversion Ht as [|e1 E|e1 Hi1|e1 x d2 E Hi1 Hc]; subst; [left; congruence..|right].
      rewrite E in Hnew. destruct Hnew as (-> & Hi & Hrec).
      refine (conj _ (conj _ (conj Hs' (conj Hi (conj _ Hrec))))).
      * by apply (injects_env w w1).
      * intros Hn. apply Hc. unfold fails_cleanly in *. by rewrite He.
      * apply (same_but_db_ok w w2 Hs'). by eapply key_create_txn_ok.
Qed.

(** The whole of [execute] under an absent key, or no key. *)
Lemma wp_execute_fresh filename data tags ttl key w (Q : outcome ImageResponse → world → Prop) :
  let tags' := default [] tags in
  let hash := hash_upload_request filename data tags' ttl in
  world_ok w → fresh_uuids w → absent key (w_db w) →
  (∀ e w', claim_failed key hash w e w' → Q (Exn e) w') →
  (∀ w1 r w', claimed key hash w w1 → upload_post filename data tags' ttl key w1 (Ok r) w' → Q (Ok r) w') →
  (∀ w1 e w2, claimed key hash w w1 → upload_post filename data tags' ttl key w1 (Exn e) w2 →
     if is_exception e then
       wp (match key with None => mret tt | Some k => repo_delete_idem repository UPLOAD_SCOPE k end;;
           raise e) Q w2
     else Q (Exn e) w2) →
  wp (UploadImage.execute repository storage broker filename data tags ttl key) Q w.
Proof.
  intros tags' hash Hok Hfr Habs HC HQ HE. apply wp_bind.
  eapply wp_mono; [by apply wp_claim_fresh|]. intros [[x|]|e] w1; [done| |by intros [? _]; apply HC].
  intros Hcl. pose proof Hcl as ((_ & _ & _ & _ & _ & _ & He) & Hi & Hok1 & _).
  apply wp_except_if. eapply wp_mono.
  { apply wp_upload; [by apply Hok1|]. intros t. rewrite Hi, He. apply Hfr. }
  intros [r|e] w2 Hp; [by eapply HQ|]. specialize (HE w1 e w2 Hcl Hp).
  by destruct (is_exception e).
Qed.

(** The fields of a request fit their columns. *)
Definition request_fits (filename path : pystr) (tags : list pystr) (key : option pystr) : Prop :=
  pg_varchar 512 filename = true ∧ pg_text path = true ∧ forallb pg_text tags = true ∧
  (∀ k, key = Some k → pg_varchar 255 k = true).

Lemma created_row_ok filename p tags ttl w i m :
  created filename p tags ttl w i → pg_varchar 512 filename = true → pg_text p = true →
  forallb pg_text tags = true →
  image_row_ok (entity_to_model i (new_image_model m)) = true.
Proof.
  intros [Hfn Hpa Hta Hs Ht Hm _ _ _] Hf Hp Htg. unfold image_row_ok, entity_to_model. cbn [m_filename
    m_original_path m_thumbnail_path m_status m_width m_height m_format m_size_bytes m_channels m_tags].
  rewrite Hfn, Hpa, Hta, Hs, Ht, Hm, Hf, Hp. cbn [nullable]. by rewrite Htg.
Qed.

(** What a successful upload leaves. *)
Definition uploaded (filename : pystr) (data : pybytes) (tags : list pystr) (ttl : option Z)
    (key : option pystr) (w : world) (r : ImageResponse) (w' : world) : Prop :=
  ∃ i p m,
    created filename p tags ttl w i ∧ st_path filename data = Ok p ∧ r = to_response i ∧
    db_images (w_db w') = <[img_id i := m]> (db_images (w_db w)) ∧ model_to_entity m = Ok i ∧
    w_fs w' = <[p := data]> (w_fs w) ∧
    match key with
    | None => db_keys (w_db w') = db_keys (w_db w)
    | Some k =>
        ∃ rec, key_record k (hash_upload_request filename data tags ttl) (lit "completed")
                 (Some (img_id i)) rec ∧
               db_keys (w_db w') = <[(UPLOAD_SCOPE, k) := rec]> (db_keys (w_db w))
    end ∧
    (task_queued broker (img_id i) w w' ∨ ∃ e, injects w OpPublish e).

Lemma claimed_uploaded filename data tags ttl key w w1 r w' :
  claimed key (hash_upload_request filename data tags ttl) w w1 →
  upload_post filename data tags ttl key w1 (Ok r) w' →
  uploaded filename data tags ttl key w r w'.
Proof.
  intros ((_ & _ & _ & Hf & Hq & _ & He) & Hi & _ & Hk)
    (_ & _ & i & p & m & Hcr & Hp & Hr & Hi' & Hm & Hk' & Hf' & Hq' & _).
  exists i, p, m. split_and!; [by eapply created_env|done|done|by rewrite Hi', Hi|done|by rewrite Hf', Hf| |].
  - unfold keys_completed in Hk'. destruct key as [k|]; [|congruence].
    destruct Hk as (rec & (? & ? & ? & _) & Hk), Hk' as (now & Hk').
    rewrite Hk, lookup_insert_eq in Hk'. exists (complete_key now (img_id i) rec).
    split; [by split_and!|]. by rewrite Hk', insert_insert_eq.
  - destruct Hq' as [Hq'|[e Hx]]; [left; by eapply task_queued_same|].
    right. exists e. by eapply injects_env.
Qed.

(** The environment under which an upload must succeed: faults hit the
    publication only, and none of them is a cancellation. *)
Definition upload_env (w : world) : Prop :=
  (∀ op, op ∈ [OpKeyGet; OpKeyCreate; OpStore; OpSave; OpKeyComplete] → reliable w op) ∧
  (∀ e, injects w OpPublish e → is_exception e = true).

Lemma wp_upload_succeeds filename data tags ttl key p w :
  world_ok w → fresh_uuids w → absent key (w_db w) → upload_env w →
  st_path filename data = Ok p → (∀ e, ¬ expiry_overflow ttl w e) →
  request_fits filename p (default [] tags) key →
  wp (UploadImage.execute repository storage broker filename data tags ttl key)
    (λ o w', ∃ w1 r, o = Ok r ∧ claimed key (hash_upload_request filename data (default [] tags) ttl) w w1 ∧
                     upload_post filename data (default [] tags) ttl key w1 o w') w.
Proof.
  intros Hok Hfr Habs [Hrel Hpub] Hp Hx (Hfit1 & Hfit2 & Hfit3 & Hfit4).
  apply wp_execute_fresh; try done.
  - intros e w' (k & -> & [Hi|[Hi|Hk]] & _); exfalso.
    + by apply (reliable_no_inject w OpKeyGet e); [apply Hrel; set_solver|].
    + by apply (reliable_no_inject w OpKeyCreate e); [apply Hrel; set_solver|].
    + by rewrite Hfit4 in Hk.
  - intros w1 r w' Hcl Hpost. by exists w1, r.
  - intros w1 e w2 (Hs & Hi & Hok1 & _) (_ & _ & _ & He). exfalso.
    destruct Hs as (_ & _ & _ & _ & _ & _ & Henv).
    assert (∀ op, op ∈ [OpKeyGet; OpKeyCreate; OpStore; OpSave; OpKeyComplete] → ¬ injects w1 op e) as Hno.
    { intros op Hop Hin. eapply reliable_no_inject; [by apply Hrel|]. by eapply injects_env. }
    destruct He as [He|[He|[(p' & i & Hcr & Hp' & He)|[He|[He|[[_ He]|[Hexn He]]]]]]].
    + congruence.
    + destruct He as (h & t & Hh & He). apply (Hx e). exists h, t. by rewrite <- Henv.
    + assert (p' = p) as -> by congruence. rewrite save_txn_eq in He by apply Hok1, Hok.
      assert (db_images (w_db w1) !! img_id i = None) as Hnone.
      { rewrite Hi. destruct Hcr as [_ _ _ _ _ _ [t ->] _ _]. rewrite Henv. apply Hfr. }
      rewrite Hnone in He. cbn [default] in He.
      by erewrite created_row_ok in He.
    + apply (Hno OpStore); [set_solver|done].
    + apply (Hno OpSave); [set_solver|done].
    + apply (Hno OpKeyComplete); [set_solver|done].
    + rewrite Hpub in Hexn; [done|]. by eapply injects_env.
Qed.

(** An upload succeeds and does all it should.  When only the publication
    can fail: the response describes a new pending image with the name, tags and
    expiry asked for; its row, and no other, is added; its bytes are stored at
    its path; its processing task is queued, unless the publication failed; and
    the key, if any, is recorded as completed for this image and payload. *)
Theorem upload_succeeds (filename : pystr) (data : pybytes) (tags : option (list pystr))
    (ttl_hours : option Z) (key : option pystr) (p : pystr) (w : world) :
  world_ok w → fresh_uuids w → absent key (w_db w) → upload_env w →
  st_path filename data = Ok p → (∀ e, ¬ expiry_overflow ttl_hours w e) →
  request_fits filename p (default [] tags) key →
  wp (UploadImage.execute repository storage broker filename data tags ttl_hours key)
    (λ o w', ∃ r, o = Ok r ∧ uploaded filename data (default [] tags) ttl_hours key w r w' ∧
                  world_ok w') w.
Proof.
  intros. eapply wp_mono; [by eapply wp_upload_succeeds|].
  intros o w' (w1 & r & -> & Hcl & Hpost). exists r. split_and!; [done|by eapply claimed_uploaded|].
  apply Hpost.
Qed.

(** The row a failed upload may leave under its key: its claim, as it was made
    or completed for a stored image. *)
Definition claim_left (k request_hash : pystr) (w : world) : Prop :=
  ∃ rec, db_keys (w_db w) !! (UPLOAD_SCOPE, k) = Some rec ∧
  (key_record k request_hash (lit "in_progress") None rec ∨
   ∃ u, key_record k request_hash (lit "completed") (Some u) rec ∧ is_Some (db_images (w_db w) !! u)).

Lemma claim_left_after k hash e w w1 w2 :
  claimed (Some k) hash w w1 → keys_after_failure (Some k) e w1 w2 → claim_left k hash w2.
Proof.
  intros (_ & _ & _ & rec & Hrec & Hk) [Hk2|(_ & u & Hu & now & Hk2)].
  - exists rec. rewrite Hk2, Hk, lookup_insert_eq. split; [done|by left].
  - rewrite Hk, lookup_insert_eq in Hk2. exists (complete_key now u rec).
    rewrite Hk2, lookup_insert_eq. split; [done|right]. exists u. split; [|done].
    destruct Hrec as (? & ? & ? & _). by split_and!.
Qed.

(** C10: what an upload leaves of its key.  Under a key that is not in use, and
    with no other request at work on it, the upload ends, whatever fails, in one
    of three ways: with a response, and the key completed for the image it
    describes; with an error, and the key free for a retry; or with an error,
    and its own claim (or the completed record of a stored image) left behind.
    The last happens in three cases only: the request was cancelled (its error
    is no [Exception]), the deletion of the key is what failed, or the database
    lost the acknowledgement of the claim. *)
Theorem upload_settles_key (filename : pystr) (data : pybytes) (tags : option (list pystr))
    (ttl_hours : option Z) (k : pystr) (w : world) :
  world_ok w → fresh_uuids w → db_keys (w_db w) !! (UPLOAD_SCOPE, k) = None →
  let hash := hash_upload_request filename data (default [] tags) ttl_hours in
  wp (UploadImage.execute repository storage broker filename data tags ttl_hours (Some k))
    (λ o w', match o with
             | Ok r =>
                 ∃ rec u, db_keys (w_db w') !! (UPLOAD_SCOPE, k) = Some rec ∧
                          key_record k hash (lit "completed") (Some u) rec ∧
                          resp_id r = u ∧ is_Some (db_images (w_db w') !! u)
             | Exn e =>
                 db_keys (w_db w') !! (UPLOAD_SCOPE, k) = None ∨
                 claim_left k hash w' ∧
                 (is_exception e = false ∨ injects w OpKeyDelete e ∨
                  injects w OpKeyCreate e ∧ ¬ fails_cleanly w OpKeyCreate)
             end) w.
Proof.
  intros Hok Hfr Habs hash. apply wp_execute_fresh; try done.
  - intros e w' (k' & [= <-] & _ & [Hd|(Hi & Hc & _ & _ & _ & rec & Hrec & Hk)]); [left; by rewrite Hd|right].
    split; [|auto]. exists rec. rewrite Hk, lookup_insert_eq. split; [done|by left].
  - intros w1 r w' Hcl Hpost. eapply claimed_uploaded in Hpost; [|exact Hcl].
    destruct Hpost as (i & p & m & _ & _ & -> & Hi & _ & _ & (rec & Hrec & Hk) & _).
    exists rec, (img_id i). by rewrite Hk, Hi, !lookup_insert_eq.
  - intros w1 e w2 Hcl (_ & He2 & Hk & _). pose proof (claim_left_after _ _ _ _ _ _ Hcl Hk) as Hleft.
    destruct Hcl as ((_ & _ & _ & _ & _ & _ & He) & _).
    destruct (is_exception e) eqn:Ee; [|by right; auto]. apply wp_bind.
    eapply wp_mono; [apply repo_delete_idem_law|]. intros o w3 [Ht _].
    inversion Ht as [x d E|e1 E|e1 Hi|e1 x d E Hi Hc]; subst.
    + apply wp_raise. left. injection E as <- <-. apply lookup_delete_eq.
    + done.
    + right. split; [|right; left; eapply injects_env; [|exact Hi]; congruence].
      unfold claim_left. by replace (w_db w3) with (w_db w2).
    + left. injection E as <- Hd. rewrite <- Hd. apply lookup_delete_eq.
Qed.

(** The record of a completed key reads back. *)
Lemma key_get_completed k hash u rec d :
  uuid_ok u → key_record k hash (lit "completed") (Some u) rec →
  db_keys d !! (UPLOAD_SCOPE, k) = Some rec →
  key_get_txn UPLOAD_SCOPE k d =
  Ok (Some (MkIdempotency UPLOAD_SCOPE k hash (lit "completed") (Some u)), d).
Proof.
  intros Hu (Hs & Hk & Hh & Hst & Hi) Hl. unfold key_get_txn. rewrite Hl, Hi, Hs, Hk, Hh, Hst. cbn.
  pose proof (uuid_str_length u) as Hlen. destruct (uuid_str u) as [|c s] eqn:E; [done|].
  rewrite <- E, uuid_roundtrip by done. done.
Qed.

Lemma created_uuid_ok filename p tags ttl w i : created filename p tags ttl w i → uuid_ok (img_id i).
Proof. intros [_ _ _ _ _ _ [t ->] _ _]. unfold uuid_ok. apply Z.mod_pos_bound. lia. Qed.

Lemma decide_negb_bool {A} (P : Prop) `{Decision P} (x y : A) :
  (if negb (bool_decide P) then x else y) = if decide P then y else x.
Proof. case_decide; [by rewrite bool_decide_true|by rewrite bool_decide_false]. Qed.

(** C6: uploads are idempotent.  After a first upload under a key succeeds, a
    second under that key writes nothing: it returns the first response if its
    payload has the same hash, and the conflict error otherwise. *)
Theorem upload_idempotent (filename filename2 : pystr) (data data2 : pybytes)
    (tags tags2 : option (list pystr)) (ttl ttl2 : option Z) (k p : pystr) (w : world) :
  world_ok w → fresh_uuids w → absent (Some k) (w_db w) → upload_env w → reliable w OpGet →
  st_path filename data = Ok p → (∀ e, ¬ expiry_overflow ttl w e) →
  request_fits filename p (default [] tags) (Some k) →
  wp (UploadImage.execute repository storage broker filename data tags ttl (Some k))
    (λ o w1, ∃ r, o = Ok r ∧
       wp (UploadImage.execute repository storage broker filename2 data2 tags2 ttl2 (Some k))
         (λ o' w2, nothing_written w1 w2 ∧
            o' = if decide (hash_upload_request filename data (default [] tags) ttl =
                            hash_upload_request filename2 data2 (default [] tags2) ttl2)
                 then Ok r
                 else Exn (EIdempotencyConflict (lit
                        "Idempotency-Key reuse with a different upload payload is not allowed"))) w1) w.
Proof.
  intros Hok Hfr Habs Henv Hget Hp Hx Hfit. eapply wp_mono; [by eapply wp_upload_succeeds|].
  intros o w1 (w0 & r & -> & Hcl & Hpost). exists r. split; [done|].
  pose proof (claimed_uploaded _ _ _ _ _ _ _ _ _ Hcl Hpost)
    as (i & p' & m & Hcr & _ & -> & Hi & Hm & _ & (rec & Hrec & Hk) & _).
  destruct Hpost as (Hok1 & He1 & i' & _ & m' & _ & _ & Hr & Hi' & Hm' & _ & _ & _ & Hcoh).
  assert (img_id i' = img_id i) as Hid.
  { change (resp_id (to_response i') = resp_id (to_response i)). by rewrite Hr. }
  assert (w_env w1 = w_env w) as Hew.
  { rewrite He1. by destruct Hcl as ((_ & _ & _ & _ & _ & _ & ?) & _). }
  eapply wp_mono; [eapply wp_execute_present|].
  - done.
  - eapply reliable_env; [exact Hew|]. apply Henv. set_solver.
  - by eapply reliable_env.
  - eapply key_get_completed; [by eapply created_uuid_ok|exact Hrec|]. by rewrite Hk, lookup_insert_eq.
  - intros id [= <-]. apply Hcoh. left. by rewrite Hid.
  - intros o w2 [-> Hn]. split; [done|]. unfold replay_answer. cbn [ir_request_hash ir_status ir_image_id].
    rewrite decide_negb_bool. case_decide; [|done]. rewrite bool_decide_false by done.
    rewrite Hi, lookup_insert_eq, Hm. done.
Qed.
End proofs.

(** ** The request hash *)

(** A collision of the hash function. *)
Definition sha256_collision (x y : pybytes) : Prop := x ≠ y ∧ sha256_hex x = sha256_hex y.

Definition request_json (filename : pystr) (data : pybytes) (tags : list pystr) (ttl : option Z) : json :=
  JObj [(lit "content_sha256", JStr (sha256_hex data)); (lit "filename", JStr filename);
        (lit "tags", JArr (map JStr tags));
        (lit "ttl_hours", match ttl with Some h => JInt h | None => JNull end)].

Lemma upload_payload_json `{PyTables} filename data tags ttl :
  upload_payload filename data tags ttl =
  dumps_with (44 :: []) (58 :: []) (request_json filename data tags ttl).
Proof. reflexivity. Qed.

Lemma map_JStr_inj l1 l2 : map JStr l1 = map JStr l2 → l1 = l2.
Proof.
  revert l2. induction l1 as [|x l1 IH]; intros [|y l2]; cbn; try done. intros [= -> E]. f_equal. auto.
Qed.

(** A request whose text is scalar values and whose lifetime can be printed. *)
Definition request_ok (filename : pystr) (tags : list pystr) (ttl : option Z) : bool :=
  str_ok filename && forallb str_ok tags &&
  match ttl with Some h => json_ok (JInt h) | None => true end.

Lemma request_json_inj f1 d1 t1 h1 f2 d2 t2 h2 :
  request_json f1 d1 t1 h1 = request_json f2 d2 t2 h2 →
  sha256_hex d1 = sha256_hex d2 ∧ f1 = f2 ∧ t1 = t2 ∧ h1 = h2.
Proof.
  unfold request_json. generalize (sha256_hex d1) (sha256_hex d2) (lit "content_sha256")
    (lit "filename") (lit "tags") (lit "ttl_hours"). intros x y k1 k2 k3 k4 [= -> -> Ht Hh].
  apply map_JStr_inj in Ht as ->. split_and!; [done..|]. destruct h1, h2; congruence.
Qed.

Lemma request_json_ok filename data tags ttl :
  request_ok filename tags ttl = true → json_ok (request_json filename data tags ttl) = true.
Proof.
  unfold request_ok. intros Hr. apply andb_true_iff in Hr as [[Hf Ht]%andb_true_iff Hh].
  assert (str_ok (sha256_hex data) = true) as Hs.
  { pose proof (sha256_varchar data) as Hv. apply andb_true_iff in Hv as [Hv _].
    unfold pg_text in Hv. unfold str_ok. rewrite forallb_forall in *. intros c Hc.
    specialize (Hv c Hc). by apply andb_true_iff in Hv as [? _]. }
  assert (forallb json_ok (map JStr tags) = true) as Ht'.
  { clear -Ht. induction tags as [|t tags IH]; [done|]. cbn in *.
    apply andb_true_iff in Ht as [-> Ht]. auto. }
  unfold request_json. cbn [json_ok forallb]. apply andb_true_iff. split.
  - apply bool_decide_eq_true_2. cbn [fmap list_fmap fst]. vm_compute. repeat constructor; set_solver.
  - rewrite Hs, Hf, Ht'. rewrite !andb_true_r. change (str_ok (lit _)) with true. cbn [andb].
    destruct ttl; [exact Hh|done].
Qed.

(** C26: the request hash identifies the request.  Two uploads have the same
    hash only if they have the same file name, tags and lifetime and contents
    with the same SHA-256 digest, or else two different texts that collide
    under SHA-256 are at hand. *)
Theorem hash_identifies_request `{PyTables} (f1 f2 : pystr) (d1 d2 : pybytes) (t1 t2 : list pystr)
    (h1 h2 : option Z) :
  request_ok f1 t1 h1 = true → request_ok f2 t2 h2 = true →
  hash_upload_request f1 d1 t1 h1 = hash_upload_request f2 d2 t2 h2 →
  (f1 = f2 ∧ t1 = t2 ∧ h1 = h2 ∧ (d1 = d2 ∨ sha256_collision d1 d2)) ∨
  sha256_collision (upload_payload f1 d1 t1 h1) (upload_payload f2 d2 t2 h2).
Proof.
  intros Hr1 Hr2 E. unfold hash_upload_request in E.
  destruct (decide (upload_payload f1 d1 t1 h1 = upload_payload f2 d2 t2 h2)) as [Ep|Hne];
    [left|right; by split].
  rewrite !upload_payload_json in Ep.
  apply dumps_with_inj in Ep; [|done..|by apply request_json_ok|by apply request_json_ok].
  apply request_json_inj in Ep as (Hd & -> & -> & ->). split_and!; [done..|].
  destruct (decide (d1 = d2)); [by left|right; by split].
Qed.
