(* ===== verification/Process.v ===== *)
(** * Processing an uploaded image

    Models [src/src/application/use_cases/process_image.py]. *)

From S2P Require Import Prelude PyText PyUuid PyHash Prog Domain Database Cache World Ports.
Local Open Scope Z_scope.

Definition PROCESS_SCOPE : pystr := lit "process-image".

(** [_hash_process_request]; the text is ASCII, so its encoding is itself. *)
Definition hash_process_request (image_id : Z) : pystr :=
  sha256_hex (lit "image_id:" ++ uuid_str image_id).

Definition in_progress_process : exn :=
  EIdempotencyInProgress (lit "Processing with this Idempotency-Key is already in progress").

Definition result_metadata (r : ProcessingResult) : ImageMetadata :=
  MkMetadata (pr_width r) (pr_height r) (pr_format r) (pr_size_bytes r) (pr_channels r).

Module ProcessImage.
Section use_case.
Context (repository : ImageRepository) (storage : ImageStorage) (processor : ImageProcessor).

(** [_record_duration] *)
Definition record_duration : coro unit :=
  observe (ORecord (lit "image_processing_duration") [(lit "operation", lit "thumbnail")]).

(** [_load_idempotent_replay] *)
Definition load_idempotent_replay (key request_hash : pystr) : coro (option bool) :=
  record ← repo_get_idem repository PROCESS_SCOPE key;
  match record with
  | None => mret None
  | Some r =>
      if negb (bool_decide (ir_request_hash r = request_hash)) then
        raise (EIdempotencyConflict
          (lit "Idempotency-Key reuse with a different image_id is not allowed"))
      else if bool_decide (ir_status r = lit "in_progress") then raise in_progress_process
      else mret (Some true)
  end.

(** The claim of the key: a replayed answer, or [None] to go on. *)
Definition claim (image_id : Z) (idempotency_key : option pystr) : coro (option bool) :=
  match idempotency_key with
  | None => mret None
  | Some key =>
      let request_hash := hash_process_request image_id in
      replay ← load_idempotent_replay key request_hash;
      match replay with
      | Some b => mret (Some b)
      | None =>
          claimed ← repo_create_idem repository PROCESS_SCOPE key request_hash (Some image_id);
          if (claimed : bool) then mret None
          else
            replay ← load_idempotent_replay key request_hash;
            match replay with
            | Some b => mret (Some b)
            | None => raise in_progress_process
            end
      end
  end.

Definition release_key (idempotency_key : option pystr) : coro unit :=
  match idempotency_key with
  | None => mret tt
  | Some key => repo_delete_idem repository PROCESS_SCOPE key
  end.

(** The [except] clause; [thumb_path] is the variable of that name when the
    exception was raised.  It always raises. *)
Definition on_failure {A} (image : loc) (idempotency_key : option pystr) (thumb_path : option pystr)
    (e : exn) : coro A :=
  match thumb_path with
  | None => mret tt
  | Some p => except_if is_os_error (_ ← st_delete storage p; mret tt) (λ _, mret tt)
  end;;
  now ← read_now;
  mutate image (mark_failed now);;
  _ ← repo_save repository image;
  release_key idempotency_key;;
  raise e.

(** The [try] block up to the assignment of [thumb_path], and after it. *)
Definition make_thumbnail (image : loc) : coro (ProcessingResult * pystr) :=
  now ← read_now;
  mutate image (mark_processing now);;
  _ ← repo_save repository image;
  i ← deref image;
  raw_data ← st_retrieve storage (img_original_path i);
  result ← proc_thumbnail processor raw_data;
  i ← deref image;
  thumb_path ← st_store storage (lit "thumb_" ++ img_filename i) (pr_thumbnail_data result);
  mret (result, thumb_path).

Definition finish (image : loc) (result : ProcessingResult) (thumb_path : pystr) : coro unit :=
  now ← read_now;
  mutate image (mark_completed now thumb_path (result_metadata result));;
  _ ← repo_save repository image;
  _ ← read_mono;
  record_duration.

(** [execute] from the lookup of the image on. *)
Definition process (image_id : Z) (idempotency_key : option pystr) : coro bool :=
  image ← repo_get_by_id repository image_id;
  match image with
  | None => release_key idempotency_key;; mret false
  | Some l =>
      _ ← read_mono;
      '(result, thumb_path) ←
        except_if is_exception (make_thumbnail l) (on_failure l idempotency_key None);
      except_if is_exception (finish l result thumb_path)
        (on_failure l idempotency_key (Some thumb_path));;
      match idempotency_key with
      | None => mret tt
      | Some key => repo_complete_idem repository PROCESS_SCOPE key image_id
      end;;
      mret true
  end.

(** [execute] *)
Definition execute (image_id : Z) (idempotency_key : option pystr) : coro bool :=
  replay ← claim image_id idempotency_key;
  match replay with
  | Some b => mret b
  | None => process image_id idempotency_key
  end.

End use_case.
End ProcessImage.

(** ** Updates of the object and its row *)

(** What processing may change in an image: status, thumbnail, metadata and the
    time of the last change. *)
Definition update_ok (i i' : Image) : Prop :=
  img_id i' = img_id i ∧ img_filename i' = img_filename i ∧
  img_original_path i' = img_original_path i ∧ img_tags i' = img_tags i ∧
  img_created_at i' = img_created_at i ∧ img_expires_at i' = img_expires_at i.

(** The columns of the thumbnail and the metadata fit. *)
Definition columns_ok (i i' : Image) : Prop :=
  (img_thumbnail_path i' = img_thumbnail_path i ∨ nullable pg_text (img_thumbnail_path i') = true) ∧
  (img_metadata i' = img_metadata i ∨
   ∃ md, img_metadata i' = Some md ∧ metadata_fits md = true ∧ md_channels md ≠ 0).

#[export] Instance update_ok_preorder : PreOrder update_ok.
Proof. split; [intros i; by split_and!|]. intros i1 i2 i3. unfold update_ok. intuition congruence. Qed.

Section proofs.
Context `{PyTables, Postgres, !RepoLaws repository, !StorageLaws storage, !ProcessorLaws processor}.

(** The object at [l] is [i], and so is its row. *)
Definition stored (l : loc) (i : Image) (w : world) : Prop :=
  world_ok w ∧ w_heap w !! l = Some i ∧
  ∃ m, db_images (w_db w) !! img_id i = Some m ∧ model_to_entity m = Ok i.

(** Nothing but the image [id], its file and the caches have changed. *)
Definition same_except (id : Z) (w w' : world) : Prop :=
  (∀ id', id' ≠ id → db_images (w_db w') !! id' = db_images (w_db w) !! id') ∧
  db_keys (w_db w') = db_keys (w_db w) ∧ w_queues w' = w_queues w ∧ w_locked w' = w_locked w ∧
  w_env w' = w_env w ∧ (∀ id', id' ≠ id → repo_coh id' w → repo_coh id' w') ∧ sleeps w' = sleeps w.

#[export] Instance same_except_preorder id : PreOrder (same_except id).
Proof.
  split.
  - intros w. by split_and!.
  - intros w1 w2 w3 (H1 & H2 & H3 & H4 & H5 & H6 & H7) (G1 & G2 & G3 & G4 & G5 & G6 & G7).
    split_and!; [|congruence..|auto|congruence]. intros id' Hne. by rewrite G1, H1.
Qed.

Lemma storage_frame_except id w w' : storage_frame w w' → same_except id w w'.
Proof.
  intros (Hh & Hd & ? & Hc & ? & ? & ?). split_and!; [intros; by rewrite Hd|by rewrite Hd|done..| |by apply sleeps_same].
  intros id' _. apply repo_coh_frame; [by rewrite Hh|by rewrite Hd|done].
Qed.

Lemma record_except id w n l : same_except id w (set_trace (w_trace w ++ [ORecord n l]) (tick w)).
Proof.
  split_and!; [done..| |].
  - intros id' _. by apply repo_coh_frame.
  - rewrite (sleeps_observe (tick w)). by rewrite app_nil_r.
Qed.

Lemma storage_frame_stored l i w w' : storage_frame w w' → stored l i w → stored l i w'.
Proof.
  intros (Hh & Hd & ? & Hc & _) (Hok & Hl & Hm). unfold stored. rewrite Hh, Hd.
  split_and!; [by apply (world_ok_same w)|done..].
Qed.

(** Mutating the object and saving it. *)
Lemma wp_update {A} l i (f : Z → Image → Image) (k : coro A) (Q : outcome A → world → Prop) w :
  stored l i w → reliable w OpSave →
  (∀ now, update_ok i (f now i) ∧ columns_ok i (f now i)) →
  (∀ t w', stored l (f (e_now (w_env w) t) i) w' → same_except (img_id i) w w' → w_fs w' = w_fs w →
           repo_coh (img_id i) w' → wp k Q w') →
  wp (now ← read_now; mutate l (f now);; _ ← repo_save repository l; k) Q w.
Proof.
  intros (Hok & Hl & m & Hm & Hi) Hrel Hf HQ.
  apply wp_bind, wp_read_now, wp_bind, wp_mutate. set (now := e_now (w_env w) (w_tick w)).
  specialize (HQ (w_tick w)). fold now in HQ. destruct (Hf now) as [Hu [Hth Hmd]].
  set (w1 := set_heap (alter (f now) l (w_heap (tick w))) (tick w)).
  assert (w_heap w1 !! l = Some (f now i)) as Hl1 by (cbn; by rewrite lookup_alter_eq, Hl).
  pose proof Hu as (Hid & Hfn & Hop & Htg & _).
  assert (row_ok (img_id i) m) as (Hmid & Hrow & _) by apply (proj1 Hok), Hm.
  assert (nullable pg_text (img_thumbnail_path (f now i)) = true) as Hth'.
  { destruct Hth as [->|?]; [|done]. destruct (model_to_entity_inv _ _ Hi) as (_ & _ & _ & <- & _).
    unfold image_row_ok in Hrow. zbool. done. }
  assert (image_row_ok (entity_to_model (f now i) m) = true) as Hrow'.
  { eapply row_refit; try done. destruct Hmd as [?|(md & ? & ? & ?)]; eauto. }
  assert (metadata_kept (f now i) (Some m)) as Hkept.
  { unfold metadata_kept. destruct Hmd as [Hmd|(md & Hmd & _ & ?)]; rewrite Hmd; [|done].
    apply (model_to_entity_kept _ _ Hi). }
  destruct (save_txn_row (f now i) (w_db w) m) as [Hsave Hi']; [apply Hok|by rewrite Hid|by rewrite Hid|done..|].
  apply wp_bind. eapply wp_mono; [apply (repo_save_law l (f now i) w1 Hl1); by apply (world_ok_same w)|].
  intros o w2 ((o' & Ht & ->) & Hh2 & (_ & Hlk2 & Hf2 & Hq2 & Htr2 & He2 & Hok2) & Hcoh2 & Hcohi).
  apply txn_result_reliable in Ht; [|done]. change (w_db w1) with (w_db w) in Ht.
  rewrite Hsave in Ht. destruct Ht as [-> Hd2]. rewrite Hid in *. apply HQ.
  - split_and!; [by apply Hok2, (world_ok_same w)|by rewrite Hh2|].
    exists (entity_to_model (f now i) m). rewrite Hd2, Hid. cbn. by rewrite lookup_insert_eq.
  - split_and!; try done; [|by rewrite Hd2| |by apply (sleeps_same w)].
    + intros id' Hne. rewrite Hd2. cbn. by rewrite lookup_insert_ne.
    + intros id' Hne Hcoh. apply Hcoh2; [done|].
      apply (repo_coh_mutate id' l i (f now) (tick w)); [done|done|].
      by apply (repo_coh_frame id' w).
  - by rewrite Hf2.
  - by apply Hcohi.
Qed.

(** ** The environment and the outcomes of processing *)

(** Database operations work; what else fails, fails with an [Exception]; and
    what the processor and the storage return fits the columns. *)
Record process_env (w : world) : Prop := {
  pe_db op : op ∈ [OpGet; OpSave; OpKeyDelete; OpKeyComplete] → reliable w op;
  pe_faults op e : op ∈ [OpRetrieve; OpThumbnail; OpStore; OpRemove] → injects w op e →
    is_exception e = true;
  pe_proc data r : proc_fun data = Ok r →
    metadata_fits (result_metadata r) = true ∧ pr_channels r ≠ 0;
  pe_proc_exn data e : proc_fun data = Exn e → is_exception e = true;
  pe_path name data p : st_path name data = Ok p → pg_text p = true;
  pe_path_exn name data e : st_path name data = Exn e → is_exception e = true
}.

Lemma process_env_env w w' : w_env w' = w_env w → process_env w → process_env w'.
Proof.
  intros E [? Hf ? ? ? ?]. split; try done.
  - intros op Hop. eapply reliable_env; [exact E|auto].
  - intros op e Hop Hi. eapply Hf; [exact Hop|]. by eapply injects_env.
Qed.

Definition thumb_name (i : Image) : pystr := lit "thumb_" ++ img_filename i.

(** Why processing [i] fails with [e]. *)
Inductive process_failure (i : Image) (w : world) (e : exn) : Prop :=
| fail_missing : w_fs w !! img_original_path i = None → e = EFileNotFound (img_original_path i) →
    process_failure i w e
| fail_retrieve : injects w OpRetrieve e → process_failure i w e
| fail_processor data : w_fs w !! img_original_path i = Some data →
    proc_fun data = Exn e ∨ injects w OpThumbnail e → process_failure i w e
| fail_store data r : w_fs w !! img_original_path i = Some data → proc_fun data = Ok r →
    st_path (thumb_name i) (pr_thumbnail_data r) = Exn e ∨ injects w OpStore e →
    process_failure i w e.

(** The files after a failure: as before, or with a torn thumbnail. *)
Definition files_after_failure (i : Image) (w w' : world) : Prop :=
  w_fs w' = w_fs w ∨
  ∃ data p, st_path (thumb_name i) data = Ok p ∧ torn_write p data (w_fs w) (w_fs w').

(** The thumbnail of [i] was made from its file and stored at [p]. *)
Definition thumbnail_made (i : Image) (r : ProcessingResult) (p : pystr) (w w' : world) : Prop :=
  ∃ data, w_fs w !! img_original_path i = Some data ∧ proc_fun data = Ok r ∧
          st_path (thumb_name i) (pr_thumbnail_data r) = Ok p ∧
          w_fs w' = <[p := pr_thumbnail_data r]> (w_fs w).

Lemma mark_processing_ok now i : update_ok i (mark_processing now i) ∧ columns_ok i (mark_processing now i).
Proof. split; [by split_and!|]. split; by left. Qed.

Lemma mark_failed_ok now i : update_ok i (mark_failed now i) ∧ columns_ok i (mark_failed now i).
Proof. split; [by split_and!|]. split; by left. Qed.

Lemma wp_make_thumbnail l i (Q : outcome (ProcessingResult * pystr) → world → Prop) w :
  stored l i w → process_env w →
  (∀ t w' r p, stored l (mark_processing t i) w' → same_except (img_id i) w w' →
     repo_coh (img_id i) w' → thumbnail_made i r p w w' → Q (Ok (r, p)) w') →
  (∀ t w' e, stored l (mark_processing t i) w' → same_except (img_id i) w w' →
     repo_coh (img_id i) w' → process_failure i w e → files_after_failure i w w' →
     is_exception e = true → Q (Exn e) w') →
  wp (ProcessImage.make_thumbnail repository storage processor l) Q w.
Proof.
  intros Hst Henv HQ HE. apply (wp_update l i mark_processing); [done|apply Henv; set_solver|
    intros; apply mark_processing_ok|].
  intros t w1 Hst1 Hex1 Hf1 Hcoh1. specialize (HQ (e_now (w_env w) t)). specialize (HE (e_now (w_env w) t)).
  set (i' := mark_processing (e_now (w_env w) t) i) in *.
  pose proof Hex1 as (_ & _ & _ & _ & He1 & _).
  assert (∀ w', storage_frame w1 w' → stored l i' w' ∧ same_except (img_id i) w w' ∧ repo_coh (img_id i) w') as Hframe.
  { intros w' Hf. split_and!; [by eapply storage_frame_stored|etrans; [exact Hex1|by apply storage_frame_except]|].
    destruct Hf as (Hh & Hd & _ & Hc & _). apply (repo_coh_frame _ w1); [by rewrite Hh|by rewrite Hd|done|done]. }
  apply wp_bind, (wp_deref l i'); [apply Hst1|]. apply wp_bind. eapply wp_mono; [apply st_retrieve_law|].
  intros o w2 (Hsf2 & Hf2 & Ho). destruct (Hframe w2 Hsf2) as (Hst2 & Hex2 & Hcoh2).
  change (img_original_path i') with (img_original_path i) in Ho. rewrite Hf1 in Ho, Hf2.
  destruct o as [data|e].
  2:{ apply HE; [done..| |by left|].
      - destruct Ho as [[-> ?]|Hi]; [by apply fail_missing|]. apply fail_retrieve. by eapply injects_env.
      - destruct Ho as [[-> ?]|Hi]; [done|]. eapply (pe_faults _ Henv OpRetrieve); [set_solver|].
        by eapply injects_env. }
  apply wp_bind. eapply wp_mono; [apply proc_thumbnail_law|].
  intros o3 w3 ([Hpf3 Hq3] & Ho3).
  assert (storage_frame w1 w3) as Hsf3.
  { etrans; [exact Hsf2|]. destruct Hpf3 as (? & ? & ? & ? & ? & ? & ?). by split_and!. }
  assert (w_fs w3 = w_fs w) as Hf3 by (destruct Hpf3 as (_ & _ & _ & _ & ? & _); congruence).
  destruct (Hframe w3 Hsf3) as (Hst3 & Hex3 & Hcoh3).
  assert (∀ op e, injects w3 op e ∨ injects w2 op e → injects w op e) as Hinj.
  { intros op e [Hi|Hi]; (eapply injects_env; [|exact Hi]); [apply Hex3|apply Hex2]. }
  destruct o3 as [r|e].
  2:{ assert (proc_fun data = Exn e ∨ injects w OpThumbnail e) as Hwhy by naive_solver.
      apply HE; [done..|by eapply fail_processor|by left|].
      destruct Hwhy as [?|?]; [by eapply pe_proc_exn|eapply (pe_faults _ Henv OpThumbnail); [set_solver|done]]. }
  assert (proc_fun data = Ok r) as Hr by naive_solver.
  apply wp_bind, (wp_deref l i'); [apply Hst3|]. apply wp_bind. eapply wp_mono; [apply st_store_law|].
  intros o4 w4 (Hsf4 & Ho4). destruct (Hframe w4 (transitivity Hsf3 Hsf4)) as (Hst4 & Hex4 & Hcoh4).
  change (lit "thumb_" ++ img_filename i') with (thumb_name i) in Ho4. rewrite Hf3 in Ho4.
  destruct o4 as [p|e].
  - destruct Ho4 as [Hp Hf4]. apply wp_ret, HQ; [done..|]. by exists data.
  - apply HE; [done..| | |].
    + eapply fail_store; [done..|]. destruct Ho4 as [[? _]|[? _]]; auto.
    + destruct Ho4 as [[_ ?]|(_ & p & Hp & Ht)]; [by left|right]. by exists (pr_thumbnail_data r), p.
    + destruct Ho4 as [[? _]|[? _]]; [by eapply pe_path_exn|].
      eapply (pe_faults _ Henv OpStore); [set_solver|auto].
Qed.

(** ** The two handlers and the final step *)

(** The key after processing, by outcome. *)
Definition keys_settled (key : option pystr) (image_id : Z) (o : outcome bool) (d d' : db) : Prop :=
  match key, o with
  | None, _ => db_keys d' = db_keys d
  | Some k, Ok true =>
      ∃ now, db_keys d' = match db_keys d !! (PROCESS_SCOPE, k) with
                          | None => db_keys d
                          | Some r => <[(PROCESS_SCOPE, k) := complete_key now image_id r]> (db_keys d)
                          end
  | Some k, _ => db_keys d' = delete (PROCESS_SCOPE, k) (db_keys d)
  end.

(** Everything but the image [id], the keys, and the files. *)
Definition others_kept (id : Z) (w w' : world) : Prop :=
  (∀ id', id' ≠ id → db_images (w_db w') !! id' = db_images (w_db w) !! id') ∧
  w_queues w' = w_queues w ∧ w_locked w' = w_locked w ∧ w_env w' = w_env w ∧
  (∀ id', id' = id ∨ repo_coh id' w → repo_coh id' w') ∧ sleeps w' = sleeps w.

Lemma others_kept_intro id w w1 w' :
  same_except id w w1 → repo_coh id w1 → same_but_db w1 w' →
  db_images (w_db w') = db_images (w_db w1) → others_kept id w w'.
Proof.
  intros (H1 & H2 & H3 & H4 & H5 & H6 & H7) Hcoh (G1 & G2 & G3 & G4 & G5 & G6 & G7) Hi.
  split_and!; [|congruence..| |by rewrite <- H7; apply sleeps_same].
  - intros id' Hne. by rewrite Hi, H1.
  - intros id' Hid. apply (repo_coh_frame id' w1); [by rewrite G1|done|done|].
    destruct (decide (id' = id)) as [->|Hne]; [done|]. destruct Hid as [?|?]; [done|auto].
Qed.

(** A last transaction on the keys leaves the image as it is. *)
Lemma stored_same_but_db l i w w' :
  stored l i w → same_but_db w w' → db_images (w_db w') = db_images (w_db w) → world_ok w' →
  stored l i w'.
Proof. intros (_ & Hl & Hm) (Hh & _) Hi Hok. unfold stored. rewrite Hh, Hi. by split_and!. Qed.

Lemma same_but_db_refl w : same_but_db w w.
Proof. by split_and!. Qed.

Lemma wp_release_key key id l i w1 w (Q : outcome unit → world → Prop) o :
  same_except id w w1 → repo_coh id w1 → stored l i w1 → process_env w →
  (match o with Ok true => false | _ => true end) = true →
  (∀ w', stored l i w' → others_kept id w w' → keys_settled key id o (w_db w) (w_db w') →
         w_fs w' = w_fs w1 → Q (Ok tt) w') →
  wp (ProcessImage.release_key repository key) Q w1.
Proof.
  intros Hex Hcoh Hst Henv Ho HQ. pose proof Hex as (_ & Hk & _ & _ & He & _).
  destruct key as [k|]; cbn [ProcessImage.release_key].
  - eapply wp_mono; [apply repo_delete_idem_law|]. intros o' w2 [Ht Hs].
    apply txn_result_reliable in Ht; [|eapply reliable_env; [exact He|apply Henv; set_solver]].
    destruct Ht as [-> Hd2]. assert (db_images (w_db w2) = db_images (w_db w1)) as Hi2 by by rewrite Hd2.
    apply HQ; [|by eapply others_kept_intro| |apply Hs].
    + eapply stored_same_but_db; [done..|]. eapply same_but_db_ok; [done| |apply Hst].
      rewrite Hd2. intros Hok. by eapply key_delete_txn_ok.
    + unfold keys_settled. rewrite Hd2. cbn. rewrite Hk. by destruct o as [[]|].
  - apply wp_ret, HQ; [done|by eapply others_kept_intro; [..|apply same_but_db_refl|]| |done].
    by destruct o as [[]|].
Qed.

(** The [except] clause marks the image as failed, releases the key and
    raises the exception again. *)
Lemma wp_on_failure {A} l i key e w1 w (Q : outcome A → world → Prop) :
  same_except (img_id i) w w1 → repo_coh (img_id i) w1 → stored l i w1 → process_env w →
  (∀ t w', stored l (mark_failed t i) w' → others_kept (img_id i) w w' →
           keys_settled key (img_id i) (Exn e) (w_db w) (w_db w') → w_fs w' = w_fs w1 → Q (Exn e) w') →
  wp (ProcessImage.on_failure repository storage l key None e) Q w1.
Proof.
  intros Hex Hcoh Hst Henv HQ. pose proof Hex as (_ & _ & _ & _ & He & _).
  apply wp_bind, wp_ret. apply (wp_update l i mark_failed); [done| |intros; apply mark_failed_ok|].
  { eapply reliable_env; [exact He|apply Henv; set_solver]. }
  intros t w2 Hst2 Hex2 Hf2 Hcoh2. apply wp_bind.
  eapply (wp_release_key key (img_id i) l _ w2 w _ (Exn e)); [by etrans|done|exact Hst2|done|done|].
  intros w3 Hst3 Hok3 Hk3 Hf3. apply wp_raise. eapply HQ; [exact Hst3|done|done|congruence].
Qed.

Lemma process_failure_same i w w' e :
  w_fs w' = w_fs w → w_env w' = w_env w → process_failure i w' e → process_failure i w e.
Proof.
  intros Hf He [Hn ->|Hi|data Hd Hi|data r Hd Hr Hi]; rewrite ?Hf in *.
  - by apply fail_missing.
  - apply fail_retrieve. by eapply injects_env.
  - eapply fail_processor; [done|]. destruct Hi; [by left|right; by eapply injects_env].
  - eapply fail_store; [done..|]. destruct Hi; [by left|right; by eapply injects_env].
Qed.

Lemma wp_finish l i r p w (Q : outcome unit → world → Prop) :
  stored l i w → process_env w → pg_text p = true → metadata_fits (result_metadata r) = true →
  pr_channels r ≠ 0 →
  (∀ t w', stored l (mark_completed t p (result_metadata r) i) w' → same_except (img_id i) w w' →
           repo_coh (img_id i) w' → w_fs w' = w_fs w → Q (Ok tt) w') →
  wp (ProcessImage.finish repository l r p) Q w.
Proof.
  intros Hst Henv Hp Hr Hch HQ.
  apply (wp_update l i (λ now, mark_completed now p (result_metadata r))); [done|apply Henv; set_solver| |].
  { intros now. split; [by split_and!|]. split; [by right|]. right. by eexists. }
  intros t w1 Hst1 Hex1 Hf1 Hcoh1. apply wp_bind, wp_read_mono, wp_observe.
  eapply HQ; [exact Hst1| | |done]; [|by apply (repo_coh_frame _ w1)].
  etrans; [exact Hex1|]. exact (record_except (img_id i) w1 _ _).
Qed.

(** The row of [id] is [i]. *)
Definition row_is (id : Z) (i : Image) (w : world) : Prop :=
  ∃ m, db_images (w_db w) !! id = Some m ∧ model_to_entity m = Ok i.

(** The image and the files after processing [i]: completed with its thumbnail,
    or failed for a reason. *)
Definition process_result (id : Z) (i : Image) (w : world) (o : outcome bool) (w' : world) : Prop :=
  match o with
  | Ok b => b = true ∧ ∃ r p i', thumbnail_made i r p w w' ∧ row_is id i' w' ∧ update_ok i i' ∧
      img_status i' = COMPLETED ∧ img_thumbnail_path i' = Some p ∧
      img_metadata i' = Some (result_metadata r)
  | Exn e => process_failure i w e ∧ files_after_failure i w w' ∧ ∃ i', row_is id i' w' ∧
      update_ok i i' ∧ img_status i' = FAILED ∧ img_thumbnail_path i' = img_thumbnail_path i ∧
      img_metadata i' = img_metadata i
  end.

Definition process_post (key : option pystr) (id : Z) (i : Image) (w : world) (o : outcome bool)
    (w' : world) : Prop :=
  world_ok w' ∧ others_kept id w w' ∧ keys_settled key id o (w_db w) (w_db w') ∧
  process_result id i w o w'.

(** Completing the key. *)
Lemma wp_complete_key key id l i w1 w (Q : outcome unit → world → Prop) :
  same_except id w w1 → repo_coh id w1 → stored l i w1 → process_env w →
  (∀ w', stored l i w' → others_kept id w w' → keys_settled key id (Ok true) (w_db w) (w_db w') →
         w_fs w' = w_fs w1 → Q (Ok tt) w') →
  wp (match key with
      | None => mret tt
      | Some k => repo_complete_idem repository PROCESS_SCOPE k id
      end) Q w1.
Proof.
  intros Hex Hcoh Hst Henv HQ. pose proof Hex as (_ & Hk & _ & _ & He & _).
  destruct key as [k|].
  - eapply wp_mono; [apply repo_complete_idem_law|]. intros o' w2 (now & Ht & Hs).
    pose proof (txn_result_ok _ _ _ _ _ ltac:(intros ??; apply key_complete_txn_ok) Ht) as Hok.
    pose proof (txn_result_keeps db_images _ _ _ _ _ ltac:(intros ??; apply key_complete_txn_images) Ht) as Hi2.
    apply txn_result_reliable in Ht; [|eapply reliable_env; [exact He|apply Henv; set_solver]].
    rewrite key_complete_txn_eq, Hk in Ht.
    assert (o' = Ok tt ∧ keys_settled (Some k) id (Ok true) (w_db w) (w_db w2)) as [-> Hks].
    { destruct (db_keys (w_db w) !! (PROCESS_SCOPE, k)) eqn:E; destruct Ht as [-> Hd2];
        (split; [done|]); exists now; rewrite E, Hd2; [done|by rewrite Hk]. }
    apply HQ; [|by eapply others_kept_intro|done|apply Hs].
    eapply stored_same_but_db; [done..|]. eapply same_but_db_ok; [done|exact Hok|apply Hst].
  - apply wp_ret, HQ; [done|by eapply others_kept_intro; [..|apply same_but_db_refl|]|done..].
Qed.

Lemma wp_process id key i w :
  world_ok w → repo_coh id w → row_is id i w → process_env w →
  wp (ProcessImage.process repository storage processor id key) (process_post key id i w) w.
Proof.
  intros Hok Hcoh (m & Hm & Hi) Henv.
  assert (img_id i = id) as Hid.
  { rewrite (model_to_entity_id _ _ Hi). eapply db_row_id; [apply Hok|done]. }
  apply wp_bind. eapply wp_mono; [by apply repo_get_law|]. intros o w1 (Ho & Hd1 & Hf1 & Hcoh1).
  assert (∃ l, o = Ok (Some l) ∧ w_heap w1 !! l = Some i) as (l & -> & Hl).
  { destruct o as [[l|]|e].
    - destruct Ho as (i' & m' & Hl & Hm' & Hi'). exists l. split; [done|]. congruence.
    - congruence.
    - exfalso. eapply reliable_no_inject; [|exact Ho]. apply Henv. set_solver. }
  destruct Hf1 as (Hh1 & Hlk1 & Hfs1 & Hq1 & Htr1 & He1 & Hok1).
  apply wp_bind, wp_read_mono. set (w2 := tick w1).
  assert (stored l i w2) as Hst2.
  { split_and!; [by apply Hok1|done|]. exists m. subst id. change (w_db w2) with (w_db w1). by rewrite Hd1. }
  assert (∀ id', repo_coh id' w → repo_coh id' w2) as Hcoh2.
  { intros id' Hc. apply (repo_coh_frame id' w1); [done..|auto]. }
  assert (same_except (img_id i) w w2) as Hex2.
  { split_and!; [intros id' _; change (w_db w2) with (w_db w1); by rewrite Hd1|
      change (w_db w2) with (w_db w1); by rewrite Hd1|done..|auto|by apply (sleeps_same w)]. }
  rewrite <- Hid in *. clear Hid.
  apply wp_bind, wp_except_if, (wp_make_thumbnail l i); [done|by eapply process_env_env| |].
  - intros t w3 r p Hst3 Hex3 Hcoh3 (data & Hdata & Hr & Hp & Hf3).
    destruct (pe_proc _ Henv data r Hr) as [Hfit Hch].
    pose proof (transitivity Hex2 Hex3) as Hex3'. pose proof Hex3' as (_ & _ & _ & _ & He3 & _).
    apply wp_bind, wp_except_if, (wp_finish l (mark_processing t i)); try done;
      [by eapply process_env_env|by eapply pe_path|].
    intros t' w4 Hst4 Hex4 Hcoh4 Hf4. apply wp_bind.
    eapply (wp_complete_key key (img_id i) l _ w4 w); [by etrans|done|exact Hst4|done|].
    intros w5 (Hok5 & _ & Hm5) Hk5 Hks5 Hf5. apply wp_ret. split_and!; [done..|].
    split; [done|]. exists r, p. eexists. split; [|split; [exact Hm5|by split_and!]].
    exists data. rewrite Hf5, Hf4, Hf3. change (w_fs w2) with (w_fs w1) in *. by rewrite <- Hfs1.
  - intros t w3 e Hst3 Hex3 Hcoh3 Hwhy Hf3 He. rewrite He.
    pose proof (transitivity Hex2 Hex3) as Hex3'.
    eapply (wp_on_failure l (mark_processing t i) key e w3 w); [exact Hex3'|exact Hcoh3|exact Hst3|done|].
    intros t' w4 (Hok4 & _ & Hm4) Hk4 Hks4 Hf4. split_and!; [done..|]. split_and!.
    + by apply (process_failure_same i w w2).
    + unfold files_after_failure in *. rewrite Hf4. change (w_fs w2) with (w_fs w1) in Hf3. by rewrite <- Hfs1.
    + eexists. split; [exact Hm4|by split_and!].
Qed.

(** ** Claims *)

(** The state after a claim of an unused key. *)
Definition claimed (key : option pystr) (id : Z) (w w' : world) : Prop :=
  same_but_db w w' ∧ db_images (w_db w') = db_images (w_db w) ∧ world_ok w' ∧
  match key with
  | None => db_keys (w_db w') = db_keys (w_db w)
  | Some k => ∃ rec, k_request_hash rec = hash_process_request id ∧
                     db_keys (w_db w') = <[(PROCESS_SCOPE, k) := rec]> (db_keys (w_db w))
  end.

Definition unused (key : option pystr) (d : db) : Prop :=
  ∀ k, key = Some k → pg_varchar 255 k = true ∧ db_keys d !! (PROCESS_SCOPE, k) = None.

Lemma wp_claim_unused key id w (Q : outcome (option bool) → world → Prop) :
  world_ok w → unused key (w_db w) → reliable w OpKeyGet → reliable w OpKeyCreate →
  (∀ w', claimed key id w w' → Q (Ok None) w') →
  wp (ProcessImage.claim repository id key) Q w.
Proof.
  intros Hok Hun Hr1 Hr2 HQ. destruct key as [k|].
  2:{ apply wp_ret, HQ. by split_and!. }
  destruct (Hun k eq_refl) as [Hk Habs]. apply wp_bind, wp_bind.
  eapply wp_mono; [apply repo_get_idem_law|]. intros o w1 [Ht Hs].
  apply txn_result_reliable in Ht; [|done]. unfold key_get_txn in Ht. rewrite Habs in Ht.
  destruct Ht as [-> Hd1]. apply wp_ret, wp_bind. eapply wp_mono; [apply repo_create_idem_law|].
  intros o w2 (t1 & t2 & Ht & Hs2). rewrite Hd1 in Ht.
  pose proof (same_but_db_ok w w1 Hs ltac:(by rewrite Hd1) Hok) as Hok1.
  assert (world_ok w2) as Hok2.
  { eapply same_but_db_ok; [exact Hs2| |exact Hok1]. eapply txn_result_ok; [|exact Ht].
    intros ??. rewrite Hd1. apply key_create_txn_ok. }
  apply txn_result_reliable in Ht; [|eapply reliable_env; [apply Hs|done]].
  unfold key_create_txn in Ht. rewrite Habs in Ht.
  assert (∀ rec, k_scope rec = PROCESS_SCOPE → k_key rec = k → k_request_hash rec = hash_process_request id →
    k_status rec = lit "in_progress" → k_image_id rec = Some (uuid_str id) → key_row_ok rec = true) as Hrow.
  { intros rec E1 E2 E3 E4 E5. unfold key_row_ok. rewrite E1, E2, E3, E4, E5, Hk.
    unfold hash_process_request. rewrite sha256_varchar. cbn [nullable].
    by rewrite uuid_str_varchar. }
  rewrite Hrow in Ht by done. destruct Ht as [-> Hd2]. apply wp_ret, HQ. split_and!.
  - destruct Hs as (? & ? & ? & ? & ? & ? & ?), Hs2 as (? & ? & ? & ? & ? & ? & ?). split_and!; congruence.
  - by rewrite Hd2.
  - done.
  - eexists. split; [|by rewrite Hd2]. done.
Qed.

Lemma process_env_claimed key id w w1 : claimed key id w w1 → process_env w → process_env w1.
Proof. intros ((_ & _ & _ & _ & _ & _ & He) & _). by apply process_env_env. Qed.

Lemma claimed_coh key id w w1 id' : claimed key id w w1 → repo_coh id' w → repo_coh id' w1.
Proof. intros ((Hh & _ & Hc & _) & Hi & _). apply repo_coh_frame; [by rewrite Hh|done|done]. Qed.

Lemma others_kept_claimed key id w w1 w' : claimed key id w w1 → others_kept id w1 w' → others_kept id w w'.
Proof.
  intros Hcl (H1 & H2 & H3 & H4 & H5 & H6). pose proof Hcl as ((? & ? & ? & ? & ? & ? & ?) & Hi & _).
  split_and!; [|congruence..| |by rewrite H6; apply sleeps_same].
  - intros id' Hne. by rewrite H1, Hi.
  - intros id' [->|Hc]; apply H5; [by left|right]. by eapply claimed_coh.
Qed.

Lemma process_result_claimed key id i w w1 o w' :
  claimed key id w w1 → process_result id i w1 o w' → process_result id i w o w'.
Proof.
  intros ((_ & _ & _ & Hf & _ & _ & He) & _). destruct o as [b|e]; cbn.
  - intros (Hb & r & p & i' & (data & ? & ? & ? & ?) & Hrest). split; [done|].
    exists r, p, i'. split; [|exact Hrest]. exists data. by rewrite <- Hf.
  - intros (Hw & Hfs & Hrest). split_and!; [by eapply process_failure_same| |done].
    unfold files_after_failure in *. by rewrite <- Hf.
Qed.

(** The key at the end: completed for the image, or free again. *)
Definition key_settled (key : option pystr) (id : Z) (o : outcome bool) (w w' : world) : Prop :=
  match key, o with
  | None, _ => db_keys (w_db w') = db_keys (w_db w)
  | Some k, Ok true =>
      ∃ rec, k_status rec = lit "completed" ∧ k_request_hash rec = hash_process_request id ∧
             k_image_id rec = Some (uuid_str id) ∧
             db_keys (w_db w') = <[(PROCESS_SCOPE, k) := rec]> (db_keys (w_db w))
  | Some _, _ => db_keys (w_db w') = db_keys (w_db w)
  end.

Lemma claimed_settled key id o w w1 w' :
  claimed key id w w1 → unused key (w_db w) → keys_settled key id o (w_db w1) (w_db w') →
  key_settled key id o w w'.
Proof.
  intros (_ & _ & _ & Hk) Hun. destruct key as [k|]; [|by cbn; intros ->].
  destruct Hk as (rec & Hh & Hk), (Hun k eq_refl) as [_ Habs].
  assert (delete (PROCESS_SCOPE, k) (db_keys (w_db w1)) = db_keys (w_db w)) as Hdel.
  { rewrite Hk. by apply delete_insert_id. }
  destruct o as [[]|e]; cbn; [|by rewrite Hdel..].
  intros (now & Hk'). rewrite Hk, lookup_insert_eq, insert_insert_eq in Hk'.
  by exists (complete_key now id rec).
Qed.

Lemma wp_execute (id : Z) (key : option pystr) (i : Image) (w : world) :
  world_ok w → repo_coh id w → row_is id i w → process_env w →
  unused key (w_db w) → reliable w OpKeyGet → reliable w OpKeyCreate →
  wp (ProcessImage.execute repository storage processor id key)
    (λ o w', world_ok w' ∧ others_kept id w w' ∧ process_result id i w o w' ∧
             key_settled key id o w w') w.
Proof.
  intros Hok Hcoh (m & Hm & Hi) Henv Hun Hr1 Hr2.
  apply wp_bind, wp_claim_unused; [done..|]. intros w1 Hcl.
  pose proof Hcl as (_ & Hi1 & Hok1 & _). eapply wp_mono.
  { apply (wp_process id key i w1); [done|by eapply claimed_coh| |by eapply process_env_claimed].
    exists m. by rewrite Hi1. }
  intros o w2 (Hok2 & Hk2 & Hks2 & Hr). split_and!; [done|by eapply others_kept_claimed|
    by eapply process_result_claimed|by eapply claimed_settled].
Qed.

(** C5: processing settles the image.  Whatever happens to the files, the
    processor and the storage, as long as the database works, processing an
    image ends in one of two ways.  Either it returns [True], the row is
    completed with the processor's metadata and the path of the stored
    thumbnail; or it raises the very exception that caused the failure, the row
    is failed, its thumbnail and metadata as before.  Every other row, the
    queues, and the other keys are untouched; the key, if one was given, is
    completed in the first case and free in the second. *)
Theorem process_settles (id : Z) (key : option pystr) (i : Image) (w : world) :
  world_ok w → repo_coh id w → row_is id i w → process_env w →
  unused key (w_db w) → reliable w OpKeyGet → reliable w OpKeyCreate →
  wp (ProcessImage.execute repository storage processor id key)
    (λ o w', world_ok w' ∧ others_kept id w w' ∧ process_result id i w o w' ∧
             key_settled key id o w w') w.
Proof. apply wp_execute. Qed.

(** Processing an image that does not exist changes nothing: it returns
    [False], and the key, if one was given, stays free. *)
Theorem process_missing (id : Z) (key : option pystr) (w : world) :
  world_ok w → repo_coh id w → db_images (w_db w) !! id = None →
  unused key (w_db w) → (∀ op, op ∈ [OpGet; OpKeyGet; OpKeyCreate; OpKeyDelete] → reliable w op) →
  wp (ProcessImage.execute repository storage processor id key)
    (λ o w', o = Ok false ∧ db_images (w_db w') = db_images (w_db w) ∧
             db_keys (w_db w') = db_keys (w_db w) ∧ w_fs w' = w_fs w ∧ w_queues w' = w_queues w) w.
Proof.
  intros Hok Hcoh Hnone Hun Hrel.
  apply wp_bind, wp_claim_unused; [done|done|apply Hrel; set_solver..|]. intros w1 Hcl.
  pose proof Hcl as ((_ & _ & _ & Hf1 & Hq1 & _ & He1) & Hi1 & Hok1 & Hk1).
  apply wp_bind. eapply wp_mono; [apply repo_get_law; [done|by eapply claimed_coh]|].
  intros o w2 (Ho & Hd2 & (_ & _ & Hf2 & Hq2 & _ & He2 & _) & _). rewrite Hi1, Hnone in Ho.
  assert (o = Ok None) as ->.
  { destruct o as [[l|]|e]; [|done|].
    - by destruct Ho as (? & ? & _ & ? & _).
    - exfalso. apply (reliable_no_inject w OpGet e); [apply Hrel; set_solver|by eapply injects_env]. }
  apply wp_bind. destruct key as [k|]; cbn [ProcessImage.release_key].
  - eapply wp_mono; [apply repo_delete_idem_law|]. intros o3 w3 [Ht Hs].
    apply txn_result_reliable in Ht.
    2:{ eapply (reliable_env w); [congruence|apply Hrel; set_solver]. }
    destruct Ht as [-> Hd3]. destruct Hs as (_ & _ & _ & Hf3 & Hq3 & _). apply wp_ret.
    rewrite Hd3, Hd2. destruct Hk1 as (rec & _ & Hk1), (Hun k eq_refl) as [_ Habs].
    cbn. rewrite Hk1, delete_insert_id by done. split_and!; [done|done|done|congruence..].
  - apply wp_ret, wp_ret. rewrite Hd2. split_and!; [done..|congruence|congruence].
Qed.

(** A key used before is never processed again.  The second request is
    answered from the record alone (done, in progress, or a conflict when it
    names another image), and nothing at all changes but the clock. *)
Theorem process_replays (id : Z) (k : pystr) (r : IdempotencyRecord) (w : world) :
  reliable w OpKeyGet → key_get_txn PROCESS_SCOPE k (w_db w) = Ok (Some r, w_db w) →
  wp (ProcessImage.execute repository storage processor id (Some k))
    (λ o w', w_db w' = w_db w ∧ same_but_db w w' ∧
       o = if decide (ir_request_hash r = hash_process_request id) then
             if decide (ir_status r = lit "in_progress") then Exn in_progress_process else Ok true
           else Exn (EIdempotencyConflict
                  (lit "Idempotency-Key reuse with a different image_id is not allowed"))) w.
Proof.
  intros Hr Hkey. apply wp_bind, wp_bind, wp_bind.
  eapply wp_mono; [apply repo_get_idem_law|]. intros o w1 [Ht Hs].
  apply txn_result_reliable in Ht; [|done]. rewrite Hkey in Ht. destruct Ht as [-> Hd1].
  destruct (decide (ir_request_hash r = hash_process_request id)) as [E|E].
  - rewrite bool_decide_true by done. cbn [negb].
    destruct (decide (ir_status r = lit "in_progress")) as [E2|E2].
    + rewrite bool_decide_true by done. by split_and!.
    + rewrite bool_decide_false by done. apply wp_ret, wp_ret, wp_ret. by split_and!.
  - rewrite bool_decide_false by done. by split_and!.
Qed.
End proofs.
