(* ===== verification/Consume.v ===== *)
(** * Consuming processing tasks

    Models [src/src/application/use_cases/consume_processing_tasks.py].  The
    processing use case is a parameter, [process]; [Process.v] is what the
    worker passes.  The back-off is in microseconds (doubling a [float] is
    exact). *)

From S2P Require Import Prelude PyDict PyText PyJson PyUuid PyTime Prog Domain World Ports Upload.
Local Open Scope Z_scope.

Definition IMAGE_PROCESSING_DLQ_TOPIC : pystr := lit "image.processing.dlq".

(** ** Messages *)

(** The fields of a task: [payload["image_id"]] and [payload.get("attempt", 0)]. *)
Definition parse_task `{PyTables} (payload : list (pystr * json)) :
    outcome (Z * Z * list (pystr * json)) :=
  v ← or_raise (EKey (lit "image_id")) (dict_get (lit "image_id") payload);
  image_id ← or_raise (EValue (lit "badly formed hexadecimal UUID string"))
               (uuid_parse (py_str_json v));
  attempt ← or_raise (EValue (lit "attempt must be a non-negative integer"))
              (json_as_int (default (JInt 0) (dict_get (lit "attempt") payload)));
  if attempt <? 0 then Exn (EValue (lit "attempt must be a non-negative integer"))
  else Ok (image_id, attempt, payload).

(** [_parse_payload] *)
Definition parse_payload `{PyTables} (message : Message) : outcome (Z * Z * list (pystr * json)) :=
  payload ← or_raise (EValue (tbl_json_error (msg_value message))) (loads (msg_value message));
  match payload with
  | JObj o => parse_task o
  | _ => Exn (EValue (lit "message payload must be a JSON object"))
  end.

Definition retry_payload (image_id next_attempt : Z) : list (pystr * json) :=
  [(lit "image_id", JStr (uuid_str image_id)); (lit "attempt", JInt next_attempt)].

Definition retry_message `{PyTables} (message : Message) (image_id next_attempt : Z) : Message :=
  MkMessage IMAGE_PROCESSING_TOPIC
    (match msg_key message with [] => uuid_str image_id | k => k end)
    (dumps (JObj (retry_payload image_id next_attempt))).

Definition dead_letter_payload (now : Z) (message : Message) (reason error : pystr)
    (payload : list (pystr * json)) : list (pystr * json) :=
  [(lit "dead_lettered_at", JStr (isoformat now));
   (lit "reason", JStr reason);
   (lit "error", JStr error);
   (lit "original_topic", JStr IMAGE_PROCESSING_TOPIC);
   (lit "original_key", JStr (msg_key message));
   (lit "original_value", JStr (utf8_decode_replace (msg_value message)));
   (lit "payload", JObj payload)].

Definition dead_letter_message `{PyTables} (dlq_topic : pystr) (now : Z) (message : Message)
    (reason error : pystr) (payload : list (pystr * json)) : Message :=
  MkMessage dlq_topic (msg_key message)
    (dumps (JObj (dead_letter_payload now message reason error payload))).

Module ConsumeProcessingTasks.

(** The configuration, after the clamping of [__init__]. *)
Record config := MkConfig {
  retry_max_attempts : Z;
  retry_backoff : Z;
  dlq_topic : pystr
}.

Definition init (retry_max_attempts retry_backoff : Z) (dlq_topic : pystr) : config :=
  MkConfig (Z.max retry_max_attempts 0) (Z.max retry_backoff 0) dlq_topic.

Section use_case.
Context `{PyTables} (broker : MessageBroker) (process : Z → coro bool) (cfg : config).

(** [_record_consumed] and the other metrics *)
Definition record_consumed (topic : pystr) : coro unit :=
  observe (OCount (lit "broker_messages_consumed") [(lit "topic", topic)]).
Definition record_consume_error (topic reason : pystr) : coro unit :=
  observe (OCount (lit "broker_consume_errors") [(lit "topic", topic); (lit "reason", reason)]).
Definition record_processing_duration (topic : pystr) : coro unit :=
  _ ← read_mono; observe (ORecord (lit "broker_consumer_processing_duration") [(lit "topic", topic)]).
Definition record_retried (topic : pystr) : coro unit :=
  observe (OCount (lit "broker_messages_retried") [(lit "topic", topic)]).
Definition record_dead_letter (topic reason : pystr) : coro unit :=
  observe (OCount (lit "broker_messages_dead_lettered") [(lit "topic", topic); (lit "reason", reason)]).

(** [_publish_dead_letter_message] *)
Definition publish_dead_letter_message (message : Message) (reason error : pystr)
    (payload : list (pystr * json)) : coro unit :=
  now ← read_now;
  except_if is_exception
    (br_publish broker (dead_letter_message (dlq_topic cfg) now message reason error payload);;
     record_dead_letter (dlq_topic cfg) reason)
    (λ _, record_consume_error IMAGE_PROCESSING_TOPIC (lit "dlq_publish_failed")).

(** [retry_backoff_seconds * 2 ** (next_attempt - 1)]: the power is an [int],
    and [2 ** 1024] is too large for the [float] it is multiplied with. *)
Definition retry_delay (next_attempt : Z) : outcome Z :=
  if next_attempt - 1 <? 1024 then Ok (retry_backoff cfg * 2 ^ (next_attempt - 1))
  else Exn (EOverflow (lit "int too large to convert to float")).

(** [_publish_retry_message] *)
Definition publish_retry_message (message : Message) (image_id next_attempt : Z) : coro unit :=
  delay_seconds ← lift (retry_delay next_attempt);
  (if 0 <? delay_seconds then observe (OSleep delay_seconds) else mret tt);;
  except_if is_exception
    (br_publish broker (retry_message message image_id next_attempt);;
     record_retried IMAGE_PROCESSING_TOPIC)
    (λ exc,
       record_consume_error IMAGE_PROCESSING_TOPIC (lit "retry_publish_failed");;
       publish_dead_letter_message message (lit "retry_publish_failed") (exn_str exc)
         (retry_payload image_id next_attempt)).

(** [_handle_retry_or_dlq] *)
Definition handle_retry_or_dlq (message : Message) (image_id attempt : Z)
    (payload : list (pystr * json)) (processing_error : exn) : coro unit :=
  if attempt <? retry_max_attempts cfg
  then publish_retry_message message image_id (attempt + 1)
  else publish_dead_letter_message message (lit "retries_exhausted") (exn_str processing_error) payload.

(** [execute_once], once there is a message. *)
Definition handle (message : Message) : coro bool :=
  record_consumed IMAGE_PROCESSING_TOPIC;;
  _ ← read_mono;
  match parse_payload message with
  | Exn exc =>
      record_consume_error IMAGE_PROCESSING_TOPIC (lit "malformed");;
      publish_dead_letter_message message (lit "malformed") (exn_str exc) [];;
      record_processing_duration IMAGE_PROCESSING_TOPIC;;
      mret true
  | Ok (image_id, attempt, payload) =>
      except_if is_exception (_ ← process image_id; mret tt)
        (λ exc,
           record_consume_error IMAGE_PROCESSING_TOPIC (lit "processing_failed");;
           handle_retry_or_dlq message image_id attempt payload exc);;
      record_processing_duration IMAGE_PROCESSING_TOPIC;;
      mret true
  end.

(** [execute_once] *)
Definition execute_once : coro bool :=
  message ← br_consume broker IMAGE_PROCESSING_TOPIC;
  match message with
  | None => mret false
  | Some message => handle message
  end.

(** The worker loop, for [n] rounds of [while not shutdown.is_set()]. *)
Fixpoint rounds (n : nat) : coro (list bool) :=
  match n with
  | O => mret []
  | S n' => b ← execute_once; bs ← rounds n'; mret (b :: bs)
  end.

End use_case.
End ConsumeProcessingTasks.

(** ** Messages: round trips *)

(** Attempt numbers that [json] prints and parses. *)
Definition small_attempt (n : Z) : Prop := 0 ≤ n < 2 ^ 1000.

Lemma digits_acc_length b fuel n acc : (length (digits_acc b fuel n acc) ≤ fuel + length acc)%nat.
Proof.
  revert n acc. induction fuel as [|f IH]; intros n acc; cbn; [lia|].
  destruct (n / b =? 0); cbn; [lia|]. etrans; [apply IH|]. cbn. lia.
Qed.

Lemma small_attempt_ok n : small_attempt n → json_ok (JInt n) = true.
Proof.
  intros [Hn Hlt]. cbn [json_ok]. apply bool_decide_eq_true_2. rewrite Z.abs_eq by done.
  unfold digits. etrans; [apply digits_acc_length|]. cbn [length].
  assert (Z.log2 n < 1000 ∨ n = 0) as [Hl| ->].
  { destruct (decide (n = 0)); [by right|left]. apply Z.log2_lt_pow2; lia. }
  - unfold int_max_str_digits. pose proof (Z.log2_nonneg n). lia.
  - vm_compute. lia.
Qed.

Lemma small_attempt_1024 n : 0 ≤ n ≤ 1024 → small_attempt n.
Proof.
  intros Hn. split; [lia|]. apply (Z.le_lt_trans _ (2 ^ 10)); [cbn; lia|]. by apply Z.pow_lt_mono_r.
Qed.

Lemma uuid_str_ok u : str_ok (uuid_str u) = true.
Proof.
  unfold str_ok. apply forallb_forall. intros c Hc. apply list_elem_of_In in Hc.
  pose proof (proj1 (Forall_forall _ _) (uuid_str_ascii u) c Hc) as Ha.
  unfold is_ascii in Ha. unfold is_scalar, is_surrogate. zbool. zdecide. done.
Qed.

Lemma retry_payload_ok id n : small_attempt n → json_ok (JObj (retry_payload id n)) = true.
Proof.
  intros Hn. unfold retry_payload. cbn [json_ok forallb fmap list_fmap fst].
  rewrite uuid_str_ok. pose proof (small_attempt_ok n Hn) as Hj. cbn [json_ok] in Hj. rewrite Hj.
  rewrite bool_decide_true; [reflexivity|]. vm_compute. repeat constructor; set_solver.
Qed.

Lemma task_payload_ok id : json_ok (JObj [(lit "image_id", JStr (uuid_str id))]) = true.
Proof.
  cbn [json_ok forallb fmap list_fmap fst]. rewrite uuid_str_ok.
  rewrite bool_decide_true; [reflexivity|]. vm_compute. repeat constructor; set_solver.
Qed.

Section messages.
Context `{PyTables}.

Lemma parse_payload_dumps topic key o :
  json_ok (JObj o) = true → parse_payload (MkMessage topic key (dumps (JObj o))) = parse_task o.
Proof. intros Ho. unfold parse_payload. cbn [msg_value]. by rewrite loads_dumps. Qed.

(** The fields of an object with an image id. *)
Lemma parse_task_fields o id :
  uuid_ok id → dict_get (lit "image_id") o = Some (JStr (uuid_str id)) →
  parse_task o =
  match json_as_int (default (JInt 0) (dict_get (lit "attempt") o)) with
  | Some n => if n <? 0 then Exn (EValue (lit "attempt must be a non-negative integer"))
              else Ok (id, n, o)
  | None => Exn (EValue (lit "attempt must be a non-negative integer"))
  end.
Proof.
  intros Hid Hget. unfold parse_task. rewrite Hget, or_raise_Some.
  assert (uuid_parse (py_str_json (JStr (uuid_str id))) = Some id) as Hu by (apply uuid_roundtrip; exact Hid).
  rewrite Hu, or_raise_Some. destruct (json_as_int _); reflexivity.
Qed.

Lemma parse_upload_message id :
  uuid_ok id →
  parse_payload (upload_message id) = Ok (id, 0, [(lit "image_id", JStr (uuid_str id))]).
Proof.
  intros Hid. unfold upload_message. rewrite parse_payload_dumps by apply task_payload_ok.
  by rewrite (parse_task_fields _ id).
Qed.

Lemma parse_retry_message m id n :
  uuid_ok id → small_attempt n →
  parse_payload (retry_message m id n) = Ok (id, n, retry_payload id n).
Proof.
  intros Hid Hn. unfold retry_message. rewrite parse_payload_dumps by by apply retry_payload_ok.
  rewrite (parse_task_fields _ id); [|done|done].
  change (dict_get (lit "attempt") (retry_payload id n)) with (Some (JInt n)). cbn.
  destruct Hn. by rewrite (proj2 (Z.ltb_ge n 0)).
Qed.
End messages.

(** ** Publishing with a fallback *)

(** Only queues, metrics and the clock may have changed, and no time was slept. *)
Definition quiet (w w' : world) : Prop := same_but_queues w w' ∧ sleeps w' = sleeps w.

#[export] Instance quiet_preorder : PreOrder quiet.
Proof.
  unfold quiet, same_but_queues. split; [intros w; by split_and!|]. intros w1 w2 w3. intuition congruence.
Qed.

Definition delivered (m : Message) (w w' : world) : Prop :=
  queues_are (msg_topic m) (queue (msg_topic m) w ++ [m]) w w'.

Definition same_queues (w w' : world) : Prop := ∀ t, queue t w' = queue t w.

(** Publications work. *)
Definition can_publish (w : world) (key : pystr) : Prop :=
  reliable w OpPublish ∧ utf8_encode key ≠ None.

(** No fault of the broker is a cancellation. *)
Definition broker_faults_caught (w : world) : Prop :=
  ∀ op e, op ∈ [OpPublish; OpConsume] → injects w op e → is_exception e = true.

Lemma quiet_observe w o : sleep_of o = None → quiet w (set_trace (w_trace w ++ [o]) w).
Proof. intros Ho. split; [by split_and!|]. rewrite sleeps_observe, Ho. apply app_nil_r. Qed.

Lemma quiet_tick w : quiet w (tick w).
Proof. by split_and!. Qed.

Lemma broker_frame_quiet w w' : broker_frame w w' → quiet w w'.
Proof. intros (? & ? & ? & ? & ? & ? & ?). split_and!; try done. by apply sleeps_same. Qed.

Lemma can_publish_quiet w w' key : quiet w w' → can_publish w key → can_publish w' key.
Proof. intros [(_ & _ & _ & _ & _ & He) _] [Hr Hk]. split; [by eapply reliable_env|done]. Qed.

Lemma broker_faults_quiet w w' : quiet w w' → broker_faults_caught w → broker_faults_caught w'.
Proof.
  intros [(_ & _ & _ & _ & _ & He) _] Hf op e Hop Hi. eapply Hf; [exact Hop|]. by eapply injects_env.
Qed.

Section publishing.
Context `{PyTables, !BrokerLaws broker} (cfg : ConsumeProcessingTasks.config).
Import ConsumeProcessingTasks.

(** A publication, counted on success and handled on failure. *)
Lemma wp_publish_or m o (h : exn → coro unit) (Q : outcome unit → world → Prop) w :
  sleep_of o = None → broker_faults_caught w →
  (∀ w', quiet w w' → delivered m w w' → Q (Ok tt) w') →
  (∀ e w', ¬ can_publish w (msg_key m) → quiet w w' → delivered m w w' ∨ same_queues w w' →
           wp (h e) Q w') →
  wp (except_if is_exception (br_publish broker m;; observe o) h) Q w.
Proof.
  intros Ho Hf HQ HE. apply wp_except_if, wp_bind. eapply wp_mono; [apply br_publish_law|].
  intros [[]|e] w1 (Hfr & Hq & Hr).
  - apply wp_observe, HQ; [|exact Hr].
    etrans; [by apply broker_frame_quiet|by apply quiet_observe].
  - assert (is_exception e = true) as Hx.
    { destruct Hr as [Hi|[_ ?]]; [|done]. eapply Hf; [|exact Hi]. set_solver. }
    rewrite Hx. apply HE; [|by apply broker_frame_quiet|done].
    intros [Hrel Hk]. destruct Hr as [Hi|[? _]]; [|done]. by eapply reliable_no_inject.
Qed.

(** The dead letter is queued, or publications fail and nothing else happens. *)
Lemma wp_dead_letter m reason error payload (Q : outcome unit → world → Prop) w :
  broker_faults_caught w →
  (∀ w', quiet w w' →
     (∃ now, delivered (dead_letter_message (dlq_topic cfg) now m reason error payload) w w') ∨
     (¬ can_publish w (msg_key m) ∧ same_queues w w') → Q (Ok tt) w') →
  wp (publish_dead_letter_message broker cfg m reason error payload) Q w.
Proof.
  intros Hf HQ. apply wp_bind, wp_read_now.
  apply wp_publish_or; [done|by eapply broker_faults_quiet; [apply quiet_tick|]| |].
  - intros w1 Hq Hd. apply HQ; [etrans; [apply quiet_tick|done]|]. left. eexists. exact Hd.
  - intros e w1 Hno Hq Hd. apply wp_observe, HQ.
    + etrans; [apply quiet_tick|]. etrans; [exact Hq|by apply quiet_observe].
    + destruct Hd as [Hd|Hd]; [left; eexists; exact Hd|right]. split; [|exact Hd].
      intros Hc. apply Hno. by eapply can_publish_quiet; [apply quiet_tick|].
Qed.

(** The time slept before the [n]-th retry: the base delay, doubled each time. *)
Definition backoff (n : Z) : list Z :=
  let d := retry_backoff cfg * 2 ^ (n - 1) in if 0 <? d then [d] else [].

Lemma retry_delay_Ok n : n ≤ 1024 → retry_delay cfg n = Ok (retry_backoff cfg * 2 ^ (n - 1)).
Proof. intros Hn. unfold retry_delay. by rewrite (proj2 (Z.ltb_lt _ _)) by lia. Qed.

(** If the [n]-th attempt is followed by a retry, its back-off fits a [float]. *)
Definition backoff_fits (n : Z) : Prop := n < retry_max_attempts cfg → n < 1024.

(** The retry is queued after the back-off; if its publication fails, a dead
    letter takes its place, unless that fails too. *)
Lemma wp_retry m id n (Q : outcome unit → world → Prop) w :
  n ≤ 1024 → broker_faults_caught w → utf8_encode (msg_key m) ≠ None →
  (∀ w', same_but_queues w w' → sleeps w' = sleeps w ++ backoff n →
     delivered (retry_message m id n) w w' ∨ ¬ reliable w OpPublish → Q (Ok tt) w') →
  wp (publish_retry_message broker cfg m id n) Q w.
Proof.
  intros Hn Hf Hkey HQ. apply wp_bind. rewrite retry_delay_Ok by done. apply wp_ret, wp_bind.
  assert (∃ w1, same_but_queues w w1 ∧ sleeps w1 = sleeps w ++ backoff n ∧ w_queues w1 = w_queues w ∧
    run (if 0 <? retry_backoff cfg * 2 ^ (n - 1) then observe (OSleep (retry_backoff cfg * 2 ^ (n - 1)))
         else mret tt) w = (Ok tt, w1))
    as (w1 & Hs1 & Hsl1 & Hqs1 & Hrun).
  { unfold backoff. cbv zeta. destruct (0 <? _).
    - eexists. split_and!; [..|reflexivity]; try done. by rewrite sleeps_observe.
    - exists w. by rewrite app_nil_r. }
  unfold wp at 1. rewrite Hrun. cbn [fst snd].
  assert (∀ t, queue t w1 = queue t w) as Hq1 by (intros t; unfold queue; by rewrite Hqs1).
  assert (∀ w', quiet w1 w' → same_but_queues w w' ∧ sleeps w' = sleeps w ++ backoff n) as Hquiet.
  { intros w' [Hs ?]. split; [|congruence].
    unfold same_but_queues in *. intuition congruence. }
  assert (broker_faults_caught w1) as Hf1.
  { intros op e Hop Hi. eapply Hf; [exact Hop|]. eapply injects_env; [|exact Hi]. apply Hs1. }
  apply wp_publish_or; [done|done| |].
  - intros w2 Hq Hd. destruct (Hquiet w2 Hq). apply HQ; [done..|left].
    unfold delivered, queues_are in *. rewrite <- Hq1. destruct Hd as [-> Hd]. split; [done|].
    intros t Ht. by rewrite Hd, Hq1.
  - intros e w2 Hno Hq Hd. apply wp_bind, wp_observe. apply wp_dead_letter.
    { apply (broker_faults_quiet w1); [|done]. etrans; [exact Hq|]. by apply quiet_observe. }
    intros w3 Hq3 _. destruct (Hquiet w3) as [Hs3 Hsl3].
    { etrans; [exact Hq|]. etrans; [|exact Hq3]. by apply quiet_observe. }
    apply HQ; [done..|right]. intros Hrel. apply Hno. split.
    + eapply reliable_env; [|exact Hrel]. apply Hs1.
    + unfold retry_message. cbn [msg_key]. destruct (msg_key m); [|exact Hkey].
      by rewrite utf8_encode_ascii by apply uuid_str_ascii.
Qed.

(** ** One round *)

Context (process : Z → coro bool).

(** What the worker needs of [process]: it leaves the queues alone, does not
    sleep, and raises [Exception]s only.  [R] is whatever else it does. *)
Definition process_spec (w : world) (id : Z) (R : outcome bool → world → Prop) : Prop :=
  ∀ w0, quiet w w0 →
  wp (process id)
    (λ o w1, R o w1 ∧ w_queues w1 = w_queues w0 ∧ w_env w1 = w_env w0 ∧ sleeps w1 = sleeps w0 ∧
             match o with Exn e => is_exception e = true | Ok _ => True end) w0.

(** Nothing but [topic], and possibly [dlq], has changed. *)
Definition other_queues (topics : list pystr) (w w' : world) : Prop :=
  ∀ t, t ∉ topics → queue t w' = queue t w.

(** Where a consumed message goes, by the outcome of its processing. *)
Definition message_outcome (m : Message) (q : list Message) (id n : Z)
    (payload : list (pystr * json)) (r : outcome bool) (w w' : world) : Prop :=
  match r with
  | Ok _ =>
      queue IMAGE_PROCESSING_TOPIC w' = q ∧ other_queues [IMAGE_PROCESSING_TOPIC] w w' ∧
      sleeps w' = sleeps w
  | Exn e =>
      if n <? retry_max_attempts cfg then
        queue IMAGE_PROCESSING_TOPIC w' = q ++ [retry_message m id (n + 1)] ∧
        other_queues [IMAGE_PROCESSING_TOPIC] w w' ∧ sleeps w' = sleeps w ++ backoff (n + 1)
      else
        queue IMAGE_PROCESSING_TOPIC w' = q ∧
        (∃ now, queue (dlq_topic cfg) w' = queue (dlq_topic cfg) w ++
                  [dead_letter_message (dlq_topic cfg) now m (lit "retries_exhausted") (exn_str e) payload]) ∧
        other_queues [IMAGE_PROCESSING_TOPIC; dlq_topic cfg] w w' ∧ sleeps w' = sleeps w
  end.

(** The state after a message was taken, and counted. *)
Definition taken (m : Message) (w w1 : world) : Prop :=
  quiet w w1 ∧ queue IMAGE_PROCESSING_TOPIC w = m :: queue IMAGE_PROCESSING_TOPIC w1 ∧
  other_queues [IMAGE_PROCESSING_TOPIC] w w1.

Lemma wp_execute_once m q (Q : outcome bool → world → Prop) w :
  reliable w OpConsume → queue IMAGE_PROCESSING_TOPIC w = m :: q →
  (∀ w1, taken m w w1 → queue IMAGE_PROCESSING_TOPIC w1 = q →
     wp (match parse_payload m with
         | Exn exc =>
             record_consume_error IMAGE_PROCESSING_TOPIC (lit "malformed");;
             publish_dead_letter_message broker cfg m (lit "malformed") (exn_str exc) [];;
             record_processing_duration IMAGE_PROCESSING_TOPIC;;
             mret true
         | Ok (image_id, attempt, payload) =>
             except_if is_exception (_ ← process image_id; mret tt)
               (λ exc,
                  record_consume_error IMAGE_PROCESSING_TOPIC (lit "processing_failed");;
                  handle_retry_or_dlq broker cfg m image_id attempt payload exc);;
             record_processing_duration IMAGE_PROCESSING_TOPIC;;
             mret true
         end) Q w1) →
  wp (execute_once broker process cfg) Q w.
Proof.
  intros Hrel Hq HQ. apply wp_bind. eapply wp_mono; [apply br_consume_law|].
  intros [[m'|]|e] w1 [Hf Ho].
  - destruct Ho as [Hq1 Ho]. rewrite Hq in Hq1. injection Hq1 as <- Hq1.
    apply wp_bind, wp_observe, wp_bind, wp_read_mono, HQ; [|done]. split_and!.
    + etrans; [by apply broker_frame_quiet|]. etrans; [|apply quiet_tick]. by apply quiet_observe.
    + rewrite Hq. by f_equal.
    + intros t Ht. apply Ho. set_solver.
  - exfalso. destruct Ho as [[Hq0|[e Hi]] _]; [by rewrite Hq in Hq0|]. by eapply reliable_no_inject.
  - exfalso. by eapply reliable_no_inject.
Qed.

Lemma wp_record_duration (Q : outcome bool → world → Prop) w :
  (∀ w', quiet w w' → same_queues w w' → Q (Ok true) w') →
  wp (record_processing_duration IMAGE_PROCESSING_TOPIC;; mret true) Q w.
Proof.
  intros HQ. apply wp_bind, wp_bind, wp_read_mono, wp_observe, wp_ret, HQ; [|done].
  etrans; [apply quiet_tick|]. by apply quiet_observe.
Qed.

(** The worker under a broker that works. *)
Record broker_works (w : world) (m : Message) : Prop := {
  bw_consume : reliable w OpConsume;
  bw_publish : reliable w OpPublish;
  bw_key : utf8_encode (msg_key m) ≠ None
}.

Lemma broker_works_caught w m : broker_works w m → broker_faults_caught w.
Proof.
  intros [Hc Hp _] op e Hop Hi. exfalso.
  assert (op = OpPublish ∨ op = OpConsume) as [-> | ->] by set_solver.
  - exact (reliable_no_inject _ _ _ Hp Hi).
  - exact (reliable_no_inject _ _ _ Hc Hi).
Qed.

Lemma same_but_queues_env w w' : same_but_queues w w' → w_env w' = w_env w.
Proof. by intros (_ & _ & _ & _ & _ & ?). Qed.

Lemma broker_works_env w w' m : w_env w' = w_env w → broker_works w m → broker_works w' m.
Proof. intros E [Hc Hp Hk]. split; [by eapply reliable_env..|done]. Qed.

Lemma same_but_queues_trans w1 w2 w3 :
  same_but_queues w1 w2 → same_but_queues w2 w3 → same_but_queues w1 w3.
Proof. unfold same_but_queues. intuition congruence. Qed.

(** The failure handler, when publications work. *)
Lemma wp_handle_failure m q id n payload e w1 w (Q : outcome unit → world → Prop) :
  dlq_topic cfg ≠ IMAGE_PROCESSING_TOPIC → backoff_fits n → broker_works w1 m →
  queue IMAGE_PROCESSING_TOPIC w1 = q → other_queues [IMAGE_PROCESSING_TOPIC] w w1 →
  sleeps w1 = sleeps w →
  (∀ w', same_but_queues w1 w' → message_outcome m q id n payload (Exn e) w w' → Q (Ok tt) w') →
  wp (handle_retry_or_dlq broker cfg m id n payload e) Q w1.
Proof.
  intros Hdlq Hfit Hb Hq Ho Hs HQ. pose proof (broker_works_caught _ _ Hb) as Hf. destruct Hb as [Hc Hp Hk].
  unfold handle_retry_or_dlq. unfold message_outcome in HQ.
  destruct (n <? retry_max_attempts cfg) eqn:En.
  - zbool. apply wp_retry; [specialize (Hfit En); lia|done..|]. intros w2 Hs2 Hsl2 [[Hd1 Hd2]|Hno]; [|done].
    apply HQ; [done|]. split_and!; [by rewrite <- Hq| |by rewrite Hsl2, Hs].
    intros t Ht. rewrite <- (Ho t Ht). apply Hd2. set_solver.
  - apply wp_dead_letter; [done|]. intros w2 [Hs2 Hsl2] [(now & Hd1 & Hd2)|[Hno _]].
    2:{ exfalso. by apply Hno. }
    cbn [msg_topic dead_letter_message] in Hd1, Hd2. apply HQ; [done|]. split_and!.
    + by rewrite Hd2.
    + exists now. rewrite Hd1. rewrite (Ho (dlq_topic cfg)) by set_solver. done.
    + intros t Ht. rewrite Hd2 by set_solver. apply Ho. set_solver.
    + congruence.
Qed.

Lemma message_outcome_same m q id n payload r w w1 w' :
  same_queues w1 w' → sleeps w' = sleeps w1 →
  message_outcome m q id n payload r w w1 → message_outcome m q id n payload r w w'.
Proof.
  intros Hq Hs. unfold message_outcome, other_queues. destruct r as [b|e]; [|destruct (_ <? _)].
  - rewrite Hq, Hs. intros (? & Ho & ?). split_and!; [done| |done]. intros t. rewrite Hq. apply Ho.
  - rewrite Hq, Hs. intros (? & Ho & ?). split_and!; [done| |done]. intros t. rewrite Hq. apply Ho.
  - rewrite !Hq, Hs. intros (? & ? & Ho & ?). split_and!; [done..| |done]. intros t. rewrite Hq. apply Ho.
Qed.

Lemma wp_consume_task (m : Message) (q : list Message) (id n : Z) (payload : list (pystr * json))
    (R : outcome bool → world → Prop) (w : world) :
  dlq_topic cfg ≠ IMAGE_PROCESSING_TOPIC → backoff_fits n → broker_works w m →
  queue IMAGE_PROCESSING_TOPIC w = m :: q → parse_payload m = Ok (id, n, payload) →
  process_spec w id R →
  wp (execute_once broker process cfg)
    (λ o w', o = Ok true ∧ ∃ r w1, R r w1 ∧ same_but_queues w1 w' ∧
             message_outcome m q id n payload r w w') w.
Proof.
  intros Hdlq Hfit Hb Hq Hm Hproc. eapply wp_execute_once; [apply Hb|exact Hq|].
  intros w1 (Hq1 & _ & Ho1) Hq1'. rewrite Hm. apply wp_bind, wp_except_if, wp_bind.
  eapply wp_mono; [by apply Hproc|]. intros r w2 (HR & Hqs2 & He2 & Hs2 & Hx).
  assert (∀ t, queue t w2 = queue t w1) as Hqq by (intros t; unfold queue; by rewrite Hqs2).
  assert (sleeps w2 = sleeps w) as Hs2' by (destruct Hq1; congruence).
  destruct r as [b|e].
  - apply wp_ret. apply wp_record_duration. intros w3 Hq3 Hqs3. split; [done|].
    exists (Ok b), w2. split_and!; [done|apply Hq3|]. unfold message_outcome.
    split_and!; [by rewrite Hqs3, Hqq| |destruct Hq3; congruence].
    intros t Ht. by rewrite Hqs3, Hqq, Ho1.
  - rewrite Hx. apply wp_bind, wp_observe.
    set (w2' := set_trace _ w2). assert (quiet w2 w2') as Hq2' by by apply quiet_observe.
    apply (wp_handle_failure m q id n payload e w2' w); [done..| | | | |].
    + eapply broker_works_env; [|exact Hb]. change (w_env w2') with (w_env w2). rewrite He2.
      apply same_but_queues_env, Hq1.
    + change (queue IMAGE_PROCESSING_TOPIC w2 = q). by rewrite Hqq.
    + intros t Ht. change (queue t w2 = queue t w). by rewrite Hqq, Ho1.
    + rewrite <- Hs2'. apply Hq2'.
    + intros w3 Hs3 Hmo. apply wp_record_duration. intros w4 Hq4 Hqs4. split; [done|].
      exists (Exn e), w2. split_and!; [done| |].
      * eapply same_but_queues_trans; [apply Hq2'|]. eapply same_but_queues_trans; [exact Hs3|apply Hq4].
      * eapply message_outcome_same; [exact Hqs4|apply Hq4|done].
Qed.

(** C8: one round of the worker.  When the broker works, a well-formed task at
    the head of the queue is taken and processed once, and the round returns
    [True] whatever happens.  A processed message is gone.  One whose
    processing raised is put back at the end of the queue with its attempt
    count one higher after the exponential back-off, as long as the count is
    below the maximum (and below 1024: a larger back-off does not fit a
    [float]); after that its dead letter is put on the dead-letter
    topic.  No other queue changes. *)
Theorem consume_task (m : Message) (q : list Message) (id n : Z) (payload : list (pystr * json))
    (R : outcome bool → world → Prop) (w : world) :
  dlq_topic cfg ≠ IMAGE_PROCESSING_TOPIC → backoff_fits n → broker_works w m →
  queue IMAGE_PROCESSING_TOPIC w = m :: q → parse_payload m = Ok (id, n, payload) →
  process_spec w id R →
  wp (execute_once broker process cfg)
    (λ o w', o = Ok true ∧ ∃ r w1, R r w1 ∧ same_but_queues w1 w' ∧
             message_outcome m q id n payload r w w') w.
Proof. apply wp_consume_task. Qed.

(** A failed task with a count of 1024 or more that may still be retried: the
    back-off does not fit a [float], the round raises the [OverflowError], and
    the message, already taken from its queue, is on no queue at all. *)
Lemma retry_overflow (m : Message) (q : list Message) (id n : Z) (payload : list (pystr * json))
    (R : outcome bool → world → Prop) (w : world) :
  reliable w OpConsume → queue IMAGE_PROCESSING_TOPIC w = m :: q →
  parse_payload m = Ok (id, n, payload) → 1024 ≤ n < retry_max_attempts cfg →
  process_spec w id (λ o w', R o w' ∧ ∃ e, o = Exn e) →
  wp (execute_once broker process cfg)
    (λ o w', o = Exn (EOverflow (lit "int too large to convert to float")) ∧
       queue IMAGE_PROCESSING_TOPIC w' = q ∧ other_queues [IMAGE_PROCESSING_TOPIC] w w') w.
Proof.
  intros Hrel Hq Hm [Hn1 Hn2] Hproc. eapply wp_execute_once; [done|exact Hq|].
  intros w1 (Hq1 & _ & Ho1) Hq1'. rewrite Hm. apply wp_bind, wp_except_if, wp_bind.
  eapply wp_mono; [by apply Hproc|]. intros r w2 ((_ & e & ->) & Hqs2 & _ & _ & Hx).
  assert (∀ t, queue t w2 = queue t w1) as Hqq by (intros t; unfold queue; by rewrite Hqs2).
  rewrite Hx. apply wp_bind, wp_observe. unfold handle_retry_or_dlq, publish_retry_message, retry_delay.
  rewrite (proj2 (Z.ltb_lt n _)), (proj2 (Z.ltb_ge (n + 1 - 1) _)) by lia. apply wp_bind, wp_raise.
  split_and!; [done|by rewrite <- Hq1', <- Hqq|]. intros t Ht. rewrite <- Ho1 by done. apply Hqq.
Qed.

(** C27: a malformed message never reaches the processor and is never dropped:
    it is taken from the queue and its dead letter, with the reason, the error
    and the original key and value, is put on the dead-letter topic. *)
Theorem consume_malformed (m : Message) (q : list Message) (exc : exn) (w : world) :
  dlq_topic cfg ≠ IMAGE_PROCESSING_TOPIC → broker_works w m →
  queue IMAGE_PROCESSING_TOPIC w = m :: q → parse_payload m = Exn exc →
  wp (execute_once broker process cfg)
    (λ o w', o = Ok true ∧ quiet w w' ∧ queue IMAGE_PROCESSING_TOPIC w' = q ∧
       (∃ now, queue (dlq_topic cfg) w' = queue (dlq_topic cfg) w ++
                 [dead_letter_message (dlq_topic cfg) now m (lit "malformed") (exn_str exc) []]) ∧
       other_queues [IMAGE_PROCESSING_TOPIC; dlq_topic cfg] w w') w.
Proof.
  intros Hdlq Hb Hq Hm. eapply wp_execute_once; [apply Hb|exact Hq|].
  intros w1 (Hq1 & _ & Ho1) Hq1'. rewrite Hm. apply wp_bind, wp_observe, wp_bind.
  set (w1' := set_trace _ w1). assert (quiet w1 w1') as Hq2 by by apply quiet_observe.
  assert (broker_works w1' m) as Hb1.
  { eapply broker_works_env; [|exact Hb]. etrans; [apply same_but_queues_env, Hq2|].
    apply same_but_queues_env, Hq1. }
  apply wp_dead_letter; [by eapply broker_works_caught|].
  intros w2 Hq3 [(now & Hd1 & Hd2)|[Hno _]]; [|by exfalso; apply Hno; split; apply Hb1].
  cbn [msg_topic dead_letter_message] in Hd1, Hd2.
  apply wp_record_duration. intros w3 Hq4 Hqs. split_and!; [done| | | |].
  - etrans; [exact Hq1|]. etrans; [exact Hq2|]. by etrans.
  - rewrite Hqs, Hd2 by done. done.
  - exists now. rewrite Hqs, Hd1. by rewrite <- (Ho1 (dlq_topic cfg)) by set_solver.
  - intros t Ht. rewrite Hqs, Hd2 by set_solver. apply Ho1. set_solver.
Qed.

(** ** Retries end *)

Lemma uuid_str_cons u : ∃ c s, uuid_str u = c :: s.
Proof. pose proof (uuid_str_length u) as Hl. destruct (uuid_str u) as [|c s]; [done|eauto]. Qed.

Lemma retry_key_encodes m id n :
  utf8_encode (msg_key m) ≠ None → utf8_encode (msg_key (retry_message m id n)) ≠ None.
Proof.
  intros Hk. unfold retry_message. cbn [msg_key]. destruct (msg_key m); [|exact Hk].
  by rewrite utf8_encode_ascii by apply uuid_str_ascii.
Qed.

(** A retry of a retry is the retry with the later count. *)
Lemma retry_message_twice m id n1 n2 :
  retry_message (retry_message m id n1) id n2 = retry_message m id n2.
Proof.
  unfold retry_message at 1 3. f_equal. unfold retry_message. cbn [msg_key].
  destruct (msg_key m); [|done]. destruct (uuid_str_cons id) as (c & s & ->). done.
Qed.

(** Processing [id] raises [e] in every state of [I]. *)
Definition always_fails (I : world → Prop) (id : Z) (e : exn) : Prop :=
  is_exception e = true ∧ (∀ w w', same_but_queues w w' → I w → I w') ∧
  ∀ w0, I w0 →
  wp (process id) (λ o w1, o = Exn e ∧ I w1 ∧ w_queues w1 = w_queues w0 ∧ w_env w1 = w_env w0 ∧
                           sleeps w1 = sleeps w0) w0.

(** The sleeps before the retries [n + 1], ..., [n + k]. *)
Definition backoffs (n : Z) (k : nat) : list Z := concat (map (λ j, backoff (n + Z.of_nat j)) (seq 1 k)).

Lemma backoffs_S n k : backoffs n (S k) = backoff (n + 1) ++ backoffs (n + 1) k.
Proof.
  unfold backoffs. rewrite <- cons_seq. cbn [map concat]. f_equal. rewrite <- (seq_shift k 1), map_map. f_equal.
  apply map_ext. intros j. f_equal. lia.
Qed.

(** One failing round. *)
Lemma wp_round_fail I id e m q n payload w (Q : outcome bool → world → Prop) :
  dlq_topic cfg ≠ IMAGE_PROCESSING_TOPIC → backoff_fits n → always_fails I id e → I w → broker_works w m →
  queue IMAGE_PROCESSING_TOPIC w = m :: q → parse_payload m = Ok (id, n, payload) →
  (∀ w', I w' → w_env w' = w_env w → message_outcome m q id n payload (Exn e) w w' → Q (Ok true) w') →
  wp (execute_once broker process cfg) Q w.
Proof.
  intros Hdlq Hfit (Hx & HI1 & HI2) HI Hb Hq Hm HQ. eapply wp_mono.
  { apply (wp_consume_task m q id n payload (λ o w1, o = Exn e ∧ I w1 ∧ w_env w1 = w_env w)); [done..|].
    intros w0 [Hs Hsl]. eapply wp_mono; [apply HI2; by eapply HI1|].
    intros o w1 (-> & HI' & Hqs & He & Hsl'). split_and!; try done. rewrite He. by apply same_but_queues_env. }
  intros o w' (-> & r & w1 & (-> & HI' & He) & Hs & Hmo). apply HQ; [by eapply HI1| |done].
  rewrite <- He. by apply same_but_queues_env.
Qed.

Lemma wp_rounds_fail I id e k : ∀ m n payload w,
  dlq_topic cfg ≠ IMAGE_PROCESSING_TOPIC → retry_max_attempts cfg ≤ 1024 →
  always_fails I id e → I w → broker_works w m →
  uuid_ok id → 0 ≤ n → retry_max_attempts cfg = n + Z.of_nat k →
  queue IMAGE_PROCESSING_TOPIC w = [m] → parse_payload m = Ok (id, n, payload) →
  wp (rounds broker process cfg (S k))
    (λ o w', o = Ok (replicate (S k) true) ∧ queue IMAGE_PROCESSING_TOPIC w' = [] ∧
       (∃ now last rest, last = (if decide (k = 0%nat) then m else retry_message m id (n + Z.of_nat k)) ∧
          queue (dlq_topic cfg) w' = queue (dlq_topic cfg) w ++
            [dead_letter_message (dlq_topic cfg) now last (lit "retries_exhausted") (exn_str e) rest]) ∧
       other_queues [IMAGE_PROCESSING_TOPIC; dlq_topic cfg] w w' ∧
       sleeps w' = sleeps w ++ backoffs n k) w.
Proof.
  induction k as [|k IH]; intros m n payload w Hdlq Hfit Hfail HI Hb Hid Hn Hmax Hq Hm;
    cbn [rounds]; apply wp_bind, (wp_round_fail I id e m [] n payload); try done;
    try (intros ?; lia);
    intros w1 HI1 He1 Hmo; unfold message_outcome in Hmo.
  - rewrite (proj2 (Z.ltb_ge _ _)) in Hmo by lia. destruct Hmo as (Hq1 & (now & Hd1) & Ho1 & Hs1).
    apply wp_bind, wp_ret, wp_ret. split_and!; [done|done| |done|by rewrite app_nil_r].
    exists now, m, payload. by rewrite decide_True.
  - rewrite (proj2 (Z.ltb_lt _ _)) in Hmo by lia. destruct Hmo as (Hq1 & Ho1 & Hs1). cbn in Hq1.
    set (m1 := retry_message m id (n + 1)) in *. apply wp_bind. eapply wp_mono.
    { apply (IH m1 (n + 1) (retry_payload id (n + 1)) w1); try done; try lia.
      - eapply broker_works_env; [exact He1|]. destruct Hb. split; [done..|by apply retry_key_encodes].
      - apply parse_retry_message; [done|]. apply small_attempt_1024. lia. }
    intros o w2 (-> & Hq2 & (now & last & rest & Hlast & Hd2) & Ho2 & Hs2). apply wp_ret.
    split_and!; [done|done| | |].
    + exists now, last, rest. split.
      * rewrite Hlast. destruct (decide (S k = 0%nat)); [done|]. subst m1.
        destruct (decide (k = 0%nat)) as [->|]; [done|]. rewrite retry_message_twice. f_equal. lia.
      * rewrite Hd2. by rewrite (Ho1 (dlq_topic cfg)) by set_solver.
    + intros t Ht. rewrite Ho2 by done. apply Ho1. set_solver.
    + rewrite Hs2, Hs1, backoffs_S. by rewrite app_assoc.
Qed.

(** C9: retries end.  A task whose processing always fails, with whatever
    exception, is attempted [retry_max_attempts + 1] times, with the doubling
    back-offs in between, and then leaves the processing queue for the
    dead-letter topic, exactly once. *)
Theorem retries_exhaust (I : world → Prop) (id : Z) (e : exn) (w : world) :
  let k := Z.to_nat (retry_max_attempts cfg) in
  dlq_topic cfg ≠ IMAGE_PROCESSING_TOPIC → 0 ≤ retry_max_attempts cfg ≤ 1024 →
  always_fails I id e → I w → broker_works w (upload_message id) → uuid_ok id →
  queue IMAGE_PROCESSING_TOPIC w = [upload_message id] →
  wp (rounds broker process cfg (S k))
    (λ o w', o = Ok (replicate (S k) true) ∧ queue IMAGE_PROCESSING_TOPIC w' = [] ∧
       (∃ now last rest,
          queue (dlq_topic cfg) w' = queue (dlq_topic cfg) w ++
            [dead_letter_message (dlq_topic cfg) now last (lit "retries_exhausted") (exn_str e) rest]) ∧
       other_queues [IMAGE_PROCESSING_TOPIC; dlq_topic cfg] w w' ∧
       sleeps w' = sleeps w ++ backoffs 0 k) w.
Proof.
  intros k Hdlq [Hmax Hfit] Hfail HI Hb Hid Hq.
  assert (0 + Z.of_nat k = retry_max_attempts cfg) as Hk by lia.
  eapply wp_mono.
  { apply (wp_rounds_fail I id e k (upload_message id) 0 [(lit "image_id", JStr (uuid_str id))]);
      try rewrite Hk; try done; by apply parse_upload_message. }
  intros o w' (-> & Hq' & (now & last & rest & _ & Hd) & Ho & Hs). split_and!; [done..| |done|done].
  by exists now, last, rest.
Qed.
End publishing.
