(* ===== verification/Service.v ===== *)
(** * The service as a whole

    The use cases put together as [src/src/worker.py] does: the worker consumes
    tasks and processes them.  The theorems follow an image from its upload to
    its thumbnail. *)

From S2P Require Import Prelude PyText PyUuid PyJson Prog Domain Database Cache World Ports.
From S2P Require Import Upload Process Consume.
Local Open Scope Z_scope.

Section worker.
Context `{PyTables, Postgres, !RepoLaws repository, !StorageLaws storage, !ProcessorLaws processor,
          !BrokerLaws broker} (cfg : ConsumeProcessingTasks.config).

(** What the worker passes as [process_use_case.execute]. *)
Definition process_task (id : Z) : coro bool :=
  ProcessImage.execute repository storage processor id None.

(** One round of the worker's loop. *)
Definition worker_round : coro bool := ConsumeProcessingTasks.execute_once broker process_task cfg.

Lemma quiet_world_ok w w' : quiet w w' → world_ok w → world_ok w'.
Proof. intros [(_ & Hd & _ & Hc & _) _]. by apply world_ok_same. Qed.

Lemma quiet_coh id w w' : quiet w w' → repo_coh id w → repo_coh id w'.
Proof.
  intros [(Hh & Hd & _ & Hc & _) _]. apply repo_coh_frame; [by rewrite Hh|by rewrite Hd|done].
Qed.

Lemma quiet_row_is id i w w' : quiet w w' → row_is id i w → row_is id i w'.
Proof. intros [(_ & Hd & _) _]. unfold row_is. by rewrite Hd. Qed.

Lemma process_result_quiet id i w w0 o w' :
  quiet w w0 → process_result id i w0 o w' → process_result id i w o w'.
Proof.
  intros [(_ & _ & _ & _ & Hf & He) _]. destruct o as [b|e]; cbn.
  - intros (Hb & r & p & i' & (data & ? & ? & ? & ?) & Hrest). split; [done|].
    exists r, p, i'. split; [|exact Hrest]. exists data. by rewrite <- Hf.
  - intros (Hw & Hfs & Hrest). split_and!; [by eapply process_failure_same| |done].
    unfold files_after_failure in *. by rewrite <- Hf.
Qed.

Lemma process_failure_exception i w e : process_env w → process_failure i w e → is_exception e = true.
Proof.
  intros Henv [? ->|Hi|data _ [Hp|Hi]|data r _ _ [Hp|Hi]]; [done|..].
  - eapply (pe_faults _ Henv OpRetrieve); [set_solver|done].
  - by eapply pe_proc_exn.
  - eapply (pe_faults _ Henv OpThumbnail); [set_solver|done].
  - by eapply pe_path_exn.
  - eapply (pe_faults _ Henv OpStore); [set_solver|done].
Qed.

(** What a round leaves of the image it processed. *)
Definition task_done (id : Z) (i : Image) (w : world) (o : outcome bool) (w' : world) : Prop :=
  world_ok w' ∧ process_result id i w o w' ∧
  (∀ id', id' ≠ id → db_images (w_db w') !! id' = db_images (w_db w) !! id') ∧
  db_keys (w_db w') = db_keys (w_db w) ∧ w_env w' = w_env w ∧
  (∀ id', id' = id ∨ repo_coh id' w → repo_coh id' w').

Lemma process_task_spec id i w :
  world_ok w → repo_coh id w → row_is id i w → process_env w → reliable w OpKeyGet → reliable w OpKeyCreate →
  process_spec process_task w id (task_done id i w).
Proof.
  intros Hok Hcoh Hrow Henv Hr1 Hr2 w0 Hq. pose proof (same_but_queues_env _ _ (proj1 Hq)) as He.
  eapply wp_mono.
  { apply (wp_execute id None i w0); [by eapply quiet_world_ok|by eapply quiet_coh|by eapply quiet_row_is|
      by eapply process_env_env|done|by eapply reliable_env..]. }
  intros o w1 (Hok1 & (Ho1 & Hqs & _ & He1 & Hcoh1 & Hs1) & Hr & Hk).
  pose proof Hq as [(_ & Hd & _) _]. split_and!; [|done|done|done|].
  - split_and!; [done|by eapply process_result_quiet| | |congruence|].
    + intros id' Hne. by rewrite Ho1, Hd.
    + cbn in Hk. congruence.
    + intros id' [->|Hc]; apply Hcoh1; [by left|right]. by eapply quiet_coh.
  - destruct o as [b|e]; [done|]. cbn in Hr. destruct Hr as (Hw & _).
    eapply process_failure_exception; [|exact Hw]. by eapply process_env_env.
Qed.

(** ** From the upload to the thumbnail *)

(** Nothing fails, and what the processor and the storage return fits. *)
Definition all_works (w : world) : Prop := (∀ op, reliable w op) ∧ process_env w.

Lemma all_works_env w w' : w_env w' = w_env w → all_works w → all_works w'.
Proof. intros E [Hr Hp]. split; [intros op; by eapply reliable_env|by eapply process_env_env]. Qed.

Lemma all_works_no_inject w op e : all_works w → ¬ injects w op e.
Proof. intros [Hr _]. by apply reliable_no_inject. Qed.

Lemma all_works_upload w : all_works w → upload_env w.
Proof.
  intros Hw. split.
  - intros op _. apply (proj1 Hw).
  - intros e Hi. by apply all_works_no_inject in Hi.
Qed.

Lemma all_works_broker w id : all_works w → broker_works w (upload_message id).
Proof. intros [Hr _]. split; [apply Hr|apply Hr|]. apply uuid_str_encodes. Qed.

(** When nothing fails, the image is processed. *)
Lemma process_result_works id i data r q w o w' :
  all_works w → w_fs w !! img_original_path i = Some data → proc_fun data = Ok r →
  st_path (thumb_name i) (pr_thumbnail_data r) = Ok q → process_result id i w o w' →
  o = Ok true ∧ w_fs w' = <[q := pr_thumbnail_data r]> (w_fs w) ∧
  ∃ i', row_is id i' w' ∧ update_ok i i' ∧ img_status i' = COMPLETED ∧ img_thumbnail_path i' = Some q ∧
        img_metadata i' = Some (result_metadata r).
Proof.
  intros Hw Hf Hr Hq. destruct o as [b|e]; cbn.
  - intros (-> & r' & q' & i' & (data' & Hf' & Hr' & Hq' & Hfs) & Hi' & Hu & Hs & Ht & Hm).
    rewrite Hf in Hf'. injection Hf' as <-. rewrite Hr in Hr'. injection Hr' as <-.
    rewrite Hq in Hq'. injection Hq' as <-. split_and!; [done..|]. exists i'. by split_and!.
  - intros (Hwhy & _). exfalso. assert (∀ op, ¬ injects w op e) as Hno by (intros; by apply all_works_no_inject).
    destruct Hwhy as [Hn _|Hi|data' Hd [Hp|Hi]|data' r' Hd Hr' [Hp|Hi]];
      try (exact (Hno _ Hi)); rewrite Hf in *; simplify_eq.
    + congruence.
    + rewrite Hr in Hr'. simplify_eq. congruence.
Qed.

(** C1: the life of an image, end to end.  When nothing fails, an upload
    followed by one round of the worker answers with the pending image, and
    leaves its row completed with the processor's metadata and its thumbnail
    stored next to its file; the queue is empty again. *)
Theorem upload_to_thumbnail (filename : pystr) (data : pybytes) (tags : option (list pystr))
    (ttl : option Z) (key : option pystr) (p q : pystr) (r : ProcessingResult) (w : world) :
  world_ok w → fresh_uuids w → absent key (w_db w) → all_works w →
  st_path filename data = Ok p → (∀ e, ¬ expiry_overflow ttl w e) →
  request_fits filename p (default [] tags) key →
  proc_fun data = Ok r → st_path (lit "thumb_" ++ filename) (pr_thumbnail_data r) = Ok q →
  ConsumeProcessingTasks.dlq_topic cfg ≠ IMAGE_PROCESSING_TOPIC →
  queue IMAGE_PROCESSING_TOPIC w = [] →
  wp (x ← UploadImage.execute repository storage (Some broker) filename data tags ttl key;
      b ← worker_round; mret (x, b))
    (λ o w', ∃ x i', o = Ok (x, true) ∧ resp_status x = lit "pending" ∧
       row_is (resp_id x) i' w' ∧ img_status i' = COMPLETED ∧ img_filename i' = filename ∧
       img_original_path i' = p ∧ img_thumbnail_path i' = Some q ∧
       img_metadata i' = Some (result_metadata r) ∧
       w_fs w' = <[q := pr_thumbnail_data r]> (<[p := data]> (w_fs w)) ∧
       queue IMAGE_PROCESSING_TOPIC w' = []) w.
Proof.
  intros Hok Hfr Habs Hw Hp Hx Hfit Hr Hq Hdlq Hempty. apply wp_bind. eapply wp_mono.
  { apply (wp_upload_succeeds (Some broker) ltac:(by intros b [= <-]) filename data tags ttl key p);
      try done. by apply all_works_upload. }
  intros o w1 (w0 & x & -> & Hcl & Hpost).
  assert (uploaded (Some broker) filename data (default [] tags) ttl key w x w1)
    as (i & p' & m & Hcr & Hp' & -> & Hi & Hm & Hf1 & _ & Hq1) by (eapply claimed_uploaded; [by intros b [= <-]|exact Hcl|exact Hpost]).
  assert (p' = p) as -> by congruence. destruct Hpost as (Hok1 & He1 & i0 & _ & _ & _ & _ & Hx0 & _ & _ & _ & _ & _ & Hcoh1).
  assert (img_id i0 = img_id i) as Hid.
  { change (resp_id (to_response i0) = resp_id (to_response i)). by rewrite Hx0. }
  assert (w_env w1 = w_env w) as He.
  { rewrite He1. by destruct Hcl as ((_ & _ & _ & _ & _ & _ & ?) & _). }
  assert (all_works w1) as Hw1 by by eapply all_works_env.
  assert (row_is (img_id i) i w1) as Hrow by (exists m; by rewrite Hi, lookup_insert_eq).
  destruct Hq1 as [[Hq1 _]|[e Hinj]]; [|by apply all_works_no_inject in Hinj].
  rewrite Hempty in Hq1. cbn [app] in Hq1.
  apply wp_bind. eapply wp_mono.
  { apply (wp_consume_task cfg process_task (upload_message (img_id i)) [] (img_id i) 0
      [(lit "image_id", JStr (uuid_str (img_id i)))] (task_done (img_id i) i w1)); [done|done| |exact Hq1| |].
    - by apply all_works_broker.
    - by apply parse_upload_message, (created_uuid_ok _ _ _ _ _ _ Hcr).
    - apply process_task_spec; [done|apply Hcoh1; by left|exact Hrow|apply Hw1|apply (proj1 Hw1)..]. }
  intros o w2 (-> & o' & w3 & (_ & Hpr & _) & Hs & Hmo).
  pose proof Hcr as [Hfn Hpath _ Hst _ _ _ _ _].
  destruct (process_result_works (img_id i) i data r q w1 o' w3) as (-> & Hf3 & i' & Hrow3 & Hu & Hst' & Hth & Hmd).
  { done. }
  { rewrite Hpath, Hf1. apply lookup_insert_eq. }
  { done. }
  { unfold thumb_name. by rewrite Hfn. }
  { done. }
  apply wp_ret. destruct Hmo as (Hq2 & _). destruct Hs as (_ & Hd2 & _ & _ & Hf2 & _).
  exists (to_response i), i'. destruct Hu as (_ & Hu1 & Hu2 & _). split_and!; try done.
  - unfold to_response. cbn. by rewrite Hst.
  - unfold row_is. rewrite Hd2. exact Hrow3.
  - congruence.
  - congruence.
  - by rewrite Hf2, Hf3, Hf1.
Qed.
End worker.
