(* ===== verification/Reads.v ===== *)
(** * Reading images

    Models [src/src/application/use_cases/get_image.py] and
    [src/src/application/use_cases/list_images.py]. *)

From S2P Require Import Prelude PyText PyUuid Prog Domain Database Cache World Ports.
Local Open Scope Z_scope.

Module GetImage.
Section use_case.
Context (repository : ImageRepository) (storage : ImageStorage).

Definition execute (image_id : Z) : coro (option ImageResponse) :=
  image ← repo_get_by_id repository image_id;
  match image with
  | None => mret None
  | Some l => i ← deref l; mret (Some (to_response i))
  end.

Definition get_file (image_id : Z) (thumbnail : bool) : coro (option pybytes) :=
  image ← repo_get_by_id repository image_id;
  match image with
  | None => mret None
  | Some l =>
      i ← deref l;
      match (if thumbnail then img_thumbnail_path i else Some (img_original_path i)) with
      | None => mret None
      | Some path => data ← st_retrieve storage path; mret (Some data)
      end
  end.

End use_case.
End GetImage.

Module ListImages.
Section use_case.
Context (repository : ImageRepository).

Definition execute (offset limit : Z) (status : option pystr) : coro ImageListResponse :=
  images ← repo_list_images repository offset limit status;
  total ← repo_count repository status;
  mret (MkListResponse (map to_response images) total offset limit).

End use_case.
End ListImages.

(** ** What the reads return *)

(** The row of an image, as an entity. *)
Definition row_entity (id : Z) (d : db) : option Image :=
  m ← db_images d !! id;
  match model_to_entity m with Ok i => Some i | Exn _ => None end.

(** Nothing changes that another request can see: the cache may fill. *)
Definition read_only (w w' : world) : Prop := w_db w' = w_db w ∧ repo_frame w w'.

(** The file a download asks for. *)
Definition file_path (thumbnail : bool) (i : Image) : option pystr :=
  if thumbnail then img_thumbnail_path i else Some (img_original_path i).

Section reads.
Context `{PyTables, Postgres, !RepoLaws repository, !StorageLaws storage}.

Lemma wp_lookup id (Q : outcome (option loc) → world → Prop) w :
  world_ok w → repo_coh id w →
  (∀ o w', read_only w w' →
     match o with
     | Ok (Some l) => ∃ i, w_heap w' !! l = Some i ∧ row_entity id (w_db w) = Some i
     | Ok None => row_entity id (w_db w) = None
     | Exn e => injects w OpGet e
     end → Q o w') →
  wp (repo_get_by_id repository id) Q w.
Proof.
  intros Hok Hcoh HQ. eapply wp_mono; [by apply repo_get_law|].
  intros o w' (Ho & Hd & Hf & _). apply HQ; [done|]. unfold row_entity.
  destruct o as [[l|]|e]; [|by rewrite Ho|done].
  destruct Ho as (i & m & Hl & Hm & Hi). exists i. split; [done|]. rewrite Hm. cbn. by rewrite Hi.
Qed.

Lemma read_only_storage w w1 w2 :
  read_only w w1 → storage_frame w1 w2 → w_fs w2 = w_fs w1 → read_only w w2.
Proof.
  intros [Hd Hf] (Hh & Hd2 & Hl & Hc & Hq & Ht & He) Hfs. split; [congruence|].
  etrans; [exact Hf|]. split_and!; try done; [by rewrite Hh|]. by apply world_ok_same.
Qed.

(** Reading an image answers with what its row says, and [None] exactly
    when there is no row; it raises only when the database does, and changes
    nothing but the cache. *)
Theorem get_image_faithful (id : Z) (w : world) :
  world_ok w → repo_coh id w →
  wp (GetImage.execute repository id)
    (λ o w', read_only w w' ∧
             match o with
             | Ok r => r = to_response <$> row_entity id (w_db w)
             | Exn e => injects w OpGet e
             end) w.
Proof.
  intros Hok Hcoh. apply wp_bind, wp_lookup; [done..|]. intros [[l|]|e] w1 Hr Ho; [|by rewrite Ho|done].
  destruct Ho as (i & Hl & ->). apply wp_bind. eapply wp_deref; [exact Hl|]. by apply wp_ret.
Qed.

(** Downloading.  The bytes returned are the contents of the file the row
    names; [None] is returned exactly when there is no row, or no thumbnail yet;
    a row whose file is missing is the error [FileNotFoundError], never an
    empty answer. *)
Theorem get_file_faithful (id : Z) (thumbnail : bool) (w : world) :
  world_ok w → repo_coh id w →
  wp (GetImage.get_file repository storage id thumbnail)
    (λ o w', read_only w w' ∧
             let path := row_entity id (w_db w) ≫= file_path thumbnail in
             match o with
             | Ok None => path = None
             | Ok (Some data) => ∃ p, path = Some p ∧ w_fs w !! p = Some data
             | Exn e => injects w OpGet e ∨
                        ∃ p, path = Some p ∧
                             (e = EFileNotFound p ∧ w_fs w !! p = None ∨ injects w OpRetrieve e)
             end) w.
Proof.
  intros Hok Hcoh. apply wp_bind, wp_lookup; [done..|].
  intros [[l|]|e] w1 Hr Ho; [|by rewrite Ho|by split; [|left]].
  destruct Ho as (i & Hl & ->). apply wp_bind. eapply wp_deref; [exact Hl|]. cbn [mbind option_bind].
  change (if thumbnail then _ else _) with (file_path thumbnail i).
  destruct (file_path thumbnail i) as [p|]; [|done]. apply wp_bind.
  eapply wp_mono; [apply st_retrieve_law|]. pose proof Hr as [_ (_ & _ & Hfs & _ & _ & He & _)].
  intros [data|e] w2 (Hf2 & Hfs2 & Ho); (split; [by eapply read_only_storage|]).
  - exists p. split; [done|]. by rewrite <- Hfs.
  - right. exists p. split; [done|]. destruct Ho as [[-> Hn]|Hi]; [left|right; by eapply injects_env].
    split; [done|]. by rewrite <- Hfs.
Qed.
End reads.

Section listing.
Context `{PyTables, Postgres, !RepoLaws repository}.

(** The rows of a window. *)
Definition window (n : nat) (offset limit : Z) (status : option pystr) (d : db) : list ImageModel :=
  take (Z.to_nat limit) (drop (Z.to_nat offset) (list_query n status d)).

Lemma list_query_status n status d :
  db_ok d → Forall (λ m, is_Some (status_of (m_status m))) (list_query n status d).
Proof.
  intros [Hok _]. apply Forall_forall. intros m Hm. rewrite list_query_perm in Hm.
  apply list_elem_of_filter in Hm as [_ [id Hid]%scan_elem].
  by destruct (map_Forall_lookup_1 _ _ _ _ Hok Hid) as (_ & _ & ?).
Qed.

(** The page of entities, or the complaint about the window. *)
Lemma list_txn_entities n offset limit status d :
  db_ok d →
  match to_entities (list_txn n offset limit status d) with
  | Ok (es, d') =>
      d' = d ∧ 0 ≤ offset ∧ 0 ≤ limit ∧
      Forall2 (λ m e, model_to_entity m = Ok e) (window n offset limit status d) es
  | Exn _ => offset < 0 ∨ limit < 0
  end.
Proof.
  intros Hok. destruct (decide (offset < 0 ∨ limit < 0)) as [Hneg|Hpos].
  - unfold list_txn, sql_window. rewrite (proj2 (orb_true_iff _ _)); [exact Hneg|].
    destruct Hneg; [left|right]; by apply Z.ltb_lt.
  - rewrite list_txn_window by lia. cbn.
    destruct (models_to_entities_total (window n offset limit status d)) as (es & E & Hes).
    { apply Forall_take, Forall_drop, list_query_status, Hok. }
    unfold window in *. rewrite E. split_and!; [done|lia|lia|done].
Qed.

(** Listing.  The answer holds the rows of its window in the order of the
    query (newest first, those with the status asked for), the total number of
    such rows, and the window asked for; so a page is short only at the end:
    it has [min limit (total - offset)] images.  Only a negative window or a
    failure of the database raises, and nothing changes. *)
Theorem list_images_window (offset limit : Z) (status : option pystr) (w : world) :
  world_ok w →
  wp (ListImages.execute repository offset limit status)
    (λ o w', w_db w' = w_db w ∧ same_but_db w w' ∧
       match o with
       | Ok r => ∃ n,
           0 ≤ offset ∧ 0 ≤ limit ∧ lr_offset r = offset ∧ lr_limit r = limit ∧
           Forall2 (λ m x, ∃ i, model_to_entity m = Ok i ∧ x = to_response i)
             (window n offset limit status (w_db w)) (lr_images r) ∧
           lr_total r = Z.of_nat (length (matching status (w_db w))) ∧
           Z.of_nat (length (lr_images r)) = Z.min limit (Z.max 0 (lr_total r - offset))
       | Exn e => offset < 0 ∨ limit < 0 ∨ injects w OpList e ∨ injects w OpCount e
       end) w.
Proof.
  intros [Hdb _]. apply wp_bind. eapply wp_mono; [apply repo_list_law|]. intros o w1 (n & Ht & Hs1).
  pose proof (list_txn_entities n offset limit status (w_db w) Hdb) as Hes.
  assert (w_db w1 = w_db w) as Hd1.
  { apply (txn_result_keeps id _ _ _ _ _ ltac:(intros a d' E; rewrite E in Hes; by apply Hes) Ht). }
  destruct o as [es|e].
  2:{ split_and!; [done..|]. apply txn_result_Exn in Ht as [E|Hi]; [|by right; right; left].
      rewrite E in Hes. destruct Hes; [by left|by right; left]. }
  apply txn_result_Ok in Ht. rewrite Ht in Hes. destruct Hes as (_ & Ho & Hl & Hes).
  apply wp_bind. eapply txn_post_mono; [apply repo_count_law|]. intros o w2 Ht2 Hs2.
  assert (w_db w2 = w_db w) as Hd2.
  { rewrite <- Hd1. refine (txn_result_keeps id _ _ _ _ _ _ Ht2). intros a d'. by intros [= _ <-]. }
  assert (same_but_db w w2) as Hs by (unfold same_but_db in *; intuition congruence).
  destruct o as [total|e].
  2:{ split_and!; [done..|]. apply txn_result_Exn in Ht2 as [E|Hi]; [done|].
      right; right; right. eapply injects_env; [apply Hs1|exact Hi]. }
  apply txn_result_Ok in Ht2. rewrite Hd1 in Ht2. injection Ht2 as <- _.
  apply wp_ret. split_and!; [done..|]. exists n. split_and!; [done..| |done|].
  - cbn [lr_images]. apply Forall2_fmap_r. eapply Forall2_impl; [exact Hes|]. eauto.
  - cbn [lr_images lr_total]. rewrite length_map, <- (Forall2_length _ _ _ Hes). unfold window.
    rewrite length_take, length_drop, list_query_matching. unfold matching. lia.
Qed.
End listing.
