(* ===== verification/Retention.v ===== *)
(** * Retention sweeps

    Models [src/src/application/use_cases/apply_retention.py]: delete a batch of
    expired rows, then their files, counting the images whose files could not
    be deleted. *)

From S2P Require Import Prelude PyText Prog Domain Database Cache World Ports.
Local Open Scope Z_scope.

Record RetentionResult := MkRetention {
  deleted_count : Z;
  errors : Z
}.

Module ApplyRetention.
Section use_case.
Context (repository : ImageRepository) (storage : ImageStorage).

(** The body of the loop's [try]: [if image.thumbnail_path] also skips [""]. *)
Definition delete_files (image : Image) : coro unit :=
  _ ← st_delete storage (img_original_path image);
  match img_thumbnail_path image with
  | Some (c :: p) => _ ← st_delete storage (c :: p); mret tt
  | _ => mret tt
  end.

(** The loop, with its counter. *)
Fixpoint clean_up (images : list Image) (errors : Z) : coro Z :=
  match images with
  | [] => mret errors
  | image :: images' =>
      errors' ← except_if is_os_error (delete_files image;; mret errors) (λ _, mret (errors + 1));
      clean_up images' errors'
  end.

Definition execute (batch_size : Z) : coro RetentionResult :=
  deleted_images ← repo_delete_expired_batch repository batch_size;
  errors ← clean_up deleted_images 0;
  mret (MkRetention (Z.of_nat (length deleted_images)) errors).

End use_case.
End ApplyRetention.

(** ** The files of an image *)

Definition image_files (i : Image) : list pystr :=
  img_original_path i ::
  match img_thumbnail_path i with Some (c :: p) => [c :: p] | _ => [] end.

(** Files of [gone] may have been deleted, and no other file has changed. *)
Definition only_removed (gone : list pystr) (fs fs' : gmap pystr pybytes) : Prop :=
  ∀ p, fs' !! p = fs !! p ∨ (fs' !! p = None ∧ p ∈ gone).

Lemma only_removed_refl gone fs : only_removed gone fs fs.
Proof. intros p. by left. Qed.

Lemma only_removed_trans gone1 gone2 fs1 fs2 fs3 :
  only_removed gone1 fs1 fs2 → only_removed gone2 fs2 fs3 → only_removed (gone1 ++ gone2) fs1 fs3.
Proof.
  intros H1 H2 p. destruct (H2 p) as [->|[-> ?]]; [|right; set_solver].
  destruct (H1 p) as [->|[-> ?]]; [by left|right; set_solver].
Qed.

Lemma only_removed_mono gone1 gone2 fs fs' :
  (∀ p, p ∈ gone1 → p ∈ gone2) → only_removed gone1 fs fs' → only_removed gone2 fs fs'.
Proof. intros Hsub H1 p. destruct (H1 p) as [|[]]; [by left|right; auto]. Qed.

Lemma only_removed_delete p fs : only_removed [p] fs (delete p fs).
Proof.
  intros q. destruct (decide (q = p)) as [->|]; [right|left; by rewrite lookup_delete_ne].
  split; [apply lookup_delete_eq|set_solver].
Qed.

(** ** What a clean-up does *)

Section reference.
Context (storage : ImageStorage).

(** Deleting files one after the other, up to the first that raises. *)
Inductive deletions : list pystr → world → outcome unit → world → Prop :=
| deletions_done w : deletions [] w (Ok tt) w
| deletions_step p ps w b w1 o w2 :
    run (st_delete storage p) w = (Ok b, w1) → deletions ps w1 o w2 → deletions (p :: ps) w o w2
| deletions_raise p ps w e w1 :
    run (st_delete storage p) w = (Exn e, w1) → deletions (p :: ps) w (Exn e) w1.

(** Image after image: those of which a deletion raised an [OSError] have
    [failed], the files of the others were all deleted. *)
Inductive cleaning : list Image → world → list Image → world → Prop :=
| cleaning_done w : cleaning [] w [] w
| cleaning_clean i images w w1 failed w2 :
    deletions (image_files i) w (Ok tt) w1 → cleaning images w1 failed w2 →
    cleaning (i :: images) w failed w2
| cleaning_failed i images w e w1 failed w2 :
    deletions (image_files i) w (Exn e) w1 → is_os_error e = true → cleaning images w1 failed w2 →
    cleaning (i :: images) w (i :: failed) w2.
End reference.

(** The files of all the images. *)
Definition all_files (images : list Image) : list pystr := concat (map image_files images).

(** No other process deletes a file that this one is about to delete. *)
Definition undisturbed (w : world) : Prop := ∀ q, ¬ injects w OpRemove (EFileNotFound q).

Section files.
Context `{!StorageLaws storage}.

(** One deletion: no other file changes; without an error the file is gone. *)
Lemma remove_run p o w w' :
  run (st_delete storage p) w = (o, w') →
  storage_frame w w' ∧ only_removed [p] (w_fs w) (w_fs w') ∧
  match o with Ok _ => undisturbed w → w_fs w' !! p = None | Exn e => injects w OpRemove e end.
Proof.
  intros E. pose proof (st_delete_law p w) as Hlaw. unfold wp in Hlaw. rewrite E in Hlaw. cbn [fst snd] in Hlaw.
  assert (∀ fs', fs' = delete p (w_fs w) → only_removed [p] (w_fs w) fs' ∧ fs' !! p = None) as Hdel.
  { intros fs' ->. split; [apply only_removed_delete|apply lookup_delete_eq]. }
  destruct Hlaw as [Hf Ho]. destruct o as [b|e].
  - destruct Ho as [Hb [Hd%Hdel|[Hfalse Hd]]]; [by destruct Hd|]. rewrite Hd.
    split_and!; [done|apply only_removed_refl|]. intros Hu. destruct Hb as [Hb|[_ [q Hi]]]; [|by destruct (Hu q)].
    rewrite Hfalse in Hb. symmetry in Hb. apply bool_decide_eq_false in Hb. by apply eq_None_not_Some.
  - destruct Ho as [Hi Ho]. split_and!; [done| |done].
    destruct Ho as [->|Hd%Hdel]; [apply only_removed_refl|apply Hd].
Qed.

Lemma only_removed_none gone fs fs' p : only_removed gone fs fs' → fs !! p = None → fs' !! p = None.
Proof. intros Ho Hp. by destruct (Ho p) as [->|[-> _]]. Qed.

Lemma undisturbed_env w w' : w_env w' = w_env w → undisturbed w → undisturbed w'.
Proof. intros E Hu q Hi. by apply (Hu q), (injects_env w w'). Qed.

Lemma deletions_facts ps w o w' :
  deletions storage ps w o w' →
  storage_frame w w' ∧ only_removed ps (w_fs w) (w_fs w') ∧
  match o with
  | Ok _ => undisturbed w → ∀ p, p ∈ ps → w_fs w' !! p = None
  | Exn e => injects w OpRemove e
  end.
Proof.
  induction 1 as [w|p ps w b w1 o w2 E _ (Hf2 & Ho2 & H2)|p ps w e w1 E].
  - split_and!; [done|apply only_removed_refl|]. intros _ p Hp. by apply elem_of_nil in Hp.
  - apply remove_run in E as (Hf1 & Ho1 & H1). assert (w_env w1 = w_env w) as He by apply Hf1.
    split_and!; [by etrans|by eapply (only_removed_trans [p])|]. destruct o as [x|e]; [|by eapply injects_env].
    intros Hu q [->|Hq]%elem_of_cons; [by eapply only_removed_none; [|apply H1]|].
    by apply H2; [eapply undisturbed_env|].
  - apply remove_run in E as (Hf1 & Ho1 & H1). split_and!; [done| |done].
    eapply only_removed_mono; [|exact Ho1]. set_solver.
Qed.

Lemma cleaning_facts images w failed w' :
  cleaning storage images w failed w' →
  storage_frame w w' ∧ only_removed (all_files images) (w_fs w) (w_fs w') ∧ sublist failed images ∧
  (reliable w OpRemove → failed = []) ∧
  (undisturbed w → ∀ i, i ∈ images → i ∉ failed → ∀ p, p ∈ image_files i → w_fs w' !! p = None).
Proof.
  induction 1 as [w|i images w w1 failed w2 Hd _ IH|i images w e w1 failed w2 Hd Hx _ IH].
  - split_and!; [done|apply only_removed_refl|constructor|done|]. intros _ i Hi. by apply elem_of_nil in Hi.
  - apply deletions_facts in Hd as (Hf1 & Ho1 & H1). destruct IH as (Hf2 & Ho2 & Hs & Hr & Hg).
    assert (w_env w1 = w_env w) as He by apply Hf1.
    split_and!; [by etrans|by eapply only_removed_trans|by constructor| |].
    + intros Hrel. by eapply Hr, reliable_env.
    + intros Hu j [->|Hj]%elem_of_cons Hn p Hp; [by eapply only_removed_none; [|apply H1]|].
      eapply Hg; [by eapply undisturbed_env|done..].
  - apply deletions_facts in Hd as (Hf1 & Ho1 & H1). destruct IH as (Hf2 & Ho2 & Hs & Hr & Hg).
    assert (w_env w1 = w_env w) as He by apply Hf1.
    split_and!; [by etrans|by eapply only_removed_trans|by constructor| |].
    + intros Hrel. by apply reliable_no_inject in H1.
    + intros Hu j [->|Hj]%elem_of_cons Hn p Hp; [set_solver|].
      eapply Hg; [by eapply undisturbed_env|done|set_solver|done].
Qed.

(** The use case's loop deletes as the reference does. *)
Lemma wp_delete_files i (Q : outcome unit → world → Prop) w :
  (∀ o w', deletions storage (image_files i) w o w' → Q o w') →
  wp (ApplyRetention.delete_files storage i) Q w.
Proof.
  intros HQ. unfold ApplyRetention.delete_files, image_files in *. apply wp_bind. unfold wp at 1.
  destruct (run (st_delete storage (img_original_path i)) w) as [[b|e] w1] eqn:E1;
    cbn [fst snd]; [|by eapply HQ, deletions_raise].
  destruct (img_thumbnail_path i) as [[|c p]|];
    [by eapply HQ, deletions_step, deletions_done| |by eapply HQ, deletions_step, deletions_done].
  apply wp_bind. unfold wp at 1. destruct (run (st_delete storage (c :: p)) w1) as [[b'|e] w2] eqn:E2; cbn [fst snd].
  - apply wp_ret. by eapply HQ, deletions_step, deletions_step, deletions_done.
  - by eapply HQ, deletions_step, deletions_raise.
Qed.

(** Only what [os.remove] raises and is not an [OSError] ends the loop early. *)
Lemma wp_clean_up images n (Q : outcome Z → world → Prop) w :
  (∀ failed w', cleaning storage images w failed w' → Q (Ok (n + Z.of_nat (length failed))) w') →
  (∀ e w', storage_frame w w' → only_removed (all_files images) (w_fs w) (w_fs w') →
           injects w OpRemove e → is_os_error e = false → Q (Exn e) w') →
  wp (ApplyRetention.clean_up storage images n) Q w.
Proof.
  revert n w. induction images as [|i images IH]; intros n w HQ HE; cbn [ApplyRetention.clean_up].
  { apply wp_ret. replace n with (n + Z.of_nat (length ([] : list Image))) by (cbn; lia).
    apply HQ. constructor. }
  apply wp_bind, wp_except_if, wp_bind, wp_delete_files. intros o w1 Hd.
  pose proof (deletions_facts _ _ _ _ Hd) as (Hf1 & Ho1 & H1).
  assert (∀ n1, (∀ failed w', cleaning storage images w1 failed w' → Q (Ok (n1 + Z.of_nat (length failed))) w') →
    wp (ApplyRetention.clean_up storage images n1) Q w1) as Hrest.
  { intros n1 HQ1. apply IH; [done|]. intros e w2 Hf2 Ho2 Hi Hx. apply HE; [by etrans| | |done].
    - by eapply only_removed_trans.
    - eapply injects_env; [apply Hf1|done]. }
  destruct o as [[]|e].
  - apply wp_ret, Hrest. intros failed w' Hc. by eapply HQ, cleaning_clean.
  - destruct (is_os_error e) eqn:Hx.
    + apply wp_ret, Hrest. intros failed w' Hc.
      replace (n + 1 + Z.of_nat (length failed)) with (n + Z.of_nat (length (i :: failed))) by (cbn; lia).
      by eapply HQ, cleaning_failed.
    + apply HE; [done| |done|done]. eapply only_removed_mono; [|exact Ho1]. unfold all_files. set_solver.
Qed.
End files.

(** ** A sweep *)

Section sweep.
Context `{PyTables, Postgres, !RepoLaws repository, !StorageLaws storage}.

(** The images a sweep deletes at the time [now]: rows that have expired by
    then and that no other sweep has locked, at most [batch] of them, all
    different, and all there are if they are fewer; the new tables are the old
    ones without those rows. *)
Definition swept (now batch : Z) (locked : gset Z) (images : list Image) (d d' : db) : Prop :=
  Z.of_nat (length images) ≤ batch ∧ NoDup (img_id <$> images) ∧
  (∀ i, i ∈ images → ∃ m e, db_images d !! img_id i = Some m ∧ model_to_entity m = Ok i ∧
                            img_id i ∉ locked ∧ m_expires_at m = Some e ∧ e ≤ now) ∧
  (Z.of_nat (length images) < batch → ∀ id m e,
     db_images d !! id = Some m → m_expires_at m = Some e → e ≤ now → id ∉ locked →
     id ∈ img_id <$> images) ∧
  (∀ id, db_images d' !! id = if decide (id ∈ img_id <$> images) then None else db_images d !! id) ∧
  db_keys d' = db_keys d.

Lemma swept_sweep n now batch locked images d d' :
  db_ok d → to_entities (sweep_txn n now batch locked d) = Ok (images, d') →
  swept now batch locked images d d'.
Proof.
  intros Hok (models & Hs & Hes)%to_entities_Ok.
  pose proof (sweep_txn_inv _ _ _ _ _ _ _ Hs) as (_ & _ & Hk & Hl).
  pose proof (sweep_txn_rows _ _ _ _ _ _ _ Hok Hs) as (Hlen & Hnd & Hrows).
  assert (img_id <$> images = m_id <$> models) as Hids.
  { clear -Hes. induction Hes as [|m i ms es Hi _ IH]; [done|]. cbn. by rewrite IH, (model_to_entity_id _ _ Hi). }
  unfold swept. rewrite Hids, <- (Forall2_length _ _ _ Hes). split_and!; [done..| | |done|done].
  - intros i Hi. apply list_elem_of_lookup in Hi as [k Hk'].
    destruct (Forall2_lookup_r _ _ _ _ _ Hes Hk') as (m & Hm & Hmi).
    apply list_elem_of_lookup_2 in Hm. destruct (Hrows m Hm) as (Hx & Hlk & Hrow).
    unfold expired_where in Hx. destruct (m_expires_at m) as [e|] eqn:He; [|done]. zbool.
    exists m, e. rewrite (model_to_entity_id _ _ Hmi). by split_and!.
  - intros Hlt id m e Hid He Hle Hn. eapply sweep_txn_complete; [exact Hok|exact Hs|done|exact Hid| |done].
    unfold expired_where. rewrite He. by apply Z.leb_le.
Qed.

Lemma sweep_raises n now batch locked d e :
  db_ok d → to_entities (sweep_txn n now batch locked d) = Exn e → batch < 0.
Proof.
  intros Hok. unfold sweep_txn, sql_window. cbn [orb]. change (0 <? 0) with false. cbn [orb].
  destruct (batch <? 0) eqn:Hb; zbool; [done|]. cbn [mbind outcome_bind to_entities]. rewrite drop_0.
  set (ms := take _ _). destruct (models_to_entities_total ms) as (es & -> & _); [|done].
  apply Forall_take, Forall_forall. intros m [_ [_ [id Hid]]%expired_query_elem]%list_elem_of_filter.
  destruct Hok as [Hok _]. by destruct (map_Forall_lookup_1 _ _ _ _ Hok Hid) as (_ & _ & ?).
Qed.

(** C34: a retention sweep.  The images deleted are, at an instant [now] of the
    sweep, expired, at most [batch_size], and all that have expired and are not
    locked if they are fewer; the other rows and all keys stay.  Then their
    files are deleted, one after the other as [cleaning] says; only files of
    deleted images are ever gone.  The answer counts the deleted images and,
    exactly, those of which a file deletion raised an [OSError]: none if
    [os.remove] works; no file is left of any other deleted image.  A failure
    of the database, and an error of [os.remove] other than an [OSError],
    raise. *)
Theorem retention_sweep (batch_size : Z) (w : world) :
  world_ok w →
  wp (ApplyRetention.execute repository storage batch_size)
    (λ o w', world_ok w' ∧ w_queues w' = w_queues w ∧ ∃ images t,
       let now := e_now (w_env w) t in
       (w_tick w ≤ t)%nat ∧
       (swept now batch_size (w_locked w) images (w_db w) (w_db w') ∨ images = [] ∧ w_db w' = w_db w) ∧
       only_removed (all_files images) (w_fs w) (w_fs w') ∧
       match o with
       | Ok r => ∃ w1 failed,
           swept now batch_size (w_locked w) images (w_db w) (w_db w') ∧ (t < w_tick w1)%nat ∧
           w_fs w1 = w_fs w ∧ w_env w1 = w_env w ∧ cleaning storage images w1 failed w' ∧
           deleted_count r = Z.of_nat (length images) ∧ errors r = Z.of_nat (length failed) ∧
           sublist failed images ∧ (reliable w OpRemove → failed = []) ∧
           (undisturbed w → ∀ i, i ∈ images → i ∉ failed → ∀ p, p ∈ image_files i → w_fs w' !! p = None)
       | Exn e => batch_size < 0 ∨ injects w OpSweep e ∨ (injects w OpRemove e ∧ is_os_error e = false)
       end) w.
Proof.
  intros Hok. apply wp_bind. eapply wp_mono; [by apply repo_sweep_law|].
  intros o w1 ((n & t & [Hle Hlt] & Ht) & _ & (_ & _ & Hfs & Hq & _ & He & Hok1) & _). specialize (Hok1 Hok).
  remember (w_db w1) as d1 eqn:Hd1. destruct Ht as [images d E|e E|e Hi|e images d E Hi _].
  - rewrite Hd1 in E. pose proof (swept_sweep _ _ _ _ _ _ _ (proj1 Hok) E) as Hsw.
    apply wp_bind, wp_clean_up.
    + intros failed w2 Hc. apply wp_ret. pose proof (cleaning_facts _ _ _ _ Hc) as (Hf2 & Ho2 & Hs2 & Hr2 & Hg2).
      assert (w_db w2 = w_db w1) as Hd2 by apply Hf2.
      rewrite <- Hfs. split_and!; [by eapply world_ok_same; [..|exact Hok1]; apply Hf2| |].
      { etrans; [apply Hf2|exact Hq]. }
      exists images, t. rewrite Hd2. split_and!; [done|by left|done|]. exists w1, failed.
      split_and!; try done; [intros Hr; by eapply Hr2, reliable_env|intros Hu; by eapply Hg2, undisturbed_env].
    + intros e w2 Hf2 Ho2 Hi Hx. assert (w_db w2 = w_db w1) as Hd2 by apply Hf2.
      rewrite <- Hfs. split_and!; [by eapply world_ok_same; [..|exact Hok1]; apply Hf2| |].
      { etrans; [apply Hf2|exact Hq]. }
      exists images, t. rewrite Hd2. split_and!; [done|by left|done|].
      right; right. split; [by eapply injects_env|done].
  - split_and!; [done|done|]. exists [], t. rewrite Hfs. split_and!; [done|by right|apply only_removed_refl|].
    left. eapply sweep_raises; [apply Hok|exact E].
  - split_and!; [done|done|]. exists [], t. rewrite Hfs.
    split_and!; [done|by right|apply only_removed_refl|by right; left].
  - rewrite Hd1 in E. split_and!; [done|done|]. exists images, t. rewrite Hfs.
    split_and!; [done| |apply only_removed_refl|by right; left]. left.
    eapply swept_sweep; [apply Hok|rewrite Hd1; exact E].
Qed.
End sweep.
