(* ===== verification/Schemas.v ===== *)
(** * The schemas of the API

    Models [src/src/presentation/schemas/image_schemas.py]: what a response holds
    of the result of a use case ([from_attributes] reads the attributes of the
    schema's fields), and the constraints of the request schemas. *)

From S2P Require Import Prelude PyText Prog Domain Retention.
Local Open Scope Z_scope.

(** ** Constraints *)

Definition within (lo hi z : Z) : bool := (lo <=? z) && (z <=? hi).
Definition size_within {A} (lo hi : Z) (l : list A) : bool := within lo hi (Z.of_nat (length l)).
Definition opt_within (lo hi : Z) (o : option Z) : bool := match o with None => true | Some z => within lo hi z end.

(** ** Requests *)

Record ImageUploadParams := MkUploadParams { params_tags : list pystr; params_ttl_hours : option Z }.

(** [Field(max_length=20)], [Field(ge=1, le=8760)] *)
Definition upload_params_valid (p : ImageUploadParams) : bool :=
  size_within 0 20 (params_tags p) && opt_within 1 8760 (params_ttl_hours p).

Record BatchProcessRequest := MkBatchRequest {
  image_ids : list Z;
  concurrency : Z
}.

(** [Field(min_length=1, max_length=100)], [Field(ge=1, le=32)] *)
Definition batch_request_ok (body : BatchProcessRequest) : bool :=
  size_within 1 100 (image_ids body) && within 1 32 (concurrency body).

(** The default of [concurrency]. *)
Definition batch_request (image_ids : list Z) (concurrency : option Z) : BatchProcessRequest :=
  MkBatchRequest image_ids (default 8 concurrency).

(** ** Responses *)

Record ImageOut := MkImageOut {
  out_id : Z;
  out_filename : pystr;
  out_status : pystr;
  out_width : option Z;
  out_height : option Z;
  out_format : option pystr;
  out_size_bytes : option Z;
  out_tags : list pystr;
  out_created_at : Z;
  out_updated_at : Z;
  out_expires_at : option Z;
  out_thumbnail_available : bool
}.

Definition image_out (r : ImageResponse) : ImageOut := {|
  out_id := resp_id r;
  out_filename := resp_filename r;
  out_status := resp_status r;
  out_width := resp_width r;
  out_height := resp_height r;
  out_format := resp_format r;
  out_size_bytes := resp_size_bytes r;
  out_tags := resp_tags r;
  out_created_at := resp_created_at r;
  out_updated_at := resp_updated_at r;
  out_expires_at := resp_expires_at r;
  out_thumbnail_available := resp_thumbnail_available r
|}.

Record ImageListOut := MkImageListOut {
  out_images : list ImageOut;
  out_total : Z;
  out_offset : Z;
  out_limit : Z
}.

Definition image_list_out (r : ImageListResponse) : ImageListOut :=
  MkImageListOut (image_out <$> lr_images r) (lr_total r) (lr_offset r) (lr_limit r).

Record BatchProcessResponse := MkBatchResponse { success : Z; failed : Z }.

(** The dict [{'success': ..., 'failed': ...}] of the pipeline. *)
Definition batch_response (result : Z * Z) : BatchProcessResponse := MkBatchResponse result.1 result.2.

Record RetentionResponse := MkRetentionResponse { rr_deleted_count : Z; rr_errors : Z }.

Definition retention_response (r : RetentionResult) : RetentionResponse :=
  MkRetentionResponse (deleted_count r) (errors r).

(** ** Nothing of a response is lost *)

#[export] Instance image_out_inj : Inj (=) (=) image_out.
Proof. intros [] [] [=]. by subst. Qed.

#[export] Instance image_list_out_inj : Inj (=) (=) image_list_out.
Proof.
  intros [l1 t1 o1 m1] [l2 t2 o2 m2]. unfold image_list_out. cbn. intros E. injection E as El -> -> ->.
  by apply (inj (fmap image_out)) in El as ->.
Qed.

Lemma retention_response_inj : Inj (=) (=) retention_response.
Proof. intros [] [] [=]. by subst. Qed.

(** The constraints on a batch bound the work of a request. *)
Lemma batch_request_ok_bounds body :
  batch_request_ok body = true → 1 ≤ Z.of_nat (length (image_ids body)) ≤ 100 ∧ 1 ≤ concurrency body ≤ 32.
Proof. unfold batch_request_ok, size_within, within. intros Hb. zbool. lia. Qed.
