(* ===== verification/Processing.v ===== *)
(** * Image validation and the processors

    Models [src/src/infrastructure/processing]: [image_validator.py], the two
    processors ([pillow_processor.py], [cpp_processor.py]), their process pool
    and [factory.py].  Pillow is the class [Pillow]; what is assumed of it is in
    [PillowLaws].  The compiled resize module is the record [FastResize] with
    its promise [FastResizeLaws]: [Kernel.v] is the module and [Resampling.v]
    shows that it keeps the promise. *)

From S2P Require Import Prelude PyText Prog Domain Database World Ports.
Local Open Scope Z_scope.

(** ** Pillow *)

(** An opened image; [pil_open limit data] is [Image.open] while
    [MAX_IMAGE_PIXELS] is [limit]. *)
Class Pillow := {
  pil_image : Type;
  pil_open : Z → pybytes → outcome pil_image;
  pil_format : pil_image → option pystr;
  pil_mode : pil_image → pystr;
  pil_size : pil_image → Z * Z;
  pil_bands : pil_image → list pystr;
  pil_verify : pil_image → outcome unit;
  pil_load : pil_image → outcome unit;
  pil_thumbnail : Z * Z → pil_image → outcome pil_image;
  pil_convert : pystr → pil_image → outcome pil_image;
  pil_save : pystr → pil_image → outcome pybytes;
  pil_tobytes : pil_image → outcome pybytes;
  pil_frombytes : pystr → Z * Z → pybytes → outcome pil_image;
  (** [MAX_IMAGE_PIXELS] in a process that does not assign it. *)
  pil_default_limit : Z
}.

Definition pixels `{Pillow} (img : pil_image) : Z := (pil_size img).1 * (pil_size img).2.

(** Documented: [open] raises [DecompressionBombError] for more than twice the
    limit; [thumbnail] fits the image into the box and keeps its format;
    [frombytes] makes an image of the size given. *)
Class PillowLaws `{Pillow} : Prop := {
  pil_open_limit limit data img : pil_open limit data = Ok img → pixels img ≤ 2 * limit;
  pil_open_size limit data img :
    pil_open limit data = Ok img → 1 ≤ (pil_size img).1 ∧ 1 ≤ (pil_size img).2;
  pil_open_mono limit limit' data img :
    pil_open limit data = Ok img → pixels img ≤ 2 * limit' → pil_open limit' data = Ok img;
  pil_open_bomb limit limit' data img :
    pil_open limit data = Ok img → 2 * limit' < pixels img →
    ∃ m, pil_open limit' data = Exn (EDecompressionBomb m);
  pil_thumbnail_fits box img img' :
    1 ≤ box.1 → 1 ≤ box.2 → pil_thumbnail box img = Ok img' →
    1 ≤ (pil_size img').1 ≤ box.1 ∧ 1 ≤ (pil_size img').2 ≤ box.2;
  pil_thumbnail_format box img img' : pil_thumbnail box img = Ok img' → pil_format img' = pil_format img;
  pil_convert_size mode img img' : pil_convert mode img = Ok img' → pil_size img' = pil_size img;
  pil_frombytes_size mode size data img : pil_frombytes mode size data = Ok img → pil_size img = size
}.

(** ** Validation *)

Definition ALLOWED_FORMATS : list pystr := [lit "JPEG"; lit "PNG"; lit "WEBP"; lit "TIFF"].
Definition MAX_IMAGE_PIXELS : Z := 100000000.

Section validator.
Context `{PyTables, Pillow}.

(** [(img.format or "").upper()] *)
Definition format_upper (img : pil_image) : pystr := py_upper (default [] (pil_format img)).

(** The [except] clauses. *)
Definition invalid_image (e : exn) : exn :=
  match e with
  | EInvalidImage _ => e
  | EDecompressionBomb m => EInvalidImage (lit "Image exceeds pixel limit: " ++ m)
  | _ => if is_exception e then EInvalidImage (lit "Invalid or corrupt image file: " ++ exn_str e) else e
  end.

(** The body of the [try]; the state is Pillow's [MAX_IMAGE_PIXELS]. *)
Definition inspect (allowed_formats : list pystr) (data : pybytes) : prog Z unit :=
  modify (λ _, MAX_IMAGE_PIXELS);;
  limit ← gets id;
  img ← lift (pil_open limit data);
  let fmt := format_upper img in
  if bool_decide (fmt ∈ allowed_formats) then
    lift (pil_verify img);;
    limit ← gets id;
    img ← lift (pil_open limit data);
    lift (pil_load img)
  else raise (EInvalidImage (lit "Unsupported image format: " ++ match fmt with [] => lit "unknown" | f => f end)).

(** [validate_image_bytes] *)
Definition validate_image_bytes (data : pybytes) (allowed_formats : option (list pystr)) : prog Z unit :=
  let allowed_formats := default ALLOWED_FORMATS allowed_formats in
  match data with
  | [] => raise (EInvalidImage (lit "Empty file"))
  | _ =>
      old_max ← gets id;
      try_finally
        (try_except (inspect allowed_formats data) (λ e, raise (invalid_image e)))
        (modify (λ _, old_max))
  end.
End validator.

(** ** The processors *)

(** [img.format or "PNG"] *)
Definition out_format `{Pillow} (img : pil_image) : pystr :=
  match pil_format img with None | Some [] => lit "PNG" | Some f => f end.

(** [_generate_thumbnail_sync], in a worker process. *)
Definition generate_thumbnail_sync `{Pillow} (data : pybytes) (max_size : Z * Z) : outcome ProcessingResult :=
  img ← pil_open pil_default_limit data;
  img ← pil_thumbnail max_size img;
  thumb_bytes ← pil_save (out_format img) img;
  mret (MkResult thumb_bytes (pil_size img).1 (pil_size img).2 (out_format img)
          (Z.of_nat (length data)) (Z.of_nat (length (pil_bands img)))).

(** [_extract_metadata_sync] *)
Definition extract_metadata_sync `{Pillow} (data : pybytes) : outcome Metadata :=
  img ← pil_open pil_default_limit data;
  mret (MkMeta (pil_size img).1 (pil_size img).2 (pil_format img) (Z.of_nat (length data))
          (Z.of_nat (length (pil_bands img))) (pil_mode img)).

(** The compiled module. *)
Record FastResize := MkFastResize {
  fit_dimensions : Z → Z → Z → Z → outcome (Z * Z);
  bilinear_resize_bytes : pybytes → Z → Z → Z → Z → Z → outcome pybytes
}.

Class FastResizeLaws (m : FastResize) : Prop := {
  fit_dimensions_fits w h mw mh d :
    1 ≤ w → 1 ≤ h → 1 ≤ mw → 1 ≤ mh → fit_dimensions m w h mw mh = Ok d →
    1 ≤ d.1 ≤ mw ∧ 1 ≤ d.2 ≤ mh
}.

Section cpp.
Context `{Pillow} (module : FastResize).

Definition SUPPORTED_MODES : list pystr := [lit "RGB"; lit "RGBA"].

(** [_normalize_mode] *)
Definition normalize_mode (img : pil_image) : outcome pil_image :=
  if bool_decide (pil_mode img ∈ SUPPORTED_MODES) then mret img
  else if bool_decide (lit "A" ∈ pil_bands img) then pil_convert (lit "RGBA") img
  else pil_convert (lit "RGB") img.

(** The resize of [_generate_thumbnail_cpp_sync], skipped when nothing changes. *)
Definition resize_cpp (img : pil_image) (max_size : Z * Z) : outcome pil_image :=
  let '(src_w, src_h) := pil_size img in
  '(dst_w, dst_h) ← fit_dimensions module src_w src_h max_size.1 max_size.2;
  if bool_decide ((dst_w, dst_h) = (src_w, src_h)) then mret img
  else
    raw ← pil_tobytes img;
    resized_raw ← bilinear_resize_bytes module raw src_w src_h
                    (Z.of_nat (length (pil_bands img))) dst_w dst_h;
    pil_frombytes (pil_mode img) (dst_w, dst_h) resized_raw.

(** [_generate_thumbnail_cpp_sync], in a worker process that has the module; one
    that was not forked off this process imports it anew, and its failure to do
    so is a fault of [OpThumbnail] like every other failure of the pool. *)
Definition generate_thumbnail_cpp_sync (data : pybytes) (max_size : Z * Z) : outcome ProcessingResult :=
  img ← pil_open pil_default_limit data;
  let format := out_format img in
  img ← normalize_mode img;
  resized ← resize_cpp img max_size;
  output ← pil_save format resized;
  mret (MkResult output (pil_size resized).1 (pil_size resized).2 format
          (Z.of_nat (length data)) (Z.of_nat (length (pil_bands resized)))).
End cpp.

(** [generate_thumbnail] of both classes: the work runs in the process pool,
    whose failures are the faults of [OpThumbnail]. *)
Definition in_pool {A} (sync : outcome A) : coro A :=
  external OpThumbnail (λ w, r ← sync; Ok (r, w)) (λ _ w, w).

Module PillowImageProcessor.
Definition generate_thumbnail `{Pillow} (thumbnail_max_size : Z * Z) (image_data : pybytes)
    (max_size : option (Z * Z)) : coro ProcessingResult :=
  let effective_size := default thumbnail_max_size max_size in
  in_pool (generate_thumbnail_sync image_data effective_size).

Definition extract_metadata `{Pillow} (image_data : pybytes) : coro Metadata :=
  in_pool (extract_metadata_sync image_data).

Definition processor `{Pillow} (thumbnail_max_size : Z * Z) : ImageProcessor :=
  MkProcessor (λ data, generate_thumbnail thumbnail_max_size data None) extract_metadata.
End PillowImageProcessor.

Module CppImageProcessor.
Definition generate_thumbnail `{Pillow} (module : FastResize) (thumbnail_max_size : Z * Z)
    (image_data : pybytes) (max_size : option (Z * Z)) : coro ProcessingResult :=
  let effective_size := default thumbnail_max_size max_size in
  in_pool (generate_thumbnail_cpp_sync module image_data effective_size).

Definition extract_metadata `{Pillow} (image_data : pybytes) : coro Metadata :=
  in_pool (extract_metadata_sync image_data).

Definition processor `{Pillow} (module : FastResize) (thumbnail_max_size : Z * Z) : ImageProcessor :=
  MkProcessor (λ data, generate_thumbnail module thumbnail_max_size data None) extract_metadata.
End CppImageProcessor.

(** What [_load_fast_resize_module] finds, if the module was built: [Loader.v]. *)
Definition import_fast_resize (fast_resize : option FastResize) : outcome FastResize :=
  or_raise (EModuleNotFound (lit "No module named 'fast_resize'")) fast_resize.

(** [build_image_processor] *)
Definition build_image_processor `{PyTables, Pillow} (fast_resize : option FastResize) (backend : pystr)
    (thumbnail_max_size : Z * Z) : outcome ImageProcessor :=
  if bool_decide (backend = lit "pillow") then Ok (PillowImageProcessor.processor thumbnail_max_size)
  else if bool_decide (backend = lit "cpp") then
    match import_fast_resize fast_resize with
    | Ok module => Ok (CppImageProcessor.processor module thumbnail_max_size)
    | Exn (EModuleNotFound _) =>
        Exn (ERuntime (lit "IMG_PROCESSING_BACKEND=cpp requires the compiled fast_resize module. " ++
                       lit "Build it with: cd cpp && ./build.sh"))
    | Exn e => Exn e
    end
  else Exn (EValue (lit "Unsupported IMG_PROCESSING_BACKEND value: " ++ py_repr backend)).

(** ** The process pool *)

(** Module state: the shared executor, and every pool ever started. *)
Module Executor.

Inductive pool_status := Running | Stopping | Stopped | Cancelled.

Record state := MkState {
  executor : option nat;
  pools : list (Z * pool_status)
}.

Definition set_status (i : nat) (s : pool_status) (st : state) : state :=
  MkState (executor st) (alter (λ p, (p.1, s)) i (pools st)).

(** [get_executor] *)
Definition get_executor (max_workers : Z) : prog state nat :=
  act (λ st, match executor st with
             | Some i => (Ok i, st)
             | None => let i := length (pools st) in
                       (Ok i, MkState (Some i) (pools st ++ [(max_workers, Running)]))
             end).

(** [shutdown_executor] blocks until the pool has stopped. *)
Definition shutdown_executor : prog state unit :=
  modify (λ st, match executor st with
                | None => st
                | Some i => let st := set_status i Stopped st in MkState None (pools st)
                end).

(** [async_shutdown_executor]: the module forgets the pool before it waits for
    it; [in_time] is whether the pool stops before the timeout. *)
Definition async_shutdown_executor (in_time : bool) : prog state unit :=
  pool ← Act (option nat)
    (λ st, (executor st,
            match executor st with
            | None => st
            | Some i => let st := set_status i Stopping st in MkState None (pools st)
            end)) (λ x, Done (Ok x));
  match pool with
  | None => mret tt
  | Some i =>
      try_except
        (act (λ st, if in_time then (Ok tt, set_status i Stopped st) else (Exn ETimeout, st)))
        (λ e, match e with
              | ETimeout => modify (set_status i Cancelled)
              | _ => raise e
              end)
  end.

(** Every pool but the current one has been told to stop. *)
Definition no_leak (st : state) : Prop :=
  ∀ i p, pools st !! i = Some p → p.2 = Running → executor st = Some i.

Lemma set_status_stops i s st :
  s ≠ Running → no_leak st → no_leak (MkState None (pools (set_status i s st))) ∨ executor st ≠ Some i.
Proof.
  intros Hs Hl. destruct (decide (executor st = Some i)) as [E|]; [left|by right].
  intros j p Hj Hp. cbn in *. destruct (decide (i = j)) as [->|Hne].
  - rewrite list_lookup_alter_eq in Hj. destruct (pools st !! j); [|done]. cbn in Hj. by simplify_eq.
  - rewrite list_lookup_alter_ne in Hj by done. specialize (Hl j p Hj Hp). congruence.
Qed.

Lemma set_status_kept i s st : s ≠ Running → no_leak st → no_leak (set_status i s st).
Proof.
  intros Hs Hl j p Hj Hp. cbn in *. destruct (decide (i = j)) as [->|Hne].
  - rewrite list_lookup_alter_eq in Hj. destruct (pools st !! j); [|done]. cbn in Hj. by simplify_eq.
  - rewrite list_lookup_alter_ne in Hj by done. by eapply Hl.
Qed.

Lemma get_executor_kept n : keeps no_leak (get_executor n).
Proof.
  split; [|done]. intros st Hl. destruct (executor st) as [i|] eqn:E; [done|]. cbn. intros j p Hj Hp. cbn in *.
  apply lookup_app_Some in Hj as [Hj|[Hlen Hj]]; [by specialize (Hl j p Hj Hp); congruence|].
  apply list_lookup_singleton_Some in Hj as [Hj _]. f_equal. lia.
Qed.

Lemma forget_kept s st :
  s ≠ Running → no_leak st →
  no_leak (match executor st with None => st | Some i => MkState None (pools (set_status i s st)) end).
Proof.
  intros Hs Hl. destruct (executor st) as [i|] eqn:E; [|done].
  by destruct (set_status_stops i s st Hs Hl).
Qed.

Lemma async_shutdown_kept b : keeps no_leak (async_shutdown_executor b).
Proof.
  apply keeps_bind; [split; [|done]; intros st; by apply forget_kept|]. intros [i|]; [|done].
  apply keeps_try.
  - split; [|done]. intros st Hl. destruct b; [by apply set_status_kept|done].
  - intros []; try done. split; [|done]. intros st. by apply set_status_kept.
Qed.

Lemma shutdown_kept : keeps no_leak shutdown_executor.
Proof. split; [|done]. intros st. by apply forget_kept. Qed.

End Executor.

(** ** Validation: properties *)

Section validation.
Context `{PyTables, Pillow, !PillowLaws}.

(** [data] is an image the service takes. *)
Definition acceptable (allowed_formats : list pystr) (data : pybytes) (img : pil_image) : Prop :=
  data ≠ [] ∧ pil_open MAX_IMAGE_PIXELS data = Ok img ∧ format_upper img ∈ allowed_formats ∧
  pil_verify img = Ok tt ∧ pil_load img = Ok tt.

Lemma run_inspect allowed data old :
  run (inspect allowed data) old =
  ((img ← pil_open MAX_IMAGE_PIXELS data;
    if bool_decide (format_upper img ∈ allowed) then _ ← pil_verify img; pil_load img
    else Exn (EInvalidImage (lit "Unsupported image format: " ++
           match format_upper img with [] => lit "unknown" | f => f end))), MAX_IMAGE_PIXELS).
Proof.
  unfold inspect. cbn -[pil_open]. destruct (pil_open MAX_IMAGE_PIXELS data) as [img|e] eqn:E; [|done]. cbn.
  case_bool_decide; [|by destruct (format_upper img)]. destruct (pil_verify img) as [[]|e]; [|done]. cbn. rewrite E. cbn.
  by destruct (pil_load img).
Qed.

Lemma run_finally {A} (p : prog Z A) (f : Z → Z) w :
  run (try_finally p (modify f)) w = ((run p w).1, f (run p w).2).
Proof.
  unfold try_finally. rewrite run_bind, run_try. destruct (run p w) as [[a|e] w']; by autorewrite with prog.
Qed.

(** The verdict, and the limit afterwards. *)
Lemma validate_spec (data : pybytes) (allowed_formats : option (list pystr)) (old : Z) :
  let allowed := default ALLOWED_FORMATS allowed_formats in
  let '(o, limit) := run (validate_image_bytes data allowed_formats) old in
  limit = old ∧
  (o = Ok tt ↔ ∃ img, acceptable allowed data img) ∧
  (∀ e, o = Exn e → (∃ m, e = EInvalidImage m) ∨ is_exception e = false).
Proof.
  cbn zeta. set (allowed := default _ _). unfold validate_image_bytes. fold allowed.
  destruct data as [|c data].
  { cbn. split_and!; [done|split; [done|by intros (img & [] & _)]|].
    intros e [= <-]. left. by eexists. }
  remember (c :: data) as bytes eqn:Eb. assert (bytes ≠ []) as Hne by by subst.
  rewrite run_bind, run_gets, run_finally, run_try, run_inspect. cbn [id]. clear Eb c data.
  assert (∀ e, (∃ m, invalid_image e = EInvalidImage m) ∨ is_exception (invalid_image e) = false) as Hinv.
  { intros e. destruct e; cbn; try (left; by eexists). by right. }
  destruct (pil_open MAX_IMAGE_PIXELS bytes) as [img|e] eqn:Eo; cbn [mbind outcome_bind]; cycle 1.
  { cbn. split_and!; [done| |by intros e' [= <-]]. split; [done|].
    intros (img & _ & E & _). congruence. }
  assert (∀ img', acceptable allowed bytes img' → img' = img) as Huniq by by intros img' (_ & E & _); congruence.
  case_bool_decide as Hfmt; cycle 1.
  { cbn. split_and!; [done| |intros e [= <-]; left; by eexists]. split; [done|].
    intros (img' & Ha). rewrite (Huniq _ Ha) in Ha. by destruct Ha as (_ & _ & ? & _). }
  destruct (pil_verify img) as [[]|e] eqn:Ev; cbn [mbind outcome_bind]; cycle 1.
  { cbn. split_and!; [done| |by intros e' [= <-]]. split; [done|].
    intros (img' & Ha). rewrite (Huniq _ Ha) in Ha. destruct Ha as (_ & _ & _ & ? & _). congruence. }
  destruct (pil_load img) as [[]|e] eqn:El.
  - cbn. split_and!; [done| |done]. split; [|done]. intros _. by exists img.
  - cbn. split_and!; [done| |by intros e' [= <-]]. split; [done|].
    intros (img' & Ha). rewrite (Huniq _ Ha) in Ha. destruct Ha as (_ & _ & _ & _ & ?). congruence.
Qed.

(** C14: upload validation.  The bytes are accepted exactly when they are a
    non-empty image of an allowed format that Pillow opens, verifies and
    decodes, and then they have at most twice [MAX_IMAGE_PIXELS] pixels;
    otherwise the error is an [InvalidImageError] (or a [BaseException] of
    Pillow's).  In every case Pillow's global limit is what it was. *)
Theorem validation_verdict (data : pybytes) (allowed_formats : option (list pystr)) (old : Z) :
  let allowed := default ALLOWED_FORMATS allowed_formats in
  let '(o, limit) := run (validate_image_bytes data allowed_formats) old in
  limit = old ∧
  (o = Ok tt ↔ ∃ img, acceptable allowed data img) ∧
  (∀ img, acceptable allowed data img → pixels img ≤ 2 * MAX_IMAGE_PIXELS) ∧
  (∀ e, o = Exn e → (∃ m, e = EInvalidImage m) ∨ is_exception e = false).
Proof.
  cbn zeta. pose proof (validate_spec data allowed_formats old) as Hv. cbn zeta in Hv.
  destruct (run _ old) as [o limit]. destruct Hv as (Hl & Ho & He). split_and!; [done|done| |done].
  intros img (_ & Hopen & _). by eapply pil_open_limit.
Qed.
End validation.

(** ** The processors: properties *)

Lemma wp_in_pool {A} (sync : outcome A) w :
  wp (in_pool sync)
    (λ o w', processor_frame w w' ∧ (o = sync ∨ ∃ e, o = Exn e ∧ injects w OpThumbnail e)) w.
Proof.
  apply wp_external.
  - destruct sync as [r|e]; cbn; [|by split; [|left]]. split; [by split; [|left]|].
    intros e Hi. split; [done|]. right. by exists e.
  - intros e Hi. split; [done|]. right. by exists e.
  - intros n e Hi. split; [done|]. right. by exists e.
Qed.

(** Both processors have the port's law. *)
#[export] Instance pillow_laws_of `{Pillow} box : ProcessorLaws (PillowImageProcessor.processor box).
Proof.
  refine {| proc_fun := λ data, generate_thumbnail_sync data box; metadata_fun := extract_metadata_sync |};
    intros data w; apply wp_in_pool.
Defined.

#[export] Instance cpp_laws_of `{Pillow} m box : ProcessorLaws (CppImageProcessor.processor m box).
Proof.
  refine {| proc_fun := λ data, generate_thumbnail_cpp_sync m data box; metadata_fun := extract_metadata_sync |};
    intros data w; apply wp_in_pool.
Defined.

Section contract.
Context `{PyTables, Pillow, !PillowLaws}.

(** What the service records of a thumbnail: it fits the box; format and size
    are those of the original. *)
Definition thumbnail_ok (box : Z * Z) (data : pybytes) (r : ProcessingResult) : Prop :=
  1 ≤ pr_width r ≤ box.1 ∧ 1 ≤ pr_height r ≤ box.2 ∧ pr_size_bytes r = Z.of_nat (length data) ∧
  ∃ img, pil_open pil_default_limit data = Ok img ∧ pr_format r = out_format img.

Lemma bind_Ok {A B} (o : outcome A) (f : A → outcome B) b :
  (o ≫= f) = Ok b → ∃ a, o = Ok a ∧ f a = Ok b.
Proof. destruct o as [a|e]; [|done]. cbn. eauto. Qed.

Lemma pillow_thumbnail_ok box data r :
  1 ≤ box.1 → 1 ≤ box.2 → generate_thumbnail_sync data box = Ok r → thumbnail_ok box data r.
Proof.
  intros Hw Hh (img & Ho & (img' & Ht & (b & Hs & [= <-])%bind_Ok)%bind_Ok)%bind_Ok.
  destruct (pil_thumbnail_fits _ _ _ Hw Hh Ht) as [Hfw Hfh]. refine (conj Hfw (conj Hfh (conj eq_refl _))).
  exists img. split; [done|]. cbn. unfold out_format. by rewrite (pil_thumbnail_format _ _ _ Ht).
Qed.

Lemma normalize_mode_size img img' : normalize_mode img = Ok img' → pil_size img' = pil_size img.
Proof.
  unfold normalize_mode. case_bool_decide; [by intros [= <-]|]. case_bool_decide; apply pil_convert_size.
Qed.

Lemma cpp_thumbnail_ok m `{!FastResizeLaws m} box data r :
  1 ≤ box.1 → 1 ≤ box.2 → generate_thumbnail_cpp_sync m data box = Ok r → thumbnail_ok box data r.
Proof.
  intros Hw Hh (img & Ho & (img1 & Hn & (img2 & Hr & (b & Hs & [= <-])%bind_Ok)%bind_Ok)%bind_Ok)%bind_Ok.
  assert (1 ≤ (pil_size img2).1 ≤ box.1 ∧ 1 ≤ (pil_size img2).2 ≤ box.2) as [Hfw Hfh].
  { destruct (pil_open_size _ _ _ Ho) as [Hsw Hsh]. apply normalize_mode_size in Hn.
    unfold resize_cpp in Hr. rewrite <- Hn in Hsw, Hsh. destruct (pil_size img1) as [w h] eqn:E1.
    apply bind_Ok in Hr as ([dw dh] & Hd & Hr). cbn in Hsw, Hsh.
    pose proof (fit_dimensions_fits _ _ _ _ _ Hsw Hsh Hw Hh Hd) as Hfit. cbn in Hfit.
    case_bool_decide as Heq.
    - simplify_eq. injection Hr as <-. rewrite E1. exact Hfit.
    - apply bind_Ok in Hr as (raw & _ & (rr & _ & Hf)%bind_Ok). by rewrite (pil_frombytes_size _ _ _ _ Hf). }
  refine (conj Hfw (conj Hfh (conj eq_refl _))). by exists img.
Qed.

(** C37: the backends.  [build_image_processor] yields a processor exactly for
    the two backends (the compiled one when its module was built), and what it
    yields implements the port: a function of the bytes, touching nothing, and
    every thumbnail lies in the configured box and carries the format and the
    size of the file. *)
Theorem backend_contract (fast_resize : option FastResize) (backend : pystr) (box : Z * Z) :
  1 ≤ box.1 → 1 ≤ box.2 → (∀ m, fast_resize = Some m → FastResizeLaws m) →
  match build_image_processor fast_resize backend box with
  | Ok p => (backend = lit "pillow" ∨ backend = lit "cpp" ∧ is_Some fast_resize) ∧
            ∃ laws : ProcessorLaws p, ∀ data r, proc_fun data = Ok r → thumbnail_ok box data r
  | Exn e => is_exception e = true ∧ backend ≠ lit "pillow" ∧ (backend = lit "cpp" → fast_resize = None)
  end.
Proof.
  intros Hw Hh Hm. unfold build_image_processor. case_bool_decide as Hp.
  { split; [by left|]. exists (pillow_laws_of box). intros data r. by apply pillow_thumbnail_ok. }
  case_bool_decide as Hc; [|done]. destruct fast_resize as [m|]; [|done]. cbn.
  split; [right; by eexists|]. pose proof (Hm m eq_refl). exists (cpp_laws_of m box).
  intros data r. by apply cpp_thumbnail_ok.
Qed.

(** An image the validator takes and the workers refuse. *)
Lemma accepted_not_processed allowed data img box :
  acceptable allowed data img → 2 * pil_default_limit < pixels img →
  ∃ e, generate_thumbnail_sync data box = Exn (EDecompressionBomb e).
Proof.
  intros (_ & Ho & _) Hpx. destruct (pil_open_bomb _ _ _ _ Ho Hpx) as [m Hm]. exists m.
  unfold generate_thumbnail_sync. by rewrite Hm.
Qed.
End contract.
