(* ===== verification/Kernel.v ===== *)
(** * The resize kernel

    Models [src/cpp/fast_resize.cpp], the module that [CppImageProcessor] calls:
    both inner loops ([sse2] chooses, as [__SSE2__] does), the functions they
    are called from and what pybind11 makes of them.  Memory is a list of bytes
    with a bound; [None] is undefined behaviour: a read or write out of bounds,
    a conversion or an [int] operation out of range, and also a division by
    zero, whose infinity is not modelled.  The products and sums of the loops
    are rounded one by one, as the intrinsics are written; a compiler may fuse
    them.  Buffer sizes that memory cannot hold are not modelled. *)

From S2P Require Import Prelude Ieee PyText Prog Processing.
Local Open Scope Z_scope.

(** ** Integers and memory *)

Definition INT_MAX : Z := 2147483647.
Definition INT_MIN : Z := -2147483648.
Definition fits_int (z : Z) : bool := (INT_MIN <=? z) && (z <=? INT_MAX).

(** The result of an operation in [int], and of [static_cast<int>]. *)
Definition to_int (z : Z) : option Z := if fits_int z then Some z else None.
Definition cast_int (x : Q) : option Z := to_int (trunc x).

(** [py::ssize_t] *)
Definition to_ssize (z : Z) : option Z := if (- 2 ^ 63 <=? z) && (z <? 2 ^ 63) then Some z else None.

(** [memcpy] of [n] bytes from a buffer, and of some bytes into one. *)
Definition in_buffer (buf : pybytes) (off n : Z) : bool := (0 <=? off) && (off + n <=? Z.of_nat (length buf)).
Definition load (buf : pybytes) (off n : Z) : option pybytes :=
  if in_buffer buf off n then Some (take (Z.to_nat n) (drop (Z.to_nat off) buf)) else None.
Definition store (buf : pybytes) (off : Z) (bytes : pybytes) : option pybytes :=
  if in_buffer buf off (Z.of_nat (length bytes))
  then Some (take (Z.to_nat off) buf ++ bytes ++ drop (Z.to_nat off + length bytes) buf)
  else None.

(** [for (int i = from; i < from + n; ++i)] *)
Fixpoint for_from {A} (n : nat) (i : Z) (body : Z → A → option A) (a : A) : option A :=
  match n with O => Some a | S n' => a ← body i a; for_from n' (i + 1) body a end.
Definition for_int {A} (n : Z) (body : Z → A → option A) (a : A) : option A := for_from (Z.to_nat n) 0 body a.

(** ** One coordinate *)

(** [static_cast<float>(src) / static_cast<float>(dst)] *)
Definition ratio (src dst : Z) : Q := fdiv (f32 src) (f32 dst).

(** The source position of [i]: the two neighbours and the fraction between them. *)
Definition sample (size i : Z) (r : Q) : option (Z * Z * Q) :=
  let pos := fmul (f32 i) r in
  near ← cast_int pos;
  next ← to_int (near + 1);
  Some (near, Z.min next (size - 1), fsub pos (f32 near)).

(** ** The SSE2 path: four lanes of [float] *)

Definition unpack_u8x4_to_ps (packed : pybytes) : list Q := map inject_Z packed.

Definition clamp_ps (v : Q) : Q :=
  let v := if Qle_bool v 255 then v else 255%Q in if Qle_bool 0 v then v else 0%Q.
Definition pack_ps_to_u8x4 (values : list Q) : pybytes := map (λ v, trunc (clamp_ps v)) values.

(** The bytes of a pixel, in four lanes. *)
Definition load_pixel (src : pybytes) (off num_channels : Z) : option pybytes :=
  bytes ← load src off num_channels; Some (take 4 (bytes ++ replicate 4 0)).

Definition mul_ps (xs : list Q) (y : Q) : list Q := map (λ x, fmul x y) xs.
Definition add_ps (xs ys : list Q) : list Q := zip_with fadd xs ys.

Section loops.
Context (src : pybytes) (src_w src_h num_channels : Z).

(** The body of the inner loop. *)
Definition sse2_pixel (row_top row_bot : Z) (frac_y : Q) (col_left col_right : Z) (frac_x : Q) : option pybytes :=
  top_left ← load_pixel src ((row_top * src_w + col_left) * num_channels) num_channels;
  top_right ← load_pixel src ((row_top * src_w + col_right) * num_channels) num_channels;
  bot_left ← load_pixel src ((row_bot * src_w + col_left) * num_channels) num_channels;
  bot_right ← load_pixel src ((row_bot * src_w + col_right) * num_channels) num_channels;
  let one_minus_fx := fsub 1 frac_x in
  let one_minus_fy := fsub 1 frac_y in
  let top := add_ps (mul_ps (unpack_u8x4_to_ps top_left) one_minus_fx) (mul_ps (unpack_u8x4_to_ps top_right) frac_x) in
  let bottom := add_ps (mul_ps (unpack_u8x4_to_ps bot_left) one_minus_fx) (mul_ps (unpack_u8x4_to_ps bot_right) frac_x) in
  let result := add_ps (mul_ps top one_minus_fy) (mul_ps bottom frac_y) in
  Some (take (Z.to_nat num_channels) (pack_ps_to_u8x4 result)).

(** [bilinear_resize_sse2] *)
Definition bilinear_resize_sse2 (dst : pybytes) (dst_w dst_h : Z) : option pybytes :=
  let x_ratio := ratio src_w dst_w in
  let y_ratio := ratio src_h dst_h in
  for_int dst_h (λ dst_y dst,
    '(row_top, row_bot, frac_y) ← sample src_h dst_y y_ratio;
    for_int dst_w (λ dst_x dst,
      '(col_left, col_right, frac_x) ← sample src_w dst_x x_ratio;
      pixel ← sse2_pixel row_top row_bot frac_y col_left col_right frac_x;
      store dst ((dst_y * dst_w + dst_x) * num_channels) pixel) dst) dst.

(** ** The scalar path: indices are [int] *)

(** [src[...]] *)
Definition read (index : Z) : option Q :=
  i ← to_int index; if i <? 0 then None else inject_Z <$> src !! Z.to_nat i.

Definition lerp (frac a b : Q) : Q := fadd a (fmul frac (fsub b a)).

Definition scalar_channel (row_top row_bot : Z) (frac_y : Q) (col_left col_right : Z) (frac_x : Q) (chan : Z) :
    option Z :=
  top_left ← read ((row_top * src_w + col_left) * num_channels + chan);
  top_right ← read ((row_top * src_w + col_right) * num_channels + chan);
  bot_left ← read ((row_bot * src_w + col_left) * num_channels + chan);
  bot_right ← read ((row_bot * src_w + col_right) * num_channels + chan);
  let top := lerp frac_x top_left top_right in
  let bottom := lerp frac_x bot_left bot_right in
  let value := lerp frac_y top bottom in
  Some (trunc (clamp_ps value)).

(** [bilinear_resize_scalar] *)
Definition bilinear_resize_scalar (dst : pybytes) (dst_w dst_h : Z) : option pybytes :=
  let x_ratio := ratio src_w dst_w in
  let y_ratio := ratio src_h dst_h in
  for_int dst_h (λ dst_y dst,
    '(row_top, row_bot, frac_y) ← sample src_h dst_y y_ratio;
    for_int dst_w (λ dst_x dst,
      '(col_left, col_right, frac_x) ← sample src_w dst_x x_ratio;
      for_int num_channels (λ chan dst,
        byte ← scalar_channel row_top row_bot frac_y col_left col_right frac_x chan;
        index ← to_int ((dst_y * dst_w + dst_x) * num_channels + chan);
        store dst index [byte]) dst) dst) dst.
End loops.

(** ** The module's functions *)

Section fast_resize.
Context (sse2 : bool).

Definition resize (src : pybytes) (src_w src_h channels : Z) (dst : pybytes) (dst_w dst_h : Z) : option pybytes :=
  if sse2 then bilinear_resize_sse2 src src_w src_h channels dst dst_w dst_h
  else bilinear_resize_scalar src src_w src_h channels dst dst_w dst_h.

(** The checks of both functions; [alloc] makes the output buffer. *)
Definition bilinear_resize_with (alloc : Z → pybytes) (src : pybytes) (src_w src_h channels dst_w dst_h : Z) :
    option (outcome pybytes) :=
  if negb (channels =? 3) && negb (channels =? 4)
  then Some (Exn (EValue (lit "channels must be 3 (RGB) or 4 (RGBA)")))
  else if (src_w <=? 0) || (src_h <=? 0) || (dst_w <=? 0) || (dst_h <=? 0)
  then Some (Exn (EValue (lit "dimensions must be positive")))
  else
    expected ← to_ssize (src_w * src_h * channels);
    if negb (Z.of_nat (length src) =? expected) then Some (Exn (EValue (lit "src buffer size mismatch")))
    else
      dst_size ← to_ssize (dst_w * dst_h * channels);
      out ← resize src src_w src_h channels (alloc dst_size) dst_w dst_h;
      Some (Ok out).

(** [bilinear_resize]: a NumPy array whose contents are not initialized. *)
Definition bilinear_resize (garbage : Z → pybytes) := bilinear_resize_with garbage.

(** [bilinear_resize_bytes]: [std::string(dst_size, 0)]. *)
Definition bilinear_resize_bytes := bilinear_resize_with (λ n, replicate (Z.to_nat n) 0).

(** [fit_dimensions] *)
Definition fit_dimensions (src_w src_h max_w max_h : Z) : option (Z * Z) :=
  if (src_w <=? max_w) && (src_h <=? max_h) then Some (src_w, src_h)
  else if (src_w =? 0) || (src_h =? 0) then None
  else
    let scale_w := ddiv (f64 max_w) (f64 src_w) in
    let scale_h := ddiv (f64 max_h) (f64 src_h) in
    let scale := if Qle_bool scale_w scale_h then scale_w else scale_h in
    w ← to_int (round_half_away (dmul (f64 src_w) scale));
    h ← to_int (round_half_away (dmul (f64 src_h) scale));
    Some (Z.max 1 w, Z.max 1 h).

(** ** The Python module *)

(** What undefined behaviour does is not known: an arbitrary outcome. *)
Context (undefined : ∀ A, outcome A).

(** pybind11 refuses an argument that is not an [int]. *)
Definition int_args (zs : list Z) : outcome unit :=
  if forallb fits_int zs then Ok tt else Exn (EType (lit "incompatible function arguments")).

(** [PYBIND11_MODULE(fast_resize, m)], the functions that are called. *)
Definition fast_resize : FastResize := {|
  Processing.fit_dimensions := λ w h mw mh,
    int_args [w; h; mw; mh];;
    default (undefined _) (Ok <$> fit_dimensions w h mw mh);
  Processing.bilinear_resize_bytes := λ src w h channels dw dh,
    int_args [w; h; channels; dw; dh];;
    default (undefined _) (bilinear_resize_bytes src w h channels dw dh)
|}.
End fast_resize.

(** A white pixel made three: in the SSE2 path the second is no longer white, as
    the rounded products add up to less than 255 and the result is cut off. *)
Definition white (n : nat) : pybytes := replicate n 255.

Example white_scalar : bilinear_resize_bytes false (white 3) 1 1 3 3 1 = Some (Ok (white 9)).
Proof. vm_compute. reflexivity. Qed.

Example white_sse2 : bilinear_resize_bytes true (white 3) 1 1 3 3 1 = Some (Ok (white 3 ++ [254; 254; 254] ++ white 3)).
Proof. vm_compute. reflexivity. Qed.

(** The last of very many columns of a row of five: the rounded position is the
    row's length, out of the image. *)
Example sample_out : sample 5 16777214 (ratio 5 16777215) = Some (5, 4, 0%Q).
Proof. vm_compute. reflexivity. Qed.

(** ** Dimensions *)

(** A side scaled: within little more than half a pixel of the exact length. *)
Lemma scaled_side n q s :
  1 ≤ n ≤ INT_MAX → (0 <= q)%Q → (inject_Z n * q <= inject_Z INT_MAX)%Q → (q * (1 - u64) <= s <= q * (1 + u64))%Q →
  let r := round_half_away (dmul (f64 n) s) in
  (inject_Z n * q - (501 # 1000) <= inject_Z r <= inject_Z n * q + (501 # 1000))%Q.
Proof.
  intros Hn Hq Hm [Hs1 Hs2] r. pose proof (inject_pos n ltac:(lia)) as Hn1.
  assert (Hf : (f64 n == inject_Z n)%Q) by (apply f64_Z; [unfold INT_MAX in Hn; lia|done]).
  unfold r, dmul. set (x := (f64 n * s)%Q).
  assert (Hx : (inject_Z n * q * (1 - u64) <= x <= inject_Z n * q * (1 + u64))%Q).
  { unfold x. rewrite Hf, <- !Qmult_assoc. split; apply Qmult_le_l; (done || lra). }
  set (t := (inject_Z n * q)%Q) in *. assert (Ht : (0 <= t)%Q) by (apply Qmult_le_0_compat; lra).
  clearbody x t. clear r. unfold u64 in *. change (inject_Z INT_MAX) with 2147483647%Q in Hm. assert (Hx0 : (0 <= x)%Q) by lra.
  pose proof (f64_bounds x Hx0) as Hb. unfold u64 in Hb.
  assert (Hr0 : (0 <= rnd 53 x)%Q) by lra. pose proof (round_half_away_spec _ Hr0). lra.
Qed.

Lemma side_ok n q s m :
  1 ≤ n ≤ INT_MAX → 1 ≤ m ≤ INT_MAX → (0 < q)%Q → (inject_Z n * q <= inject_Z m)%Q →
  (q * (1 - u64) <= s <= q * (1 + u64))%Q →
  ∃ d, to_int (round_half_away (dmul (f64 n) s)) = Some d ∧ 1 ≤ Z.max 1 d ≤ m ∧
    (inject_Z n * q - 1 < inject_Z (Z.max 1 d) < inject_Z n * q + 1)%Q ∧
    ((inject_Z n * q == inject_Z m)%Q → Z.max 1 d = m).
Proof.
  intros Hn Hm Hq Hqm Hs. pose proof (inject_le m INT_MAX ltac:(lia)) as HM.
  pose proof (inject_pos n ltac:(lia)) as Hn1.
  pose proof (scaled_side n q s Hn ltac:(lra) ltac:(lra) Hs) as Hr. cbv zeta in Hr.
  assert (Ht : (0 < inject_Z n * q)%Q) by (apply Qmult_lt_0_compat; lra).
  set (t := (inject_Z n * q)%Q) in *. set (d := round_half_away _) in *. clearbody t d.
  assert (0 ≤ d) as Hd0 by (apply inject_lt; change (inject_Z 0) with 0%Q; lra).
  assert (d ≤ m) as Hdm by (apply inject_lt; lra). exists d.
  split; [unfold to_int, fits_int, INT_MIN; zdecide; done|]. split; [lia|].
  pose proof (inject_le 0 d Hd0) as Hd0'. change (inject_Z 0) with 0%Q in Hd0'. split.
  - destruct (Z.max_spec 1 d) as [[_ ->]|[Hle ->]]; [split; lra|]. apply inject_le in Hle.
    change (inject_Z 1) with 1%Q in *. split; lra.
  - intros Hexact. assert (m ≤ d); [|lia]. apply inject_lt. lra.
Qed.

Lemma ratio_ok m n :
  1 ≤ m ≤ INT_MAX → 1 ≤ n ≤ INT_MAX → ∃ q,
    (0 < q)%Q ∧ (inject_Z n * q == inject_Z m)%Q ∧ (q * (1 - u64) <= ddiv (f64 m) (f64 n) <= q * (1 + u64))%Q.
Proof.
  intros Hm Hn. pose proof (inject_pos m ltac:(lia)) as Hm1. pose proof (inject_pos n ltac:(lia)) as Hn1.
  assert (Hfm : (f64 m == inject_Z m)%Q) by (apply f64_Z; [unfold INT_MAX in Hm; lia|done]).
  assert (Hfn : (f64 n == inject_Z n)%Q) by (apply f64_Z; [unfold INT_MAX in Hn; lia|done]).
  assert (Hq : (0 < inject_Z m / inject_Z n)%Q) by (apply Qlt_shift_div_l; lra).
  exists (inject_Z m / inject_Z n)%Q. split; [done|]. split; [field; lra|]. unfold ddiv. rewrite Hfm, Hfn.
  apply f64_bounds. lra.
Qed.

(** The limiting side [m] of [n], with ratio [q]; the other side is [m'] of [n']. *)
Lemma other_side n m n' m' q :
  1 ≤ n → m * n' ≤ m' * n → (inject_Z n * q == inject_Z m)%Q → (inject_Z n' * q <= inject_Z m')%Q.
Proof.
  intros Hn Hle Hq. apply inject_le in Hle. rewrite !inject_Z_mult in Hle. pose proof (inject_pos n Hn).
  apply (Qmult_le_l _ _ (inject_Z n)); [lra|].
  assert (E : (inject_Z n * (inject_Z n' * q) == inject_Z m * inject_Z n')%Q) by (rewrite <- Hq; ring). rewrite E. lra.
Qed.

Lemma within_pixel n m n' d q :
  1 ≤ n → (inject_Z n * q == inject_Z m)%Q → (inject_Z n' * q - 1 < inject_Z d < inject_Z n' * q + 1)%Q →
  Z.abs (d * n - m * n') < n.
Proof.
  intros Hn Hq [H1 H2]. pose proof (inject_pos n Hn) as Hn1.
  assert (E : (inject_Z (m * n') == inject_Z n * (inject_Z n' * q))%Q) by (rewrite inject_Z_mult, <- Hq; ring).
  apply (Qmult_lt_l _ _ (inject_Z n)) in H1, H2; [|lra..].
  apply Z.abs_lt. split; rewrite Zlt_Qlt; unfold Z.sub; rewrite inject_Z_plus, ?inject_Z_opp, inject_Z_mult, E; lra.
Qed.

(** [fit_dimensions] of positive sizes: the image itself if it fits; otherwise a
    size in the box, which the side with the smaller ratio fills, while the other
    is less than a pixel off the exact proportion. *)
Lemma fit_dimensions_spec w h mw mh :
  1 ≤ w ≤ INT_MAX → 1 ≤ h ≤ INT_MAX → 1 ≤ mw ≤ INT_MAX → 1 ≤ mh ≤ INT_MAX →
  ∃ dw dh, fit_dimensions w h mw mh = Some (dw, dh) ∧ 1 ≤ dw ≤ mw ∧ 1 ≤ dh ≤ mh ∧
    if (w <=? mw) && (h <=? mh) then dw = w ∧ dh = h
    else (mw * h ≤ mh * w → dw = mw ∧ Z.abs (dh * w - mw * h) < w) ∧
         (mh * w ≤ mw * h → dh = mh ∧ Z.abs (dw * h - mh * w) < h).
Proof.
  intros Hw Hh Hmw Hmh. unfold fit_dimensions. destruct ((w <=? mw) && (h <=? mh)) eqn:Efit.
  { zbool. exists w, h. split; [done|]. lia. }
  zdecide. cbn [orb]. clear Efit.
  destruct (ratio_ok mw w Hmw Hw) as (a & Ha & Ea & Ha1 & Ha2).
  destruct (ratio_ok mh h Hmh Hh) as (b & Hb & Eb & Hb1 & Hb2).
  set (sw := ddiv (f64 mw) (f64 w)) in *. set (sh := ddiv (f64 mh) (f64 h)) in *. clearbody sw sh.
  set (s := if Qle_bool sw sh then sw else sh).
  assert (Hs : (s <= sw ∧ s <= sh ∧ (s == sw ∨ s == sh))%Q).
  { unfold s. destruct (Qle_bool sw sh) eqn:E; [apply Qle_bool_iff in E; split_and!; [lra..|by left]|].
    apply Qle_bool_false in E. split_and!; [lra..|by right]. }
  clearbody s. destruct Hs as (Hs1 & Hs2 & Hs3). unfold u64 in Ha1, Ha2, Hb1, Hb2.
  assert (Hab : mw * h ≤ mh * w → (a <= b)%Q).
  { intros H. apply (Qmult_le_l _ _ (inject_Z h)); [pose proof (inject_pos h ltac:(lia)); lra|]. rewrite Eb.
    eapply other_side; [apply Hw|exact H|done]. }
  assert (Hba : mh * w ≤ mw * h → (b <= a)%Q).
  { intros H. apply (Qmult_le_l _ _ (inject_Z w)); [pose proof (inject_pos w ltac:(lia)); lra|]. rewrite Ea.
    eapply other_side; [apply Hh|exact H|done]. }
  destruct (Z.le_ge_cases (mw * h) (mh * w)) as [Hle|Hle].
  - specialize (Hab Hle).
    assert (Hsa : (a * (1 - u64) <= s <= a * (1 + u64))%Q) by (unfold u64; split; [destruct Hs3 as [E|E]; rewrite E|]; lra).
    destruct (side_ok w a s mw Hw Hmw Ha ltac:(rewrite Ea; lra) Hsa) as (dw & -> & Bw & Pw & Xw).
    destruct (side_ok h a s mh Hh Hmh Ha (other_side w mw h mh a ltac:(lia) Hle Ea) Hsa) as (dh & -> & Bh & Ph & Xh).
    exists (Z.max 1 dw), (Z.max 1 dh). split; [done|]. do 2 (split; [done|]). rewrite (Xw Ea). split.
    + intros _. split; [done|]. apply (within_pixel w mw h _ a); [lia|done..].
    + intros Hge. split; [|lia]. apply Xh. specialize (Hba Hge). assert (a == b)%Q as -> by lra. done.
  - specialize (Hba Hle).
    assert (Hsb : (b * (1 - u64) <= s <= b * (1 + u64))%Q) by (unfold u64; split; [destruct Hs3 as [E|E]; rewrite E|]; lra).
    destruct (side_ok w b s mw Hw Hmw Hb (other_side h mh w mw b ltac:(lia) Hle Eb) Hsb) as (dw & -> & Bw & Pw & Xw).
    destruct (side_ok h b s mh Hh Hmh Hb ltac:(rewrite Eb; lra) Hsb) as (dh & -> & Bh & Ph & Xh).
    exists (Z.max 1 dw), (Z.max 1 dh). split; [done|]. do 2 (split; [done|]). rewrite (Xh Eb). split.
    + intros Hge. split; [|lia]. apply Xw. specialize (Hab Hge). assert (b == a)%Q as -> by lra. done.
    + intros _. split; [done|]. apply (within_pixel h mh w _ b); [lia|done..].
Qed.

(** The size [fit_dimensions] finds is not larger than the image. *)
Lemma fit_shrinks w h mw mh dw dh :
  1 ≤ w ≤ INT_MAX → 1 ≤ h ≤ INT_MAX → 1 ≤ mw ≤ INT_MAX → 1 ≤ mh ≤ INT_MAX →
  fit_dimensions w h mw mh = Some (dw, dh) → dw ≤ w ∧ dh ≤ h.
Proof.
  intros Hw Hh Hmw Hmh Hf. destruct (fit_dimensions_spec w h mw mh) as (dw' & dh' & Hf' & H1 & H2 & H3); [done..|].
  rewrite Hf' in Hf. injection Hf as -> ->. destruct ((w <=? mw) && (h <=? mh)) eqn:E; [lia|].
  destruct H3 as [Hl Hr]. assert (mw < w ∨ mh < h) as Hbig by (apply andb_false_iff in E as [E|E]; zbool; lia).
  destruct (Z.le_ge_cases (mw * h) (mh * w)) as [Hle|Hle].
  - destruct (Hl Hle) as [-> Ha]. apply Z.abs_lt in Ha. assert (mw < w) by nia. split; [lia|]. nia.
  - destruct (Hr Hle) as [-> Ha]. apply Z.abs_lt in Ha. assert (mh < h) by nia. split; [|lia]. nia.
Qed.

(** C25: Fitting.  For an image and a box of any positive sizes the call is defined and
    yields a size in the box and not larger than the image; an image that fits
    keeps its size; of another, the side that limits fills the box and the other
    is less than a pixel off the exact proportion; and fitting again changes nothing. *)
Theorem fit_dimensions_correct (w h mw mh : Z) :
  1 ≤ w ≤ INT_MAX → 1 ≤ h ≤ INT_MAX → 1 ≤ mw ≤ INT_MAX → 1 ≤ mh ≤ INT_MAX →
  ∃ dw dh, fit_dimensions w h mw mh = Some (dw, dh) ∧
    1 ≤ dw ≤ Z.min w mw ∧ 1 ≤ dh ≤ Z.min h mh ∧
    (w ≤ mw → h ≤ mh → dw = w ∧ dh = h) ∧
    (mw < w ∨ mh < h →
       (mw * h ≤ mh * w → dw = mw ∧ Z.abs (dh * w - mw * h) < w) ∧
       (mh * w ≤ mw * h → dh = mh ∧ Z.abs (dw * h - mh * w) < h)) ∧
    fit_dimensions dw dh mw mh = Some (dw, dh).
Proof.
  intros Hw Hh Hmw Hmh. destruct (fit_dimensions_spec w h mw mh) as (dw & dh & Hf & Hdw & Hdh & Hs); [done..|].
  destruct (fit_shrinks w h mw mh dw dh) as [H1 H2]; [done..|]. exists dw, dh. split; [done|]. do 2 (split; [lia|]).
  split; [|split].
  - intros Hfw Hfh. revert Hs. zdecide. done.
  - intros Hbig. destruct ((w <=? mw) && (h <=? mh)) eqn:E; [zbool; lia|done].
  - unfold fit_dimensions. by zdecide.
Qed.

(** ** Positions *)

(** As many target pixels in a row as [float] tells apart. *)
Definition MAX_SIDE : Z := 4194304.

(** The position of [i]: the exact one, [i * size / n], up to three roundings. *)
Lemma pos_bounds size n i :
  1 ≤ size ≤ INT_MAX → 1 ≤ n ≤ MAX_SIDE → 0 ≤ i < n → ∃ c,
    (0 <= c <= 1 - (1 # 4194304))%Q ∧ (c * inject_Z n == inject_Z i)%Q ∧
    let x := (c * inject_Z size)%Q in
    (x * (1 - (4 # 16777216)) <= fmul (f32 i) (ratio size n) <= x * (1 + (1 # 4194305)))%Q.
Proof.
  intros Hs Hn Hi. unfold MAX_SIDE in Hn.
  pose proof (inject_pos size ltac:(lia)) as Hs1. pose proof (inject_pos n ltac:(lia)) as Hn1.
  assert (Hi0 : (0 <= inject_Z i)%Q) by (apply (inject_le 0); lia).
  assert (Hin : (inject_Z i + 1 <= inject_Z n)%Q) by (pose proof (inject_le (i + 1) n ltac:(lia)) as H; rewrite inject_Z_plus in H; exact H).
  assert (HnM : (inject_Z n <= 4194304)%Q) by (apply (inject_le n 4194304); lia).
  assert (Ei : (f32 i == inject_Z i)%Q) by (apply f32_Z; [lia|done]).
  assert (En : (f32 n == inject_Z n)%Q) by (apply f32_Z; [lia|done]).
  destruct (f32_bounds (inject_Z size) ltac:(lra)) as [S1 S2]. fold (f32 size) in S1, S2.
  assert (Ef : fmul (f32 i) (ratio size n) = rnd 24 (inject_Z i * rnd 24 (f32 size / inject_Z n))).
  { unfold fmul, ratio, fdiv. by rewrite Ei, En. }
  rewrite Ef. clear Ef. set (S := f32 size) in *. set (N := inject_Z n) in *. set (I := inject_Z i) in *.
  set (Z := inject_Z size) in *. clearbody S N I Z. unfold u32 in *.
  destruct (f32_bounds (S / N)) as [R1 R2]; [apply Qle_shift_div_l; lra|]. unfold u32 in *.
  set (r := rnd 24 (S / N)) in *. clearbody r.
  assert (T1 : (S * (1 - (1 # 16777216)) <= N * r)%Q).
  { apply (Qmult_le_l _ _ N) in R1; [|lra]. assert (E : (N * (S / N * (1 - (1 # 16777216))) == S * (1 - (1 # 16777216)))%Q) by (field; lra). lra. }
  assert (T2 : (N * r <= S * (1 + (1 # 16777216)))%Q).
  { apply (Qmult_le_l _ _ N) in R2; [|lra]. assert (E : (N * (S / N * (1 + (1 # 16777216))) == S * (1 + (1 # 16777216)))%Q) by (field; lra). lra. }
  assert (Hc : (I / N * N == I)%Q) by (field; lra). set (c := (I / N)%Q) in *. clearbody c.
  exists c. assert (Hc0 : (0 <= c)%Q) by (apply (Qmult_le_r _ _ N); lra).
  assert (Hc1 : (c <= 1 - (1 # 4194304))%Q) by (apply (Qmult_le_r _ _ N); lra).
  split; [by split|]. split; [done|]. cbv zeta.
  assert (Ex : (I * r == c * (N * r))%Q) by (rewrite <- Hc; ring). set (t := (N * r)%Q) in *. clearbody t.
  assert (B1 : (c * (Z * (1 - (2 # 16777216))) <= c * t)%Q) by (rewrite !(Qmult_comm c); apply Qmult_le_compat_r; lra).
  assert (B2 : (c * t <= c * (Z * ((1 + (1 # 16777216)) * (1 + (1 # 16777216)))))%Q) by (rewrite !(Qmult_comm c); apply Qmult_le_compat_r; lra).
  assert (Hx0 : (0 <= c * Z)%Q) by (apply Qmult_le_0_compat; lra). rewrite !Qmult_assoc in B1, B2.
  set (x := (c * Z)%Q) in *. clearbody x. destruct (f32_bounds (I * r)) as [P1 P2]; [lra|]. unfold u32 in *. split; lra.
Qed.

(** The neighbours of a position are pixels of the image.  For a source of this
    size too, they are less than two pixels from the exact position and the
    fraction is one. *)
Lemma sample_spec size n i :
  1 ≤ size ≤ INT_MAX → 1 ≤ n ≤ MAX_SIDE → 0 ≤ i < n → ∃ near next frac,
    sample size i (ratio size n) = Some (near, next, frac) ∧ 0 ≤ near < size ∧ 0 ≤ next < size ∧
    near ≤ next ≤ near + 1 ∧
    (size ≤ MAX_SIDE → (0 <= frac <= 1)%Q ∧ Z.abs (near * n - i * size) < 2 * n).
Proof.
  intros Hs Hn Hi. destruct (pos_bounds size n i Hs Hn Hi) as (c & [Hc0 Hc1] & Hc & Hp). cbv zeta in Hp.
  unfold sample, cast_int. set (pos := fmul (f32 i) (ratio size n)) in *. clearbody pos.
  pose proof (inject_pos size ltac:(lia)) as Hs1. pose proof (inject_pos n ltac:(lia)) as Hn1.
  assert (Hx0 : (0 <= c * inject_Z size)%Q) by (apply Qmult_le_0_compat; lra).
  assert (Hx1 : (c * inject_Z size <= (1 - (1 # 4194304)) * inject_Z size)%Q) by (apply Qmult_le_compat_r; lra).
  assert (Hpos0 : (0 <= pos)%Q) by lra. assert (Hpos1 : (pos < inject_Z size)%Q) by lra.
  rewrite (trunc_floor pos Hpos0). destruct (floor_bounds pos) as [F1 F2]. set (near := Qfloor pos) in *. clearbody near.
  assert (0 ≤ near) as Hn0 by (apply inject_lt; change (inject_Z 0) with 0%Q; lra).
  assert (near < size) as Hnear by (rewrite Zlt_Qlt; lra).
  exists near, (Z.min (near + 1) (size - 1)), (fsub pos (f32 near)).
  split; [unfold to_int, fits_int, INT_MIN, INT_MAX in *; zdecide; cbn; zdecide; done|]. do 3 (split; [lia|]).
  unfold MAX_SIDE. intros HsM. split.
  - apply rnd_unit; [done|]. assert (E : (f32 near == inject_Z near)%Q) by (apply f32_Z; [lia|done]). rewrite E. lra.
  - apply inject_le in HsM. change (inject_Z 4194304) with 4194304%Q in HsM.
    assert (E : (inject_Z (i * size) == inject_Z n * (c * inject_Z size))%Q) by (rewrite inject_Z_mult, <- Hc; ring).
    assert (D1 : (c * inject_Z size - 2 < inject_Z near)%Q) by lra.
    assert (D2 : (inject_Z near < c * inject_Z size + 2)%Q) by lra.
    apply (Qmult_lt_l _ _ (inject_Z n)) in D1, D2; [|lra..].
    apply Z.abs_lt. split; rewrite Zlt_Qlt; unfold Z.sub; rewrite inject_Z_plus, !inject_Z_opp, E, !inject_Z_mult;
      change (inject_Z 2) with 2%Q; lra.
Qed.

(** Without a change of size, positions are exact. *)
Lemma sample_same size i :
  1 ≤ size ≤ MAX_SIDE → 0 ≤ i < size → ∃ next frac, sample size i (ratio size size) = Some (i, next, frac) ∧ (frac == 0)%Q.
Proof.
  unfold MAX_SIDE. intros Hs Hi. exists (Z.min (i + 1) (size - 1)).
  assert (Es : (f32 size == inject_Z size)%Q) by (apply f32_Z; [lia|done]).
  assert (Ei : (f32 i == inject_Z i)%Q) by (apply f32_Z; [lia|done]).
  pose proof (inject_pos size ltac:(lia)) as Hs1.
  assert (Er : (ratio size size == 1)%Q).
  { apply (f32_Z 1); [done|]. rewrite Es. change (inject_Z 1) with 1%Q. field. lra. }
  assert (Ep : (fmul (f32 i) (ratio size size) == inject_Z i)%Q).
  { apply f32_Z; [lia|]. rewrite Er, Ei. ring. }
  unfold sample, cast_int. set (pos := fmul _ _) in *. clearbody pos.
  assert (H0 : (0 <= pos)%Q) by (rewrite Ep; apply (inject_le 0); lia).
  assert (Qfloor pos = i) as Hf by (rewrite Ep; apply Qfloor_Z).
  rewrite trunc_floor, Hf by done. exists (fsub pos (f32 i)).
  split; [unfold to_int, fits_int, INT_MIN, INT_MAX; zdecide; cbn; zdecide; done|].
  unfold fsub. rewrite rnd_0; [done|]. rewrite Ep, Ei. ring.
Qed.

(** ** At concrete inputs *)

Lemma fit_dimensions_witness :
  ∃ dw dh, fit_dimensions 4096 3072 256 256 = Some (dw, dh) ∧
    1 ≤ dw ≤ Z.min 4096 256 ∧ 1 ≤ dh ≤ Z.min 3072 256 ∧
    (4096 ≤ 256 → 3072 ≤ 256 → dw = 4096 ∧ dh = 3072) ∧
    (256 < 4096 ∨ 256 < 3072 →
       (256 * 3072 ≤ 256 * 4096 → dw = 256 ∧ Z.abs (dh * 4096 - 256 * 3072) < 4096) ∧
       (256 * 4096 ≤ 256 * 3072 → dh = 256 ∧ Z.abs (dw * 3072 - 256 * 4096) < 3072)) ∧
    fit_dimensions dw dh 256 256 = Some (dw, dh).
Proof. refine (fit_dimensions_correct 4096 3072 256 256 _ _ _ _); by vm_compute. Defined.

Example fit_runs : map (λ '(w, h), fit_dimensions w h 256 256) [(4096, 3072); (3072, 4096); (200, 100); (10000, 3); (257, 256)] =
  [Some (256, 192); Some (192, 256); Some (200, 100); Some (256, 1); Some (256, 255)].
Proof. vm_compute. reflexivity. Qed.
