(* ===== verification/Resampling.v ===== *)
(** * What the resize kernel computes

    The loops of [Kernel.v] write every byte of the target and read inside of the
    source; what a byte is; and, with Pillow around it, that a thumbnail of the
    compiled backend never meets undefined behaviour. *)

From S2P Require Import Prelude Ieee PyText Prog Processing Kernel.
Local Open Scope Z_scope.

(** ** Memory *)

Lemma load_eq buf off n :
  0 ≤ off → 0 ≤ n → off + n ≤ Z.of_nat (length buf) →
  load buf off n = Some ((λ i, buf !!! Z.to_nat (off + i)) <$> seqZ 0 n).
Proof.
  intros Ho Hn Hl. unfold load, in_buffer. zdecide. cbn [andb]. f_equal.
  apply (list_eq_same_length _ _ (Z.to_nat n)); [by rewrite length_fmap, length_seqZ|rewrite length_take, length_drop; lia|].
  intros i x y Hi. rewrite list_lookup_fmap, lookup_seqZ_lt by lia. cbn.
  rewrite lookup_take_lt, lookup_drop by lia. intros Hx [= <-]. symmetry. apply list_lookup_total_correct.
  rewrite <- Hx. f_equal. lia.
Qed.

(** A buffer is written from front to back: [pre] has been written, the rest is
    as it was in [d0]. *)
Definition written (d0 pre : pybytes) : pybytes := pre ++ drop (length pre) d0.

Lemma store_next d0 pre off bytes :
  Z.of_nat (length pre) = off → off + Z.of_nat (length bytes) ≤ Z.of_nat (length d0) →
  store (written d0 pre) off bytes = Some (written d0 (pre ++ bytes)).
Proof.
  intros Hoff Hl. unfold store, in_buffer, written. rewrite !length_app, length_drop. zdecide. cbn [andb].
  replace (Z.to_nat off) with (length pre) by lia. f_equal. rewrite <- app_assoc. f_equal; [by rewrite take_app_length|].
  f_equal. rewrite drop_app_add, drop_drop. reflexivity.
Qed.

Lemma written_all d0 pre : length pre = length d0 → written d0 pre = pre.
Proof. intros H. unfold written. by rewrite H, drop_all, app_nil_r. Qed.

(** ** Loops *)

Lemma for_from_ind {A} (P : Z → A → Prop) n i body (a : A) :
  P i a → (∀ j a, i ≤ j < i + Z.of_nat n → P j a → ∃ a', body j a = Some a' ∧ P (j + 1) a') →
  ∃ a', for_from n i body a = Some a' ∧ P (i + Z.of_nat n) a'.
Proof.
  revert i a. induction n as [|n IH]; intros i a Ha Hb; cbn [for_from].
  - exists a. split; [done|]. by replace (i + Z.of_nat 0) with i by lia.
  - destruct (Hb i a) as (a' & -> & Ha'); [lia|done|]. destruct (IH (i + 1) a' Ha') as (a2 & Ha2 & HP).
    + intros j b Hj. apply Hb. lia.
    + exists a2. split; [done|]. by replace (i + Z.of_nat (S n)) with (i + 1 + Z.of_nat n) by lia.
Qed.

Lemma for_int_ind {A} (P : Z → A → Prop) n body (a : A) :
  0 ≤ n → P 0 a → (∀ j a, 0 ≤ j < n → P j a → ∃ a', body j a = Some a' ∧ P (j + 1) a') →
  ∃ a', for_int n body a = Some a' ∧ P n a'.
Proof.
  intros Hn Ha Hb. destruct (for_from_ind P (Z.to_nat n) 0 body a Ha) as (a' & Hf & HP).
  - intros j b Hj. apply Hb. lia.
  - exists a'. split; [done|]. by replace n with (0 + Z.of_nat (Z.to_nat n)) by lia.
Qed.

(** A loop with a step that is undefined whatever came before is undefined. *)
Lemma for_from_None {A} n i j body (a : A) :
  i ≤ j < i + Z.of_nat n → (∀ a, body j a = None) → for_from n i body a = None.
Proof.
  revert i a. induction n as [|n IH]; intros i a Hj Hb; [lia|]. cbn [for_from].
  destruct (decide (i = j)) as [->|Hne]; [by rewrite Hb|]. destruct (body i a); [|done]. apply IH; [lia|done].
Qed.

(** Pixels lie in a buffer of their number. *)
Lemma pixel_index w h nc y x :
  0 ≤ y < h → 0 ≤ x < w → 0 ≤ nc → y * w + x + 1 ≤ h * w ∧ 0 ≤ (y * w + x) * nc ∧ (y * w + x) * nc + nc ≤ w * h * nc.
Proof.
  intros Hy Hx Hn. assert (0 ≤ y * w) by (apply Z.mul_nonneg_nonneg; lia).
  assert ((y + 1) * w ≤ h * w) by (apply Z.mul_le_mono_nonneg_r; lia). split; [lia|].
  split; [apply Z.mul_nonneg_nonneg; lia|].
  assert ((y * w + x + 1) * nc ≤ h * w * nc) by (apply Z.mul_le_mono_nonneg_r; lia). lia.
Qed.

(** The two loops over rows and columns: when each turn writes the next pixel,
    all pixels are written. *)
Section raster.
Context {R : Type} (w h nc : Z) (row : Z → option R) (inner : Z → R → Z → pybytes → option pybytes).
Context (byte : Z → Z → Z → Z) (d0 : pybytes).
Hypothesis (Hw : 1 ≤ w) (Hh : 1 ≤ h) (Hnc : 1 ≤ nc) (Hlen : Z.of_nat (length d0) = w * h * nc).
Hypothesis Hrow : ∀ y, 0 ≤ y < h → ∃ r, row y = Some r ∧ ∀ x pre, 0 ≤ x < w →
  Z.of_nat (length pre) = (y * w + x) * nc → (y * w + x) * nc + nc ≤ Z.of_nat (length d0) →
  inner y r x (written d0 pre) = Some (written d0 (pre ++ (byte y x <$> seqZ 0 nc))).

(** The first [k] pixels are written. *)
Definition pixels_written (k : Z) (dst : pybytes) : Prop :=
  ∃ pre, dst = written d0 pre ∧ Z.of_nat (length pre) = k * nc ∧
    ∀ y x c, 0 ≤ y → 0 ≤ x < w → 0 ≤ c < nc → y * w + x < k →
      pre !! Z.to_nat ((y * w + x) * nc + c) = Some (byte y x c).

Lemma pixels_next y x pre :
  0 ≤ y → 0 ≤ x < w → Z.of_nat (length pre) = (y * w + x) * nc →
  (∀ y' x' c, 0 ≤ y' → 0 ≤ x' < w → 0 ≤ c < nc → y' * w + x' < y * w + x →
     pre !! Z.to_nat ((y' * w + x') * nc + c) = Some (byte y' x' c)) →
  pixels_written (y * w + (x + 1)) (written d0 (pre ++ (byte y x <$> seqZ 0 nc))).
Proof.
  intros Hy Hx Hl Hpre. exists (pre ++ (byte y x <$> seqZ 0 nc)). split; [done|].
  split; [rewrite length_app, length_fmap, length_seqZ; lia|]. intros y' x' c Hy' Hx' Hc Hlt.
  destruct (decide (y' * w + x' = y * w + x)) as [E|E].
  - destruct (Z.div_mod_unique w y' y x' x) as [-> ->]; [lia..|]. rewrite lookup_app_r by lia.
    replace (Z.to_nat ((y * w + x) * nc + c) - length pre)%nat with (Z.to_nat c) by lia.
    rewrite list_lookup_fmap, lookup_seqZ_lt by lia. cbn. do 2 f_equal; lia.
  - assert ((y' * w + x' + 1) * nc ≤ (y * w + x) * nc) by (apply Z.mul_le_mono_nonneg_r; lia).
    rewrite lookup_app_l by nia. apply Hpre; [done..|lia].
Qed.

Lemma raster : ∃ out,
  for_int h (λ y dst, row y ≫= λ r, for_int w (inner y r) dst) d0 = Some out ∧ length out = length d0 ∧
  ∀ y x c, 0 ≤ y < h → 0 ≤ x < w → 0 ≤ c < nc → out !! Z.to_nat ((y * w + x) * nc + c) = Some (byte y x c).
Proof.
  destruct (for_int_ind (λ y, pixels_written (y * w)) h (λ y dst, row y ≫= λ r, for_int w (inner y r) dst) d0)
    as (out & Hout & pre & -> & Hl & Hpre); [lia| | |].
  - exists []. split; [done|]. split; [cbn; lia|]. intros y x c Hy Hx _ Hlt.
    assert (0 ≤ y * w) by (apply Z.mul_nonneg_nonneg; lia). lia.
  - intros y dst Hy HP. destruct (Hrow y Hy) as (r & -> & Hin).
    destruct (for_int_ind (λ x, pixels_written (y * w + x)) w (inner y r) dst) as (dst' & Hd & HP'); [lia| | |].
    + by rewrite Z.add_0_r.
    + intros x d Hx (pre & -> & Hl & Hpre). eexists. rewrite Hin; [split; [done|by apply pixels_next; [lia|..]]|done..|].
      rewrite Hlen. by apply pixel_index; [..|lia].
    + exists dst'. split; [exact Hd|]. replace ((y + 1) * w) with (y * w + w) by lia. exact HP'.
  - assert (length pre = length d0) as Hd by lia. rewrite written_all in Hout by done. exists pre.
    split; [exact Hout|]. split; [done|]. intros y x c Hy Hx Hc. apply Hpre; [lia..|].
    destruct (pixel_index w h nc y x); lia.
Qed.
End raster.

(** ** Pixels *)

(** The interpolated value of a channel, of its four corners. *)
Definition value (sse2 : bool) (a b c d fx fy : Q) : Q :=
  if sse2
  then fadd (fmul (fadd (fmul a (fsub 1 fx)) (fmul b fx)) (fsub 1 fy))
            (fmul (fadd (fmul c (fsub 1 fx)) (fmul d fx)) fy)
  else lerp fy (lerp fx a b) (lerp fx c d).

Section pixels.
Context (src : pybytes) (src_w src_h nc : Z).

Definition corner (r c ch : Z) : Z := src !!! Z.to_nat ((r * src_w + c) * nc + ch).

Definition byte_at (sse2 : bool) (row_top row_bot : Z) (frac_y : Q) (col_left col_right : Z) (frac_x : Q) (ch : Z) : Z :=
  trunc (clamp_ps (value sse2
    (inject_Z (corner row_top col_left ch)) (inject_Z (corner row_top col_right ch))
    (inject_Z (corner row_bot col_left ch)) (inject_Z (corner row_bot col_right ch)) frac_x frac_y)).

Hypothesis (Hlen : Z.of_nat (length src) = src_w * src_h * nc) (Hnc : nc = 3 ∨ nc = 4).

Lemma load_pixel_ok r c :
  0 ≤ r < src_h → 0 ≤ c < src_w →
  load_pixel src ((r * src_w + c) * nc) nc = Some (take 4 ((corner r c <$> seqZ 0 nc) ++ replicate 4 0)).
Proof.
  intros Hr Hc. destruct (pixel_index src_w src_h nc r c) as (_ & H0 & H1); [done|done|lia|].
  unfold load_pixel. rewrite load_eq by lia. done.
Qed.

Lemma sse2_pixel_ok rt rb fy cl cr fx :
  0 ≤ rt < src_h → 0 ≤ rb < src_h → 0 ≤ cl < src_w → 0 ≤ cr < src_w →
  sse2_pixel src src_w nc rt rb fy cl cr fx = Some (byte_at true rt rb fy cl cr fx <$> seqZ 0 nc).
Proof.
  intros Hrt Hrb Hcl Hcr. unfold sse2_pixel. rewrite !load_pixel_ok by done. cbn [mbind option_bind]. f_equal.
  unfold byte_at, value, unpack_u8x4_to_ps, pack_ps_to_u8x4, mul_ps, add_ps.
  generalize (corner rt cl) as tl, (corner rt cr) as tr, (corner rb cl) as bl, (corner rb cr) as br. intros tl tr bl br.
  generalize fadd as add, fmul as mul, fsub as sub, trunc as cut, clamp_ps as clamp. intros add mul sub cut clamp.
  destruct Hnc as [-> | ->]; reflexivity.
Qed.

Lemma read_ok r c ch :
  0 ≤ r < src_h → 0 ≤ c < src_w → 0 ≤ ch < nc → src_w * src_h * nc ≤ INT_MAX →
  read src ((r * src_w + c) * nc + ch) = Some (inject_Z (corner r c ch)).
Proof.
  intros Hr Hc Hch Hint. destruct (pixel_index src_w src_h nc r c) as (_ & H0 & H1); [done|done|lia|].
  unfold read, to_int, fits_int, INT_MIN. zdecide. cbn. zdecide. unfold corner.
  destruct (lookup_lt_is_Some_2 src (Z.to_nat ((r * src_w + c) * nc + ch))) as [b Hb]; [lia|].
  by rewrite Hb, (list_lookup_total_correct _ _ _ Hb).
Qed.

Lemma scalar_channel_ok rt rb fy cl cr fx ch :
  0 ≤ rt < src_h → 0 ≤ rb < src_h → 0 ≤ cl < src_w → 0 ≤ cr < src_w → 0 ≤ ch < nc → src_w * src_h * nc ≤ INT_MAX →
  scalar_channel src src_w nc rt rb fy cl cr fx ch = Some (byte_at false rt rb fy cl cr fx ch).
Proof.
  intros. unfold scalar_channel, byte_at, value. rewrite !read_ok by done. cbn [mbind option_bind].
  generalize lerp as mix, clamp_ps as clamp. done.
Qed.
End pixels.

(** ** Values *)

(** A rounded mean of values from [0 .. 256] is between them, but for the roundings. *)
Lemma mix_bounds m M a b f :
  (0 <= m)%Q → (M <= 256)%Q → (m <= a <= M)%Q → (m <= b <= M)%Q → (0 <= f <= 1)%Q →
  (m - (1 # 1000) <= fadd (fmul a (fsub 1 f)) (fmul b f) <= M + (1 # 1000))%Q ∧
  (0 <= fadd (fmul a (fsub 1 f)) (fmul b f))%Q.
Proof.
  intros Hm HM Ha Hb Hf. unfold fadd, fmul, fsub.
  destruct (f32_bounds (1 - f)) as [G1 G2]; [lra|]. set (g := rnd 24 (1 - f)) in *. clearbody g. unfold u32 in *.
  assert (Hg : (0 <= g)%Q) by lra.
  assert (A1 : (m * g <= a * g)%Q) by (apply Qmult_le_compat_r; lra).
  assert (A2 : (a * g <= M * g)%Q) by (apply Qmult_le_compat_r; lra).
  assert (B1 : (m * f <= b * f)%Q) by (apply Qmult_le_compat_r; lra).
  assert (B2 : (b * f <= M * f)%Q) by (apply Qmult_le_compat_r; lra).
  assert (C1 : (m * ((1 - f) * (1 - (1 # 16777216))) <= m * g)%Q) by (rewrite !(Qmult_comm m); apply Qmult_le_compat_r; lra).
  assert (C2 : (M * g <= M * ((1 - f) * (1 + (1 # 16777216))))%Q) by (rewrite !(Qmult_comm M); apply Qmult_le_compat_r; lra).
  assert (D1 : (0 <= m * (1 - f))%Q) by (apply Qmult_le_0_compat; lra).
  assert (D2 : (0 <= m * f)%Q) by (apply Qmult_le_0_compat; lra).
  assert (D3 : (0 <= M * (1 - f))%Q) by (apply Qmult_le_0_compat; lra).
  assert (D4 : (0 <= M * f)%Q) by (apply Qmult_le_0_compat; lra).
  assert (D5 : (M * (1 - f) + M * f == M)%Q) by ring. assert (D6 : (m * (1 - f) + m * f == m)%Q) by ring.
  rewrite Qmult_assoc in C1, C2.
  set (mf := (m * f)%Q) in *. set (Mf := (M * f)%Q) in *. set (mf' := (m * (1 - f))%Q) in *.
  set (Mf' := (M * (1 - f))%Q) in *. set (mg := (m * g)%Q) in *. set (Mg := (M * g)%Q) in *.
  set (ag := (a * g)%Q) in *. set (bf := (b * f)%Q) in *. clearbody mf Mf mf' Mf' mg Mg ag bf.
  destruct (f32_bounds ag) as [P1 P2]; [lra|]. destruct (f32_bounds bf) as [Q1 Q2]; [lra|]. unfold u32 in *.
  set (p := rnd 24 ag) in *. set (q := rnd 24 bf) in *. clearbody p q.
  destruct (f32_bounds (p + q)) as [R1 R2]; [lra|]. unfold u32 in *. split_and!; lra.
Qed.

Lemma lerp_bounds m M a b f :
  (-1 <= m)%Q → (M <= 256)%Q → (m <= a <= M)%Q → (m <= b <= M)%Q → (0 <= f <= 1)%Q →
  (m - (1 # 1000) <= lerp f a b <= M + (1 # 1000))%Q.
Proof.
  intros Hm HM Ha Hb Hf. unfold lerp, fadd, fmul, fsub.
  destruct (f32_error (b - a) 257) as [D1 D2]; [apply Qabs_Qle_condition; lra|].
  set (d := rnd 24 (b - a)) in *. clearbody d. unfold u32 in *.
  assert (F1 : (f * (b - a - 257 * (1 # 16777216)) <= f * d)%Q) by (rewrite !(Qmult_comm f); apply Qmult_le_compat_r; lra).
  assert (F2 : (f * d <= f * (b - a + 257 * (1 # 16777216)))%Q) by (rewrite !(Qmult_comm f); apply Qmult_le_compat_r; lra).
  assert (B1 : (0 <= f * (b - m))%Q) by (apply Qmult_le_0_compat; lra).
  assert (B2 : (0 <= f * (M - b))%Q) by (apply Qmult_le_0_compat; lra).
  assert (A1 : (0 <= (1 - f) * (a - m))%Q) by (apply Qmult_le_0_compat; lra).
  assert (A2 : (0 <= (1 - f) * (M - a))%Q) by (apply Qmult_le_0_compat; lra).
  set (fd := (f * d)%Q) in *. clearbody fd.
  assert (S1 : (m <= a + f * (b - a))%Q) by lra. assert (S2 : (a + f * (b - a) <= M)%Q) by lra.
  set (t := (f * (b - a))%Q) in *.
  assert (F1' : (t - (1 # 10000) <= fd)%Q) by (subst t; lra). assert (F2' : (fd <= t + (1 # 10000))%Q) by (subst t; lra).
  clearbody t. clear F1 F2 B1 B2 A1 A2.
  destruct (f32_error fd 258) as [E1 E2]; [apply Qabs_Qle_condition; lra|]. unfold u32 in *.
  set (e := rnd 24 fd) in *. clearbody e.
  destruct (f32_error (a + e) 258) as [R1 R2]; [apply Qabs_Qle_condition; lra|]. unfold u32 in *. split; lra.
Qed.

Lemma value_bounds sse2 m M a b c d fx fy :
  (0 <= m)%Q → (M <= 255)%Q → (m <= a <= M)%Q → (m <= b <= M)%Q → (m <= c <= M)%Q → (m <= d <= M)%Q →
  (0 <= fx <= 1)%Q → (0 <= fy <= 1)%Q →
  (m - (1 # 100) <= value sse2 a b c d fx fy <= M + (1 # 100))%Q.
Proof.
  intros Hm HM Ha Hb Hc Hd Hfx Hfy. destruct sse2; unfold value.
  - destruct (mix_bounds m M a b fx Hm ltac:(lra) Ha Hb Hfx) as [T T0].
    destruct (mix_bounds m M c d fx Hm ltac:(lra) Hc Hd Hfx) as [B B0].
    set (t := fadd _ _) in T, T0 |- *. set (u := fadd _ _) in B, B0 |- *. clearbody t u.
    destruct (Qlt_le_dec m (1 # 1000)) as [Hs|Hs].
    + destruct (mix_bounds 0 (M + (1 # 1000)) t u fy ltac:(lra) ltac:(lra) ltac:(lra) ltac:(lra) Hfy). split; lra.
    + destruct (mix_bounds (m - (1 # 1000)) (M + (1 # 1000)) t u fy ltac:(lra) ltac:(lra) T B Hfy). split; lra.
  - pose proof (lerp_bounds m M a b fx ltac:(lra) ltac:(lra) Ha Hb Hfx) as T.
    pose proof (lerp_bounds m M c d fx ltac:(lra) ltac:(lra) Hc Hd Hfx) as B.
    pose proof (lerp_bounds (m - (1 # 1000)) (M + (1 # 1000)) _ _ fy ltac:(lra) ltac:(lra) T B Hfy). split; lra.
Qed.

(** The byte made of it: between the smallest of the corners less one (the value
    is cut off, not rounded) and the largest. *)
Lemma byte_bounds m M v :
  0 ≤ m → M ≤ 255 → m ≤ M → (inject_Z m - (1 # 100) <= v <= inject_Z M + (1 # 100))%Q →
  m - 1 ≤ trunc (clamp_ps v) ≤ M.
Proof.
  intros Hm HM HmM Hv. apply inject_le in Hm as Hm', HM as HM', HmM as HmM'.
  change (inject_Z 0) with 0%Q in Hm'. change (inject_Z 255) with 255%Q in HM'.
  assert (Hc : (0 <= clamp_ps v ∧ inject_Z m - (1 # 100) <= clamp_ps v <= inject_Z M + (1 # 100))%Q).
  { unfold clamp_ps. destruct (Qle_bool v 255) eqn:E1; [apply Qle_bool_iff in E1|apply Qle_bool_false in E1];
      (destruct (Qle_bool 0 _) eqn:E2; [apply Qle_bool_iff in E2|apply Qle_bool_false in E2]); split_and!; lra. }
  destruct Hc as (Hc0 & Hc1 & Hc2). rewrite trunc_floor by done.
  destruct (floor_bounds (clamp_ps v)) as [F1 F2]. split; [|apply inject_lt; lra].
  apply inject_lt. unfold Z.sub. rewrite inject_Z_plus. change (inject_Z (- (1))) with (-1)%Q. lra.
Qed.

(** At a position that is exact, it is the byte there. *)
Lemma value_exact sse2 a b c d fx fy :
  0 ≤ a ≤ 255 → (fx == 0)%Q → (fy == 0)%Q →
  trunc (clamp_ps (value sse2 (inject_Z a) b c d fx fy)) = a.
Proof.
  intros Ha Hx Hy.
  assert (Hf : ∀ x, (x == inject_Z a)%Q → (rnd 24 x == inject_Z a)%Q) by (intros x Hx'; apply f32_Z; [lia|done]).
  assert (H1 : (fsub 1 fx == 1)%Q).
  { apply (f32_Z 1); [done|]. rewrite Hx. reflexivity. }
  assert (H1' : (fsub 1 fy == 1)%Q).
  { apply (f32_Z 1); [done|]. rewrite Hy. reflexivity. }
  assert (H0 : ∀ z, (rnd 24 (z * fx) == 0)%Q).
  { intros z. rewrite rnd_0; [done|]. rewrite Hx. ring. }
  assert (H0' : ∀ z, (rnd 24 (z * fy) == 0)%Q).
  { intros z. rewrite rnd_0; [done|]. rewrite Hy. ring. }
  assert (Hv : (value sse2 (inject_Z a) b c d fx fy == inject_Z a)%Q).
  { unfold value. destruct sse2.
    - unfold fadd, fmul. apply Hf. rewrite H0', Qplus_0_r. apply Hf. rewrite H1', Qmult_1_r. apply Hf.
      rewrite H0, Qplus_0_r. apply Hf. rewrite H1. ring.
    - unfold lerp, fadd, fmul. apply Hf. rewrite (Qmult_comm fy), H0', Qplus_0_r. apply Hf.
      rewrite (Qmult_comm fx), H0. ring. }
  set (v := value _ _ _ _ _ _ _) in *. clearbody v. destruct (byte_bounds a a v) as [B1 B2]; [lia..|split; lra|].
  pose proof (inject_le 0 a ltac:(lia)) as A0. pose proof (inject_le a 255 ltac:(lia)) as A1.
  change (inject_Z 0) with 0%Q in A0. change (inject_Z 255) with 255%Q in A1.
  assert (E : clamp_ps v = v).
  { unfold clamp_ps. rewrite (proj2 (Qle_bool_iff v 255)) by lra. by rewrite (proj2 (Qle_bool_iff 0 v)) by lra. }
  rewrite E, trunc_floor by lra. by rewrite Hv, Qfloor_Z.
Qed.

(** ** The whole image *)

Lemma for_from_ext {A} n i (body body' : Z → A → option A) a :
  (∀ j a, body j a = body' j a) → for_from n i body a = for_from n i body' a.
Proof.
  intros H. revert i a. induction n as [|n IH]; intros i a; cbn [for_from]; [done|].
  rewrite H. destruct (body' i a); [apply IH|done].
Qed.

Definition sampled : Type := Z * Z * Q.

(** The inner loops' bodies, for a sampled row. *)
Definition sse2_inner (src : pybytes) (src_w nc dst_w : Z) (dst_y : Z) (r : sampled) (dst_x : Z) (dst : pybytes) :
    option pybytes :=
  let '(row_top, row_bot, frac_y) := r in
  '(col_left, col_right, frac_x) ← sample src_w dst_x (ratio src_w dst_w);
  pixel ← sse2_pixel src src_w nc row_top row_bot frac_y col_left col_right frac_x;
  store dst ((dst_y * dst_w + dst_x) * nc) pixel.

Definition scalar_inner (src : pybytes) (src_w nc dst_w : Z) (dst_y : Z) (r : sampled) (dst_x : Z) (dst : pybytes) :
    option pybytes :=
  let '(row_top, row_bot, frac_y) := r in
  '(col_left, col_right, frac_x) ← sample src_w dst_x (ratio src_w dst_w);
  for_int nc (λ chan dst,
    byte ← scalar_channel src src_w nc row_top row_bot frac_y col_left col_right frac_x chan;
    index ← to_int ((dst_y * dst_w + dst_x) * nc + chan);
    store dst index [byte]) dst.

Lemma resize_loops sse2 src w h nc dst dw dh :
  resize sse2 src w h nc dst dw dh =
  for_int dh (λ y dst, sample h y (ratio h dh) ≫= λ r,
    for_int dw ((if sse2 then sse2_inner else scalar_inner) src w nc dw y r) dst) dst.
Proof.
  unfold resize. destruct sse2; apply for_from_ext; intros y d; by destruct (sample h y _) as [[[] ?]|].
Qed.

(** The byte of a channel of a target pixel. *)
Definition target_byte (sse2 : bool) (src : pybytes) (w h nc dw dh y x ch : Z) : Z :=
  match sample h y (ratio h dh), sample w x (ratio w dw) with
  | Some (rt, rb, fy), Some (cl, cr, fx) => byte_at src w nc sse2 rt rb fy cl cr fx ch
  | _, _ => 0
  end.

(** The scalar loop over the channels writes the pixel. *)
Lemma scalar_pixel_ok src w h nc d0 pre k byte rt rb fy cl cr fx :
  Z.of_nat (length src) = w * h * nc → nc = 3 ∨ nc = 4 → w * h * nc ≤ INT_MAX →
  0 ≤ rt < h → 0 ≤ rb < h → 0 ≤ cl < w → 0 ≤ cr < w →
  (∀ ch, byte ch = byte_at src w nc false rt rb fy cl cr fx ch) →
  Z.of_nat (length pre) = k → 0 ≤ k → k + nc ≤ Z.of_nat (length d0) → Z.of_nat (length d0) ≤ INT_MAX →
  for_int nc (λ chan dst,
    b ← scalar_channel src w nc rt rb fy cl cr fx chan; index ← to_int (k + chan); store dst index [b]) (written d0 pre)
  = Some (written d0 (pre ++ (byte <$> seqZ 0 nc))).
Proof.
  intros Hlen Hnc Hint Hrt Hrb Hcl Hcr Hbyte Hpre Hk Hd0 Hd0'.
  match goal with |- for_int nc ?b _ = _ => set (body := b) end.
  destruct (for_int_ind (λ ch dst, dst = written d0 (pre ++ (byte <$> seqZ 0 ch))) nc body (written d0 pre))
    as (d & Hd & ->); [lia|by rewrite app_nil_r| |exact Hd].
  intros ch dst Hch ->. unfold body. erewrite scalar_channel_ok by done. cbn [mbind option_bind].
  unfold to_int, fits_int, INT_MIN. zdecide. cbn. rewrite store_next.
  - eexists. split; [done|]. rewrite <- app_assoc. do 2 f_equal. rewrite (seqZ_app 0 ch 1) by lia. rewrite fmap_app. f_equal.
    replace (seqZ (0 + ch) 1) with [ch] by done. rewrite list_fmap_singleton. by rewrite Hbyte.
  - rewrite length_app, length_fmap, length_seqZ. lia.
  - cbn. lia.
Qed.

(** Both paths, on an image whose buffer has the right length, into any buffer
    that does: every byte is written, with the value of its channel. *)
Lemma resize_ok sse2 src w h nc d0 dw dh :
  1 ≤ w ≤ INT_MAX → 1 ≤ h ≤ INT_MAX → 1 ≤ dw ≤ MAX_SIDE → 1 ≤ dh ≤ MAX_SIDE → nc = 3 ∨ nc = 4 →
  Z.of_nat (length src) = w * h * nc → Z.of_nat (length d0) = dw * dh * nc →
  (sse2 = false → w * h * nc ≤ INT_MAX ∧ dw * dh * nc ≤ INT_MAX) →
  ∃ out, resize sse2 src w h nc d0 dw dh = Some out ∧ length out = length d0 ∧
    ∀ y x ch, 0 ≤ y < dh → 0 ≤ x < dw → 0 ≤ ch < nc →
      out !! Z.to_nat ((y * dw + x) * nc + ch) = Some (target_byte sse2 src w h nc dw dh y x ch).
Proof.
  intros Hw Hh Hdw Hdh Hnc Hlen Hd0 Hint. rewrite resize_loops.
  apply (raster dw dh nc (λ y, sample h y (ratio h dh))
    ((if sse2 then sse2_inner else scalar_inner) src w nc dw) (target_byte sse2 src w h nc dw dh)); [lia..|].
  intros y Hy. destruct (sample_spec h dh y Hh Hdh Hy) as (rt & rb & fy & Hsy & Hrt & Hrb & _).
  exists (rt, rb, fy). split; [done|]. intros x pre Hx Hpre Hd.
  destruct (sample_spec w dw x Hw Hdw Hx) as (cl & cr & fx & Hsx & Hcl & Hcr & _).
  assert (Hbyte : ∀ ch, target_byte sse2 src w h nc dw dh y x ch = byte_at src w nc sse2 rt rb fy cl cr fx ch)
    by (intros ch; unfold target_byte; by rewrite Hsy, Hsx).
  destruct sse2; cbn [sse2_inner scalar_inner]; [unfold sse2_inner|unfold scalar_inner]; rewrite Hsx; cbn [mbind option_bind].
  - rewrite (sse2_pixel_ok src w h) by done. cbn [mbind option_bind].
    rewrite store_next; [|done|rewrite length_fmap, length_seqZ; lia].
    do 3 f_equal. apply list_fmap_ext. intros _ ch _. by rewrite Hbyte.
  - destruct (Hint eq_refl) as [Hi1 Hi2]. eapply scalar_pixel_ok; try done; lia.
Qed.

(** Every index is that of a channel of a pixel. *)
Lemma index_split w h nc (i : nat) :
  1 ≤ w → 1 ≤ nc → Z.of_nat i < w * h * nc →
  ∃ y x ch, 0 ≤ y < h ∧ 0 ≤ x < w ∧ 0 ≤ ch < nc ∧ i = Z.to_nat ((y * w + x) * nc + ch).
Proof.
  intros Hw Hnc Hi. set (k := Z.of_nat i / nc). exists (k / w), (k mod w), (Z.of_nat i mod nc).
  assert (Hk : 0 ≤ k < h * w) by (split; [apply Z.div_pos; lia|apply Z.div_lt_upper_bound; lia]).
  split; [split; [apply Z.div_pos; lia|apply Z.div_lt_upper_bound; lia]|].
  split; [apply Z.mod_pos_bound; lia|]. split; [apply Z.mod_pos_bound; lia|].
  pose proof (Z.div_mod k w ltac:(lia)). pose proof (Z.div_mod (Z.of_nat i) nc ltac:(lia)) as Hd. fold k in Hd. lia.
Qed.

(** So an image is determined by its channels. *)
Lemma image_ext w h nc (img img' : pybytes) :
  1 ≤ w → 1 ≤ nc → Z.of_nat (length img) = w * h * nc → length img' = length img →
  (∀ y x ch, 0 ≤ y < h → 0 ≤ x < w → 0 ≤ ch < nc →
     img !! Z.to_nat ((y * w + x) * nc + ch) = img' !! Z.to_nat ((y * w + x) * nc + ch)) →
  img = img'.
Proof.
  intros Hw Hnc Hl Hl' H. apply (list_eq_same_length _ _ (length img)); [done|done|]. intros i a b Hi Ha Hb.
  destruct (index_split w h nc i) as (y & x & ch & Hy & Hx & Hch & ->); [done|done|lia|].
  rewrite H in Ha by done. congruence.
Qed.

(** *** What a resized image shows *)

(** The two pixels around the position of [i] when [size] pixels become [n]. *)
Definition neighbours (size n i near next : Z) : Prop :=
  0 ≤ near < size ∧ 0 ≤ next < size ∧ near ≤ next ≤ near + 1 ∧ Z.abs (near * n - i * size) < 2 * n.

(** A channel of the target is at most the largest, and at least the smallest less one,
    of the same channel of the four pixels around its position. *)
Definition interpolates (src : pybytes) (w h nc dw dh y x ch b : Z) : Prop :=
  ∃ r r' c c', neighbours h dh y r r' ∧ neighbours w dw x c c' ∧
    ∀ m M, (∀ i j, i = r ∨ i = r' → j = c ∨ j = c' → m ≤ corner src w nc i j ch ≤ M) → m - 1 ≤ b ≤ M.

Section images.
Context (sse2 : bool) (src : pybytes) (w h nc dw dh : Z).
Hypothesis Hbytes : Forall (λ b, 0 ≤ b ≤ 255) src.
Hypothesis Hnc : nc = 3 ∨ nc = 4.
Hypothesis Hlen : Z.of_nat (length src) = w * h * nc.

Lemma corner_byte r c ch : 0 ≤ r < h → 0 ≤ c < w → 0 ≤ ch < nc → 0 ≤ corner src w nc r c ch ≤ 255.
Proof.
  intros Hr Hc Hch. destruct (pixel_index w h nc r c) as (_ & H0 & H1); [done|done|lia|].
  destruct (lookup_lt_is_Some_2 src (Z.to_nat ((r * w + c) * nc + ch))) as [b Hb]; [lia|].
  unfold corner. rewrite (list_lookup_total_correct _ _ _ Hb). by eapply (Forall_lookup_1 _ _ _ _ Hbytes).
Qed.

Lemma target_interpolates y x ch :
  1 ≤ w ≤ MAX_SIDE → 1 ≤ h ≤ MAX_SIDE → 1 ≤ dw ≤ MAX_SIDE → 1 ≤ dh ≤ MAX_SIDE →
  0 ≤ y < dh → 0 ≤ x < dw → 0 ≤ ch < nc →
  interpolates src w h nc dw dh y x ch (target_byte sse2 src w h nc dw dh y x ch).
Proof.
  intros Hw Hh Hdw Hdh Hy Hx Hch. assert (MAX_SIDE ≤ INT_MAX) as HM by done.
  destruct (sample_spec h dh y ltac:(lia) Hdh Hy) as (rt & rb & fy & Hsy & Hrt & Hrb & Hr & Hfy).
  destruct (sample_spec w dw x ltac:(lia) Hdw Hx) as (cl & cr & fx & Hsx & Hcl & Hcr & Hc & Hfx).
  destruct Hfy as [Hfy Hdy]; [lia|]. destruct Hfx as [Hfx Hdx]; [lia|].
  exists rt, rb, cl, cr. split; [done|]. split; [done|]. intros m M Hm.
  unfold target_byte. rewrite Hsy, Hsx. unfold byte_at.
  pose proof (Hm rt cl ltac:(auto) ltac:(auto)) as H1. pose proof (Hm rt cr ltac:(auto) ltac:(auto)) as H2.
  pose proof (Hm rb cl ltac:(auto) ltac:(auto)) as H3. pose proof (Hm rb cr ltac:(auto) ltac:(auto)) as H4.
  pose proof (corner_byte rt cl ch Hrt Hcl Hch) as B1. pose proof (corner_byte rt cr ch Hrt Hcr Hch) as B2.
  pose proof (corner_byte rb cl ch Hrb Hcl Hch) as B3. pose proof (corner_byte rb cr ch Hrb Hcr Hch) as B4.
  clear Hm. generalize dependent (corner src w nc rt cl ch). intros a H1 B1. generalize dependent (corner src w nc rt cr ch).
  intros b H2 B2. generalize dependent (corner src w nc rb cl ch). intros c H3 B3.
  generalize dependent (corner src w nc rb cr ch). intros d H4 B4.
  set (m' := Z.max 0 m). set (M' := Z.min 255 M).
  assert (m' - 1 ≤ trunc (clamp_ps (value sse2 (inject_Z a) (inject_Z b) (inject_Z c) (inject_Z d) fx fy)) ≤ M'); [|lia].
  apply byte_bounds; [lia..|]. apply value_bounds; try done; try split; apply inject_le; lia.
Qed.

(** Where the size does not change, the byte does not. *)
Lemma target_same y x ch :
  1 ≤ w ≤ MAX_SIDE → 1 ≤ h ≤ MAX_SIDE → dw = w → dh = h → 0 ≤ y < h → 0 ≤ x < w → 0 ≤ ch < nc →
  target_byte sse2 src w h nc dw dh y x ch = corner src w nc y x ch.
Proof.
  intros Hw Hh -> -> Hy Hx Hch. destruct (sample_same h y Hh Hy) as (rb & fy & Hsy & Hfy).
  destruct (sample_same w x Hw Hx) as (cr & fx & Hsx & Hfx). unfold target_byte. rewrite Hsy, Hsx.
  apply value_exact; [by apply corner_byte|done..].
Qed.
End images.

(** *** Calls *)

Definition int_sized (sse2 : bool) (n : Z) : Prop := sse2 = false → n ≤ INT_MAX.

(** Past the checks there is only the loop. *)
Lemma resize_with_valid sse2 alloc src w h nc dw dh :
  1 ≤ w → 1 ≤ h → 1 ≤ dw → 1 ≤ dh → nc = 3 ∨ nc = 4 → Z.of_nat (length src) = w * h * nc →
  w * h * nc < 2 ^ 63 → dw * dh * nc < 2 ^ 63 →
  bilinear_resize_with sse2 alloc src w h nc dw dh =
  (out ← resize sse2 src w h nc (alloc (dw * dh * nc)) dw dh; Some (Ok out)).
Proof.
  intros Hw Hh Hdw Hdh Hnc Hlen Hs Hd. assert (0 ≤ dw * dh * nc) by (do 2 (apply Z.mul_nonneg_nonneg; [|lia]); lia).
  unfold bilinear_resize_with. rewrite (proj2 (andb_false_iff _ _)) by (destruct Hnc as [-> | ->]; auto).
  zdecide. cbn [orb]. unfold to_ssize. zdecide. cbn. rewrite Hlen. by rewrite Z.eqb_refl.
Qed.

Lemma resize_with_ok sse2 alloc src w h nc dw dh :
  1 ≤ w ≤ INT_MAX → 1 ≤ h ≤ INT_MAX → 1 ≤ dw ≤ MAX_SIDE → 1 ≤ dh ≤ MAX_SIDE → nc = 3 ∨ nc = 4 →
  Z.of_nat (length src) = w * h * nc → w * h * nc < 2 ^ 63 → (∀ n, length (alloc n) = Z.to_nat n) →
  int_sized sse2 (w * h * nc) → int_sized sse2 (dw * dh * nc) →
  ∃ out, bilinear_resize_with sse2 alloc src w h nc dw dh = Some (Ok out) ∧ Z.of_nat (length out) = dw * dh * nc ∧
    ∀ y x ch, 0 ≤ y < dh → 0 ≤ x < dw → 0 ≤ ch < nc →
      out !! Z.to_nat ((y * dw + x) * nc + ch) = Some (target_byte sse2 src w h nc dw dh y x ch).
Proof.
  intros Hw Hh Hdw Hdh Hnc Hlen Hs Halloc Hi1 Hi2.
  assert (0 ≤ dw * dh * nc) by (do 2 (apply Z.mul_nonneg_nonneg; [|lia]); lia).
  assert (dw * dh * nc < 2 ^ 63) by (unfold MAX_SIDE in *; assert (dw * dh ≤ 4194304 * 4194304) by nia; lia).
  destruct (resize_ok sse2 src w h nc (alloc (dw * dh * nc)) dw dh) as (out & Hout & Hl & Hb); try done.
  { rewrite Halloc. lia. } { intros E. by split; [apply Hi1|apply Hi2]. }
  exists out. rewrite resize_with_valid, Hout by (done || lia). split; [done|]. split; [rewrite Hl, Halloc; lia|done].
Qed.

(** A call is defined whatever its arguments, if the target is not enormous. *)
Lemma resize_bytes_defined sse2 src w h nc dw dh :
  w ≤ INT_MAX → h ≤ INT_MAX → dw ≤ MAX_SIDE → dh ≤ MAX_SIDE → w * h * 4 < 2 ^ 63 →
  int_sized sse2 (w * h * 4) → int_sized sse2 (dw * dh * 4) →
  is_Some (bilinear_resize_bytes sse2 src w h nc dw dh).
Proof.
  intros Hw Hh Hdw Hdh Hs Hi1 Hi2.
  destruct (negb (nc =? 3) && negb (nc =? 4)) eqn:E1; [unfold bilinear_resize_bytes, bilinear_resize_with; rewrite E1; by eexists|].
  destruct ((w <=? 0) || (h <=? 0) || (dw <=? 0) || (dh <=? 0)) eqn:E2;
    [unfold bilinear_resize_bytes, bilinear_resize_with; rewrite E1, E2; by eexists|].
  assert (Hnc : nc = 3 ∨ nc = 4) by (apply andb_false_iff in E1 as [E1|E1]; zbool; lia).
  assert (Hsrc : 0 ≤ w * h * nc ≤ w * h * 4) by (zbool; assert (0 ≤ w * h) by (apply Z.mul_nonneg_nonneg; lia); nia).
  assert (Hdst : 0 ≤ dw * dh * nc ≤ dw * dh * 4) by (zbool; assert (0 ≤ dw * dh) by (apply Z.mul_nonneg_nonneg; lia); nia).
  destruct (decide (Z.of_nat (length src) = w * h * nc)) as [Hlen|Hlen].
  - zbool. destruct (resize_with_ok sse2 (λ n, replicate (Z.to_nat n) 0) src w h nc dw dh) as (out & Hout & _);
      try done; try lia; [intros n; apply length_replicate|..]; intros E; [specialize (Hi1 E)|specialize (Hi2 E)]; lia.
  - unfold bilinear_resize_bytes, bilinear_resize_with. rewrite E1, E2. unfold to_ssize. zdecide. cbn.
    rewrite (proj2 (Z.eqb_neq _ _)) by done. by eexists.
Qed.

(** C23: Resizing.  On an image of either number of channels whose buffer has the right
    length, up to [MAX_SIDE] pixels in each direction, nothing is read or
    written out of bounds; the function that fills a new string and the one that
    fills an array it has not initialized give the same image of the new size; each of
    its bytes lies between those of the four pixels around its position (less
    one); and without a change of size it is the source. *)
Theorem resize_correct (sse2 : bool) (src : pybytes) (w h nc dw dh : Z) (garbage : Z → pybytes) :
  Forall (λ b, 0 ≤ b ≤ 255) src → Z.of_nat (length src) = w * h * nc → nc = 3 ∨ nc = 4 →
  1 ≤ w ≤ MAX_SIDE → 1 ≤ h ≤ MAX_SIDE → 1 ≤ dw ≤ MAX_SIDE → 1 ≤ dh ≤ MAX_SIDE →
  int_sized sse2 (w * h * nc) → int_sized sse2 (dw * dh * nc) → (∀ n, length (garbage n) = Z.to_nat n) →
  ∃ out, bilinear_resize_bytes sse2 src w h nc dw dh = Some (Ok out) ∧
    bilinear_resize sse2 garbage src w h nc dw dh = Some (Ok out) ∧
    Z.of_nat (length out) = dw * dh * nc ∧
    (∀ y x ch, 0 ≤ y < dh → 0 ≤ x < dw → 0 ≤ ch < nc →
       ∃ b, out !! Z.to_nat ((y * dw + x) * nc + ch) = Some b ∧ interpolates src w h nc dw dh y x ch b) ∧
    (dw = w → dh = h → out = src).
Proof.
  intros Hbytes Hlen Hnc Hw Hh Hdw Hdh Hi1 Hi2 Hg. assert (MAX_SIDE ≤ INT_MAX) as HM by done.
  assert (w * h * nc < 2 ^ 63) by (unfold MAX_SIDE in *; assert (w * h ≤ 4194304 * 4194304) by nia; lia).
  destruct (resize_with_ok sse2 (λ n, replicate (Z.to_nat n) 0) src w h nc dw dh) as (out & Hout & Hl & Hb);
    try done; try lia; [intros n; apply length_replicate|].
  destruct (resize_with_ok sse2 garbage src w h nc dw dh) as (out' & Hout' & Hl' & Hb'); try done; try lia.
  exists out. split; [exact Hout|]. split; [|split; [exact Hl|split]].
  - unfold bilinear_resize. rewrite Hout'. do 2 f_equal. symmetry. apply (image_ext dw dh nc); [lia|lia|done|lia|].
    intros y x ch Hy Hx Hch. by rewrite Hb, Hb'.
  - intros y x ch Hy Hx Hch. eexists. split; [by apply Hb|]. by apply target_interpolates.
  - intros -> ->. apply (image_ext w h nc); [lia|lia|done|lia|]. intros y x ch Hy Hx Hch. rewrite Hb by done.
    erewrite target_same by done. symmetry. apply list_lookup_lookup_total_lt.
    destruct (pixel_index w h nc y x) as (_ & ? & ?); [done|done|lia|]. lia.
Qed.

(** Enormous targets: the last column of a row of five pixels made sixteen million is
    read out of the image. *)
Lemma enormous_target dst : bilinear_resize_sse2 (white 15) 5 1 3 dst 16777215 1 = None.
Proof.
  unfold bilinear_resize_sse2, for_int. change (Z.to_nat 1) with 1%nat. cbn [for_from].
  replace (sample 1 0 (ratio 1 1)) with (Some (0, 0, 0%Q)) by (vm_compute; reflexivity). cbn [mbind option_bind].
  rewrite (for_from_None _ _ 16777214); [done|lia|]. intros a. rewrite sample_out. reflexivity.
Qed.

(** ** The module that the processor calls *)

Section module.
Context (sse2 : bool).

(** Its promise to the processor. *)
#[export] Instance fast_resize_laws undefined : FastResizeLaws (fast_resize sse2 undefined).
Proof.
  split. intros w h mw mh d Hw Hh Hmw Hmh. cbn [Processing.fit_dimensions fast_resize]. unfold int_args.
  destruct (forallb _ _) eqn:Hi; [|done]. cbn in Hi. unfold fits_int in Hi. zbool. cbn [mbind outcome_bind].
  destruct (fit_dimensions_spec w h mw mh) as (dw & dh & -> & Hdw & Hdh & _); [lia..|]. by intros [= <-].
Qed.

Context `{Pillow, !PillowLaws} (undefined undefined' : ∀ A, outcome A).

Lemma resize_cpp_defined img box :
  1 ≤ (pil_size img).1 → 1 ≤ (pil_size img).2 → pixels img < 2 ^ 29 - 1 →
  1 ≤ box.1 ≤ MAX_SIDE → 1 ≤ box.2 ≤ MAX_SIDE →
  resize_cpp (fast_resize sse2 undefined) img box = resize_cpp (fast_resize sse2 undefined') img box.
Proof.
  intros Hw Hh Hpx Hbw Hbh. unfold resize_cpp, pixels in *. destruct (pil_size img) as [w h]. cbn [fst snd] in *.
  assert (MAX_SIDE ≤ INT_MAX) as HM by done.
  cbn [Processing.fit_dimensions Processing.bilinear_resize_bytes fast_resize].
  destruct (int_args _) as [u|e] eqn:Hi; [|done]. unfold int_args in Hi. destruct (forallb _ _) eqn:Hf; [|done].
  cbn in Hf. unfold fits_int in Hf. zbool. cbn [mbind outcome_bind].
  destruct (fit_dimensions_spec w h box.1 box.2) as (dw & dh & Hd & Hdw & Hdh & _); [lia..|]. rewrite Hd. cbn.
  destruct (fit_shrinks w h box.1 box.2 dw dh) as [Hsw Hsh]; [lia..|done|].
  case_bool_decide; [done|]. destruct (pil_tobytes img) as [raw|e]; [|done]. cbn [mbind outcome_bind].
  set (nc := Z.of_nat (length (pil_bands img))). destruct (int_args _); [|done]. cbn [mbind outcome_bind].
  assert (Hdef : is_Some (bilinear_resize_bytes sse2 raw w h nc dw dh)); [|by destruct Hdef as [o ->]].
  apply resize_bytes_defined; [lia..| | |]; unfold int_sized, INT_MAX; nia.
Qed.

(** C24: Thumbnails.  A thumbnail the compiled backend makes of a file, for any box up
    to [MAX_SIDE], does not depend on what undefined behaviour would do: nothing
    is read or written out of bounds and no integer overflows, whatever the file
    holds; and it lies in the box.  Pillow's limit on pixels is what bounds
    the indices. *)
Theorem cpp_thumbnail_defined (data : pybytes) (box : Z * Z) :
  1 ≤ box.1 ≤ MAX_SIDE → 1 ≤ box.2 ≤ MAX_SIDE → pil_default_limit < 2 ^ 28 →
  let o := generate_thumbnail_cpp_sync (fast_resize sse2 undefined) data box in
  o = generate_thumbnail_cpp_sync (fast_resize sse2 undefined') data box ∧
  ∀ r, o = Ok r → thumbnail_ok box data r.
Proof.
  intros Hw Hh Hlimit o. split; [|intros r; apply cpp_thumbnail_ok; [apply _|lia..]].
  unfold o, generate_thumbnail_cpp_sync. destruct (pil_open pil_default_limit data) as [img|e] eqn:Ho; [|done].
  cbn [mbind outcome_bind]. destruct (normalize_mode img) as [img'|e] eqn:Hn; [|done]. cbn [mbind outcome_bind].
  apply normalize_mode_size in Hn. pose proof (pil_open_limit _ _ _ Ho) as Hpx.
  destruct (pil_open_size _ _ _ Ho) as [H1 H2]. unfold pixels in Hpx.
  rewrite resize_cpp_defined; [done|rewrite Hn; lia..| | |]; [unfold pixels; rewrite Hn; lia|lia..].
Qed.
End module.

(** ** At concrete inputs *)

(** Two pixels made three, and four. *)
Definition two_pixels : pybytes := [0; 100; 255; 200; 100; 55].

Lemma resize_witness :
  ∃ out, bilinear_resize_bytes true two_pixels 2 1 3 3 1 = Some (Ok out) ∧
    bilinear_resize true (λ n, replicate (Z.to_nat n) 7) two_pixels 2 1 3 3 1 = Some (Ok out) ∧
    Z.of_nat (length out) = 3 * 1 * 3 ∧
    (∀ y x ch, 0 ≤ y < 1 → 0 ≤ x < 3 → 0 ≤ ch < 3 →
       ∃ b, out !! Z.to_nat ((y * 3 + x) * 3 + ch) = Some b ∧ interpolates two_pixels 2 1 3 3 1 y x ch b) ∧
    (3 = 2 → 1 = 1 → out = two_pixels).
Proof.
  refine (resize_correct true two_pixels 2 1 3 3 1 (λ n, replicate (Z.to_nat n) 7) _ _ _ _ _ _ _ _ _ _);
    [by repeat constructor|done|by left|done|done|done|done|done|done|intros n; apply length_replicate].
Defined.

Example resize_runs :
  bilinear_resize_bytes true two_pixels 2 1 3 3 1 = Some (Ok [0; 100; 255; 133; 100; 121; 200; 100; 55]) ∧
  bilinear_resize_bytes false two_pixels 2 1 3 3 1 = Some (Ok [0; 100; 255; 133; 100; 121; 200; 100; 55]) ∧
  bilinear_resize_bytes true two_pixels 2 1 4 3 1 = Some (Exn (EValue (lit "src buffer size mismatch"))).
Proof. vm_compute. by split_and!. Qed.
