(* ===== verification/Loader.v ===== *)
(** * Finding the compiled resize module

    Models [_load_fast_resize_module] of
    [src/src/infrastructure/processing/cpp_processor.py]: the directories it puts
    on [sys.path], and the module it keeps once it is imported.  The import itself
    is Python's: a function of the search path. *)

From S2P Require Import Prelude PyText PyPath Prog Ports Processing.
Local Open Scope Z_scope.

(** [Path.parents[n]] of an absolute path. *)
Definition parents (n : nat) (path : pystr) : pystr :=
  let parts := path_parts path in
  slash :: py_join [slash] (take (length parts - S n) parts).

Section loader.
Context (cwd file : pystr) (exists_ : pystr → bool) (import_module : list pystr → outcome FastResize).

(** The module's variable, and [sys.path]. *)
Record state := MkState { fast_resize_module : option FastResize; sys_path : list pystr }.

Definition search_paths : list pystr := [
    path_join (path_join cwd (lit "cpp")) (lit "build");
    path_join (path_join (parents 3 file) (lit "cpp")) (lit "build");
    path_join (parents 3 file) (lit "src")
  ].

(** One turn of the loop over [search_paths]. *)
Definition add_candidate (path : list pystr) (candidate : pystr) : list pystr :=
  if exists_ candidate && bool_decide (candidate ∉ path) then candidate :: path else path.

Definition extended (path : list pystr) : list pystr := fold_left add_candidate search_paths path.

(** [_load_fast_resize_module] *)
Definition load_fast_resize_module : prog state FastResize :=
  act (λ s,
    match fast_resize_module s with
    | Some m => (Ok m, s)
    | None =>
        let path := extended (sys_path s) in
        match import_module path with
        | Ok m => (Ok m, MkState (Some m) path)
        | Exn e => (Exn e, MkState None path)
        end
    end).

(** [build_image_processor], which constructs a [CppImageProcessor] with a load. *)
Definition build_image_processor `{PyTables, Pillow} (backend : pystr) (thumbnail_max_size : Z * Z) :
    prog state ImageProcessor :=
  if bool_decide (backend = lit "cpp") then
    except_if (λ e, match e with EModuleNotFound _ => true | _ => false end)
      (module ← load_fast_resize_module; mret (CppImageProcessor.processor module thumbnail_max_size))
      (λ _, raise (ERuntime (lit "IMG_PROCESSING_BACKEND=cpp requires the compiled fast_resize module. " ++
                             lit "Build it with: cd cpp && ./build.sh")))
  else lift (Processing.build_image_processor None backend thumbnail_max_size).

(** ** Properties *)

Lemma add_candidate_app path c : ∃ new, add_candidate path c = new ++ path ∧ NoDup new ∧
  (∀ d, d ∈ new → d = c ∧ exists_ d = true ∧ d ∉ path).
Proof.
  unfold add_candidate. destruct (exists_ c) eqn:E; cbn; [case_bool_decide|].
  - exists [c]. split_and!; [done|apply NoDup_singleton|]. by intros d ->%list_elem_of_singleton.
  - exists []. split_and!; [done|constructor|]. by intros d ?%not_elem_of_nil.
  - exists []. split_and!; [done|constructor|]. by intros d ?%not_elem_of_nil.
Qed.

(** What the loop puts in front: existing candidates that were not on the path,
    each once; the rest of the path is as it was. *)
Definition added (candidates path new : list pystr) : Prop :=
  NoDup new ∧ ∀ d, d ∈ new ↔ d ∈ candidates ∧ exists_ d = true ∧ d ∉ path.

Lemma fold_candidates cs path : ∃ new, fold_left add_candidate cs path = new ++ path ∧ added cs path new.
Proof.
  revert path. induction cs as [|c cs IH]; intros path; cbn.
  { exists []. split; [done|]. split; [constructor|]. intros d. set_solver. }
  destruct (add_candidate_app path c) as (n1 & E1 & Hd1 & Hn1).
  destruct (IH (add_candidate path c)) as (n2 & -> & Hd2 & Hn2). exists (n2 ++ n1).
  rewrite E1 in *. split; [by rewrite <- app_assoc|]. split.
  - apply NoDup_app. split_and!; [done| |done]. intros d Hd. apply Hn2 in Hd as (_ & _ & Hd). set_solver.
  - intros d. rewrite elem_of_app, Hn2, elem_of_cons, not_elem_of_app. split.
    + intros [(Hc & He & _ & Hp)|Hd].
      * split; [by right|done].
      * destruct (Hn1 d Hd) as (-> & He & Hp). split; [by left|done].
    + intros (Hc & He & Hp). destruct (decide (d ∈ n1)) as [Hd|Hd]; [by right|]. left.
      destruct Hc as [->|Hc]; [|done]. exfalso. apply Hd. unfold add_candidate in E1.
      rewrite He, bool_decide_true in E1 by done. cbn in E1. change (c :: path) with ([c] ++ path) in E1.
      apply app_inv_tail in E1 as <-. left.
Qed.

Lemma extended_again path : extended (extended path) = extended path.
Proof.
  unfold extended. destruct (fold_candidates search_paths path) as (n1 & E1 & _ & H1).
  destruct (fold_candidates search_paths (fold_left add_candidate search_paths path)) as (n2 & E2 & _ & H2).
  rewrite E2. destruct n2 as [|d n2]; [done|]. exfalso. destruct (proj1 (H2 d) ltac:(left)) as (Hc & He & Hp).
  rewrite E1, not_elem_of_app, H1 in Hp. naive_solver.
Qed.

(** A module once imported is the module from then on.  A failed import leaves the
    path extended; trying again extends it no further. *)
Lemma load_again s o s' :
  run load_fast_resize_module s = (o, s') →
  run load_fast_resize_module s' = (o, s') ∧
  (fast_resize_module s = None → ∃ new, sys_path s' = new ++ sys_path s ∧ added search_paths (sys_path s) new).
Proof.
  unfold load_fast_resize_module. rewrite !run_act. destruct (fast_resize_module s) as [m|] eqn:Em.
  { intros [= <- <-]. by rewrite Em. }
  destruct (import_module (extended (sys_path s))) as [m|e] eqn:Ei; intros [= <- <-]; cbn [fast_resize_module sys_path].
  - split; [done|]. intros _. apply fold_candidates.
  - rewrite extended_again, Ei. split; [done|]. intros _. apply fold_candidates.
Qed.

(** The factory answers as the one of [Processing.v] does for what is found. *)
Lemma build_found `{PyTables, Pillow} backend box s :
  (∀ e, import_module (extended (sys_path s)) = Exn e → e = EModuleNotFound (lit "No module named 'fast_resize'")) →
  let found := match fast_resize_module s with
               | Some m => Some m
               | None => match import_module (extended (sys_path s)) with Ok m => Some m | Exn _ => None end
               end in
  (run (build_image_processor backend box) s).1 = Processing.build_image_processor found backend box.
Proof.
  intros Hi found. unfold build_image_processor. case_bool_decide as Eb.
  - subst backend. rewrite run_except_if, run_bind. unfold load_fast_resize_module. rewrite run_act.
    unfold Processing.build_image_processor, import_fast_resize, found. rewrite bool_decide_false by done.
    rewrite bool_decide_true by done. destruct (fast_resize_module s) as [m|]; [done|].
    destruct (import_module _) as [m|e] eqn:E; [done|]. by rewrite (Hi e eq_refl).
  - unfold Processing.build_image_processor. cbn. by rewrite (bool_decide_false (backend = lit "cpp")) by done.
Qed.
End loader.
