(* ===== verification/Pipeline.v ===== *)
(** * The batch pipeline

    Models [src/src/infrastructure/processing/pipeline.py]: [process_batch]
    gathers one task per image, each inside a semaphore.  [bstep] is one step
    of the event loop on a batch; a task waits for the semaphore, then performs
    the actions of the use case, then releases the semaphore, whatever the use
    case's outcome. *)

From S2P Require Import Prelude PyText Prog Domain World.

(** ** Tasks and steps *)

Inductive task :=
| Waiting (image_id : Z)
| Inside (p : coro bool)
| Finished (result : outcome bool).

Record batch := MkBatch {
  b_tasks : list task;
  b_value : nat;
  b_world : world
}.

Section pipeline.
Context (execute : Z → coro bool).

(** [_process_one]: [async with semaphore: return await use_case.execute(image_id)] *)
Inductive bstep : batch → batch → Prop :=
| step_acquire ts v w i image_id :
    ts !! i = Some (Waiting image_id) →
    bstep (MkBatch ts (S v) w) (MkBatch (<[i := Inside (execute image_id)]> ts) v w)
| step_act ts v w i X (a : world → X * world) k x w' :
    ts !! i = Some (Inside (Act X a k)) → a w = (x, w') →
    bstep (MkBatch ts v w) (MkBatch (<[i := Inside (k x)]> ts) v w')
| step_release ts v w i o :
    ts !! i = Some (Inside (Done o)) →
    bstep (MkBatch ts v w) (MkBatch (<[i := Finished o]> ts) (S v) w).

(** The step of a given task, if it can make one. *)
Definition bnext (i : nat) (b : batch) : option batch :=
  match b_tasks b !! i with
  | Some (Waiting image_id) =>
      match b_value b with
      | S v => Some (MkBatch (<[i := Inside (execute image_id)]> (b_tasks b)) v (b_world b))
      | O => None
      end
  | Some (Inside (Act X a k)) =>
      let '(x, w') := a (b_world b) in Some (MkBatch (<[i := Inside (k x)]> (b_tasks b)) (b_value b) w')
  | Some (Inside (Done o)) =>
      Some (MkBatch (<[i := Finished o]> (b_tasks b)) (S (b_value b)) (b_world b))
  | _ => None
  end.

Fixpoint bsched (order : list nat) (b : batch) : batch :=
  match order with
  | [] => b
  | i :: order' => bsched order' (default b (bnext i b))
  end.

(** [asyncio.gather]: one task per image, before the first step. *)
Definition gather (image_ids : list Z) (concurrency : nat) (w : world) : batch :=
  MkBatch (map Waiting image_ids) concurrency w.

(** ** The result *)

Fixpoint results (ts : list task) : option (list (outcome bool)) :=
  match ts with
  | [] => Some []
  | Finished o :: ts' => os ← results ts'; Some (o :: os)
  | _ :: _ => None
  end.

(** The counting loop. *)
Fixpoint tally (os : list (outcome bool)) (success failed : Z) : Z * Z :=
  match os with
  | [] => (success, failed)
  | Exn _ :: os' => tally os' success (failed + 1)
  | Ok true :: os' => tally os' (success + 1) failed
  | Ok false :: os' => tally os' success (failed + 1)
  end.

(** What [process_batch] returns once every task has finished. *)
Definition batch_result (b : batch) : option (Z * Z) := os ← results (b_tasks b); Some (tally os 0 0).

(** ** Properties *)

Lemma bnext_step i b b' : bnext i b = Some b' → bstep b b'.
Proof.
  unfold bnext. destruct b as [ts v w]; cbn. destruct (ts !! i) as [[id|[o|X a k]|o]|] eqn:E; try done.
  - destruct v; [done|]. intros [= <-]. by constructor.
  - intros [= <-]. by constructor.
  - destruct (a w) as [x w'] eqn:Ea. intros [= <-]. by econstructor.
Qed.

Lemma bsched_reachable order b : rtc bstep b (bsched order b).
Proof.
  revert b. induction order as [|i order IH]; intros b; [done|]. cbn.
  destruct (bnext i b) as [b'|] eqn:E; cbn; [|done]. eapply rtc_l; [by apply bnext_step in E|]. apply IH.
Qed.

Definition inside (t : task) : nat := match t with Inside _ => 1 | _ => 0 end.
Fixpoint count_inside (ts : list task) : nat :=
  match ts with [] => 0 | t :: ts' => inside t + count_inside ts' end.

Lemma count_inside_insert ts i t t' :
  ts !! i = Some t → (count_inside (<[i := t']> ts) + inside t = count_inside ts + inside t')%nat.
Proof.
  revert i. induction ts as [|t0 ts IH]; intros [|i] E; [done..| |].
  - injection E as ->. cbn. lia.
  - specialize (IH i E). change (<[S i:=t']> (t0 :: ts)) with (t0 :: <[i:=t']> ts).
    cbn [count_inside]. lia.
Qed.

(** The semaphore's invariant. *)
Definition semaphore_ok (concurrency : nat) (n : nat) (b : batch) : Prop :=
  (b_value b + count_inside (b_tasks b) = concurrency)%nat ∧ length (b_tasks b) = n.

Lemma bstep_semaphore c n b b' : bstep b b' → semaphore_ok c n b → semaphore_ok c n b'.
Proof.
  intros Hs. unfold semaphore_ok.
  destruct Hs as [ts v w i id Hi|ts v w i X a k x w' Hi _|ts v w i o Hi]; cbn;
    intros [Hc Hl]; rewrite length_insert; (split; [|done]).
  - pose proof (count_inside_insert _ _ _ (Inside (execute id)) Hi) as H. cbn in H. lia.
  - pose proof (count_inside_insert _ _ _ (Inside (k x)) Hi) as H. cbn in H. lia.
  - pose proof (count_inside_insert _ _ _ (Finished o) Hi) as H. cbn in H. lia.
Qed.

Lemma semaphore_reachable c n b b' : rtc bstep b b' → semaphore_ok c n b → semaphore_ok c n b'.
Proof. induction 1 as [|b1 b2 b3 Hs _ IH]; [done|]. intros Hb. by eapply IH, bstep_semaphore. Qed.

(** *** Termination: every task steps along a well-founded order. *)

Definition task_lt (t' t : task) : Prop :=
  match t with
  | Waiting id => t' = Inside (execute id)
  | Inside (Act X a k) => ∃ x, t' = Inside (k x)
  | Inside (Done o) => t' = Finished o
  | Finished _ => False
  end.

Lemma task_lt_finished o : Acc task_lt (Finished o).
Proof. by constructor. Qed.

Lemma task_lt_inside p : Acc task_lt (Inside p).
Proof.
  induction p as [o|X a k IH]; constructor; intros t Ht; cbn in Ht.
  - subst. apply task_lt_finished.
  - destruct Ht as [x ->]. apply IH.
Qed.

Lemma task_lt_wf t : Acc task_lt t.
Proof.
  destruct t as [id|p|o]; [|apply task_lt_inside|apply task_lt_finished].
  constructor. intros t ->. apply task_lt_inside.
Qed.

Lemma bstep_list_step b b' : bstep b b' → list_step task_lt (b_tasks b') (b_tasks b).
Proof.
  intros [ts v w i id Hi|ts v w i X a k x w' Hi _|ts v w i o Hi]; cbn; eexists i, _, _;
    (split; [exact Hi|split; [|done]]); cbn; eauto.
Qed.

(** No batch runs for ever. *)
Lemma batch_terminates b : Acc (flip bstep) b.
Proof.
  remember (b_tasks b) as ts eqn:E. revert b E. induction (list_step_wf _ task_lt_wf ts) as [ts _ IH].
  intros b ->. constructor. intros b' Hs. by eapply IH; [apply bstep_list_step|].
Qed.

(** A batch that cannot go on has finished. *)
Lemma stuck_finished c n b :
  0 < c → semaphore_ok c n b → (∀ b', ¬ bstep b b') →
  ∃ os, results (b_tasks b) = Some os ∧ length os = n.
Proof.
  intros Hc [Hsem <-] Hstuck. destruct b as [ts v w]; cbn in *.
  assert (∀ i t, ts !! i = Some t → inside t = 0%nat) as Hout.
  { intros i [id|p|o] Hi; [done| |done]. exfalso. destruct p as [o|X a k].
    - eapply Hstuck. by apply step_release.
    - destruct (a w) as [x w'] eqn:Ea. eapply Hstuck. by eapply step_act. }
  assert (count_inside ts = 0%nat) as H0.
  { clear -Hout. induction ts as [|t ts IH]; [done|]. cbn. rewrite (Hout 0%nat t) by done.
    apply IH. intros i t' Hi. by apply (Hout (S i)). }
  assert (∀ i t, ts !! i = Some t → ∃ o, t = Finished o) as Hfin.
  { intros i [id|p|o] Hi; [|by specialize (Hout i _ Hi)|by eexists]. exfalso.
    destruct v as [|v]; [lia|]. eapply Hstuck. by apply step_acquire. }
  clear -Hfin. induction ts as [|t ts IH]; [by exists []|].
  destruct (Hfin 0%nat t eq_refl) as [o ->].
  destruct IH as (os & E & Hl); [intros i t' Hi; by apply (Hfin (S i))|].
  exists (o :: os). cbn. rewrite E. cbn. by rewrite Hl.
Qed.

Lemma tally_total os s f : ((tally os s f).1 + (tally os s f).2 = s + f + Z.of_nat (length os))%Z.
Proof.
  revert s f. induction os as [|[[]|e] os IH]; intros s f; cbn [tally length]; [cbn; lia|..];
    rewrite IH; lia.
Qed.

(** C16: the batch.  Whatever the awaits of the tasks, their outcomes and their
    order, at most [concurrency] images are being processed at any moment, the
    batch comes to an end, and when it can go no further every image has an
    outcome: [success] and [failed] count them all, each exception as a
    failure. *)
Theorem batch_completes (image_ids : list Z) (concurrency : nat) (w : world) (b : batch) :
  (0 < concurrency)%nat → rtc bstep (gather image_ids concurrency w) b →
  (count_inside (b_tasks b) ≤ concurrency)%nat ∧
  Acc (flip bstep) b ∧
  ((∀ b', ¬ bstep b b') →
   ∃ os, results (b_tasks b) = Some os ∧ length os = length image_ids ∧
         batch_result b = Some (tally os 0 0) ∧
         ((tally os 0 0).1 + (tally os 0 0).2 = Z.of_nat (length image_ids))%Z).
Proof.
  intros Hc Hb. assert (semaphore_ok concurrency (length image_ids) b) as Hsem.
  { eapply semaphore_reachable; [exact Hb|]. split; [|apply length_map]. cbn.
    assert (count_inside (map Waiting image_ids) = 0%nat) as ->; [|lia]. clear; by induction image_ids. }
  split; [destruct Hsem; lia|]. split; [apply batch_terminates|]. intros Hstuck.
  destruct (stuck_finished _ _ b Hc Hsem Hstuck) as (os & E & Hl).
  exists os. rewrite tally_total. unfold batch_result. rewrite E. split_and!; [done..|lia].
Qed.
End pipeline.
