(* ===== verification/Benchmark.v ===== *)
(** * The resize benchmark

    Models [src/cpp/benchmark_resize.py]: each backend makes the same thumbnail
    [ITERATIONS] times, the latencies are summarized by their median and their
    95th percentile.  A latency is a difference of clock readings, here an
    integer number of nanoseconds; the source image, drawn by Pillow, is an
    input, and so are the two functions [main] imports. *)

From S2P Require Import Prelude PyText PyJson PyTime Prog Domain Processing.
Local Open Scope Z_scope.

Definition ITERATIONS : nat := 25.
Definition MAX_SIZE : Z * Z := (256, 256).

Section benchmark.
(** [time.perf_counter()]: a reading per call. *)
Context {St : Type} (perf_counter : prog St Z).

(** One iteration of [_run_benchmark]. *)
Definition iteration (name : pystr) (fn : pybytes → Z * Z → outcome ProcessingResult) (image_data : pybytes) :
    prog St Z :=
  start ← perf_counter;
  result ← lift (fn image_data MAX_SIZE);
  now ← perf_counter;
  if (MAX_SIZE.1 <? pr_width result) || (MAX_SIZE.2 <? pr_height result)
  then raise (ERuntime (name ++ lit " produced out-of-bounds thumbnail"))
  else mret (now - start).

(** [_run_benchmark] *)
Definition run_benchmark (name : pystr) (fn : pybytes → Z * Z → outcome ProcessingResult) (image_data : pybytes) :
    prog St (list Z) :=
  map_prog (λ _, iteration name fn image_data) (replicate ITERATIONS tt).
End benchmark.

(** [sorted] *)
Definition py_sorted (l : list Z) : list Z := merge_sort Z.le l.

(** [statistics.median]: twice it, an integer also for an even number of values;
    [None] is [StatisticsError]. *)
Definition median2 (l : list Z) : option Z :=
  let s := py_sorted l in
  let n := length l in
  if Nat.odd n then (λ x, 2 * x) <$> s !! (n / 2)%nat
  else match s !! (n / 2 - 1)%nat, s !! (n / 2)%nat with
       | Some x, Some y => if bool_decide (n = 0%nat) then None else Some (x + y)
       | _, _ => None
       end.

(** [min(len(latencies_ms) - 1, int(len(latencies_ms) * 0.95))]; for the lengths
    a benchmark has, the product in [float] has the same integer part. *)
Definition p95_index (n : nat) : nat := Nat.min (n - 1) (n * 95 / 100).

Definition p95 (l : list Z) : option Z := py_sorted l !! p95_index (length l).

(** [_summarize] *)
Definition summarize (l : list Z) : option (Z * Z) :=
  match median2 l, p95 l with Some m, Some p => Some (m, p) | _, _ => None end.

(** [f"{n / d:.2f}"] of a number that is not negative: two decimals, halves to
    even. *)
Definition round_half_even (n d : Z) : Z :=
  let q := n / d in
  let r := n mod d in
  if 2 * r <? d then q else if d <? 2 * r then q + 1 else if Z.even q then q else q + 1.
Definition fixed2 (n d : Z) : pystr :=
  let c := round_half_even (100 * n) d in str_of_Z (c / 100) ++ lit "." ++ dec_fixed 2 (c mod 100).

Definition ns_per_ms : Z := 1000000.

(** A row of the table; the median comes doubled. *)
Definition table_row (backend : pystr) (summary : Z * Z) : pystr :=
  lit "| " ++ backend ++ lit " | " ++ fixed2 summary.1 (2 * ns_per_ms) ++ lit " | " ++
  fixed2 summary.2 ns_per_ms ++ lit " |".

(** [main]: the lines it prints. *)
Definition main {St} (perf_counter : prog St Z) (pillow cpp : pybytes → Z * Z → outcome ProcessingResult)
    (source_image : pybytes) : prog St (list pystr) :=
  pillow_latencies ← run_benchmark perf_counter (lit "Pillow") pillow source_image;
  cpp_latencies ← run_benchmark perf_counter (lit "C++") cpp source_image;
  pillow_summary ← lift (or_raise (EValue (lit "no median for empty data")) (summarize pillow_latencies));
  cpp_summary ← lift (or_raise (EValue (lit "no median for empty data")) (summarize cpp_latencies));
  if cpp_summary.1 =? 0 then raise EZeroDivision
  else mret [
    lit "Resize benchmark (4096x3072 PNG -> 256x256 max, 25 iterations)";
    [];
    lit "| Backend | Median (ms) | P95 (ms) |";
    lit "|---|---:|---:|";
    table_row (lit "Pillow") pillow_summary;
    table_row (lit "C++ pybind11") cpp_summary;
    [];
    lit "Speedup (median): " ++ fixed2 pillow_summary.1 cpp_summary.1 ++ lit "x"].

Example fixed2_rounds : map (λ n, fixed2 n 1000) [1234; 1235; 1245; 1999; 5] =
  [lit "1.23"; lit "1.24"; lit "1.24"; lit "2.00"; lit "0.00"].
Proof. vm_compute. reflexivity. Qed.

(** ** Properties *)

Lemma py_sorted_perm l : py_sorted l ≡ₚ l.
Proof. apply merge_sort_Permutation. Qed.

Lemma py_sorted_sorted l : StronglySorted Z.le (py_sorted l).
Proof. apply (StronglySorted_merge_sort Z.le). Qed.

(** A value found at an index of the sorted list: as many values as the index are
    not above it, and as many as follow are not below. *)
Lemma sorted_split s i x :
  StronglySorted Z.le s → s !! i = Some x →
  Forall (λ y, y ≤ x) (take (S i) s) ∧ Forall (λ y, x ≤ y) (drop i s).
Proof.
  intros Hs. revert i. induction Hs as [|y s Hs IH Hy]; intros i Hi; [done|].
  destruct i as [|i]; cbn in *.
  - injection Hi as ->. split; [by repeat constructor|]. by constructor.
  - destruct (IH i Hi) as [H1 H2]. split; [|done]. constructor; [|done].
    apply list_elem_of_lookup_2 in Hi. by apply (proj1 (Forall_forall _ _) Hy).
Qed.

(** How many of the values are within a bound. *)
Definition at_most (x : Z) (l : list Z) : nat := length (filter (λ y, y ≤ x) l).
Definition at_least (x : Z) (l : list Z) : nat := length (filter (λ y, x ≤ y) l).

Lemma rank l i x :
  py_sorted l !! i = Some x → (S i ≤ at_most x l)%nat ∧ (length l - i ≤ at_least x l)%nat.
Proof.
  intros Hx. destruct (sorted_split _ _ _ (py_sorted_sorted l) Hx) as [H1 H2].
  unfold at_most, at_least. rewrite <- (py_sorted_perm l).
  pose proof (lookup_lt_Some _ _ _ Hx) as Hlt. split.
  - rewrite <- (take_drop (S i) (py_sorted l)) at 1. rewrite filter_app, length_app.
    rewrite (list_filter_all _ (take _ _)) by done. rewrite length_take. lia.
  - rewrite <- (take_drop i (py_sorted l)) at 2. rewrite filter_app, length_app.
    rewrite (list_filter_all _ (drop _ _)) by done. rewrite length_drop. lia.
Qed.

Lemma py_sorted_length l : length (py_sorted l) = length l.
Proof. by rewrite py_sorted_perm. Qed.

(** For the number of iterations the script runs: the median is a latency with
    thirteen on either side, itself included, and at most one latency is above
    the percentile. *)
Lemma summarize_spec l :
  length l = ITERATIONS →
  ∃ m p, summarize l = Some (2 * m, p) ∧ m ∈ l ∧ p ∈ l ∧
    (13 ≤ at_most m l)%nat ∧ (13 ≤ at_least m l)%nat ∧ (24 ≤ at_most p l)%nat.
Proof.
  intros Hn. pose proof (py_sorted_length l) as Hlen. rewrite Hn in Hlen.
  destruct (lookup_lt_is_Some_2 (py_sorted l) 12) as [m Hm]; [rewrite Hlen; unfold ITERATIONS; lia|].
  destruct (lookup_lt_is_Some_2 (py_sorted l) 23) as [p Hp]; [rewrite Hlen; unfold ITERATIONS; lia|].
  exists m, p. unfold summarize, median2, p95. rewrite Hn. change (Nat.odd ITERATIONS) with true.
  change (ITERATIONS / 2)%nat with 12%nat. change (p95_index ITERATIONS) with 23%nat. rewrite Hm, Hp. cbn.
  destruct (rank _ _ _ Hm) as [Hm1 Hm2]. destruct (rank _ _ _ Hp) as [Hp1 _]. rewrite Hn in Hm2.
  split; [done|]. rewrite <- !(elem_of_Permutation_proper _ _ _ (py_sorted_perm l)).
  split_and!; [by eapply list_elem_of_lookup_2..|lia| |lia]. unfold ITERATIONS in Hm2. lia.
Qed.

Section timing.
Context {St : Type} (perf_counter : prog St Z).

(** The clock does not fail and does not run backwards. *)
Definition monotone_clock : Prop :=
  ∀ w, ∃ t w', run perf_counter w = (Ok t, w') ∧ ∀ w2, (∃ n, w2 = Nat.iter n (λ w, (run perf_counter w).2) w') →
    ∃ t2 w3, run perf_counter w2 = (Ok t2, w3) ∧ t ≤ t2.

(** A benchmark of a function whose thumbnail fits the box yields a latency, not
    negative, for each iteration; of one whose thumbnail does not, it fails. *)
Lemma run_iteration name fn data w :
  monotone_clock →
  wp (iteration perf_counter name fn data)
    (λ o w', match fn data MAX_SIZE with
             | Exn e => o = Exn e
             | Ok r => if (pr_width r <=? 256) && (pr_height r <=? 256) then ∃ d, o = Ok d ∧ 0 ≤ d
                       else ∃ m, o = Exn (ERuntime m)
             end) w.
Proof.
  intros Hc. destruct (Hc w) as (t & w1 & Ht & Hlater). destruct (Hlater w1) as (t2 & w2 & Ht2 & Hle); [by exists 0%nat|].
  apply wp_bind, wp_intro. intros o w' Ho. rewrite Ht in Ho. injection Ho as <- <-. apply wp_bind.
  destruct (fn data MAX_SIZE) as [r|e]; [|by apply wp_done]. apply wp_done, wp_bind, wp_intro.
  intros o w' Ho. rewrite Ht2 in Ho. injection Ho as <- <-. cbn [fst snd MAX_SIZE].
  destruct (pr_width r <=? 256) eqn:E1, (pr_height r <=? 256) eqn:E2; zbool; zdecide; cbn [orb andb];
    [apply wp_ret; exists (t2 - t); split; [done|lia]|apply wp_raise; by eexists..].
Qed.

Lemma run_benchmark_latencies name fn data r w :
  monotone_clock → fn data MAX_SIZE = Ok r → pr_width r ≤ 256 → pr_height r ≤ 256 →
  wp (run_benchmark perf_counter name fn data)
    (λ o _, ∃ l, o = Ok l ∧ length l = ITERATIONS ∧ Forall (λ d, 0 ≤ d) l) w.
Proof.
  intros Hc Hr H1 H2. unfold run_benchmark. generalize ITERATIONS as n. intros n. revert w.
  induction n as [|n IH]; intros w; cbn [replicate map_prog]; [apply wp_ret; by exists []|].
  apply wp_bind. eapply wp_mono; [by apply run_iteration|]. cbv beta. rewrite Hr. zdecide. cbn [andb].
  intros o w1 (d & -> & Hd). apply wp_bind. eapply wp_mono; [apply IH|]. intros o w2 (l & -> & Hl & Hpos).
  apply wp_ret. exists (d :: l). split_and!; [done|cbn; by f_equal|by constructor].
Qed.

(** The script reports, unless the clock did not move for half of the runs of the
    second backend. *)
Lemma main_reports pillow cpp data r1 r2 w :
  monotone_clock → pillow data MAX_SIZE = Ok r1 → cpp data MAX_SIZE = Ok r2 →
  pr_width r1 ≤ 256 → pr_height r1 ≤ 256 → pr_width r2 ≤ 256 → pr_height r2 ≤ 256 →
  wp (main perf_counter pillow cpp data)
    (λ o _, o = Exn EZeroDivision ∨ ∃ lines, o = Ok lines ∧ length lines = 8%nat) w.
Proof.
  intros Hc H1 H2 Hw1 Hh1 Hw2 Hh2. apply wp_bind.
  eapply wp_mono; [by apply (run_benchmark_latencies _ _ _ r1)|]. intros o w1 (l1 & -> & Hl1 & _). apply wp_bind.
  eapply wp_mono; [by apply (run_benchmark_latencies _ _ _ r2)|]. intros o w2 (l2 & -> & Hl2 & _).
  destruct (summarize_spec l1 Hl1) as (m1 & p1 & Hs1 & _). destruct (summarize_spec l2 Hl2) as (m2 & p2 & Hs2 & _).
  apply wp_bind, wp_done. rewrite Hs1. apply wp_bind, wp_done. rewrite Hs2. cbn [or_raise fst snd].
  destruct (2 * m2 =? 0); [apply wp_raise; by left|]. apply wp_ret. right. by eexists.
Qed.
End timing.
