(* ===== verification/Kafka.v ===== *)
(** * The Kafka broker adapter

    Models [src/src/infrastructure/messaging/kafka_message_broker.py]: the
    clients it creates on first use, the records it sends and how it reads
    them, and what its rebalance listener records.  aiokafka is the record
    [Aiokafka]; what is assumed of it is [AiokafkaLaws]: a topic is a log, to
    which a producer that is not idempotent appends a record once or more often,
    a consumer reads on from its position, and the constructor of the consumer
    refuses an argument that it does not document. *)

From S2P Require Import Prelude PyText Prog Domain.
Local Open Scope Z_scope.

(** ** aiokafka *)

Record KafkaRecord := MkKafkaRecord {
  kr_topic : pystr;
  kr_partition : Z;
  kr_offset : Z;
  kr_key : option pybytes;
  kr_value : pybytes
}.

(** An argument of a constructor. *)
Inductive kwarg := KwStr (s : pystr) | KwBool (b : bool) | KwListener (group : pystr).

(** Clients are handles; constructors do not wait, the other operations may. *)
Record Aiokafka (St : Type) := MkAiokafka {
  new_producer : pystr → St → outcome nat * St;
  producer_start : nat → prog St unit;
  send_and_wait : nat → pystr → option pybytes → pybytes → prog St unit;
  producer_stop : nat → prog St unit;
  new_consumer : list pystr → list (pystr * kwarg) → St → outcome nat * St;
  consumer_start : nat → prog St unit;
  getone : nat → prog St KafkaRecord;
  highwater : nat → pystr → Z → St → option Z;
  consumer_stop : nat → prog St unit
}.
Arguments new_producer {St}. Arguments producer_start {St}. Arguments send_and_wait {St}.
Arguments producer_stop {St}. Arguments new_consumer {St}. Arguments consumer_start {St}.
Arguments getone {St}. Arguments highwater {St}. Arguments consumer_stop {St}.

Module KafkaMessageBroker.

(** What the adapter records of a consumed record, and of a rebalance. *)
Record rebalance_record := MkRebalance {
  rb_group : pystr;
  rb_event : pystr;
  rb_partitions_count : pystr
}.

Record lag_record := MkLag {
  lag_topic : pystr;
  lag_partition : Z;
  lag_group : pystr;
  lag_value : Z
}.

Section adapter.
Context {St : Type} (k : Aiokafka St).
Context (bootstrap_servers consumer_group : pystr) (consumer_topics : list pystr).

(** The adapter's attributes, what it recorded, and Kafka. *)
Record state := MkState {
  producer : option nat;
  consumer : option nat;
  lags : list lag_record;
  rebalances : list rebalance_record;
  kafka : St
}.

Definition set_kafka (s : St) (a : state) : state := MkState (producer a) (consumer a) (lags a) (rebalances a) s.
Definition set_producer (p : option nat) (a : state) : state := MkState p (consumer a) (lags a) (rebalances a) (kafka a).
Definition set_consumer (c : option nat) (a : state) : state := MkState (producer a) c (lags a) (rebalances a) (kafka a).

Definition in_kafka {A} (p : prog St A) : prog state A := zoom kafka set_kafka p.

(** [_ensure_producer]: the attribute is assigned once the client is made, before
    [start] is awaited. *)
Definition ensure_producer : prog state nat :=
  '(p, created) ← act (λ a, match producer a with
    | Some p => (Ok (p, false), a)
    | None =>
        match new_producer k bootstrap_servers (kafka a) with
        | (Ok p, s) => (Ok (p, true), set_producer (Some p) (set_kafka s a))
        | (Exn e, s) => (Exn e, set_kafka s a)
        end
    end);
  if (created : bool) then in_kafka (producer_start k p);; mret p else mret p.

(** The keyword arguments for [AIOKafkaConsumer], and [_ensure_consumer]. *)
Definition consumer_arguments : list (pystr * kwarg) := [
  (lit "bootstrap_servers", KwStr bootstrap_servers);
  (lit "group_id", KwStr consumer_group);
  (lit "auto_offset_reset", KwStr (lit "earliest"));
  (lit "enable_auto_commit", KwBool true);
  (lit "rebalance_listener", KwListener consumer_group)].

Definition ensure_consumer : prog state nat :=
  '(c, created) ← act (λ a, match consumer a with
    | Some c => (Ok (c, false), a)
    | None =>
        match new_consumer k consumer_topics consumer_arguments (kafka a) with
        | (Ok c, s) => (Ok (c, true), set_consumer (Some c) (set_kafka s a))
        | (Exn e, s) => (Exn e, set_kafka s a)
        end
    end);
  if (created : bool) then in_kafka (consumer_start k c);; mret c else mret c.

(** [message.key.encode() if message.key else None] *)
Definition encode_key (key : pystr) : outcome (option pybytes) :=
  match key with
  | [] => Ok None
  | _ => b ← or_raise (EValue (lit "surrogates not allowed")) (utf8_encode key); Ok (Some b)
  end.

(** [record.key.decode() if record.key else ""] *)
Definition decode_key (key : option pybytes) : outcome pystr :=
  match key with
  | None | Some [] => Ok []
  | Some b => or_raise (EValue (lit "invalid start byte")) (utf8_decode false b)
  end.

(** [publish] *)
Definition publish (message : Message) : prog state unit :=
  p ← ensure_producer;
  key ← lift (encode_key (msg_key message));
  in_kafka (send_and_wait k p (msg_topic message) key (msg_value message)).

(** [_record_consumer_lag] *)
Definition record_consumer_lag (topic : pystr) (partition : Z) (group : pystr) (lag : Z) : prog state unit :=
  modify (λ a, MkState (producer a) (consumer a) (lags a ++ [MkLag topic partition group lag]) (rebalances a) (kafka a)).

(** The lag of a record, when its high-water mark is known. *)
Definition record_lag (c : nat) (r : KafkaRecord) : prog state unit :=
  hw ← gets (λ a, highwater k c (kr_topic r) (kr_partition r) (kafka a));
  match hw with
  | None => mret tt
  | Some hw =>
      let lag := Z.max (hw - kr_offset r - 1) 0 in
      record_consumer_lag (kr_topic r) (kr_partition r) consumer_group lag
  end.

(** [consume]; the topic asked for plays no part. *)
Definition consume (topic : pystr) : prog state (option Message) :=
  c ← ensure_consumer;
  record ← except_if is_exception (r ← in_kafka (getone k c); mret (Some r)) (λ _, mret None);
  match record with
  | None => mret None
  | Some r =>
      record_lag c r;;
      key ← lift (decode_key (kr_key r));
      mret (Some (MkMessage (kr_topic r) key (kr_value r)))
  end.

(** [_record_consumer_rebalance], and the listener the consumer is made with: what
    it does when partitions are taken or given. *)
Definition record_consumer_rebalance (event : pystr) (partitions_count : nat) : prog state unit :=
  modify (λ a, MkState (producer a) (consumer a) (lags a)
    (rebalances a ++ [MkRebalance consumer_group event (str_of_Z (Z.of_nat partitions_count))]) (kafka a)).

Definition on_partitions_revoked (revoked : list (pystr * Z)) : prog state unit :=
  record_consumer_rebalance (lit "revoked") (length revoked).

Definition on_partitions_assigned (assigned : list (pystr * Z)) : prog state unit :=
  record_consumer_rebalance (lit "assigned") (length assigned).

(** [close] *)
Definition close_producer : prog state unit :=
  p ← gets producer;
  match p with
  | None => mret tt
  | Some p => in_kafka (producer_stop k p);; modify (set_producer None)
  end.

Definition close_consumer : prog state unit :=
  c ← gets consumer;
  match c with
  | None => mret tt
  | Some c => in_kafka (consumer_stop k c);; modify (set_consumer None)
  end.

Definition close : prog state unit := close_producer;; close_consumer.
End adapter.
End KafkaMessageBroker.

(** ** What is assumed of aiokafka *)

(** The arguments that [AIOKafkaConsumer] documents. *)
Definition consumer_keywords : list pystr := map lit [
  "loop"; "bootstrap_servers"; "client_id"; "group_id"; "group_instance_id"; "key_deserializer";
  "value_deserializer"; "fetch_max_wait_ms"; "fetch_max_bytes"; "fetch_min_bytes";
  "max_partition_fetch_bytes"; "request_timeout_ms"; "retry_backoff_ms"; "auto_offset_reset";
  "enable_auto_commit"; "auto_commit_interval_ms"; "check_crcs"; "metadata_max_age_ms";
  "partition_assignment_strategy"; "max_poll_interval_ms"; "rebalance_timeout_ms";
  "session_timeout_ms"; "heartbeat_interval_ms"; "consumer_timeout_ms"; "max_poll_records";
  "ssl_context"; "security_protocol"; "api_version"; "exclude_internal_topics";
  "connections_max_idle_ms"; "isolation_level"; "sasl_mechanism"; "sasl_plain_password";
  "sasl_plain_username"; "sasl_kerberos_service_name"; "sasl_kerberos_domain_name";
  "sasl_oauth_token_provider"]%string.

(** A topic of one partition is a log of keys and values.  A started producer
    appends what it sends: at least once if it says so, perhaps more often (it
    retries when an acknowledgement is lost), and any number of times, also none,
    if it fails.  A started consumer of the topic delivers its log from its
    position on. *)
Class AiokafkaLaws {St} (k : Aiokafka St) := {
  topic_log : pystr → St → list (option pybytes * pybytes);
  producing : nat → St → Prop;
  reading : nat → pystr → nat → St → Prop;
  new_producer_law servers s t : topic_log t (new_producer k servers s).2 = topic_log t s;
  producer_start_law p s :
    wp (producer_start k p)
      (λ o s', (∀ t, topic_log t s' = topic_log t s) ∧ (o = Ok tt → producing p s')) s;
  send_law p topic key value s :
    producing p s →
    wp (send_and_wait k p topic key value)
      (λ o s', producing p s' ∧ ∃ d, topic_log topic s' = topic_log topic s ++ replicate d (key, value) ∧
                                     (o = Ok tt → (0 < d)%nat)) s;
  new_consumer_law topics arguments name value s :
    (name, value) ∈ arguments → name ∉ consumer_keywords →
    ∃ message, new_consumer k topics arguments s = (Exn (EType message), s);
  getone_law c topic n s :
    reading c topic n s →
    wp (getone k c)
      (λ o s', topic_log topic s' = topic_log topic s ∧
               match o with
               | Ok r => topic_log topic s !! n = Some (kr_key r, kr_value r) ∧ kr_topic r = topic ∧
                         reading c topic (S n) s'
               | Exn _ => reading c topic n s'
               end) s
}.

(** [ys] is [xs] with each element once or several times in a row. *)
Inductive repeats {A} : list A → list A → Prop :=
| repeats_nil : repeats [] []
| repeats_cons x d xs ys : repeats xs ys → repeats (x :: xs) (replicate (S d) x ++ ys).

(** ** Properties *)

Section properties.
Context {St : Type} (k : Aiokafka St) `{!AiokafkaLaws k}.
Context (bootstrap_servers consumer_group : pystr) (consumer_topics : list pystr).
Import KafkaMessageBroker.

Abbreviation publish := (publish k bootstrap_servers).
Abbreviation consume := (consume k bootstrap_servers consumer_group consumer_topics).

Lemma run_in_kafka {A} (p : prog St A) a :
  run (in_kafka p) a = ((run p (kafka a)).1, set_kafka (run p (kafka a)).2 a).
Proof. apply run_zoom; [done|done|by intros []]. Qed.

Lemma wp_in_kafka {A} (p : prog St A) (Q : outcome A → state → Prop) a :
  wp p (λ o s, Q o (set_kafka s a)) (kafka a) → wp (in_kafka p) Q a.
Proof. unfold wp. by rewrite run_in_kafka. Qed.

(** A client that exists is used as it is. *)
Lemma wp_ensure_producer p a (Q : outcome nat → state → Prop) :
  producer a = Some p → Q (Ok p) a → wp (ensure_producer k bootstrap_servers) Q a.
Proof. intros Hp HQ. unfold wp, ensure_producer. cbn. by rewrite Hp. Qed.

Lemma wp_ensure_consumer c a (Q : outcome nat → state → Prop) :
  consumer a = Some c → Q (Ok c) a →
  wp (ensure_consumer k bootstrap_servers consumer_group consumer_topics) Q a.
Proof. intros Hc HQ. unfold wp, ensure_consumer. cbn. by rewrite Hc. Qed.

(** What [publish] sends of a message. *)
Definition record_of (m : Message) (kv : option pybytes * pybytes) : Prop :=
  encode_key (msg_key m) = Ok kv.1 ∧ kv.2 = msg_value m.

Lemma key_roundtrip key :
  Forall (λ c, is_scalar c = true) key → ∃ b, encode_key key = Ok b ∧ decode_key b = Ok key.
Proof.
  intros Hs. destruct key as [|c key]; [by exists None|].
  destruct (utf8_roundtrip (c :: key) Hs) as (b & Hb & Hd & _).
  exists (Some b). unfold encode_key. rewrite Hb. split; [done|].
  destruct b as [|x b]; [by specialize (Hd false)|]. unfold decode_key. by rewrite Hd.
Qed.

(** The message that a record is read as, and those of a part of a topic. *)
Definition message_of (topic : pystr) (kv : option pybytes * pybytes) : outcome Message :=
  key ← decode_key kv.1; Ok (MkMessage topic key kv.2).

Definition reads_as (topic : pystr) (kvs : list (option pybytes * pybytes)) (ms : list Message) : Prop :=
  Forall2 (λ kv m, message_of topic kv = Ok m) kvs ms.

Lemma reads_as_record topic m kv d :
  record_of m kv → msg_topic m = topic → Forall (λ c, is_scalar c = true) (msg_key m) →
  reads_as topic (replicate d kv) (replicate d m).
Proof.
  intros [Hk Hv] <- Hs. destruct (key_roundtrip _ Hs) as (b & Hb & Hd). rewrite Hk in Hb. injection Hb as Hb.
  apply Forall2_replicate. unfold message_of. rewrite Hb, Hd, Hv. by destruct m.
Qed.

(** No producer was made yet, or the one there is was started. *)
Definition can_publish (a : state (St := St)) : Prop :=
  match producer a with None => True | Some p => producing p (kafka a) end.

(** The topic [t] has the records [kvs] more, the consumer is as it was. *)
Definition appended (t : pystr) (kvs : list (option pybytes * pybytes)) (a a' : state (St := St)) : Prop :=
  consumer a' = consumer a ∧ topic_log t (kafka a') = topic_log t (kafka a) ++ kvs.

Lemma appended_trans t kvs1 kvs2 a a1 a2 :
  appended t kvs1 a a1 → appended t kvs2 a1 a2 → appended t (kvs1 ++ kvs2) a a2.
Proof. intros [Hc1 Hl1] [Hc2 Hl2]. split; [congruence|]. by rewrite Hl2, Hl1, app_assoc. Qed.

(** A client that is made here is started, unless that fails. *)
Lemma wp_ensure_producer_made a (Q : outcome nat → state → Prop) :
  can_publish a →
  (∀ o a', (∀ t, appended t [] a a') →
           (∀ p, o = Ok p → producer a' = Some p ∧ producing p (kafka a')) → Q o a') →
  wp (ensure_producer k bootstrap_servers) Q a.
Proof.
  intros Hcan HQ. unfold can_publish in Hcan. destruct (producer a) as [p|] eqn:Ep.
  { eapply wp_ensure_producer; [exact Ep|]. apply HQ; [by split; rewrite ?app_nil_r|by intros p' [= <-]]. }
  assert (∀ s t, topic_log t s = topic_log t (kafka a) → topic_log t s = topic_log t (kafka a) ++ []) as Hnil
    by (intros; by rewrite app_nil_r).
  unfold ensure_producer. apply wp_bind, wp_act. rewrite Ep.
  pose proof (new_producer_law bootstrap_servers (kafka a)) as Hnew.
  destruct (new_producer k bootstrap_servers (kafka a)) as [[p|e] s]; cbn [fst snd] in *.
  - apply wp_bind, wp_in_kafka. eapply wp_mono; [apply producer_start_law|]. intros [[]|e] s' [Hlog Hp].
    + apply wp_ret, HQ; [intros t; split; [done|]; by apply Hnil; rewrite <- Hnew, <- Hlog|].
      intros p' [= <-]. split; [done|by apply Hp].
    + apply HQ; [intros t; split; [done|]; by apply Hnil; rewrite <- Hnew, <- Hlog|done].
  - apply HQ; [intros t; split; [done|]; by apply Hnil; rewrite <- Hnew|done].
Qed.

(** A message that is published is there at least once; one whose publication
    fails may be. *)
Lemma wp_publish m a (Q : outcome unit → state → Prop) :
  can_publish a → Forall (λ c, is_scalar c = true) (msg_key m) →
  (∀ o a' kv d, record_of m kv → appended (msg_topic m) (replicate d kv) a a' →
     (o = Ok tt → can_publish a' ∧ (0 < d)%nat) → Q o a') →
  wp (publish m) Q a.
Proof.
  intros Hcan Hkey HQ. destruct (key_roundtrip _ Hkey) as (b & Hb & _).
  assert (record_of m (b, msg_value m)) as Hrec by done.
  apply wp_bind, wp_ensure_producer_made; [done|]. intros [p|e] a1 Hsame Hp; cycle 1.
  { apply (HQ _ _ _ 0%nat Hrec (Hsame _)). done. }
  destruct (Hp p eq_refl) as [Hp1 Hpr]. apply wp_bind. rewrite Hb. apply wp_done, wp_in_kafka.
  eapply wp_mono; [by apply send_law|]. intros o s' (Hpr' & d & Hlog & Hd).
  apply (HQ _ _ _ d Hrec); [|].
  - destruct (Hsame (msg_topic m)) as [Hc Hl]. split; [done|]. cbn [kafka set_kafka].
    by rewrite Hlog, Hl, app_nil_r.
  - intros Ho. split; [|by apply Hd]. unfold can_publish. cbn. by rewrite Hp1.
Qed.

(** Publishing one message after the other. *)
Definition publish_all (ms : list Message) : prog state unit := for_each ms publish.

(** The messages up to the one that failed, which is there some number of times. *)
Definition published_until (ms read : list Message) : Prop :=
  ∃ ms1 m ms2 read1 d, ms = ms1 ++ m :: ms2 ∧ repeats ms1 read1 ∧ read = read1 ++ replicate d m.

Lemma wp_publish_all ms topic a :
  can_publish a → Forall (λ m, msg_topic m = topic ∧ Forall (λ c, is_scalar c = true) (msg_key m)) ms →
  wp (publish_all ms)
    (λ o a', ∃ kvs read, appended topic kvs a a' ∧ reads_as topic kvs read ∧
       match o with Ok _ => repeats ms read | Exn _ => published_until ms read end) a.
Proof.
  intros Hcan Hms. revert a Hcan. induction Hms as [|m ms [<- Hkey] _ IH]; intros a Hcan.
  { apply wp_ret. exists [], []. split_and!; [by split; rewrite ?app_nil_r|by constructor|constructor]. }
  apply wp_bind, wp_publish; [done..|]. intros o a1 kv d Hrec Happ Ho.
  pose proof (reads_as_record _ m kv d Hrec eq_refl Hkey) as Hread. destruct o as [[]|e]; cycle 1.
  { exists (replicate d kv), (replicate d m). split_and!; [done..|].
    exists [], m, ms, [], d. split_and!; [done|constructor|done]. }
  destruct (Ho eq_refl) as [Hcan1 Hd]. destruct d as [|d]; [lia|].
  eapply wp_mono; [by apply IH|]. intros o a2 (kvs & read & Happ2 & Hread2 & Hr).
  exists (replicate (S d) kv ++ kvs), (replicate (S d) m ++ read).
  split_and!; [by eapply appended_trans|by apply Forall2_app|]. destruct o as [x|e]; [by constructor|].
  destruct Hr as (ms1 & m' & ms2 & read1 & d' & -> & Hr & ->).
  exists (m :: ms1), m', ms2, (replicate (S d) m ++ read1), d'.
  split_and!; [done|by constructor|by rewrite app_assoc].
Qed.

(** The consumer is asked for with an argument that it does not document. *)
Lemma consumer_refused a :
  consumer a = None → ∃ message, ∀ t, run (consume t) a = (Exn (EType message), a).
Proof.
  intros Hc. destruct (new_consumer_law consumer_topics (consumer_arguments bootstrap_servers consumer_group)
    (lit "rebalance_listener") (KwListener consumer_group) (kafka a)) as [message Hnew].
  { unfold consumer_arguments. set_solver. }
  { apply (bool_decide_eq_false_1 (lit "rebalance_listener" ∈ consumer_keywords)). vm_compute. reflexivity. }
  exists message. intros t. unfold KafkaMessageBroker.consume, ensure_consumer. rewrite run_bind, run_bind. cbn [run act].
  rewrite Hc, Hnew. by destruct a.
Qed.

Definition lags_ok (a : state (St := St)) : Prop := Forall (λ l, 0 ≤ lag_value l) (lags a).

(** A lag that is recorded is not negative. *)
Lemma wp_record_lag c r a :
  lags_ok a →
  wp (record_lag k consumer_group c r)
    (λ o a', o = Ok tt ∧ producer a' = producer a ∧ consumer a' = consumer a ∧ kafka a' = kafka a ∧ lags_ok a') a.
Proof.
  intros Hl. apply wp_bind, wp_gets. destruct (highwater _ _ _ _ _) as [hw|]; [|by apply wp_ret].
  apply wp_modify. split_and!; [done..|]. apply Forall_app. split; [exact Hl|]. constructor; [cbn; lia|done].
Qed.

(** What [consume] would do with a consumer: it yields the record at its position
    as the message it stands for, or none when [getone] fails; only a key that
    is not UTF-8 and a [BaseException] come through. *)
Lemma wp_consume topic t c n a :
  consumer a = Some c → reading c topic n (kafka a) → lags_ok a →
  wp (consume t)
    (λ o a', lags_ok a' ∧ consumer a' = Some c ∧ topic_log topic (kafka a') = topic_log topic (kafka a) ∧
       match o with
       | Ok None => reading c topic n (kafka a')
       | Ok (Some m) => reading c topic (S n) (kafka a') ∧
                        ∃ kv, topic_log topic (kafka a) !! n = Some kv ∧ message_of topic kv = Ok m
       | Exn e => is_exception e = false ∨
                  ∃ kv, topic_log topic (kafka a) !! n = Some kv ∧ message_of topic kv = Exn e
       end) a.
Proof.
  intros Hc Hrd Hlags. apply wp_bind. eapply wp_ensure_consumer; [exact Hc|].
  apply wp_bind, wp_except_if, wp_bind, wp_in_kafka. eapply wp_mono; [by apply getone_law|].
  intros [r|e] s' [Hlog Hread].
  - apply wp_ret. destruct Hread as (Hat & <- & Hnext). apply wp_bind.
    eapply wp_mono; [by apply wp_record_lag|]. intros o a1 (-> & _ & Hc1 & Hk1 & Hl1). cbn in Hc1, Hk1.
    apply wp_bind. destruct (decode_key (kr_key r)) as [key|e] eqn:Ek.
    + apply wp_done, wp_ret. rewrite Hk1. split_and!; [done|congruence|done|done|].
      eexists. split; [exact Hat|]. unfold message_of. cbn. by rewrite Ek.
    + apply wp_done. rewrite Hk1. split_and!; [done|congruence|done|]. right. eexists. split; [exact Hat|].
      unfold message_of. cbn. by rewrite Ek.
  - destruct (is_exception e) eqn:Ee; [apply wp_ret, wp_ret|]; split_and!; try done. by left.
Qed.

(** C19: publication through Kafka is at least once, and in order; consumption
    there is none.  The messages published one after the other to a topic are
    appended to it: read back as [consume] reads a record, they are the messages
    published, in their order, each once or several times in a row (the producer
    is not idempotent).  If one fails, those before it are there, and it may be,
    and nothing else.  And [consume] never yields a message: as the consumer is
    constructed with an argument that it does not document, each call raises
    [TypeError] and changes nothing. *)
Theorem kafka_delivers (topic : pystr) (ms : list Message) (a : state (St := St)) :
  can_publish a → consumer a = None →
  Forall (λ m, msg_topic m = topic ∧ Forall (λ c, is_scalar c = true) (msg_key m)) ms →
  wp (publish_all ms)
    (λ o a', (∃ kvs read,
        topic_log topic (kafka a') = topic_log topic (kafka a) ++ kvs ∧ reads_as topic kvs read ∧
        match o with
        | Ok _ => repeats ms read
        | Exn _ => published_until ms read
        end) ∧
      ∃ message, ∀ t, run (consume t) a' = (Exn (EType message), a')) a.
Proof.
  intros Hcan Hc Hms. eapply wp_mono; [by apply wp_publish_all|].
  intros o a' (kvs & read & [Hc' Hlog] & Hread & Ho). split; [by exists kvs, read|].
  apply consumer_refused. congruence.
Qed.

(** A client whose start failed is kept, and used as it is from then on. *)
Lemma failed_start_sticks m e s p s' a :
  producer a = None → new_producer k bootstrap_servers (kafka a) = (Ok p, s) →
  run (producer_start k p) s = (Exn e, s') →
  let a1 := set_kafka s' (set_producer (Some p) (set_kafka s a)) in
  run (publish m) a = (Exn e, a1) ∧
  ∀ m', run (publish m') a1 =
        run (key ← lift (encode_key (msg_key m')); in_kafka (send_and_wait k p (msg_topic m') key (msg_value m'))) a1.
Proof.
  intros Hp Hnew Hstart. cbn zeta. split; [|done].
  unfold KafkaMessageBroker.publish, ensure_producer. rewrite run_bind, run_bind. cbn. rewrite Hp, Hnew. cbn.
  rewrite run_bind, run_in_kafka. cbn. by rewrite Hstart.
Qed.
End properties.
