(* ===== verification/Config.v ===== *)
(** * Configuration and wiring

    Models [src/src/config.py] and the parts of
    [src/src/presentation/api/dependencies.py] that build the collaborators
    from the settings. *)

From S2P Require Import Prelude PyText Prog Cache World Ports Upload Consume Processing.
Local Open Scope Z_scope.

(** [Settings]; a period in [float] seconds is in microseconds here. *)
Record Settings := MkSettings {
  app_name : pystr;
  debug : bool;
  db_user : pystr;
  db_password : pystr;
  db_host : pystr;
  db_port : Z;
  db_name : pystr;
  db_pool_size : Z;
  db_max_overflow : Z;
  storage_base_dir : pystr;
  processing_max_workers : Z;
  thumbnail_max_size : Z;
  processing_backend : pystr;
  cache_ttl_seconds : Z;
  cache_max_size : Z;
  retention_batch_size : Z;
  broker_enabled : bool;
  kafka_bootstrap_servers : pystr;
  kafka_consumer_group : pystr;
  kafka_retry_max_attempts : Z;
  kafka_retry_backoff_seconds : Z;
  kafka_dlq_topic : pystr;
  rate_limit_upload_max : Z;
  rate_limit_upload_window : Z;
  rate_limit_process_max : Z;
  rate_limit_process_window : Z;
  rate_limit_read_max : Z;
  rate_limit_read_window : Z;
  api_key : pystr;
  cors_origins : list pystr;
  cors_allow_methods : list pystr;
  cors_allow_headers : list pystr;
  otel_enabled : bool;
  otel_exporter_otlp_endpoint : pystr;
  otel_service_name : pystr
}.

(** The defaults; the credentials have none. *)
Definition default_settings (db_user db_password : pystr) : Settings := {|
  app_name := lit "image-processing-service";
  debug := false;
  db_user := db_user;
  db_password := db_password;
  db_host := lit "localhost";
  db_port := 5432;
  db_name := lit "images";
  db_pool_size := 10;
  db_max_overflow := 20;
  storage_base_dir := lit "/data/images";
  processing_max_workers := 4;
  thumbnail_max_size := 256;
  processing_backend := lit "pillow";
  cache_ttl_seconds := 60;
  cache_max_size := 1024;
  retention_batch_size := 100;
  broker_enabled := false;
  kafka_bootstrap_servers := lit "localhost:9092";
  kafka_consumer_group := lit "image-processing";
  kafka_retry_max_attempts := 3;
  kafka_retry_backoff_seconds := 1000000;
  kafka_dlq_topic := lit "image.processing.dlq";
  rate_limit_upload_max := 10;
  rate_limit_upload_window := 60;
  rate_limit_process_max := 20;
  rate_limit_process_window := 60;
  rate_limit_read_max := 60;
  rate_limit_read_window := 60;
  api_key := [];
  cors_origins := [];
  cors_allow_methods := [lit "GET"; lit "POST"; lit "PUT"; lit "DELETE"; lit "OPTIONS"];
  cors_allow_headers := [lit "*"];
  otel_enabled := false;
  otel_exporter_otlp_endpoint := lit "http://localhost:4317";
  otel_service_name := lit "image-processing-service"
|}.

(** ** The database URL *)

(** [urllib.parse.quote_plus] *)
Definition unreserved (c : Z) : bool :=
  is_digit c || is_upper c || is_lower c || existsb (Z.eqb c) (lit "_.-~").
Definition hex_upper (d : Z) : Z := if d <? 10 then 48 + d else 55 + d.
Definition quote_byte (c : Z) : pystr :=
  if c =? 32 then lit "+"
  else if unreserved c then [c]
  else [37; hex_upper (c / 16); hex_upper (c mod 16)].
Definition quote_plus (s : pystr) : outcome pystr :=
  b ← or_raise (EValue (lit "surrogates not allowed")) (utf8_encode s);
  Ok (concat (map quote_byte b)).

(** [Settings.database_url] *)
Definition database_url (s : Settings) : outcome pystr :=
  password ← quote_plus (db_password s);
  Ok (lit "postgresql+asyncpg://" ++ db_user s ++ lit ":" ++ password ++
      lit "@" ++ db_host s ++ lit ":" ++ str_of_Z (db_port s) ++ lit "/" ++ db_name s).

(** ** The collaborators *)

(** [_cache]; instants are in microseconds. *)
Definition build_cache (s : Settings) : InMemoryImageCache :=
  empty_cache (1000000 * cache_ttl_seconds s) (cache_max_size s).

(** [_processor] *)
Definition build_processor `{PyTables, Pillow} (fast_resize : option FastResize) (s : Settings) :
    outcome ImageProcessor :=
  let max_dim := thumbnail_max_size s in
  build_image_processor fast_resize (processing_backend s) (max_dim, max_dim).

(** The configuration in [get_consume_use_case]. *)
Definition consume_config (s : Settings) : ConsumeProcessingTasks.config :=
  ConsumeProcessingTasks.init (kafka_retry_max_attempts s) (kafka_retry_backoff_seconds s) (kafka_dlq_topic s).

(** ** Lemmas *)

(** A quoted password has none of the characters that delimit a URL. *)
Definition delimiter (c : Z) : bool := existsb (Z.eqb c) (lit ":/?#[]@").

Lemma quote_byte_safe c : 0 ≤ c < 256 → forallb (λ x, negb (delimiter x)) (quote_byte c) = true.
Proof.
  intros Hc. assert (∀ n, (n < 256)%nat → forallb (λ x, negb (delimiter x)) (quote_byte (Z.of_nat n)) = true) as Hn.
  { intros n Hn. assert (forallb (λ n, forallb (λ x, negb (delimiter x)) (quote_byte (Z.of_nat n))) (seq 0 256) = true)
      as Hall by (vm_compute; reflexivity).
    apply (proj1 (forallb_forall _ _) Hall). apply in_seq. lia. }
  rewrite <- (Z2Nat.id c) by lia. apply Hn. lia.
Qed.
