(* ===== verification/Middleware.v ===== *)
(** * Request middleware and the health check

    Models [src/src/infrastructure/observability/middleware.py] (the RED
    metrics of a request), [src/src/presentation/api/middleware.py] and
    [correlation.py] (the correlation id) and
    [src/src/presentation/api/routes/health.py].  The application behind a
    middleware is a coroutine that answers with a status. *)

From S2P Require Import Prelude PyDict PyText PyUuid Prog Interleave.
Local Open Scope Z_scope.

(** ** [MetricsMiddleware] *)

Module MetricsMiddleware.

(** The labels of a request, and what is recorded under them. *)
Record attrs := MkAttrs { at_method : pystr; at_path : pystr }.

#[export] Instance attrs_eq_dec : EqDecision attrs.
Proof. solve_decision. Defined.

Inductive event :=
| ActiveRequests (delta : Z) (a : attrs)
| RequestErrors (a : attrs) (status_code : Z)
| RequestDuration (a : attrs) (status_code : Z)
| RequestTotal (a : attrs) (status_code : Z).

Section dispatch.
Context {St : Type}.

Record state := MkState { events : list event; app : St }.

Definition set_app (s : St) (m : state) : state := MkState (events m) s.
Definition record (e : event) : prog state unit := modify (λ m, MkState (events m ++ [e]) (app m)).

(** [request.url.path in ("/health", "/metrics")] *)
Definition unmetered (path : pystr) : bool := bool_decide (path ∈ [lit "/health"; lit "/metrics"]).

(** [dispatch]; [call_next] yields the status of the response. *)
Definition dispatch (a : attrs) (call_next : prog St Z) : prog state Z :=
  if unmetered (at_path a) then zoom app set_app call_next
  else
    record (ActiveRequests 1 a);;
    status_code ← except_if is_exception (zoom app set_app call_next)
      (λ e, record (RequestErrors a 500);; record (ActiveRequests (-1) a);; raise e);
    record (RequestDuration a status_code);;
    record (RequestTotal a status_code);;
    (if 400 <=? status_code then record (RequestErrors a status_code) else mret tt);;
    record (ActiveRequests (-1) a);;
    mret status_code.

(** The value of the gauge [active_requests] for some labels. *)
Definition delta_of (a : attrs) (e : event) : Z :=
  match e with ActiveRequests d a' => if decide (a' = a) then d else 0 | _ => 0 end.
Definition gauge (a : attrs) (m : state) : Z := foldr (λ e s, delta_of a e + s) 0 (events m).
End dispatch.
Arguments state : clear implicits.

(** *** The gauge under interleaving *)

(** Where a request stands: before its first record, counted, or counted out. *)
Inductive stage := Before | Counted | After.
Abbreviation phase := (attrs * stage)%type.

Definition counts (a : attrs) (φ : phase) : Z :=
  if decide (φ.1 = a) then match φ.2 with Counted => 1 | _ => 0 end else 0.
Fixpoint counted (a : attrs) (φs : list phase) : Z :=
  match φs with [] => 0 | φ :: φs' => counts a φ + counted a φs' end.

Section gauge.
Context {St : Type}.
Implicit Types (m : state St).

Lemma gauge_record a e m : gauge a (MkState (events m ++ [e]) (app m)) = gauge a m + delta_of a e.
Proof.
  unfold gauge. cbn. rewrite foldr_app. cbn. generalize (delta_of a e). intros d.
  induction (events m) as [|x l IH]; cbn; [lia|]. rewrite IH. lia.
Qed.

Definition moves (φ : phase) m m' (φ' : phase) : Prop :=
  φ'.1 = φ.1 ∧ ∀ a, gauge a m' - gauge a m = counts a φ' - counts a φ.

Definition counted_ok (as_ : list attrs) (φs : list phase) m : Prop :=
  φs.*1 = as_ ∧ ∀ a, gauge a m = counted a φs.

Lemma counted_insert a φs i φ φ' :
  φs !! i = Some φ → counted a (<[i := φ']> φs) = counted a φs + counts a φ' - counts a φ.
Proof.
  revert i. induction φs as [|φ0 φs IH]; intros [|i] Hi; [done..| |].
  - injection Hi as ->. cbn. lia.
  - change (<[S i:=φ']> (φ0 :: φs)) with (φ0 :: <[i:=φ']> φs). cbn [counted]. rewrite (IH i Hi). lia.
Qed.

Lemma counted_step as_ φs i φ φ' m m' :
  counted_ok as_ φs m → φs !! i = Some φ → moves φ m m' φ' → counted_ok as_ (<[i := φ']> φs) m'.
Proof.
  intros [Has Hg] Hi [Ha Hm]. split.
  - rewrite list_fmap_insert, Ha, <- Has. apply list_insert_id. by rewrite list_lookup_fmap, Hi.
  - intros a. rewrite (counted_insert _ _ _ _ _ Hi). specialize (Hg a). specialize (Hm a). lia.
Qed.

Abbreviation safe := (Interleave.safe (λ _ : state St, True) (λ _ _, True) moves).

Lemma always_stable : Interleave.stable (λ _ : state St, True) (λ _ _, True) moves (λ _, True).
Proof. apply stable_true. Qed.

Lemma safe_record a e st st' (Ψ : phase → (state St → Prop) → outcome unit → Prop) :
  (∀ a', delta_of a' e = counts a' (a, st') - counts a' (a, st)) →
  Ψ (a, st') (λ _, True) (Ok tt) → safe (a, st) (λ _, True) (record e) Ψ.
Proof.
  intros He HΨ m _ _ _. exists (a, st'), (λ _, True).
  split_and!; [done| |apply always_stable|done|done]. split; [done|]. intros a'.
  pose proof (gauge_record a' e m). rewrite <- He. lia.
Qed.

Lemma safe_app {A} (p : prog St A) φ (Ψ : phase → (state St → Prop) → outcome A → Prop) :
  (∀ o, Ψ φ (λ _, True) o) → safe φ (λ _, True) (zoom app set_app p) Ψ.
Proof.
  intros HΨ. induction p as [o|X a k IH]; [apply HΨ|]. intros m _ _ _. destruct (a (app m)) as [x s].
  exists φ, (λ _, True). split_and!; [done| |apply always_stable|done|apply IH]. split; [done|]. intros a'.
  unfold gauge. cbn. lia.
Qed.

(** How a request ends: counted out, or still counted when it was cancelled. *)
Definition ended (φ : phase) (_ : state St → Prop) (o : outcome Z) : Prop :=
  match o with
  | Ok _ => φ.2 ≠ Counted
  | Exn e => φ.2 = Counted ↔ is_exception e = false ∧ unmetered (at_path φ.1) = false
  end.

Lemma safe_dispatch a (p : prog St Z) : safe (a, Before) (λ _, True) (dispatch a p) ended.
Proof.
  unfold dispatch. destruct (unmetered (at_path a)) eqn:Eu.
  { apply safe_app. intros [z|e]; cbn; [done|]. rewrite Eu. naive_solver. }
  assert (∀ st st' e, (∀ a', delta_of a' e = counts a' (a, st') - counts a' (a, st)) →
    ∀ B (f : unit → prog (state St) B) Ψ, safe (a, st') (λ _, True) (f tt) Ψ →
    safe (a, st) (λ _, True) (record e ≫= f) Ψ) as Hrec.
  { intros st st' e He B f Ψ Hf. apply safe_bind. by eapply safe_record. }
  apply (Hrec Before Counted); [intros a'; unfold counts; cbn; case_decide; lia|].
  apply safe_bind, safe_except_if, safe_app. intros [status|e].
  - apply (Hrec Counted Counted); [intros a'; cbn; lia|].
    apply (Hrec Counted Counted); [intros a'; cbn; lia|].
    apply safe_bind. assert (safe (a, Counted) (λ _, True) (record (ActiveRequests (-1) a);; mret status : prog (state St) Z) ended) as Hend.
    { apply (Hrec Counted After); [intros a'; unfold counts; cbn; case_decide; lia|]. by apply safe_ret. }
    destruct (400 <=? status); [|by apply safe_ret].
    by apply (safe_record _ _ Counted Counted); [intros a'; cbn; lia|].
  - destruct (is_exception e) eqn:Ee.
    + apply (Hrec Counted Counted); [intros a'; cbn; lia|].
      apply (Hrec Counted After); [intros a'; unfold counts; cbn; case_decide; lia|].
      apply safe_done. cbn. naive_solver congruence.
    + cbn. by rewrite Ee.
Qed.

(** The requests with labels [a]; those of them that ended cancelled. *)
Definition same_labels (a : attrs) (q : attrs * prog St Z) : Z := if decide (q.1 = a) then 1 else 0.
Definition cancelled (a : attrs) (q : attrs * prog St Z) (p : prog (state St) Z) : Z :=
  match p with
  | Done (Exn e) => if is_exception e || unmetered (at_path a) then 0 else same_labels a q
  | _ => 0
  end.

Fixpoint total (a : attrs) (qs : list (attrs * prog St Z)) : Z :=
  match qs with [] => 0 | q :: qs' => same_labels a q + total a qs' end.
Fixpoint leaked (a : attrs) (qs : list (attrs * prog St Z)) (ts : list (prog (state St) Z)) : Z :=
  match qs, ts with q :: qs', p :: ts' => cancelled a q p + leaked a qs' ts' | _, _ => 0 end.

Definition is_done (p : prog (state St) Z) : Prop := match p with Done _ => True | _ => False end.

Definition start (qs : list (attrs * prog St Z)) : list (prog (state St) Z) :=
  (λ q, dispatch q.1 q.2) <$> qs.

Lemma dispatch_reachable qs m c :
  (∀ a, gauge a m = 0) → rtc pstep (start qs, m) c →
  Interleave.config_ok (λ _, True) (λ _ _, True) moves ended (counted_ok qs.*1) c.
Proof.
  intros H0 Hc. eapply safe_reachable; [|done|exact Hc|].
  - intros φs i φ φ' m1 m2 HI _ _. by apply counted_step.
  - exists ((λ q, (q.1, Before)) <$> qs). split_and!; [done| |].
    + split; [by rewrite <- list_fmap_compose|]. cbn. intros a. rewrite H0. clear.
      induction qs as [|q qs IH]; [done|]. cbn. rewrite <- IH. unfold counts. cbn. by case_decide.
    + cbn. apply Forall2_fmap, Forall_Forall2_diag, Forall_true. intros [a p]. exists (λ _, True).
      split_and!; [apply always_stable|done|apply safe_dispatch].
Qed.

Lemma counted_bounds a qs φs : φs.*1 = qs.*1 → 0 ≤ counted a φs ≤ total a qs.
Proof.
  revert φs. induction qs as [|q qs IH]; intros [|φ φs]; cbn; try done. intros [= Hφ Hφs].
  specialize (IH φs Hφs). unfold counts, same_labels. rewrite Hφ. destruct φ.2; case_decide; lia.
Qed.

Lemma counted_leaked a qs φs ts m :
  φs.*1 = qs.*1 → Forall is_done ts →
  Forall2 (Interleave.task_ok (λ _, True) (λ _ _, True) moves ended m) φs ts →
  counted a φs = leaked a qs ts.
Proof.
  intros Hq Hd Hts. revert qs Hq Hd. induction Hts as [|φ p φs ts Hp _ IH]; intros [|q qs] Hq Hd; try done.
  injection Hq as Hφ Hφs. apply Forall_cons in Hd as [Hd1 Hd]. cbn [counted leaked].
  rewrite (IH qs Hφs Hd). f_equal. destruct p as [o|]; [|done]. destruct Hp as (κ & _ & _ & Ho). cbn in Ho.
  unfold counts, cancelled, same_labels. rewrite <- Hφ. destruct o as [z|e]; cbn in Ho.
  - case_decide; [|done]. by destruct φ.2.
  - case_decide as Ha; [|by destruct (_ || _)]. rewrite Ha in Ho.
    destruct (is_exception e) eqn:Ee, (unmetered (at_path a)) eqn:Eu; cbn; destruct φ.2; naive_solver.
Qed.

(** C38: the gauge of active requests.  However concurrent requests interleave,
    and however they end, the gauge under given labels stays between 0 and the
    number of those requests; once all have ended it is the number of those
    that were cancelled: every other response or exception counts itself out,
    and a cancellation, which [except Exception] does not catch, never does. *)
Theorem gauge_balance (qs : list (attrs * prog St Z)) m m' (ts : list (prog (state St) Z)) (a : attrs) :
  (∀ a, gauge a m = 0) → rtc pstep (start qs, m) (ts, m') →
  0 ≤ gauge a m' ≤ total a qs ∧ (Forall is_done ts → gauge a m' = leaked a qs ts).
Proof.
  intros H0 Hsteps. destruct (dispatch_reachable qs m _ H0 Hsteps) as (φs & _ & [Hq Hg] & Hts). cbn in Hg, Hts.
  rewrite Hg. split; [by apply counted_bounds|]. intros Hd. by eapply counted_leaked.
Qed.
End gauge.
End MetricsMiddleware.

(** ** [RequestLoggingMiddleware] and the correlation id *)

Module RequestLoggingMiddleware.

Definition HEADER_NAME : pystr := lit "X-Correlation-ID".

Record response := MkResponse { status_code : Z; headers : list (pystr * pystr) }.

Section dispatch.
Context {St : Type} (uuid4 : prog St Z).

(** The context variable of the request's context, what is logged, and the
    application. *)
Record state := MkState {
  correlation_id : pystr;
  logged : list (pystr * pystr * Z * pystr);
  app : St
}.

Definition set_app (s : St) (m : state) : state := MkState (correlation_id m) (logged m) s.
Definition set_cid (c : pystr) (m : state) : state := MkState c (logged m) (app m).
Definition log (l : pystr * pystr * Z * pystr) (m : state) : state :=
  MkState (correlation_id m) (logged m ++ [l]) (app m).

(** [new_correlation_id]: [uuid.uuid4().hex] *)
Definition new_correlation_id : prog state pystr :=
  u ← zoom app set_app uuid4; mret (hex_fixed 32 u).

(** [get_correlation_id] *)
Definition get_correlation_id : prog state pystr := gets correlation_id.

(** [request.headers.get(HEADER_NAME) or new_correlation_id()] *)
Definition cid_of (header : option pystr) : prog state pystr :=
  match header with
  | None | Some [] => new_correlation_id
  | Some c => mret c
  end.

(** [dispatch] *)
Definition dispatch (method path : pystr) (header : option pystr) (call_next : prog St response) :
    prog state response :=
  cid ← cid_of header;
  token ← gets correlation_id;
  modify (set_cid cid);;
  r ← try_finally (zoom app set_app call_next) (modify (set_cid token));
  let r := MkResponse (status_code r) (dict_set HEADER_NAME cid (headers r)) in
  modify (log (method, path, status_code r, cid));;
  mret r.

(** The context variable is what it was, whatever the application does, and a
    response carries the id the request asked for. *)
Lemma dispatch_restores method path header call_next m :
  let '(o, m') := run (dispatch method path header call_next) m in
  correlation_id m' = correlation_id m ∧
  ∀ r c, o = Ok r → header = Some c → c ≠ [] → dict_get HEADER_NAME (headers r) = Some c.
Proof.
  assert (∀ A (p : prog St A) m, run (zoom app set_app p) m = ((run p (app m)).1, set_app (run p (app m)).2 m)) as Hz
    by (intros; apply run_zoom; [done|done|by intros []]).
  unfold dispatch. rewrite run_bind.
  assert (∃ o m1, run (cid_of header) m = (o, m1) ∧ correlation_id m1 = correlation_id m ∧
            ∀ c, header = Some c → c ≠ [] → o = Ok c) as (o & m1 & -> & Hm1 & Ho).
  { unfold cid_of, new_correlation_id. destruct header as [[|x c]|].
    - rewrite run_bind, Hz. destruct (run uuid4 (app m)) as [[u|e] s]; do 2 eexists;
        (split; [done|split; [done|]]); by intros c [= <-].
    - exists (Ok (x :: c)), m. split_and!; [done..|]. by intros ? [= <-].
    - rewrite run_bind, Hz. by destruct (run uuid4 (app m)) as [[u|e] s]; do 2 eexists. }
  destruct o as [cid|e]; [|split; [done|]; by intros]. cbn. unfold try_finally.
  rewrite !run_bind, run_try, Hz. destruct (run call_next _) as [[r|e] s]; cbn.
  - split; [done|]. intros r' c [= <-] -> Hc. specialize (Ho c eq_refl Hc). injection Ho as ->.
    cbn. rewrite dict_get_set. by rewrite decide_True.
  - done.
Qed.
End dispatch.
End RequestLoggingMiddleware.

(** ** The health check *)

Module Health.

Record ComponentCheck := MkCheck { check_status : pystr; detail : option pystr }.
Record HealthResponse := MkHealth {
  health_status : pystr;
  service : pystr;
  version : pystr;
  checks : list (pystr * ComponentCheck)
}.

Section check.
Context {St : Type} (select_1 : prog St unit) (is_dir : pystr → prog St bool).

(** [_check_database] *)
Definition check_database : prog St ComponentCheck :=
  except_if is_exception (select_1;; mret (MkCheck (lit "ok") None))
    (λ e, mret (MkCheck (lit "error") (Some (exn_str e)))).

(** [_check_storage] *)
Definition check_storage (storage_base_dir : pystr) : prog St ComponentCheck :=
  b ← is_dir storage_base_dir;
  mret (if (b : bool) then MkCheck (lit "ok") None
        else MkCheck (lit "error") (Some (lit "storage directory not found"))).

(** [health_check] *)
Definition health_check (app_name version storage_base_dir : pystr) : prog St HealthResponse :=
  db ← check_database;
  storage ← check_storage storage_base_dir;
  let checks := [(lit "database", db); (lit "storage", storage)] in
  let overall := if forallb (λ c, bool_decide (check_status c.2 = lit "ok")) checks
                 then lit "healthy" else lit "degraded" in
  mret (MkHealth overall app_name version checks).

(** Healthy exactly when the query succeeds and the directory exists.  A failing
    query is reported, never raised; what [is_dir] raises comes through. *)
Lemma health_check_reports app version dir w :
  match run select_1 w with
  | (Exn e, w') =>
      if is_exception e then
        match run (is_dir dir) w' with
        | (Ok _, w2) => ∃ h, run (health_check app version dir) w = (Ok h, w2) ∧ health_status h = lit "degraded"
        | (Exn e', w2) => run (health_check app version dir) w = (Exn e', w2)
        end
      else run (health_check app version dir) w = (Exn e, w')
  | (Ok _, w') =>
      match run (is_dir dir) w' with
      | (Ok b, w2) => ∃ h, run (health_check app version dir) w = (Ok h, w2) ∧
                           (health_status h = lit "healthy" ↔ b = true)
      | (Exn e', w2) => run (health_check app version dir) w = (Exn e', w2)
      end
  end.
Proof.
  unfold health_check, check_database, check_storage.
  rewrite run_bind, run_except_if, run_bind. destruct (run select_1 w) as [[[]|e] w']; cbn.
  - rewrite run_bind, run_bind. destruct (run (is_dir dir) w') as [[b|e] w2]; [|done]. eexists.
    split; [done|]. destruct b; cbn; [done|]. split; [|done]. by vm_compute.
  - destruct (is_exception e); [|done]. cbn. rewrite run_bind, run_bind.
    destruct (run (is_dir dir) w') as [[b|e'] w2]; [|done]. eexists. split; [done|]. by destruct b.
Qed.
End check.
End Health.
