(* ===== verification/Migrations.v ===== *)
(** * The database schema and its migrations

    Models [src/migrations/versions/0001_initial_schema.py] and
    [0002_add_idempotency_keys_table.py] as DDL on a schema, and the tables that
    [src/src/infrastructure/database/models.py] declares.  A row of [Database.v]
    is checked against the columns the migrations create.  [AlembicEnv.v] runs
    them. *)

From Stdlib Require Import Btauto.
From S2P Require Import Prelude PyDict PyText PyUuid Prog Domain Database Processing Config.
Local Open Scope Z_scope.

(** ** Schemas *)

Inductive column_type :=
| UUID
| String (length : option nat)
| Text
| Integer
| ArrayOfString
| TimestampTz.

#[export] Instance column_type_eq_dec : EqDecision column_type.
Proof. solve_decision. Defined.

Record column := MkColumn {
  col_name : pystr;
  col_type : column_type;
  col_nullable : bool;
  col_server_default : option pystr
}.

Record table := MkTable {
  tb_columns : list column;
  tb_primary_key : list pystr
}.

Record index := MkIndex {
  ix_table : pystr;
  ix_columns : list pystr;
  ix_where : option pystr
}.

(** Index names are global to the schema. *)
Record schema := MkSchema {
  tables : gmap pystr table;
  indexes : gmap pystr index
}.

(** ** DDL: each statement fails when what it makes exists or what it drops does not. *)

Definition ddl_error : exn := EDatabase (lit "DDL").

Definition create_table (name : pystr) (t : table) (s : schema) : outcome schema :=
  match tables s !! name with
  | Some _ => Exn ddl_error
  | None => Ok (MkSchema (<[name := t]> (tables s)) (indexes s))
  end.

Definition create_index (name table : pystr) (columns : list pystr) (where_ : option pystr) (s : schema) :
    outcome schema :=
  match tables s !! table, indexes s !! name with
  | Some _, None => Ok (MkSchema (tables s) (<[name := MkIndex table columns where_]> (indexes s)))
  | _, _ => Exn ddl_error
  end.

Definition drop_index (name : pystr) (s : schema) : outcome schema :=
  match indexes s !! name with
  | None => Exn ddl_error
  | Some _ => Ok (MkSchema (tables s) (delete name (indexes s)))
  end.

(** Dropping a table drops its indexes. *)
Definition drop_table (name : pystr) (s : schema) : outcome schema :=
  match tables s !! name with
  | None => Exn ddl_error
  | Some _ => Ok (MkSchema (delete name (tables s)) (filter (λ kv, ix_table kv.2 ≠ name) (indexes s)))
  end.

(** ** The migrations *)

(** What [op.get_bind()] gives: a connection, or [None] when only SQL is emitted. *)
Inductive bind := Online | Offline.

(** [sa.inspect(conn).get_table_names()] *)
Definition get_table_names (conn : bind) (s : schema) : outcome (gset pystr) :=
  match conn with
  | Online => Ok (dom (tables s))
  | Offline => Exn (EDatabase (lit "No inspection system is available for object of type <class 'NoneType'>"))
  end.

Definition now_default : option pystr := Some (lit "now()").

Module M0001.
Definition images : table := MkTable [
    MkColumn (lit "id") UUID false None;
    MkColumn (lit "filename") (String (Some 512%nat)) false None;
    MkColumn (lit "original_path") Text false None;
    MkColumn (lit "thumbnail_path") Text true None;
    MkColumn (lit "status") (String (Some 20%nat)) false (Some (lit "pending"));
    MkColumn (lit "width") Integer true None;
    MkColumn (lit "height") Integer true None;
    MkColumn (lit "format") (String (Some 20%nat)) true None;
    MkColumn (lit "size_bytes") Integer true None;
    MkColumn (lit "channels") Integer true None;
    MkColumn (lit "tags") ArrayOfString true None;
    MkColumn (lit "created_at") TimestampTz false now_default;
    MkColumn (lit "updated_at") TimestampTz false now_default;
    MkColumn (lit "expires_at") TimestampTz true None
  ] [lit "id"].

Definition upgrade (conn : bind) (s : schema) : outcome schema :=
  names ← get_table_names conn s;
  if bool_decide (lit "images" ∈ names) then Ok s
  else
    s ← create_table (lit "images") images s;
    s ← create_index (lit "ix_images_status") (lit "images") [lit "status"] None s;
    s ← create_index (lit "ix_images_created_at") (lit "images") [lit "created_at"] None s;
    create_index (lit "ix_images_expires_at") (lit "images") [lit "expires_at"]
      (Some (lit "expires_at IS NOT NULL")) s.

Definition downgrade (s : schema) : outcome schema :=
  s ← drop_index (lit "ix_images_expires_at") s;
  s ← drop_index (lit "ix_images_created_at") s;
  s ← drop_index (lit "ix_images_status") s;
  drop_table (lit "images") s.
End M0001.

Module M0002.
Definition idempotency_keys : table := MkTable [
    MkColumn (lit "scope") (String (Some 32%nat)) false None;
    MkColumn (lit "key") (String (Some 255%nat)) false None;
    MkColumn (lit "request_hash") (String (Some 64%nat)) false None;
    MkColumn (lit "status") (String (Some 20%nat)) false (Some (lit "in_progress"));
    MkColumn (lit "image_id") (String (Some 36%nat)) true None;
    MkColumn (lit "created_at") TimestampTz false now_default;
    MkColumn (lit "updated_at") TimestampTz false now_default
  ] [lit "scope"; lit "key"].

Definition upgrade (conn : bind) (s : schema) : outcome schema :=
  names ← get_table_names conn s;
  if bool_decide (lit "idempotency_keys" ∈ names) then Ok s
  else
    s ← create_table (lit "idempotency_keys") idempotency_keys s;
    create_index (lit "ix_idempotency_keys_created_at") (lit "idempotency_keys") [lit "created_at"] None s.

Definition downgrade (s : schema) : outcome schema :=
  s ← drop_index (lit "ix_idempotency_keys_created_at") s;
  drop_table (lit "idempotency_keys") s.
End M0002.

(** The chain of revisions. *)
Definition upgrade_head (conn : bind) (s : schema) : outcome schema :=
  s ← M0001.upgrade conn s; M0002.upgrade conn s.
Definition downgrade_base (s : schema) : outcome schema := s ← M0002.downgrade s; M0001.downgrade s.

(** ** The models: no server defaults; a column is nullable when its type is. *)

Module Models.
Definition images : table := MkTable [
    MkColumn (lit "id") UUID false None;
    MkColumn (lit "filename") (String (Some 512%nat)) false None;
    MkColumn (lit "original_path") Text false None;
    MkColumn (lit "thumbnail_path") Text true None;
    MkColumn (lit "status") (String (Some 20%nat)) false None;
    MkColumn (lit "width") Integer true None;
    MkColumn (lit "height") Integer true None;
    MkColumn (lit "format") (String (Some 20%nat)) true None;
    MkColumn (lit "size_bytes") Integer true None;
    MkColumn (lit "channels") Integer true None;
    MkColumn (lit "tags") ArrayOfString false None;
    MkColumn (lit "created_at") TimestampTz false None;
    MkColumn (lit "updated_at") TimestampTz false None;
    MkColumn (lit "expires_at") TimestampTz true None
  ] [lit "id"].

Definition idempotency_keys : table := MkTable [
    MkColumn (lit "scope") (String (Some 32%nat)) false None;
    MkColumn (lit "key") (String (Some 255%nat)) false None;
    MkColumn (lit "request_hash") (String (Some 64%nat)) false None;
    MkColumn (lit "status") (String (Some 20%nat)) false None;
    MkColumn (lit "image_id") (String (Some 36%nat)) true None;
    MkColumn (lit "created_at") TimestampTz false None;
    MkColumn (lit "updated_at") TimestampTz false None
  ] [lit "scope"; lit "key"].

(** [Base.metadata.create_all]: the tables that are missing, with the indexes of
    their [__table_args__]. *)
Definition create_images (s : schema) : outcome schema :=
  if bool_decide (is_Some (tables s !! lit "images")) then Ok s
  else
    s ← create_table (lit "images") images s;
    s ← create_index (lit "ix_images_created_at") (lit "images") [lit "created_at"] None s;
    s ← create_index (lit "ix_images_expires_at") (lit "images") [lit "expires_at"]
      (Some (lit "expires_at IS NOT NULL")) s;
    create_index (lit "ix_images_status") (lit "images") [lit "status"] None s.

Definition create_idempotency_keys (s : schema) : outcome schema :=
  if bool_decide (is_Some (tables s !! lit "idempotency_keys")) then Ok s
  else
    s ← create_table (lit "idempotency_keys") idempotency_keys s;
    create_index (lit "ix_idempotency_keys_created_at") (lit "idempotency_keys") [lit "created_at"] None s.

Definition create_all (s : schema) : outcome schema :=
  s ← create_images s; create_idempotency_keys s.
End Models.

(** ** Rows *)

Inductive value :=
| VNull
| VUuid (u : Z)
| VText (s : pystr)
| VInt (z : Z)
| VTexts (l : list pystr)
| VTime (t : Z).

Definition value_fits (t : column_type) (v : value) : bool :=
  match t, v with
  | UUID, VUuid _ | TimestampTz, VTime _ => true
  | String (Some n), VText s => pg_varchar n s
  | String None, VText s | Text, VText s => pg_text s
  | Integer, VInt z => pg_int4 z
  | ArrayOfString, VTexts l => forallb pg_text l
  | _, _ => false
  end.

Definition column_accepts (c : column) (v : value) : bool :=
  match v with VNull => col_nullable c | _ => value_fits (col_type c) v end.

(** A table takes a row that gives each of its columns a value it accepts. *)
Fixpoint row_accepted (cs : list column) (row : list (pystr * value)) : bool :=
  match cs, row with
  | [], [] => true
  | c :: cs', (name, v) :: row' =>
      bool_decide (col_name c = name) && column_accepts c v && row_accepted cs' row'
  | _, _ => false
  end.

Definition opt {A} (f : A → value) (o : option A) : value := match o with Some x => f x | None => VNull end.

Definition image_row (m : ImageModel) : list (pystr * value) := [
  (lit "id", VUuid (m_id m)); (lit "filename", VText (m_filename m));
  (lit "original_path", VText (m_original_path m)); (lit "thumbnail_path", opt VText (m_thumbnail_path m));
  (lit "status", VText (m_status m)); (lit "width", opt VInt (m_width m)); (lit "height", opt VInt (m_height m));
  (lit "format", opt VText (m_format m)); (lit "size_bytes", opt VInt (m_size_bytes m));
  (lit "channels", opt VInt (m_channels m)); (lit "tags", opt VTexts (m_tags m));
  (lit "created_at", VTime (m_created_at m)); (lit "updated_at", VTime (m_updated_at m));
  (lit "expires_at", opt VTime (m_expires_at m))].

Definition key_row (k : IdempotencyKeyModel) : list (pystr * value) := [
  (lit "scope", VText (k_scope k)); (lit "key", VText (k_key k)); (lit "request_hash", VText (k_request_hash k));
  (lit "status", VText (k_status k)); (lit "image_id", opt VText (k_image_id k));
  (lit "created_at", VTime (k_created_at k)); (lit "updated_at", VTime (k_updated_at k))].

(** ** Properties *)

(** The names the migrations use are free. *)
Definition unmigrated (s : schema) : Prop :=
  tables s !! lit "images" = None ∧ tables s !! lit "idempotency_keys" = None ∧
  indexes s !! lit "ix_images_status" = None ∧ indexes s !! lit "ix_images_created_at" = None ∧
  indexes s !! lit "ix_images_expires_at" = None ∧ indexes s !! lit "ix_idempotency_keys_created_at" = None ∧
  (∀ name ix, indexes s !! name = Some ix → is_Some (tables s !! ix_table ix)).

(** The schema with two tables and four indexes more. *)
Definition with_service (images keys : table) (s : schema) : schema := MkSchema
  (<[lit "idempotency_keys" := keys]> (<[lit "images" := images]> (tables s)))
  (<[lit "ix_idempotency_keys_created_at" := MkIndex (lit "idempotency_keys") [lit "created_at"] None]>
   (<[lit "ix_images_expires_at" := MkIndex (lit "images") [lit "expires_at"] (Some (lit "expires_at IS NOT NULL"))]>
    (<[lit "ix_images_created_at" := MkIndex (lit "images") [lit "created_at"] None]>
     (<[lit "ix_images_status" := MkIndex (lit "images") [lit "status"] None]> (indexes s))))).

Lemma create_table_ok name t s :
  tables s !! name = None → create_table name t s = Ok (MkSchema (<[name := t]> (tables s)) (indexes s)).
Proof. unfold create_table. by intros ->. Qed.

Lemma create_index_ok name tb cols wh s t :
  tables s !! tb = Some t → indexes s !! name = None →
  create_index name tb cols wh s = Ok (MkSchema (tables s) (<[name := MkIndex tb cols wh]> (indexes s))).
Proof. unfold create_index. by intros -> ->. Qed.

Lemma drop_index_ok name s ix :
  indexes s !! name = Some ix → drop_index name s = Ok (MkSchema (tables s) (delete name (indexes s))).
Proof. unfold drop_index. by intros ->. Qed.

(** No index is left on the table to drop. *)
Lemma drop_table_ok name s t :
  tables s !! name = Some t → (∀ i ix, indexes s !! i = Some ix → ix_table ix ≠ name) →
  drop_table name s = Ok (MkSchema (delete name (tables s)) (indexes s)).
Proof.
  unfold drop_table. intros -> Hix. do 2 f_equal. apply map_filter_id. intros i ix Hi. by eapply Hix.
Qed.

(** Lookups of the service's names in a schema built from [s]. *)
Ltac look :=
  cbn [tables indexes];
  repeat (rewrite lookup_insert_eq || rewrite lookup_delete_eq ||
          rewrite lookup_insert_ne by (vm_compute; discriminate) ||
          rewrite lookup_delete_ne by (vm_compute; discriminate));
  try first [eassumption | reflexivity].
Ltac bound := cbn [mbind outcome_bind get_table_names].

Section chain.
Context (s : schema) (Hs : unmigrated s).

Lemma upgrade_head_eq :
  upgrade_head Online s = Ok (with_service M0001.images M0002.idempotency_keys s).
Proof.
  destruct Hs as (Hi & Hk & H1 & H2 & H3 & H4 & _). unfold upgrade_head, M0001.upgrade. bound.
  rewrite bool_decide_eq_false_2 by (by rewrite not_elem_of_dom).
  rewrite create_table_ok by look. bound. do 3 (erewrite create_index_ok by look; bound).
  unfold M0002.upgrade. bound. rewrite bool_decide_eq_false_2 by (rewrite not_elem_of_dom; by look).
  rewrite create_table_ok by look. bound. by erewrite create_index_ok by look.
Qed.

Lemma create_all_eq :
  Models.create_all s =
  Ok (with_service Models.images Models.idempotency_keys s).
Proof.
  destruct Hs as (Hi & Hk & H1 & H2 & H3 & H4 & _). unfold Models.create_all, Models.create_images.
  rewrite bool_decide_eq_false_2 by (rewrite Hi; by intros []).
  rewrite create_table_ok by look. bound. do 3 (erewrite create_index_ok by look; bound).
  unfold Models.create_idempotency_keys. rewrite bool_decide_eq_false_2 by (look; rewrite Hk; by intros []).
  rewrite create_table_ok by look. bound. erewrite create_index_ok by look. unfold with_service. cbn [tables indexes].
  do 3 f_equal. rewrite (insert_insert_ne _ (lit "ix_images_status")) by (vm_compute; discriminate).
  f_equal. apply insert_insert_ne. vm_compute. discriminate.
Qed.

(** Another upgrade finds both tables and does nothing. *)
Lemma upgrade_again ti tk : upgrade_head Online (with_service ti tk s) = Ok (with_service ti tk s).
Proof.
  unfold upgrade_head, M0001.upgrade. bound. rewrite bool_decide_true by (apply elem_of_dom; unfold with_service; look; eauto).
  bound. unfold M0002.upgrade. bound. by rewrite bool_decide_true by (apply elem_of_dom; unfold with_service; look; eauto).
Qed.

(** The indexes of the old tables are on neither new one. *)
Lemma old_index i ix : indexes s !! i = Some ix → ix_table ix ≠ lit "images" ∧ ix_table ix ≠ lit "idempotency_keys".
Proof.
  destruct Hs as (Hi & Hk & _ & _ & _ & _ & Hix). intros [t Ht]%Hix. split; intros E; rewrite E in Ht; congruence.
Qed.

Lemma downgrade_eq ti tk : downgrade_base (with_service ti tk s) = Ok s.
Proof.
  destruct Hs as (Hi & Hk & H1 & H2 & H3 & H4 & _). unfold downgrade_base, M0002.downgrade, with_service.
  erewrite drop_index_ok by look. bound. cbn [tables indexes].
  rewrite delete_insert_id by look.
  erewrite drop_table_ok; [|look|].
  - bound. cbn [tables indexes]. rewrite delete_insert_id by look. unfold M0001.downgrade.
    erewrite drop_index_ok by look. bound. cbn [tables indexes]. rewrite delete_insert_id by look.
    erewrite drop_index_ok by look. bound. cbn [tables indexes]. rewrite delete_insert_id by look.
    erewrite drop_index_ok by look. bound. cbn [tables indexes]. rewrite delete_insert_id by look.
    erewrite drop_table_ok; [|look|].
    + cbn [tables indexes]. rewrite delete_insert_id by look. by destruct s.
    + cbn [indexes]. intros i ix [? _]%old_index. done.
  - cbn [indexes]. intros i ix. rewrite !lookup_insert_Some.
    intros [[_ <-]|[_ [[_ <-]|[_ [[_ <-]|[_ Hi']]]]]]; [vm_compute; discriminate..|].
    by apply old_index in Hi' as [_ ?].
Qed.
End chain.

Lemma image_row_accepted m : row_accepted (tb_columns M0001.images) (image_row m) = image_row_ok m.
Proof.
  unfold image_row_ok. destruct m as [id fn op th st w h f sz ch tg ca ua ea].
  cbn -[pg_text pg_varchar pg_int4 bool_decide lit]. rewrite !bool_decide_true by done.
  destruct th, w, h, f, sz, ch, tg, ea; cbn -[pg_text pg_varchar pg_int4]; btauto.
Qed.

Lemma key_row_accepted k : row_accepted (tb_columns M0002.idempotency_keys) (key_row k) = key_row_ok k.
Proof.
  unfold key_row_ok. destruct k as [sc key rh st im ca ua].
  cbn -[pg_text pg_varchar bool_decide lit]. rewrite !bool_decide_true by done.
  destruct im; cbn -[pg_text pg_varchar]; btauto.
Qed.

(** A table of the schema takes the row. *)
Definition takes (s : schema) (name : pystr) (row : list (pystr * value)) : bool :=
  match tables s !! name with Some t => row_accepted (tb_columns t) row | None => false end.

(** C18: On a schema that has none of the service's tables and indexes, the two
    migrations succeed; running them again changes nothing; downgrading restores
    the schema exactly, the other tables and their indexes untouched.  The tables
    they make take a row of the repository's models exactly when the row checks
    of [Database.v] accept it, so that the repository's theorems are about the
    migrated schema.  A schema made by [create_all] instead is left alone by the
    upgrade and still downgraded completely. *)
Theorem migrations_correct (s : schema) :
  unmigrated s →
  ∃ s2 s3, upgrade_head Online s = Ok s2 ∧ upgrade_head Online s2 = Ok s2 ∧ downgrade_base s2 = Ok s ∧
    (∀ m, takes s2 (lit "images") (image_row m) = image_row_ok m) ∧
    (∀ k, takes s2 (lit "idempotency_keys") (key_row k) = key_row_ok k) ∧
    (∀ name, name ≠ lit "images" → name ≠ lit "idempotency_keys" → tables s2 !! name = tables s !! name) ∧
    Models.create_all s = Ok s3 ∧ upgrade_head Online s3 = Ok s3 ∧ downgrade_base s3 = Ok s.
Proof.
  intros Hs. eexists _, _. rewrite upgrade_head_eq by done. rewrite create_all_eq by done.
  split_and!; try by rewrite ?upgrade_again, ?downgrade_eq. all: unfold takes, with_service.
  - intros m. look. apply image_row_accepted.
  - intros k. look. apply key_row_accepted.
  - intros name Hi Hk. cbn [tables]. by rewrite !lookup_insert_ne.
Qed.

(** The two differ in the nullability of [tags]: a row without tags is one the
    migrated table takes and the models' own does not. *)
Lemma tags_nullability m :
  image_row_ok m = true → m_tags m = None →
  row_accepted (tb_columns M0001.images) (image_row m) = true ∧
  row_accepted (tb_columns Models.images) (image_row m) = false.
Proof.
  intros Hok Ht. split; [by rewrite image_row_accepted|].
  destruct m as [id fn op th st w h f sz ch tg ca ua ea]. cbn in Ht. subst tg.
  cbn -[pg_text pg_varchar pg_int4 bool_decide lit]. rewrite !bool_decide_true by done. btauto.
Qed.
