(* ===== verification/AlembicEnv.v ===== *)
(** * Running the migrations

    Models [src/migrations/env.py]: the choice of the URL, the offline and the
    online run; and the revisions it runs, with the identifiers of
    [src/migrations/versions].  Alembic is the record [Alembic]; what is assumed
    of it is [AlembicLaws]: the revisions after the one the database is at are
    run in the order of their chain.  A run on a connection is one transaction
    of PostgreSQL, which rolls DDL back like any other statement. *)

From S2P Require Import Prelude PyDict PyText Prog Database Config Migrations.
Local Open Scope Z_scope.

(** ** Revisions *)

Record revision := MkRevision {
  rev_id : pystr;
  down_revision : option pystr;
  rev_upgrade : bind → schema → outcome schema;
  rev_downgrade : schema → outcome schema
}.

Definition revision_0001 : revision := MkRevision (lit "0001") None M0001.upgrade M0001.downgrade.
Definition revision_0002 : revision := MkRevision (lit "0002") (Some (lit "0001")) M0002.upgrade M0002.downgrade.
Definition versions : list revision := [revision_0001; revision_0002].

(** The database: the revision recorded in it, and its schema. *)
Record database := MkDatabase { db_version : option pystr; db_schema : schema }.

(** Each revision follows the one before it. *)
Fixpoint chain (from : option pystr) (rs : list revision) : Prop :=
  match rs with [] => True | r :: rs' => down_revision r = from ∧ chain (Some (rev_id r)) rs' end.

(** The revisions after [version]. *)
Fixpoint pending (version : option pystr) (rs : list revision) : list revision :=
  match rs with
  | [] => []
  | r :: rs' => if decide (down_revision r = version) then rs else pending version rs'
  end.

Definition run_revision (conn : bind) (r : revision) (d : database) : outcome database :=
  s ← rev_upgrade r conn (db_schema d); Ok (MkDatabase (Some (rev_id r)) s).

Fixpoint run_revisions (conn : bind) (rs : list revision) (d : database) : outcome database :=
  match rs with
  | [] => Ok d
  | r :: rs' => d ← run_revision conn r d; run_revisions conn rs' d
  end.

(** ** Alembic *)

(** [context.run_migrations], as [alembic upgrade head] does it; connecting to a
    URL may fail. *)
Record Alembic := MkAlembic {
  run_migrations : list revision → bind → database → outcome database;
  connect : pystr → outcome unit
}.

Class AlembicLaws (al : Alembic) : Prop := {
  run_migrations_law rs conn d :
    chain None rs → db_version d = None ∨ db_version d ∈ Some ∘ rev_id <$> rs →
    run_migrations al rs conn d = run_revisions conn (pending (db_version d) rs) d
}.

Section env.
Context (al : Alembic) (settings : outcome Settings) (main_option : option pystr).

(** [_get_database_url]: the settings, or [sqlalchemy.url] of [alembic.ini]. *)
Definition get_database_url : outcome pystr :=
  match (s ← settings; database_url s) with
  | Ok url => Ok url
  | Exn e =>
      if is_exception e then
        match main_option with
        | None | Some [] => Exn (ERuntime (lit "Database URL not configured. Set IMG_DB_USER and IMG_DB_PASSWORD environment variables, or provide sqlalchemy.url in alembic.ini."))
        | Some url => Ok url
        end
      else Exn e
  end.

(** What the run leaves: the database, and the engines made, with their URL and
    whether they are disposed of. *)
Record state := MkState { engines : list (pystr * bool); target : database }.

Definition set_engines (es : list (pystr * bool)) (s : state) : state := MkState es (target s).
Definition set_target (d : database) (s : state) : state := MkState (engines s) d.

(** [run_migrations_offline]: the migrations run without a connection; what they
    emit would be for a database at the base. *)
Definition run_migrations_offline : prog state unit :=
  lift get_database_url;;
  _ ← lift (run_migrations al versions Offline (MkDatabase None (MkSchema ∅ ∅)));
  mret tt.

(** [do_run_migrations], in its transaction *)
Definition do_run_migrations : prog state unit :=
  act (λ s, match run_migrations al versions Online (target s) with
            | Ok d => (Ok tt, set_target d s)
            | Exn e => (Exn e, s)
            end).

(** [run_async_migrations] *)
Definition run_async_migrations : prog state unit :=
  db_url ← lift get_database_url;
  connectable ← act (λ s, (Ok (length (engines s)), set_engines (engines s ++ [(db_url, false)]) s));
  lift (connect al db_url);;
  do_run_migrations;;
  modify (λ s, set_engines (alter (λ e, (e.1, true)) connectable (engines s)) s).

(** The module's last lines. *)
Definition main (offline : bool) : prog state unit :=
  if offline then run_migrations_offline else run_async_migrations.
End env.

(** ** Properties *)

Section properties.
Context (al : Alembic) `{!AlembicLaws al} (settings : outcome Settings) (main_option : option pystr).

Lemma versions_chain : chain None versions.
Proof. by split_and!. Qed.

Lemma pending_base : pending None versions = versions.
Proof. cbn. by rewrite decide_True. Qed.
Lemma pending_first : pending (Some (lit "0001")) versions = [revision_0002].
Proof. cbn. by rewrite decide_False, decide_True. Qed.
Lemma pending_head : pending (Some (lit "0002")) versions = [].
Proof. cbn. rewrite !decide_False; [done|by intros [=]..]. Qed.

(** The migrations on a database at the base, and on one at the head. *)
Lemma run_versions conn d :
  db_version d = None →
  run_migrations al versions conn d =
  (s ← upgrade_head conn (db_schema d); Ok (MkDatabase (Some (lit "0002")) s)).
Proof.
  intros Hv. rewrite run_migrations_law; [|apply versions_chain|by left]. rewrite Hv, pending_base.
  destruct d as [v s]. unfold versions, upgrade_head. cbn [run_revisions run_revision db_schema].
  unfold run_revision. cbn [rev_upgrade revision_0001 revision_0002 rev_id db_schema].
  destruct (M0001.upgrade conn s) as [s1|e]; [|done]. cbn. by destruct (M0002.upgrade conn s1).
Qed.

Lemma run_first conn s :
  run_migrations al versions conn (MkDatabase (Some (lit "0001")) s) =
  (s ← M0002.upgrade conn s; Ok (MkDatabase (Some (lit "0002")) s)).
Proof.
  rewrite run_migrations_law; [|apply versions_chain|right; left]. cbn [db_version]. rewrite pending_first. cbn.
  unfold run_revision. cbn. by destruct (M0002.upgrade conn s).
Qed.

Lemma run_head conn s :
  run_migrations al versions conn (MkDatabase (Some (lit "0002")) s) = Ok (MkDatabase (Some (lit "0002")) s).
Proof.
  rewrite run_migrations_law; [|apply versions_chain|right; right; left]. cbn [db_version]. by rewrite pending_head.
Qed.

(** Without a connection the first revision has nothing to inspect. *)
Lemma offline_fails : ∃ e, run_migrations al versions Offline (MkDatabase None (MkSchema ∅ ∅)) = Exn e.
Proof. eexists. by rewrite run_versions. Qed.

Abbreviation url := (get_database_url settings main_option).
Abbreviation env_main := (main al settings main_option).

(** An online run: it connects to the URL, then all or nothing. *)
Lemma wp_online st (Q : outcome unit → state → Prop) :
  (∀ e es, (∀ d, run_migrations al versions Online (target st) = Ok d →
             url = Exn e ∨ ∃ u, url = Ok u ∧ connect al u = Exn e) →
     Q (Exn e) (set_engines (engines st ++ es) st)) →
  (∀ u d, url = Ok u → connect al u = Ok tt → run_migrations al versions Online (target st) = Ok d →
     Q (Ok tt) (MkState (engines st ++ [(u, true)]) d)) →
  wp (env_main false) Q st.
Proof.
  intros He Hok. unfold main, run_async_migrations. destruct url as [u|e] eqn:Eu.
  - apply wp_bind, wp_done, wp_bind, wp_act. cbn [fst snd]. destruct (connect al u) as [[]|e] eqn:Ec.
    + apply wp_bind, wp_done, wp_bind. unfold do_run_migrations. apply wp_act. cbn [target set_engines].
      destruct (run_migrations al versions Online (target st)) as [d|e] eqn:Er; cbn [fst snd].
      * apply wp_modify. cbn. unfold set_engines. cbn.
        rewrite (alter_app_r_alt _ _ [(u, false)] (length (engines st))) by lia. rewrite Nat.sub_diag.
        by eapply Hok.
      * by apply He.
    + apply wp_bind, wp_done. apply He. intros d _. right. by exists u.
  - apply wp_bind, wp_done. replace st with (set_engines (engines st ++ []) st) at 1 by (rewrite app_nil_r; by destruct st).
    apply He. intros d _. by left.
Qed.

(** The database after all migrations. *)
Definition at_head (s : schema) : database :=
  MkDatabase (Some (lit "0002")) (with_service M0001.images M0002.idempotency_keys s).

Definition reachable : Prop := ∃ u, url = Ok u ∧ connect al u = Ok tt.

(** C22: [alembic upgrade head].  A run that fails, for whatever reason, leaves the
    database as it was; one that succeeds has used the configured URL and
    disposed of its engine.  On a database it can reach that has neither the
    service's tables nor a revision, it succeeds, leaves the service's schema at
    the last revision, and running it again changes nothing.  With [--sql] it
    always fails, having done nothing: the revisions inspect a connection that
    there is not. *)
Theorem alembic_run (st : state) :
  wp (env_main false)
    (λ o st', match o with
              | Ok _ => ∃ u, url = Ok u ∧ engines st' = engines st ++ [(u, true)] ∧
                             run_migrations al versions Online (target st) = Ok (target st')
              | Exn _ => target st' = target st
              end) st ∧
  (reachable → ∀ s, target st = MkDatabase None s → unmigrated s →
   wp (env_main false;; env_main false) (λ o st', o = Ok tt ∧ target st' = at_head s) st ∧
   wp (env_main false) (λ o st', o = Ok tt ∧ target st' = at_head s) st) ∧
  wp (env_main true) (λ o st', st' = st ∧ ∃ e, o = Exn e) st.
Proof.
  split_and!.
  - apply wp_online; [done|]. intros u d Hu _ Hd. by exists u.
  - intros (u & Hu & Hc) s Hs Hun.
    assert (∀ st (Q : outcome unit → state → Prop),
      run_migrations al versions Online (target st) = Ok (at_head s) →
      (∀ st', target st' = at_head s → Q (Ok tt) st') → wp (env_main false) Q st) as Hrun.
    { intros st0 Q Hd HQ. apply wp_online.
      - intros e es He. destruct (He _ Hd) as [E|(u' & E & E')]; [congruence|]. rewrite Hu in E. injection E as <-. congruence.
      - intros u' d _ _ Hd'. rewrite Hd in Hd'. injection Hd' as <-. by apply HQ. }
    assert (run_migrations al versions Online (target st) = Ok (at_head s)) as Hfirst.
    { rewrite Hs, run_versions by done. cbn [db_schema]. by rewrite upgrade_head_eq. }
    split; [|by apply Hrun]. apply wp_bind, Hrun; [done|]. intros st1 H1. apply Hrun; [|done].
    rewrite H1. apply run_head.
  - unfold main, run_migrations_offline. destruct url as [u|e]; [|apply wp_bind, wp_done; by split; [|exists e]].
    apply wp_bind, wp_done. destruct offline_fails as [e ->]. apply wp_bind, wp_done. by split; [|exists e].
Qed.
End properties.
