(* ===== verification/Logging.v ===== *)
(** * Structured logging

    Models [src/src/presentation/logging_config.py]: the filter that stamps
    records with the correlation id, the JSON formatter and the set-up of the
    root logger; and the hook of [instrument_logging] in
    [src/src/infrastructure/observability/setup.py].  A formatted traceback and
    the local time of [%(asctime)s] come from the standard library's [logging]:
    they are inputs. *)

From S2P Require Import Prelude PyDict PyText PyJson PyTime Prog.
Local Open Scope Z_scope.

(** ** Records *)

(** [record.exc_info]: falsy, [True], or a tuple with the formatted exception, if any. *)
Inductive exc_info :=
| NoInfo
| InfoTrue
| InfoTuple (formatted : option pystr).

Record LogRecord := MkRecord {
  levelno : Z;
  levelname : pystr;
  name : pystr;
  message : outcome pystr;  (** [getMessage()] *)
  created : Z;              (** microseconds *)
  exc : exc_info;
  correlation_id : option pystr;
  otelTraceID : option pystr;
  otelSpanID : option pystr;
  otelTraceSampled : option bool
}.

Definition set_exc (x : exc_info) (r : LogRecord) : LogRecord :=
  MkRecord (levelno r) (levelname r) (name r) (message r) (created r) x
    (correlation_id r) (otelTraceID r) (otelSpanID r) (otelTraceSampled r).
Definition set_correlation_id (c : pystr) (r : LogRecord) : LogRecord :=
  MkRecord (levelno r) (levelname r) (name r) (message r) (created r) (exc r)
    (Some c) (otelTraceID r) (otelSpanID r) (otelTraceSampled r).
Definition set_trace (tid sid : pystr) (sampled : bool) (r : LogRecord) : LogRecord :=
  MkRecord (levelno r) (levelname r) (name r) (message r) (created r) (exc r)
    (correlation_id r) (Some tid) (Some sid) (Some sampled).

(** [CorrelationIdFilter.filter], in a context with this correlation id: the record
    and whether it passes. *)
Definition correlation_filter (cid : pystr) (r : LogRecord) : LogRecord * bool :=
  (set_correlation_id cid r, true).

(** [_log_hook], for the span context of the current span, if any. *)
Definition log_hook (ctx : option (Z * Z * bool)) (r : LogRecord) : LogRecord :=
  match ctx with
  | None => r
  | Some (trace_id, span_id, sampled) => set_trace (hex_fixed 32 trace_id) (hex_fixed 16 span_id) sampled r
  end.

(** ** [JSONFormatter] *)

(** [exc_info] becomes a tuple; [sys_exc_info] is the exception being handled. *)
Definition resolve_exc_info (sys_exc_info : option pystr) (x : exc_info) : exc_info :=
  match x with InfoTrue => InfoTuple sys_exc_info | _ => x end.

Definition log_entry (r : LogRecord) (text : pystr) : list (pystr * json) := [
    (lit "timestamp", JStr (isoformat (created r)));
    (lit "level", JStr (levelname r));
    (lit "logger", JStr (name r));
    (lit "message", JStr text);
    (lit "correlation_id", JStr (default [] (correlation_id r)));
    (lit "trace_id", JStr (default [] (otelTraceID r)));
    (lit "span_id", JStr (default [] (otelSpanID r)));
    (lit "trace_flags", match otelTraceSampled r with Some b => JBool b | None => JStr [] end)
  ] ++
  match exc r with
  | InfoTuple (Some tb) => [(lit "exception", JStr tb)]
  | _ => []
  end.

(** [JSONFormatter.format]: the line and the record it leaves. *)
Definition json_format `{PyTables} (sys_exc_info : option pystr) (r : LogRecord) : outcome pystr * LogRecord :=
  let r := set_exc (resolve_exc_info sys_exc_info (exc r)) r in
  (text ← message r; Ok (dumps (JObj (log_entry r text))), r).

(** [logging.Formatter] with the readable format of [configure_logging]. *)
Definition plain_format (asctime : pystr) (sys_exc_info : option pystr) (r : LogRecord) : outcome pystr * LogRecord :=
  (text ← message r;
   Ok (asctime ++ lit " " ++ levelname r ++ lit " " ++ name r ++ lit " [cid=" ++
       default [] (correlation_id r) ++ lit "]: " ++ text ++
       match exc r with InfoTuple (Some tb) => [10] ++ tb | _ => [] end), r).

(** ** [configure_logging] *)

Inductive formatter := Json | Plain.
Record handler := MkHandler { filters : list unit; format_with : formatter }.
Record logger := MkLogger { level : Z; handlers : list handler }.

Definition INFO : Z := 20.

(** The level is set, the handlers are cleared, one with the filter is added. *)
Definition configure_logging (json_output : bool) (lvl : Z) (root : logger) : logger :=
  MkLogger lvl ([] ++ [MkHandler [tt] (if json_output then Json else Plain)]).

(** A record through a handler: the filters, then the formatter. *)
Definition emit `{PyTables} (cid asctime : pystr) (sys_exc_info : option pystr) (h : handler) (r : LogRecord) :
    outcome pystr :=
  let r := fold_left (λ r _, (correlation_filter cid r).1) (filters h) r in
  match format_with h with
  | Json => (json_format sys_exc_info r).1
  | Plain => (plain_format asctime sys_exc_info r).1
  end.

(** A record through the root logger. *)
Definition log_through `{PyTables} (cid asctime : pystr) (sys_exc_info : option pystr) (root : logger) (r : LogRecord) :
    list (outcome pystr) :=
  if level root <=? levelno r then map (λ h, emit cid asctime sys_exc_info h r) (handlers root) else [].

(** ** Properties *)

(** An object whose values are strings and booleans prints on one line, whatever
    characters it holds. *)
Definition flat (v : json) : Prop := match v with JStr _ | JBool _ => True | _ => False end.

Lemma dumps_printable `{PyTables} l :
  Forall (λ kv, flat kv.2) l → Forall (λ c, printable c = true) (dumps (JObj l)).
Proof.
  intros Hl. unfold dumps. cbn [dumps_with]. change (lit "{") with [123]. cbn [app].
  constructor; [done|]. apply Forall_app. split; [|by repeat constructor].
  apply py_join_Forall; [by repeat constructor|].
  induction Hl as [|[k v] l Hv Hl IH]; cbn [map]; [constructor|]. constructor; [|done].
  rewrite Forall_app. split; [apply json_quote_printable|]. do 2 (constructor; [done|]).
  destruct v as [|b| | |s| |]; try done; [destruct b; by repeat constructor|apply json_quote_printable].
Qed.

Lemma log_entry_flat r text : Forall (λ kv, flat kv.2) (log_entry r text).
Proof.
  unfold log_entry. apply Forall_app. split.
  - repeat constructor. by destruct (otelTraceSampled r).
  - destruct (exc r) as [| |[tb|]]; repeat constructor.
Qed.

(** The traceback that goes with a record: its own, or that of the exception being
    handled. *)
Definition traceback (sys_exc_info : option pystr) (r : LogRecord) : option pystr :=
  match exc r with NoInfo => None | InfoTrue => sys_exc_info | InfoTuple tb => tb end.

(** The texts of a record hold no lone surrogate. *)
Definition readable (cid text : pystr) (tb : option pystr) (r : LogRecord) : Prop :=
  str_ok (levelname r) = true ∧ str_ok (name r) = true ∧ str_ok text = true ∧ str_ok cid = true ∧
  str_ok (default [] (otelTraceID r)) = true ∧ str_ok (default [] (otelSpanID r)) = true ∧
  str_ok (default [] tb) = true.

(** The record that the formatter works on. *)
Definition stamped (cid : pystr) (sys_exc_info : option pystr) (r : LogRecord) : LogRecord :=
  set_exc (resolve_exc_info sys_exc_info (exc r)) (set_correlation_id cid r).

Lemma stamped_exc cid sys_exc_info r :
  match exc (stamped cid sys_exc_info r) with
  | InfoTuple (Some tb) => [(lit "exception", JStr tb)]
  | _ => []
  end = match traceback sys_exc_info r with Some tb => [(lit "exception", JStr tb)] | None => [] end.
Proof. unfold traceback. cbn. by destruct (exc r). Qed.

Lemma log_entry_ok cid sys_exc_info r text :
  readable cid text (traceback sys_exc_info r) r →
  json_ok (JObj (log_entry (stamped cid sys_exc_info r) text)) = true.
Proof.
  intros (H1 & H2 & H3 & H4 & H5 & H6 & H7). unfold log_entry. rewrite stamped_exc.
  cbn [json_ok]. apply andb_true_iff. split.
  - by destruct (traceback sys_exc_info r); vm_compute.
  - rewrite forallb_app. apply andb_true_iff. unfold stamped.
    cbn [forallb json_ok set_exc set_correlation_id created levelname name correlation_id otelTraceID otelSpanID
         otelTraceSampled from_option]. change (id cid) with cid.
    rewrite H1, H2, H3, H4, H5, H6, (text_str_ok _ (isoformat_text _)).
    split; [by destruct (otelTraceSampled r)|]. destruct (traceback sys_exc_info r) as [tb|]; [|done].
    change (str_ok tb = true) in H7. cbn [forallb json_ok]. by rewrite H7.
Qed.

(** C40: the JSON log.  Once [configure_logging] has installed it, whatever the
    root logger was before, a record of its level or above is written once, as
    one line of printable ASCII, whatever characters its texts hold.  Read back
    as JSON the line is an object with these keys and no other: the time of the
    record, its level, its logger, its text, the correlation id of the context it
    was logged in, its trace id, span id and sampling flag (empty when it has
    none), and the traceback if there is an exception.  A record below the level
    is not written. *)
Theorem json_log_line `{PyTables} (cid asctime : pystr) (sys_exc_info : option pystr) (lvl : Z)
    (root : logger) (r : LogRecord) (text : pystr) :
  message r = Ok text →
  let lines := log_through cid asctime sys_exc_info (configure_logging true lvl root) r in
  let tb := traceback sys_exc_info r in
  (levelno r < lvl → lines = []) ∧
  (lvl ≤ levelno r → ∃ line, lines = [Ok line] ∧ Forall (λ c, printable c = true) line ∧
     (readable cid text tb r → ∃ d, loads_str line = Some (JObj d) ∧
        d.*1 = map lit ["timestamp"; "level"; "logger"; "message"; "correlation_id"; "trace_id"; "span_id";
                        "trace_flags"]%string ++ match tb with Some _ => [lit "exception"] | None => [] end ∧
        dict_get (lit "timestamp") d = Some (JStr (isoformat (created r))) ∧
        dict_get (lit "level") d = Some (JStr (levelname r)) ∧
        dict_get (lit "logger") d = Some (JStr (name r)) ∧
        dict_get (lit "message") d = Some (JStr text) ∧
        dict_get (lit "correlation_id") d = Some (JStr cid) ∧
        dict_get (lit "trace_id") d = Some (JStr (default [] (otelTraceID r))) ∧
        dict_get (lit "span_id") d = Some (JStr (default [] (otelSpanID r))) ∧
        dict_get (lit "trace_flags") d = Some (match otelTraceSampled r with Some b => JBool b | None => JStr [] end) ∧
        dict_get (lit "exception") d = JStr <$> tb)).
Proof.
  intros Hm lines tb. unfold lines, log_through. cbn [level configure_logging]. split; intros Hl.
  { by rewrite (proj2 (Z.leb_gt _ _) Hl). }
  rewrite (proj2 (Z.leb_le _ _) Hl).
  unfold emit. cbn [map handlers configure_logging app filters format_with fold_left correlation_filter fst json_format].
  change (exc (set_correlation_id cid r)) with (exc r). fold (stamped cid sys_exc_info r).
  change (message (stamped cid sys_exc_info r)) with (message r). rewrite Hm. cbn [mbind outcome_bind].
  eexists. split; [done|]. split; [apply dumps_printable, log_entry_flat|].
  intros Hr. exists (log_entry (stamped cid sys_exc_info r) text).
  split; [by apply loads_str_dumps, log_entry_ok|]. unfold log_entry. rewrite stamped_exc. fold tb.
  destruct tb; split_and!; reflexivity.
Qed.
