(* ===== verification/Lifecycle.v ===== *)
(** * Telemetry, start-up and shutdown

    Models the set-up of OpenTelemetry in
    [src/src/infrastructure/observability/setup.py], the instruments of
    [metrics.py], the engines of [src/src/infrastructure/database/session.py],
    and the life of the two processes: [lifespan] and [create_app] in
    [src/src/main.py], [run_worker] in [src/src/worker.py].  OpenTelemetry is the
    record [OpenTelemetry], a party to which calls are made. *)

From S2P Require Import Prelude PyText Prog Domain Storage Processing Kafka Config.
Local Open Scope Z_scope.

(** ** OpenTelemetry *)

(** The SDK, and its instrumentations; objects are handles. *)
Record OpenTelemetry (St : Type) := MkOpenTelemetry {
  tracer_provider : pystr → prog St nat;
  otlp_exporter : pystr → prog St nat;
  add_batch_processor : nat → nat → prog St unit;
  set_tracer_provider : nat → prog St unit;
  prometheus_reader : prog St nat;
  meter_provider : pystr → nat → prog St nat;
  set_meter_provider : nat → prog St unit;
  provider_shutdown : nat → prog St unit;
  instrument_fastapi : pystr → prog St unit;
  instrument_engine : nat → prog St unit;
  instrument_log_records : prog St unit;
  start_http_server : Z → prog St unit
}.
Arguments tracer_provider {St}. Arguments otlp_exporter {St}. Arguments add_batch_processor {St}.
Arguments set_tracer_provider {St}. Arguments prometheus_reader {St}. Arguments meter_provider {St}.
Arguments set_meter_provider {St}. Arguments provider_shutdown {St}. Arguments instrument_fastapi {St}.
Arguments instrument_engine {St}.
Arguments instrument_log_records {St}. Arguments start_http_server {St}.

Module Telemetry.
Section setup.
Context {St : Type} (ot : OpenTelemetry St).

(** The module's variables. *)
Record state := MkState {
  metrics_provider : option nat;
  metrics_reader : option nat;
  sdk : St
}.

Definition set_sdk (s : St) (t : state) : state := MkState (metrics_provider t) (metrics_reader t) s.
Definition set_metrics (p r : option nat) (t : state) : state := MkState p r (sdk t).
Definition in_sdk {A} (p : prog St A) : prog state A := zoom sdk set_sdk p.

(** [setup_tracing]; a resource is its service name. *)
Definition setup_tracing (service_name otlp_endpoint : pystr) : prog state nat :=
  provider ← in_sdk (tracer_provider ot service_name);
  exporter ← in_sdk (otlp_exporter ot otlp_endpoint);
  in_sdk (add_batch_processor ot provider exporter);;
  in_sdk (set_tracer_provider ot provider);;
  mret provider.

(** [setup_metrics] *)
Definition setup_metrics (service_name : pystr) : prog state nat :=
  t ← gets id;
  match metrics_provider t, metrics_reader t with
  | Some _, Some reader => mret reader
  | _, _ =>
      reader ← in_sdk (prometheus_reader ot);
      provider ← in_sdk (meter_provider ot service_name reader);
      in_sdk (set_meter_provider ot provider);;
      modify (set_metrics (Some provider) (Some reader));;
      mret reader
  end.

(** [shutdown_metrics] *)
Definition shutdown_metrics : prog state unit :=
  t ← gets id;
  match metrics_provider t with
  | None => mret tt
  | Some p => except_if is_exception (in_sdk (provider_shutdown ot p)) (λ _, mret tt)
  end;;
  modify (set_metrics None None).

(** [instrument_app], [instrument_sqlalchemy] and [instrument_logging]; the hook of
    the last is [Logging.log_hook]. *)
Definition instrument_app : prog state unit := in_sdk (instrument_fastapi ot (lit "health,metrics")).
Definition instrument_sqlalchemy (engine : nat) : prog state unit := in_sdk (instrument_engine ot engine).
Definition instrument_logging : prog state unit := in_sdk (instrument_log_records ot).
End setup.
Arguments state : clear implicits.

Section laws.
Context {St : Type} (ot : OpenTelemetry St).

Lemma run_in_sdk {A} (p : prog St A) (t : state St) :
  run (in_sdk p) t = ((run p (sdk t)).1, set_sdk (run p (sdk t)).2 t).
Proof. apply run_zoom; [done|done|by intros []]. Qed.

Lemma wp_in_sdk {A} (p : prog St A) (Q : outcome A → state St → Prop) t :
  wp p (λ o s, Q o (set_sdk s t)) (sdk t) → wp (in_sdk p) Q t.
Proof. unfold wp. by rewrite run_in_sdk. Qed.

(** A second set-up makes nothing and answers with the reader of the first. *)
Lemma setup_metrics_again n1 n2 (t t1 : state St) r :
  run (setup_metrics ot n1) t = (Ok r, t1) → run (setup_metrics ot n2) t1 = (Ok r, t1).
Proof.
  assert (∀ (t : state St) p r n, metrics_provider t = Some p → metrics_reader t = Some r →
            run (setup_metrics ot n) t = (Ok r, t)) as Hset.
  { intros t' p r' n Hp Hr. unfold setup_metrics. rewrite run_bind, run_gets. cbn. by rewrite Hp, Hr. }
  intros Hrun. destruct (metrics_provider t) as [p|] eqn:Ep, (metrics_reader t) as [r0|] eqn:Er.
  { rewrite (Hset _ _ _ _ Ep Er) in Hrun. injection Hrun as -> <-. by eapply Hset. }
  all: unfold setup_metrics in Hrun; rewrite run_bind, run_gets in Hrun; cbn [id] in Hrun; rewrite Ep, ?Er in Hrun;
    do 3 (rewrite run_bind, run_in_sdk in Hrun; destruct (run _ _) as [[?|e] ?] in Hrun; [|done]; cbn [fst snd] in Hrun);
    injection Hrun as -> <-; by eapply Hset.
Qed.

(** A shutdown forgets both and raises no [Exception]. *)
Lemma wp_shutdown_metrics (t : state St) (Q : outcome unit → state St → Prop) :
  (∀ s, Q (Ok tt) (MkState None None s)) →
  (∀ e t', is_exception e = false → Q (Exn e) t') → wp (shutdown_metrics ot) Q t.
Proof.
  intros Hok He. apply wp_bind, wp_gets. cbn [id]. apply wp_bind. destruct (metrics_provider t) as [p|].
  - apply wp_except_if, wp_in_sdk, wp_intro. intros [[]|e] s _; [apply wp_modify, Hok|].
    destruct (is_exception e) eqn:E; [apply wp_ret, wp_modify, Hok|by apply He].
  - apply wp_ret, wp_modify, Hok.
Qed.
End laws.
End Telemetry.

(** ** The instruments *)

Inductive instrument_kind := Histogram | Counter | UpDownCounter.

Record instrument := MkInstrument {
  in_kind : instrument_kind;
  in_name : pystr;
  in_description : pystr;
  in_unit : pystr
}.

Definition instruments : list instrument := [
    MkInstrument Histogram (lit "http_request_duration_seconds") (lit "HTTP request latency in seconds") (lit "s");
    MkInstrument Histogram (lit "image_processing_duration_seconds") (lit "Image processing latency in seconds") (lit "s");
    MkInstrument Counter (lit "http_requests_total") (lit "Total HTTP requests") [];
    MkInstrument Counter (lit "image_uploads_total") (lit "Total image uploads") [];
    MkInstrument Counter (lit "http_request_errors_total") (lit "Total HTTP request errors (4xx, 5xx)") [];
    MkInstrument UpDownCounter (lit "http_active_requests") (lit "Number of in-flight HTTP requests") [];
    MkInstrument UpDownCounter (lit "images_currently_processing") (lit "Number of images currently being processed") [];
    MkInstrument Counter (lit "broker_messages_published_total") (lit "Total messages published to the message broker") [];
    MkInstrument Counter (lit "broker_messages_consumed_total") (lit "Total messages consumed from the message broker") [];
    MkInstrument Counter (lit "broker_messages_retried_total") (lit "Total messages republished for retry") [];
    MkInstrument Counter (lit "broker_messages_dead_lettered_total") (lit "Total messages routed to the dead-letter topic") [];
    MkInstrument Counter (lit "broker_consumer_rebalances_total") (lit "Total Kafka consumer rebalance events") [];
    MkInstrument Counter (lit "broker_publish_errors_total") (lit "Total message publish failures") [];
    MkInstrument Counter (lit "broker_consume_errors_total") (lit "Total message consume/processing failures") [];
    MkInstrument Histogram (lit "broker_consumer_processing_duration_seconds")
      (lit "Time to process a single consumed message end-to-end") (lit "s");
    MkInstrument Histogram (lit "broker_consumer_lag_messages") (lit "Kafka consumer lag (messages) at consume time")
      (lit "messages")
  ].

(** No two instruments share a name; histograms have a unit, a counter's name ends
    in [_total]. *)
Lemma instruments_named :
  NoDup (in_name <$> instruments) ∧
  Forall (λ i, match in_kind i with
               | Histogram => in_unit i ≠ []
               | Counter => lit "_total" `suffix_of` in_name i
               | UpDownCounter => True
               end) instruments.
Proof.
  split; [by apply (bool_decide_unpack _); vm_compute|].
  repeat constructor; cbn [in_kind in_name in_unit]; first [done | by apply (bool_decide_unpack _); vm_compute].
Qed.

(** ** The engines *)

(** What [build_engine] passes to [create_async_engine]. *)
Record engine_config := MkEngine {
  url : pystr;
  echo : bool;
  pool_size : Z;
  max_overflow : Z;
  pool_pre_ping : bool
}.

Definition build_engine (s : Settings) : outcome engine_config :=
  u ← database_url s; Ok (MkEngine u (debug s) (db_pool_size s) (db_max_overflow s) true).

(** ** The processes *)

Module Lifecycle.
Section lifecycle.
Context {K T : Type} (kafka : Aiokafka K) (ot : OpenTelemetry T).

(** What outlives requests: the engines, with whether they are disposed of, the
    one the session factory was built on, the broker adapter, the worker pools
    and the metrics.  A broker adapter without clients is one not made yet. *)
Record state := MkState {
  engines : list (engine_config * bool);
  session_engine : option nat;
  broker : KafkaMessageBroker.state (St := K);
  pool : Executor.state;
  telemetry : Telemetry.state T
}.

Definition set_engines (es : list (engine_config * bool)) (st : state) : state :=
  MkState es (session_engine st) (broker st) (pool st) (telemetry st).
Definition set_session (i : option nat) (st : state) : state :=
  MkState (engines st) i (broker st) (pool st) (telemetry st).
Definition set_broker (b : KafkaMessageBroker.state) (st : state) : state :=
  MkState (engines st) (session_engine st) b (pool st) (telemetry st).
Definition set_pool (p : Executor.state) (st : state) : state :=
  MkState (engines st) (session_engine st) (broker st) p (telemetry st).
Definition set_telemetry (t : Telemetry.state T) (st : state) : state :=
  MkState (engines st) (session_engine st) (broker st) (pool st) t.

(** [create_async_engine] and [engine.dispose()] *)
Definition new_engine (s : Settings) : prog state nat :=
  cfg ← lift (build_engine s);
  act (λ st, (Ok (length (engines st)), set_engines (engines st ++ [(cfg, false)]) st)).
Definition dispose (i : nat) : prog state unit :=
  modify (λ st, set_engines (alter (λ e, (e.1, true)) i (engines st)) st).

(** [_session_factory], cached: the engine of the sessions of every request. *)
Definition session_factory (s : Settings) : prog state nat :=
  i ← gets session_engine;
  match i with
  | Some i => mret i
  | None => i ← new_engine s; modify (set_session (Some i));; mret i
  end.

Definition in_broker {A} (p : prog _ A) : prog state A := zoom broker set_broker p.
Definition in_pool {A} (p : prog _ A) : prog state A := zoom pool set_pool p.
Definition in_telemetry {A} (p : prog _ A) : prog state A := zoom telemetry set_telemetry p.

(** [_is_otel_enabled] and [_is_cors_enabled].  No letter outside ASCII has one of
    these words' letters as its lower case. *)
Definition ascii_lower (s : pystr) : pystr := map (λ c, if is_upper c then c + 32 else c) s.
Definition is_otel_enabled (IMG_OTEL_ENABLED : option pystr) : bool :=
  bool_decide (ascii_lower (default (lit "false") IMG_OTEL_ENABLED) ∈ [lit "1"; lit "true"; lit "yes"]).
Definition is_cors_enabled (IMG_CORS_ORIGINS : option pystr) : bool :=
  bool_decide (default [] IMG_CORS_ORIGINS ≠ []).

(** What [lifespan] does after its [yield].  [in_time]: the worker pool stops before
    the timeout. *)
Definition teardown (otel in_time : bool) (s : Settings) (engine : nat) : prog state unit :=
  (if broker_enabled s then in_broker (KafkaMessageBroker.close kafka) else mret tt);;
  (if otel then in_telemetry (Telemetry.shutdown_metrics ot) else mret tt);;
  in_pool (Executor.async_shutdown_executor in_time);;
  dispose engine.

(** [lifespan], around what runs while the application serves: when that raises,
    nothing is torn down. *)
Definition lifespan {A} (otel in_time : bool) (s : Settings) (serve : prog state A) : prog state A :=
  engine ← new_engine s;
  (if otel then in_telemetry (Telemetry.instrument_sqlalchemy ot engine;; Telemetry.instrument_logging ot)
   else mret tt);;
  x ← serve;
  teardown otel in_time s engine;;
  mret x.

(** [run_worker], for a loop that sees the signal after [n] rounds. *)
Definition worker_metrics_port (IMG_WORKER_METRICS_PORT : option Z) : Z := default 9090 IMG_WORKER_METRICS_PORT.

Definition worker_otel_enabled (IMG_OTEL_ENABLED : option pystr) : bool :=
  bool_decide (ascii_lower (default [] IMG_OTEL_ENABLED) ∈ [lit "1"; lit "true"; lit "yes"]).

(** [_setup_otel] *)
Definition setup_otel (otel : bool) (service_name : option pystr) (port : option Z) : prog state unit :=
  if otel then
    in_telemetry (Telemetry.setup_metrics ot (default (lit "image-worker") service_name));;
    in_telemetry (Telemetry.in_sdk (start_http_server ot (worker_metrics_port port)))
  else mret tt.

(** The [finally] clause. *)
Definition release (in_time : bool) (engine : nat) : prog state unit :=
  in_broker (KafkaMessageBroker.close kafka);;
  in_pool (Executor.async_shutdown_executor in_time);;
  dispose engine.

Fixpoint worker_loop (n : nat) (execute_once : prog state bool) : prog state unit :=
  match n with
  | O => mret tt
  | S n' => execute_once;; worker_loop n' execute_once
  end.

Definition run_worker `{PyTables, Pillow, FileSystem} (fast_resize : option FastResize) (otel in_time : bool)
    (service_name : option pystr) (port : option Z) (s : Settings) (n : nat) (execute_once : prog state bool) :
    prog state unit :=
  setup_otel otel service_name port;;
  engine ← new_engine s;
  lift (LocalImageStorage.init (storage_base_dir s));;
  lift (build_processor fast_resize s);;
  try_finally (worker_loop n execute_once) (release in_time engine).
End lifecycle.
Arguments state : clear implicits.

(** *** [create_app] *)

Inductive middleware :=
| Metrics
| RequestLogging
| Cors (allow_origins allow_methods allow_headers : list pystr).

(** The outermost middleware comes first. *)
Record application := MkApplication {
  stack : list middleware;
  routers : list pystr;
  metrics_endpoint : bool
}.

Definition add_middleware (m : middleware) (a : application) : application :=
  MkApplication (m :: stack a) (routers a) (metrics_endpoint a).

Definition create_app {T} (ot : OpenTelemetry T) (otel cors : bool) (s : Settings) : prog (Telemetry.state T) application :=
  (if otel then
     Telemetry.setup_tracing ot (otel_service_name s) (otel_exporter_otlp_endpoint s);;
     Telemetry.setup_metrics ot (otel_service_name s);; mret tt
   else mret tt);;
  let app := MkApplication [] [] false in
  app ← (if otel then let app := add_middleware Metrics app in Telemetry.instrument_app ot;; mret app else mret app);
  let app := add_middleware RequestLogging app in
  let app := if cors then add_middleware (Cors (cors_origins s) (cors_allow_methods s) (cors_allow_headers s)) app
             else app in
  mret (MkApplication (stack app) [lit "health"; lit "images"; lit "retention"] otel).

(** *** Properties *)

Section properties.
Context {K T : Type} (kafka : Aiokafka K) (ot : OpenTelemetry T).
Implicit Types (st : state K T) (b : KafkaMessageBroker.state (St := K)).

(** From the outside in: CORS, the correlation id, the metrics. *)
Lemma create_app_stack (otel cors : bool) s (t : Telemetry.state T) :
  wp (create_app ot otel cors s)
    (λ o _, ∀ a, o = Ok a →
       stack a = (if cors then [Cors (cors_origins s) (cors_allow_methods s) (cors_allow_headers s)] else []) ++
                 [RequestLogging] ++ (if otel then [Metrics] else []) ∧
       metrics_endpoint a = otel) t.
Proof.
  apply wp_bind, wp_intro. intros [[]|e] t' _; [|done]. apply wp_bind. destruct otel.
  - apply wp_bind, wp_intro. intros [[]|e] t2 _; [|done]. apply wp_ret, wp_ret. intros a [= <-]. by destruct cors.
  - apply wp_ret, wp_ret. intros a [= <-]. by destruct cors.
Qed.

(** Stopping a client does not raise. *)
Definition clean_stop : Prop :=
  ∀ c w, (run (producer_stop kafka c) w).1 = Ok tt ∧ (run (consumer_stop kafka c) w).1 = Ok tt.

Lemma wp_in_broker {A} (p : prog _ A) (Q : outcome A → state K T → Prop) st :
  wp p (λ o x, Q o (set_broker x st)) (broker st) → wp (in_broker p) Q st.
Proof. unfold wp, in_broker. by rewrite run_zoom by (done || by intros []). Qed.

Lemma wp_pool_op {A} (p : prog _ A) (Q : outcome A → state K T → Prop) st :
  wp p (λ o x, Q o (set_pool x st)) (pool st) → wp (in_pool p) Q st.
Proof. unfold wp, in_pool. by rewrite run_zoom by (done || by intros []). Qed.

Lemma wp_in_telemetry {A} (p : prog _ A) (Q : outcome A → state K T → Prop) st :
  wp p (λ o x, Q o (set_telemetry x st)) (telemetry st) → wp (in_telemetry p) Q st.
Proof. unfold wp, in_telemetry. by rewrite run_zoom by (done || by intros []). Qed.

(** The adapter has no clients. *)
Definition closed b : Prop := KafkaMessageBroker.producer b = None ∧ KafkaMessageBroker.consumer b = None.

Lemma wp_close b (Q : outcome unit → KafkaMessageBroker.state → Prop) :
  clean_stop → (∀ b', closed b' → Q (Ok tt) b') → wp (KafkaMessageBroker.close kafka) Q b.
Proof.
  intros Hs HQ. unfold KafkaMessageBroker.close. apply wp_bind.
  assert (wp (KafkaMessageBroker.close_producer kafka) (λ o b', o = Ok tt ∧ KafkaMessageBroker.producer b' = None) b)
    as Hp.
  { unfold KafkaMessageBroker.close_producer. apply wp_bind, wp_gets. destruct (KafkaMessageBroker.producer b) as [c|] eqn:E.
    - apply wp_bind, wp_in_kafka, wp_intro. intros o s Ho. destruct (Hs c (KafkaMessageBroker.kafka b)) as [H1 _].
      rewrite Ho in H1. cbn in H1. subst o. by apply wp_modify.
    - by apply wp_ret. }
  eapply wp_mono; [exact Hp|]. intros o b1 [-> Hp1]. unfold KafkaMessageBroker.close_consumer. apply wp_bind, wp_gets.
  destruct (KafkaMessageBroker.consumer b1) as [c|] eqn:E.
  - apply wp_bind, wp_in_kafka, wp_intro. intros o s Ho. destruct (Hs c (KafkaMessageBroker.kafka b1)) as [_ H1].
    rewrite Ho in H1. cbn in H1. subst o. apply wp_modify, HQ. by split.
  - apply wp_ret, HQ. by split.
Qed.

(** No pool is left running. *)
Definition at_rest (p : Executor.state) : Prop :=
  Executor.executor p = None ∧ Forall (λ x, x.2 ≠ Executor.Running) (Executor.pools p).

Lemma no_leak_at_rest p : Executor.no_leak p → Executor.executor p = None → at_rest p.
Proof.
  intros Hl Hn. split; [done|]. apply Forall_lookup. intros i x Hi Hr. specialize (Hl i x Hi Hr). congruence.
Qed.

Lemma wp_async_shutdown in_time p (Q : outcome unit → Executor.state → Prop) :
  Executor.no_leak p → (∀ p', at_rest p' → Q (Ok tt) p') → wp (Executor.async_shutdown_executor in_time) Q p.
Proof.
  intros Hl HQ. pose proof (keeps_run _ _ p (Executor.async_shutdown_kept in_time) Hl) as Hl'.
  assert ((run (Executor.async_shutdown_executor in_time) p).1 = Ok tt ∧
          Executor.executor (run (Executor.async_shutdown_executor in_time) p).2 = None) as [Ho Hn].
  { unfold Executor.async_shutdown_executor. cbn. by destruct (Executor.executor p) eqn:E, in_time; cbn. }
  unfold wp. rewrite Ho. by apply HQ, no_leak_at_rest.
Qed.

(** The clean-up closes the broker, stops the pools and disposes of the engine. *)
Lemma wp_release in_time engine st (Q : outcome unit → state K T → Prop) :
  clean_stop → Executor.no_leak (pool st) →
  (∀ st', closed (broker st') → at_rest (pool st') →
     engines st' = alter (λ e, (e.1, true)) engine (engines st) → session_engine st' = session_engine st →
     telemetry st' = telemetry st → Q (Ok tt) st') →
  wp (release kafka in_time engine) Q st.
Proof.
  intros Hs Hl HQ. apply wp_bind, wp_in_broker, wp_close; [done|]. intros b Hb.
  apply wp_bind, wp_pool_op, wp_async_shutdown; [done|]. intros p Hp. by apply wp_modify, HQ.
Qed.

(** However the loop of the worker ends, by the signal, by an exception or
    cancelled, everything it holds is released, and the outcome is the loop's. *)
Lemma worker_releases `{PyTables, Pillow, FileSystem} fast_resize in_time s n (execute_once : prog (state K T) bool) st cfg proc :
  clean_stop → build_engine s = Ok cfg → LocalImageStorage.init (storage_base_dir s) = Ok tt →
  build_processor fast_resize s = Ok proc →
  keeps (λ st', Executor.no_leak (pool st') ∧ engines st' = engines st ++ [(cfg, false)]) execute_once →
  Executor.no_leak (pool st) →
  wp (run_worker kafka ot fast_resize false in_time None None s n execute_once)
    (λ o st', closed (broker st') ∧ at_rest (pool st') ∧ engines st' = engines st ++ [(cfg, true)] ∧
       o = (run (worker_loop n execute_once) (set_engines (engines st ++ [(cfg, false)]) st)).1) st.
Proof.
  intros Hs Hcfg Hdir Hproc Hk Hl. apply wp_bind, wp_ret. unfold new_engine. rewrite Hcfg. apply wp_bind, wp_act.
  cbn [fst snd]. rewrite Hdir, Hproc. apply wp_bind, wp_done, wp_bind, wp_done.
  set (st1 := set_engines _ st).
  assert (keeps (λ st', Executor.no_leak (pool st') ∧ engines st' = engines st ++ [(cfg, false)])
            (worker_loop n execute_once)) as Hloop.
  { clear -Hk. induction n as [|n IH]; [done|]. apply keeps_bind; [done|]. by intros _. }
  pose proof (keeps_run _ _ st1 Hloop (conj Hl eq_refl)) as [Hl1 He1].
  apply wp_finally, wp_intro. intros o st2 Ho. rewrite Ho in Hl1, He1 |- *. cbn [fst snd] in *.
  apply wp_release; [done|done|]. intros st' Hb Hp He' _ _. split_and!; [done|done| |done].
  rewrite He', He1. clear. induction (engines st) as [|e es IH]; cbn; [done|]. by f_equal.
Qed.

(** What requests do to the state that outlives them. *)
Inductive job := UseSession | UsePool (max_workers : Z) | Publish (m : Message).

Definition perform (s : Settings) (j : job) : prog (state K T) unit :=
  match j with
  | UseSession => session_factory s;; mret tt
  | UsePool n => in_pool (Executor.get_executor n);; mret tt
  | Publish m =>
      if broker_enabled s
      then except_if is_exception (in_broker (KafkaMessageBroker.publish kafka (kafka_bootstrap_servers s) m)) (λ _, mret tt)
      else mret tt
  end.

Definition serve (s : Settings) (jobs : list job) : prog (state K T) unit := for_each jobs (perform s).

(** While the application serves: [used] is whether a session was. *)
Definition serving (s : Settings) (cfg : engine_config) (used : bool) (st : state K T) : Prop :=
  engines st = (cfg, false) :: (if used then [(cfg, false)] else []) ∧
  session_engine st = (if used then Some 1%nat else None) ∧
  Executor.no_leak (pool st) ∧ (broker_enabled s = false → closed (broker st)).

Definition is_session (j : job) : bool := match j with UseSession => true | _ => false end.

Lemma wp_perform s cfg used j st (Q : outcome unit → state K T → Prop) :
  build_engine s = Ok cfg → serving s cfg used st →
  (∀ st', serving s cfg (used || is_session j) st' → telemetry st' = telemetry st → Q (Ok tt) st') →
  (∀ e st', is_exception e = false → Q (Exn e) st') → wp (perform s j) Q st.
Proof.
  intros Hcfg (He & Hse & Hl & Hb) HQ Hex. destruct j as [|n|m]; cbn [perform is_session] in *.
  - apply wp_bind, wp_bind, wp_gets. rewrite Hse. destruct used.
    + apply wp_ret, wp_ret, HQ; [|done]. by split_and!.
    + unfold new_engine. rewrite Hcfg. apply wp_bind, wp_act. cbn [fst snd]. apply wp_bind, wp_modify, wp_ret, wp_ret, HQ; [|done].
      rewrite He. by split_and!.
  - rewrite orb_false_r in HQ. apply wp_bind, wp_pool_op, wp_intro. intros o p Ho.
    pose proof (keeps_run _ _ _ (Executor.get_executor_kept n) Hl) as Hl'. rewrite Ho in Hl'.
    assert (∃ i, o = Ok i) as [i ->].
    { unfold Executor.get_executor in Ho. rewrite run_act in Ho. destruct (Executor.executor (pool st)); injection Ho as <- _; eauto. }
    apply wp_ret, HQ; [|done]. by split_and!.
  - rewrite orb_false_r in HQ. destruct (broker_enabled s) eqn:E; [|by apply wp_ret, HQ; [split_and!; auto|]].
    apply wp_except_if, wp_in_broker, wp_intro. intros [[]|e] b _; [|destruct (is_exception e) eqn:Ee; [|by apply Hex]; apply wp_ret];
      (apply HQ; [|done]); split_and!; try done; by rewrite E.
Qed.

Lemma wp_serve s cfg jobs used st (Q : outcome unit → state K T → Prop) :
  build_engine s = Ok cfg → serving s cfg used st →
  (∀ st', serving s cfg (used || existsb is_session jobs) st' → telemetry st' = telemetry st → Q (Ok tt) st') →
  (∀ e st', is_exception e = false → Q (Exn e) st') → wp (serve s jobs) Q st.
Proof.
  intros Hcfg. unfold serve. revert used st. induction jobs as [|j jobs IH]; intros used st Hst HQ Hex; cbn [for_each existsb] in *.
  - apply wp_ret, HQ; [|done]. by rewrite orb_false_r.
  - apply wp_bind. eapply wp_perform; [done|exact Hst| |done]. intros st1 Hst1 Ht1.
    eapply IH; [exact Hst1| |done]. intros st2 Hst2 Ht2. apply HQ; [|congruence]. by rewrite orb_assoc.
Qed.

(** Nothing made yet. *)
Definition fresh (st : state K T) : Prop :=
  engines st = [] ∧ session_engine st = None ∧ closed (broker st) ∧ pool st = Executor.MkState None [].

(** After a normal end: no clients, no pool running, no metrics; the engine of
    [lifespan] is disposed of, that of the requests, if any was needed, is open. *)
Definition stopped (otel used : bool) (cfg : engine_config) (st : state K T) : Prop :=
  closed (broker st) ∧ at_rest (pool st) ∧
  (otel = true → Telemetry.metrics_provider (telemetry st) = None ∧ Telemetry.metrics_reader (telemetry st) = None) ∧
  engines st = (cfg, true) :: (if used then [(cfg, false)] else []) ∧
  session_engine st = (if used then Some 1%nat else None).

(** Only a [BaseException] comes through. *)
Definition ends {A} (P : state K T → Prop) (o : outcome A) (st : state K T) : Prop :=
  match o with Ok _ => P st | Exn e => is_exception e = false end.

Lemma wp_teardown otel in_time s cfg used st (Q : outcome unit → state K T → Prop) :
  clean_stop → serving s cfg used st →
  (∀ o st', ends (stopped otel used cfg) o st' → Q o st') →
  wp (teardown kafka ot otel in_time s 0) Q st.
Proof.
  intros Hs (He & Hse & Hl & Hb) HQ. apply wp_bind.
  assert (wp (if broker_enabled s then in_broker (KafkaMessageBroker.close kafka) else mret tt)
    (λ o st', o = Ok tt ∧ ∃ b, closed b ∧ st' = set_broker b st) st) as Hclose.
  { destruct (broker_enabled s).
    - apply wp_in_broker, wp_close; [done|]. intros b Hb'. split; [done|]. by exists b.
    - apply wp_ret. split; [done|]. exists (broker st). split; [by apply Hb|by destruct st]. }
  eapply wp_mono; [exact Hclose|]. intros o st1 (-> & b & Hb' & ->). apply wp_bind.
  assert (∀ t, (otel = true → Telemetry.metrics_provider t = None ∧ Telemetry.metrics_reader t = None) →
    wp (in_pool (Executor.async_shutdown_executor in_time);; dispose 0) Q (set_telemetry t (set_broker b st))) as Hend.
  { intros t Ht. apply wp_bind, wp_pool_op, wp_async_shutdown; [done|]. intros p Hp. apply wp_modify, HQ.
    split_and!; try done; cbn; by rewrite He. }
  destruct otel.
  - apply wp_in_telemetry, Telemetry.wp_shutdown_metrics; [intros t; by apply Hend|by intros e t He'; apply HQ].
  - apply wp_ret. by apply (Hend (telemetry st)).
Qed.

(** The instrumentations of the start-up do not raise. *)
Definition clean_start : Prop :=
  ∀ i t, (run (instrument_engine ot i) t).1 = Ok tt ∧ (run (instrument_log_records ot) t).1 = Ok tt.

Lemma wp_instrument (otel : bool) engine st (Q : outcome unit → state K T → Prop) :
  clean_start → (∀ t, Q (Ok tt) (set_telemetry t st)) →
  wp (if otel then in_telemetry (Telemetry.instrument_sqlalchemy ot engine;; Telemetry.instrument_logging ot)
      else mret tt) Q st.
Proof.
  intros Hs HQ. destruct otel; [|apply wp_ret; replace st with (set_telemetry (telemetry st) st) by (by destruct st); by apply HQ].
  apply wp_in_telemetry, wp_bind, Telemetry.wp_in_sdk, wp_intro. intros o t Ho.
  destruct (Hs engine (Telemetry.sdk (telemetry st))) as [H1 _]. rewrite Ho in H1. cbn in H1. subst o.
  apply Telemetry.wp_in_sdk, wp_intro. intros o t' Ho'.
  destruct (Hs engine (Telemetry.sdk (Telemetry.set_sdk t (telemetry st)))) as [_ H2]. rewrite Ho' in H2. cbn in H2. subst o.
  apply HQ.
Qed.

(** C39: the server's shutdown.  Unless it is cancelled, a run of the server ends
    normally, whatever was served in between (failed publications included), and
    then the broker has no clients, no worker pool runs, the metrics are shut
    down and the engine [lifespan] made is disposed of.  That engine is not the
    one requests use: theirs is a second one, and it is still open. *)
Theorem lifespan_shutdown (otel in_time : bool) (s : Settings) (cfg : engine_config) (jobs : list job) (st : state K T) :
  clean_start → clean_stop → build_engine s = Ok cfg → fresh st →
  wp (lifespan kafka ot otel in_time s (serve s jobs)) (ends (stopped otel (existsb is_session jobs) cfg)) st.
Proof.
  intros Hi Hs Hcfg (He & Hse & Hb & Hp). unfold lifespan, new_engine. rewrite Hcfg.
  apply wp_bind, wp_bind, wp_done, wp_act. cbn [fst snd]. rewrite He. cbn [app length].
  apply wp_bind, wp_instrument; [done|]. intros t. apply wp_bind. eapply (wp_serve s cfg jobs false); [done| | |done].
  { split_and!; try done. cbn. by rewrite Hp. }
  cbn [orb]. intros st2 Hst2 _. apply wp_bind. eapply wp_teardown; [done|exact Hst2|].
  intros [[]|e] st3 H3; [by apply wp_ret|done].
Qed.
End properties.
End Lifecycle.
