(* ===== verification/Wiring.v ===== *)
(** * The wiring of the collaborators

    Models the constructors of [src/src/presentation/api/dependencies.py]: each
    collaborator is made on first use and kept by [functools.lru_cache], and a
    use case is made of them for each request.  An object is its index in the
    list of those made, so that sharing shows.  FastAPI runs these plain
    functions in threads: the getters are coroutines whose steps interleave.
    [lru_cache] calls the function outside its lock and keeps the first result;
    a caller that comes second returns its own. *)

From S2P Require Import Prelude PyText Prog Interleave Cache Ports Storage Consume Processing Config Lifecycle.
Local Open Scope Z_scope.

(** ** Objects *)

Inductive obj :=
| OEngine (cfg : engine_config)
| OCache (c : InMemoryImageCache)
| ORepository (session_factory cache : nat)
| OStorage (base_dir : pystr)
| OProcessor (p : ImageProcessor)
| OKafkaBroker (bootstrap_servers consumer_group : pystr)
| OInMemoryBroker.

(** A use case is its collaborators. *)
Inductive use_case :=
| UUpload (repository storage : nat) (broker : option nat)
| UProcess (repository storage processor : nat)
| UGetImage (repository storage : nat)
| UList (repository : nat)
| URetention (repository storage : nat)
| UConsume (broker repository storage processor : nat) (cfg : ConsumeProcessingTasks.config).

Record container := MkContainer {
  settings_ : option Settings;
  session_factory_ : option nat;
  cache_of : option nat;
  repository_ : option nat;
  storage_ : option nat;
  processor_ : option nat;
  broker_ : option (option nat);
  objects : list obj
}.

Definition empty_container : container := MkContainer None None None None None None None [].

Definition put_settings x c := MkContainer (Some x) (session_factory_ c) (cache_of c) (repository_ c) (storage_ c) (processor_ c) (broker_ c) (objects c).
Definition put_session_factory x c := MkContainer (settings_ c) (Some x) (cache_of c) (repository_ c) (storage_ c) (processor_ c) (broker_ c) (objects c).
Definition put_cache x c := MkContainer (settings_ c) (session_factory_ c) (Some x) (repository_ c) (storage_ c) (processor_ c) (broker_ c) (objects c).
Definition put_repository x c := MkContainer (settings_ c) (session_factory_ c) (cache_of c) (Some x) (storage_ c) (processor_ c) (broker_ c) (objects c).
Definition put_storage x c := MkContainer (settings_ c) (session_factory_ c) (cache_of c) (repository_ c) (Some x) (processor_ c) (broker_ c) (objects c).
Definition put_processor x c := MkContainer (settings_ c) (session_factory_ c) (cache_of c) (repository_ c) (storage_ c) (Some x) (broker_ c) (objects c).
Definition put_broker x c := MkContainer (settings_ c) (session_factory_ c) (cache_of c) (repository_ c) (storage_ c) (processor_ c) (Some x) (objects c).

Definition new_object (o : obj) (c : container) : container :=
  MkContainer (settings_ c) (session_factory_ c) (cache_of c) (repository_ c) (storage_ c) (processor_ c) (broker_ c)
    (objects c ++ [o]).
Definition new (o : obj) : prog container nat := act (λ c, (Ok (length (objects c)), new_object o c)).

(** [functools.lru_cache] on a function without arguments. *)
Definition lru_cache {A} (get : container → option A) (put : A → container → container) (make : prog container A) :
    prog container A :=
  hit ← gets get;
  match hit with
  | Some x => mret x
  | None => x ← make; act (λ c, (Ok x, match get c with Some _ => c | None => put x c end))
  end.

Section wiring.
(** [Settings()] reads the environment; the storage makes its directory; the
    processor needs Pillow, and the compiled module if it was built. *)
Context `{Tables : PyTables, Library : Pillow, Files : FileSystem} (fast_resize : option FastResize) (read_settings : prog container Settings).

Definition get_settings : prog container Settings := lru_cache settings_ put_settings read_settings.

Definition session_factory : prog container nat :=
  lru_cache session_factory_ put_session_factory
    (settings ← get_settings; engine ← lift (build_engine settings); new (OEngine engine)).

Definition cache : prog container nat :=
  lru_cache cache_of put_cache (settings ← get_settings; new (OCache (build_cache settings))).

Definition repository : prog container nat :=
  lru_cache repository_ put_repository (f ← session_factory; c ← cache; new (ORepository f c)).

Definition storage : prog container nat :=
  lru_cache storage_ put_storage (settings ← get_settings; lift (LocalImageStorage.init (storage_base_dir settings));;
     new (OStorage (storage_base_dir settings))).

Definition processor : prog container nat :=
  lru_cache processor_ put_processor
    (settings ← get_settings; p ← lift (build_processor fast_resize settings); new (OProcessor p)).

Definition broker : prog container (option nat) :=
  lru_cache broker_ put_broker
    (settings ← get_settings;
     if broker_enabled settings
     then b ← new (OKafkaBroker (kafka_bootstrap_servers settings) (kafka_consumer_group settings)); mret (Some b)
     else mret None).

(** The use cases; arguments are evaluated from left to right. *)
Definition get_upload_use_case : prog container use_case :=
  r ← repository; s ← storage; b ← broker; mret (UUpload r s b).
Definition get_process_use_case : prog container use_case :=
  r ← repository; s ← storage; p ← processor; mret (UProcess r s p).
Definition get_get_image_use_case : prog container use_case :=
  r ← repository; s ← storage; mret (UGetImage r s).
Definition get_list_use_case : prog container use_case := r ← repository; mret (UList r).
Definition get_retention_use_case : prog container use_case :=
  r ← repository; s ← storage; mret (URetention r s).

(** Without a broker the consumer gets one of its own, in memory. *)
Definition get_consume_use_case : prog container use_case :=
  settings ← get_settings;
  b ← broker;
  b ← (match b with Some b => mret b | None => new OInMemoryBroker end);
  r ← repository; s ← storage; p ← processor;
  mret (UConsume b r s p (consume_config settings)).

Inductive getter := GUpload | GProcess | GGetImage | GList | GRetention | GConsume.

Definition get (g : getter) : prog container use_case :=
  match g with
  | GUpload => get_upload_use_case
  | GProcess => get_process_use_case
  | GGetImage => get_get_image_use_case
  | GList => get_list_use_case
  | GRetention => get_retention_use_case
  | GConsume => get_consume_use_case
  end.
End wiring.

(** ** Sharing *)

(** The object [i] is the one of its kind that is kept; the exception is the
    in-memory broker of a consumer. *)
Definition kept (c : container) (i : nat) (o : obj) : Prop :=
  match o with
  | OEngine _ => session_factory_ c = Some i
  | OCache _ => cache_of c = Some i
  | ORepository f k => repository_ c = Some i ∧ session_factory_ c = Some f ∧ cache_of c = Some k
  | OStorage _ => storage_ c = Some i
  | OProcessor _ => processor_ c = Some i
  | OKafkaBroker _ _ => broker_ c = Some (Some i)
  | OInMemoryBroker => True
  end.

Definition shared (c : container) : Prop := ∀ i o, objects c !! i = Some o → kept c i o.

(** A use case is made of what is kept. *)
Definition built_of (c : container) (u : use_case) : Prop :=
  match u with
  | UUpload r s b => repository_ c = Some r ∧ storage_ c = Some s ∧ broker_ c = Some b
  | UProcess r s p => repository_ c = Some r ∧ storage_ c = Some s ∧ processor_ c = Some p
  | UGetImage r s | URetention r s => repository_ c = Some r ∧ storage_ c = Some s
  | UList r => repository_ c = Some r
  | UConsume b r s p _ =>
      repository_ c = Some r ∧ storage_ c = Some s ∧ processor_ c = Some p ∧
      (broker_ c = Some (Some b) ∨ broker_ c = Some None ∧ objects c !! b = Some OInMemoryBroker)
  end.

(** The repository and the storage of a use case. *)
Definition uses (r s : nat) (u : use_case) : Prop :=
  match u with
  | UUpload r' s' _ | UProcess r' s' _ | UGetImage r' s' | URetention r' s' | UConsume _ r' s' _ _ => r' = r ∧ s' = s
  | UList r' => r' = r
  end.

(** What is kept stays, objects are only added. *)
Definition keeps_field {A} (x y : option A) : Prop := ∀ a, x = Some a → y = Some a.

Record grows (c c' : container) : Prop := MkGrows {
  grows_settings : keeps_field (settings_ c) (settings_ c');
  grows_session : keeps_field (session_factory_ c) (session_factory_ c');
  grows_cache : keeps_field (cache_of c) (cache_of c');
  grows_repository : keeps_field (repository_ c) (repository_ c');
  grows_storage : keeps_field (storage_ c) (storage_ c');
  grows_processor : keeps_field (processor_ c) (processor_ c');
  grows_broker : keeps_field (broker_ c) (broker_ c');
  grows_objects : objects c `prefix_of` objects c'
}.

#[export] Instance grows_preorder : PreOrder grows.
Proof.
  split.
  - intros c. split; unfold keeps_field; [auto..|reflexivity].
  - intros c1 c2 c3 H1 H2. destruct H1, H2. split; unfold keeps_field in *; auto. by etrans.
Qed.

Lemma kept_grows c c' i o : grows c c' → kept c i o → kept c' i o.
Proof. intros Hg. destruct Hg. unfold keeps_field in *. destruct o; cbn; intuition auto. Qed.

Lemma built_grows c c' u : grows c c' → built_of c u → built_of c' u.
Proof.
  intros Hg. destruct Hg. unfold keeps_field in *. destruct u; cbn; intuition auto. right. split; [auto|]. by eapply prefix_lookup_Some.
Qed.

(** A new object, once it is kept. *)
Lemma shared_snoc c c' o :
  shared c → grows c c' → objects c' = objects c ++ [o] → kept c' (length (objects c)) o → shared c'.
Proof.
  intros Hsh Hg Ho Hk i o' Hi. rewrite Ho in Hi. apply lookup_snoc_Some in Hi as [[_ Hi]|[-> ->]]; [|done].
  exact (kept_grows _ _ _ _ Hg (Hsh _ _ Hi)).
Qed.

Lemma keeps_field_none {A} (y : option A) : keeps_field None y.
Proof. intros ? [=]. Qed.

Lemma keeps_field_refl {A} (y : option A) : keeps_field y y.
Proof. intros ? H. exact H. Qed.

Create HintDb wiring.
#[export] Hint Resolve keeps_field_none keeps_field_refl prefix_app_r : wiring.

(** *** Getters, one after the other *)

Section sequential.
Context `{Tables : PyTables, Library : Pillow, Files : FileSystem} (fast_resize : option FastResize) (read_settings : prog container Settings).
(** Reading the environment does not touch the containers. *)
Hypothesis read_pure : silent eq read_settings.

(** What a getter does to a container: it grows it, keeps it shared and
    answers what [Q] says. *)
Definition getter_spec {A} (p : prog container A) (Q : A → container → Prop) : Prop :=
  ∀ c, shared c → wp p (λ o c', grows c c' ∧ shared c' ∧ ∀ x, o = Ok x → Q x c') c.

Lemma run_silent {A} (p : prog container A) c : silent eq p → (run p c).2 = c.
Proof.
  revert c. induction p as [o|X a k IH]; intros c; [done|]. intros [Ha Hk]. cbn.
  specialize (Ha c). specialize (Hk (a c).1). destruct (a c) as [x c']. cbn in *. subst. by apply IH.
Qed.

Lemma getter_then {A B} (p : prog container A) (f : A → prog container B) Q (R : B → container → Prop) c :
  getter_spec p Q → shared c →
  (∀ x c', grows c c' → shared c' → Q x c' →
   wp (f x) (λ o c2, grows c' c2 ∧ shared c2 ∧ ∀ y, o = Ok y → R y c2) c') →
  wp (p ≫= f) (λ o c2, grows c c2 ∧ shared c2 ∧ ∀ y, o = Ok y → R y c2) c.
Proof.
  intros Hp Hc Hf. apply wp_bind. eapply wp_mono; [by apply Hp|]. intros [x|e] c1 (Hg & Hs & HQ).
  - eapply wp_mono; [by apply Hf; [..|apply HQ]|]. intros o c2 (Hg2 & Hs2 & HR). split; [by etrans|done].
  - by split_and!.
Qed.

Lemma getter_ret {A} (x : A) (Q : A → container → Prop) c :
  shared c → Q x c → wp (mret x) (λ o c', grows c c' ∧ shared c' ∧ ∀ y, o = Ok y → Q y c') c.
Proof. intros. apply wp_ret. split_and!; [done..|]. by intros ? [= <-]. Qed.

(** The step the cache adds: what was made is kept. *)
Lemma getter_lru {A} get (put : A → container → container) make :
  (∀ c, shared c → get c = None →
   wp make (λ o c', match o with
                    | Ok x => get c' = None ∧ get (put x c') = Some x ∧ grows c (put x c') ∧ shared (put x c')
                    | Exn _ => grows c c' ∧ shared c'
                    end) c) →
  getter_spec (lru_cache get put make) (λ x c, get c = Some x).
Proof.
  intros Hm c Hc. apply wp_bind, wp_gets. destruct (get c) as [x|] eqn:Hx.
  - apply wp_ret. split_and!; [done..|]. by intros ? [= <-].
  - apply wp_bind. eapply wp_mono; [by apply Hm|]. intros [x|e] c' H.
    + destruct H as (Hn & Hp & Hg & Hs). apply wp_act. rewrite Hn. cbn. split_and!; [done..|]. by intros ? [= <-].
    + destruct H as (Hg & Hs). by split_and!.
Qed.

(** Reading the settings at most keeps them. *)
Lemma wp_settings c (Q : outcome Settings → container → Prop) :
  (∀ s c', c' = c ∨ settings_ c = None ∧ c' = put_settings s c → Q (Ok s) c') → (∀ e, Q (Exn e) c) →
  wp (get_settings read_settings) Q c.
Proof.
  intros HQ He. apply wp_bind, wp_gets. destruct (settings_ c) as [s|] eqn:Hs; [apply wp_ret; auto|].
  apply wp_bind, wp_intro. intros o c' E. pose proof (run_silent _ c read_pure) as Hc. rewrite E in Hc. cbn in Hc. subst c'.
  destruct o as [s|e]; [|done]. apply wp_act. rewrite Hs. cbn. auto.
Qed.

Lemma shared_settings c s : shared c → shared (put_settings s c).
Proof. intros H i o Hi. specialize (H i o Hi). by destruct o. Qed.

Lemma grows_settings_put c s : settings_ c = None → grows c (put_settings s c).
Proof. intros H. split; cbn; rewrite ?H; auto with wiring. Qed.

(** A collaborator made of the settings alone. *)
Lemma getter_of_settings {A} get (put : A → container → container) (f : Settings → prog container A) :
  (∀ c s, get (put_settings s c) = get c) →
  (∀ s c, shared c → get c = None →
   wp (f s) (λ o c', match o with
                     | Ok x => get c' = None ∧ get (put x c') = Some x ∧ grows c (put x c') ∧ shared (put x c')
                     | Exn _ => grows c c' ∧ shared c'
                     end) c) →
  getter_spec (lru_cache get put (s ← get_settings read_settings; f s)) (λ x c, get c = Some x).
Proof.
  intros Hget Hf. apply getter_lru. intros c Hc Hn. apply wp_bind, wp_settings; [|by split].
  intros s c' [->|[Hs ->]]; [by apply Hf|]. eapply wp_mono; [apply Hf; [by apply shared_settings|by rewrite Hget]|].
  pose proof (grows_settings_put c s Hs) as Hg.
  intros [x|e] c2; [intros (?&?&?&?)|intros (?&?)]; split_and!; try done; by etrans.
Qed.

Ltac made := cbn; split_and!;
  [done|done
  |split; cbn; repeat match goal with E : _ = None |- _ => rewrite E; clear E end; auto with wiring
  |eapply shared_snoc; [eassumption|split; cbn; repeat match goal with E : _ = None |- _ => rewrite E; clear E end; auto with wiring|reflexivity|done]].

Lemma session_factory_spec : getter_spec (session_factory read_settings) (λ f c, session_factory_ c = Some f).
Proof.
  apply getter_of_settings; [done|]. intros s c Hc Hn. apply wp_bind, wp_done.
  destruct (build_engine s) as [e|e]; [apply wp_act; made|done].
Qed.

Lemma cache_spec : getter_spec (cache read_settings) (λ k c, cache_of c = Some k).
Proof. apply getter_of_settings; [done|]. intros s c Hc Hn. apply wp_act. made. Qed.

Lemma storage_spec : getter_spec (storage read_settings) (λ i c, storage_ c = Some i).
Proof.
  apply getter_of_settings; [done|]. intros s c Hc Hn. apply wp_bind, wp_done.
  destruct (LocalImageStorage.init (storage_base_dir s)) as [[]|e]; [apply wp_act; made|done].
Qed.

Lemma processor_spec : getter_spec (processor fast_resize read_settings) (λ i c, processor_ c = Some i).
Proof.
  apply getter_of_settings; [done|]. intros s c Hc Hn. apply wp_bind, wp_done.
  destruct (build_processor fast_resize s) as [p|e]; [apply wp_act; made|done].
Qed.

Lemma broker_spec : getter_spec (broker read_settings) (λ b c, broker_ c = Some b).
Proof.
  apply getter_of_settings; [done|]. intros s c Hc Hn. destruct (broker_enabled s).
  - apply wp_bind, wp_act. made.
  - apply wp_ret. split_and!; [done..|split; cbn; rewrite ?Hn; auto with wiring|].
    intros i o Hi. specialize (Hc i o Hi). destruct o; try done. cbn in Hc. congruence.
Qed.

(** Making the parts of a repository leaves the repository alone. *)
Lemma silent_keeps {A} (I : container → Prop) (p : prog container A) : silent eq p → keeps I p.
Proof.
  induction p as [o|X a k IH]; [done|]. intros [Ha Hk]. split; [|by intros x; apply IH].
  intros w Hw. by rewrite <- (Ha w).
Qed.

Lemma keeps_lru {A} (I : container → Prop) get (put : A → container → container) make :
  keeps I make → (∀ x c, I c → I (put x c)) → keeps I (lru_cache get put make).
Proof.
  intros Hm Hp. split; [done|]. intros [x|]; [done|]. apply keeps_bind; [done|]. intros x. split; [|done].
  intros c Hc. cbn. destruct (get c); auto.
Qed.

Lemma keeps_new (I : container → Prop) o :
  (∀ c, I c → I (new_object o c)) → keeps I (new o).
Proof. intros H0. split; [|done]. intros c Hc. cbn. auto. Qed.

Lemma parts_frame :
  let I c := repository_ c = None in keeps I (session_factory read_settings) ∧ keeps I (cache read_settings).
Proof.
  intros I. assert (Hs : keeps I (get_settings read_settings)) by (apply keeps_lru; [by apply silent_keeps|done]).
  split; apply keeps_lru; try done; (apply keeps_bind; [done|]); intros s.
  - apply keeps_bind; [done|]. intros e. by apply keeps_new.
  - by apply keeps_new.
Qed.

Lemma wp_keeps {A} (I : container → Prop) (p : prog container A) Q c :
  keeps I p → I c → wp p Q c → wp p (λ o c', I c' ∧ Q o c') c.
Proof. intros Hp Hc HQ. split; [by apply keeps_run|done]. Qed.

Lemma repository_spec : getter_spec (repository read_settings) (λ r c, repository_ c = Some r).
Proof.
  apply getter_lru. intros c Hc Hn. destruct parts_frame as [Hf Hk].
  apply wp_bind. eapply wp_mono; [apply wp_keeps; [exact Hf|done|by apply session_factory_spec]|].
  intros [f|e] c1 (Hn1 & Hg1 & Hs1 & Hq1); [|done]. specialize (Hq1 f eq_refl). apply wp_bind.
  eapply wp_mono; [apply wp_keeps; [exact Hk|done|by apply cache_spec]|].
  intros [k|e] c2 (Hn2 & Hg2 & Hs2 & Hq2); [|split; [by etrans|done]]. specialize (Hq2 k eq_refl).
  pose proof (grows_session _ _ Hg2 _ Hq1) as Hq. apply wp_act.
  assert (Hg : grows c2 (put_repository (length (objects c2)) (new_object (ORepository f k) c2)))
    by (split; cbn; rewrite ?Hn2; auto with wiring).
  split_and!; [done..|by etrans; [|etrans]|]. by eapply shared_snoc.
Qed.

Ltac next spec := eapply getter_then; [apply spec|done|]; intros.
Ltac wired :=
  apply getter_ret; [done|]; cbn;
  repeat match goal with
  | G : grows _ _ |- _ => destruct G
  end; unfold keeps_field in *; intuition eauto.

Lemma settings_spec : getter_spec (get_settings read_settings) (λ s c, True).
Proof.
  intros c Hc. apply wp_settings; [|intros e; by split_and!]. intros s c' [->|[Hs ->]]; [by split_and!|].
  split_and!; [by apply grows_settings_put|by apply shared_settings|done].
Qed.

Lemma own_broker_spec : getter_spec (new OInMemoryBroker) (λ b c, objects c !! b = Some OInMemoryBroker).
Proof.
  intros c Hc. apply wp_act. assert (Hg : grows c (new_object OInMemoryBroker c)) by (split; cbn; auto with wiring).
  split; [done|]. split; [by eapply shared_snoc|]. intros b [= <-]. by apply list_lookup_middle.
Qed.

Lemma get_spec g : getter_spec (get fast_resize read_settings g) (λ u c, built_of c u).
Proof.
  intros c Hc. destruct g; cbn [get].
  - next repository_spec. next storage_spec. next broker_spec. wired.
  - next repository_spec. next storage_spec. next processor_spec. wired.
  - next repository_spec. next storage_spec. wired.
  - next repository_spec. wired.
  - next repository_spec. next storage_spec. wired.
  - next settings_spec. next broker_spec. destruct x0 as [b|].
    + apply wp_bind, wp_ret. next repository_spec. next storage_spec. next processor_spec. wired.
    + next own_broker_spec. next repository_spec. next storage_spec. next processor_spec.
      wired. right. split; [by auto|]. do 3 (eapply prefix_lookup_Some; [|eassumption]). done.
Qed.

(** Getters in any order and number. *)
Lemma gets_spec gs :
  getter_spec (map_prog (get fast_resize read_settings) gs) (λ us c, Forall (built_of c) us).
Proof.
  induction gs as [|g gs IH]; intros c Hc; cbn [map_prog]; [by apply getter_ret|].
  next get_spec. next IH. apply getter_ret; [done|]. constructor; [by eapply built_grows|done].
Qed.
End sequential.

(** *** Getters, interleaved *)

Section interleaved.
Context `{Tables : PyTables, Library : Pillow, Files : FileSystem} (fast_resize : option FastResize) (read_settings : prog container Settings).
Hypothesis read_pure : silent eq read_settings.
Context (r s : nat).

(** The repository and the storage are kept. *)
Definition warm (c : container) : Prop := repository_ c = Some r ∧ storage_ c = Some s.

Definition stays {A} (p : prog container A) (Q : A → Prop) : Prop :=
  safe (Ph := unit) warm (λ _ _, True) (λ _ _ _ _, True) () (λ _, True) p
    (λ _ _ o, ∀ x, o = Ok x → Q x).

Lemma stays_any {A} (p : prog container A) Q κ :
  stays p Q → safe warm (λ _ _, True) (λ _ _ _ _, True) () κ p (λ _ _ o, ∀ x, o = Ok x → Q x).
Proof. destruct p; [done|]. intros Hp w Hw Hs _. exact (Hp w Hw Hs I). Qed.

Lemma stays_bind {A B} (p : prog container A) (f : A → prog container B) Q R :
  stays p Q → (∀ x, Q x → stays (f x) R) → stays (p ≫= f) R.
Proof.
  intros Hp Hf. apply safe_bind. eapply safe_mono; [exact Hp|]. intros [] κ [x|e] HQ; [|done].
  apply stays_any, Hf. by apply HQ.
Qed.

Lemma stays_act {A} (f : container → outcome A * container) (Q : A → Prop) :
  (∀ c, warm c → warm (f c).2 ∧ ∀ x, (f c).1 = Ok x → Q x) → stays (act f) Q.
Proof.
  intros Hf. apply safe_act. intros c Hc _ _. destruct (Hf c Hc) as [Hw Hx]. by exists (), (λ _, True).
Qed.

Lemma stays_read {A} (p : prog container A) : silent eq p → stays p (λ _, True).
Proof.
  intros Hp. eapply safe_silent; [|done|exact Hp|done]. by intros w w' ->.
Qed.

Lemma stays_done {A} (o : outcome A) : stays (Done o) (λ _, True).
Proof. done. Qed.

Lemma stays_new o : stays (new o) (λ _, True).
Proof. by apply stays_act. Qed.

Lemma stays_lru {A} get (put : A → container → container) make (Q : A → Prop) :
  (∀ c x, warm c → get c = Some x → Q x) → (∀ c x, warm c → get c = None → warm (put x c)) →
  stays make Q → stays (lru_cache get put make) Q.
Proof.
  intros Hg Hp Hm c Hc _ _. cbn. destruct (get c) as [x|] eqn:Hx.
  - exists (), (λ _, True). split_and!; try done. intros ? [= <-]. by eapply Hg.
  - exists (), (λ _, True). split_and!; try done. eapply stays_any, stays_bind; [exact Hm|].
    intros x HQ. apply stays_act. intros c' Hc'. cbn. destruct (get c') eqn:E; (split; [auto|]); by intros ? [= <-].
Qed.

(** Making something else. *)
Lemma stays_making {A} get (put : A → container → container) make :
  (∀ c x, warm c → warm (put x c)) → stays make (λ _, True) → stays (lru_cache get put make) (λ _, True).
Proof. intros Hp Hm. apply stays_lru; auto. Qed.

Lemma settings_stays : stays (get_settings read_settings) (λ _, True).
Proof. apply stays_making; [done|]. by apply stays_read. Qed.

Ltac any := eapply stays_bind; [|intros ? _].

Lemma repository_stays : stays (repository read_settings) (λ x, x = r).
Proof.
  intros c [Hr Hs] _ _. cbn. rewrite Hr. exists (), (λ _, True). split_and!; try done. by intros ? [= <-].
Qed.

Lemma storage_stays : stays (storage read_settings) (λ x, x = s).
Proof.
  intros c [Hr Hs] _ _. cbn. rewrite Hs. exists (), (λ _, True). split_and!; try done. by intros ? [= <-].
Qed.

Lemma broker_stays : stays (broker read_settings) (λ _, True).
Proof.
  apply stays_making; [done|]. any; [apply settings_stays|]. destruct (broker_enabled _); [|done].
  any; [apply stays_new|done].
Qed.

Lemma processor_stays : stays (processor fast_resize read_settings) (λ _, True).
Proof.
  apply stays_making; [done|]. any; [apply settings_stays|]. any; [apply stays_done|apply stays_new].
Qed.

Lemma get_stays g : stays (get fast_resize read_settings g) (uses r s).
Proof.
  assert (Hret : ∀ u, uses r s u → stays (mret u) (uses r s)) by (intros u Hu ? [= <-]; done).
  assert (Hrep : ∀ f, stays (f r) (uses r s) → stays (repository read_settings ≫= f) (uses r s))
    by (intros f Hf; eapply stays_bind; [apply repository_stays|by intros ? ->]).
  assert (Hsto : ∀ f, stays (f s) (uses r s) → stays (storage read_settings ≫= f) (uses r s))
    by (intros f Hf; eapply stays_bind; [apply storage_stays|by intros ? ->]).
  destruct g; cbn [get].
  - apply Hrep, Hsto. any; [apply broker_stays|]. by apply Hret.
  - apply Hrep, Hsto. any; [apply processor_stays|]. by apply Hret.
  - by apply Hrep, Hsto, Hret.
  - by apply Hrep, Hret.
  - by apply Hrep, Hsto, Hret.
  - any; [apply settings_stays|]. any; [apply broker_stays|].
    any; [destruct x0; [apply (stays_done (Ok _))|apply stays_new]|]. apply Hrep, Hsto. any; [apply processor_stays|]. by apply Hret.
Qed.
End interleaved.

(** ** The wiring *)

Section correct.
Context `{Tables : PyTables, Library : Pillow, Files : FileSystem} (fast_resize : option FastResize) (read_settings : prog container Settings).
Local Abbreviation getter_task := (get fast_resize read_settings).

(** What the wiring promises of the requests [gs], made one after the other,
    and of requests [hs] that come together once a request has been wired. *)
Definition wiring_ok (gs hs : list getter) : Prop :=
  let first := run (map_prog getter_task gs) empty_container in
  shared first.2 ∧
  (∀ us, first.1 = Ok us → Forall (built_of first.2) us) ∧
  (∀ c r s ts c', warm r s c → rtc pstep (map getter_task hs, c) (ts, c') →
     warm r s c' ∧ ∀ i u, ts !! i = Some (Done (Ok u)) → uses r s u).

(** C21: each collaborator (engine and session factory, cache, repository, storage, processor,
    Kafka broker) is made at most once by requests that come one after the
    other, in whatever order the use cases are asked for and whatever fails:
    every object made is the one kept, and every use case is made of the
    kept ones, so that all share one repository, cache and storage.  Requests
    that are wired in interleaved threads share them as well once a repository
    and a storage are kept; before that they may not (see the examples). *)
Theorem wiring_shares gs hs : silent eq read_settings → wiring_ok gs hs.
Proof.
  intros Hread. assert (Hs0 : shared empty_container) by (intros i o [=]).
  destruct (gets_spec fast_resize read_settings Hread gs empty_container Hs0) as (_ & Hs & HQ).
  split; [exact Hs|]. split; [exact HQ|]. intros c r s ts c' Hw Hsteps.
  destruct (safe_reachable (Ph := unit) (warm r s) (λ _ _, True) (λ _ _ _ _, True)
    (λ _ _ o, ∀ u, o = Ok u → uses r s u) (λ _ _, True) ltac:(done) ltac:(done) _ _ Hsteps) as (φs & Hw' & _ & Hts).
  - exists (replicate (length hs) ()). split_and!; [done..|]. cbn. apply Forall2_replicate_l; [by rewrite length_map|].
    apply List.Forall_map, Forall_true. intros g. exists (λ _, True). split_and!; [done..|].
    by apply get_stays.
  - split; [done|]. intros i u Hi. destruct (Forall2_lookup_r _ _ _ _ _ Hts Hi) as (φ & _ & κ & _ & _ & Hu). by apply Hu.
Qed.
End correct.
