(* ===== verification/Mutex.v ===== *)
(** * One image per idempotency key

    Concurrent uploads under one [Idempotency-Key], with the deployed
    repository (the cache over PostgreSQL): [upload_image.py] under every
    interleaving of its awaits, by the logic of [Interleave.v].  The row of
    [idempotency_keys] is the mutex: who inserts it is inside, and leaves by
    completing or deleting it. *)

From S2P Require Import Prelude PyDict PyText PyUuid Prog Interleave Domain Database Cache World Ports.
From S2P Require Import Repository Storage Broker Upload.
Local Open Scope Z_scope.

(** Where an upload stands: not holding the key, or holding it with or without
    a row saved. *)
Inductive phase := Out | In (saved : option Z).

(** An upload request but for its key. *)
Record upload_request := MkUpload {
  up_filename : pystr;
  up_data : pybytes;
  up_tags : option (list pystr);
  up_ttl : option Z
}.

(** The storage and the broker leave tables, cache and objects alone; the clock
    does not go back. *)
Record elsewhere (w w' : world) : Prop := MkElsewhere {
  else_heap : w_heap w' = w_heap w;
  else_db : w_db w' = w_db w;
  else_cache : w_cache w' = w_cache w;
  else_env : w_env w' = w_env w;
  else_tick : (w_tick w ≤ w_tick w')%nat
}.

(** Solves [elsewhere w w'] for a [w'] that is made of [w]. *)
Ltac elsewhere := split; cbn; first [reflexivity|lia].

Lemma elsewhere_tick w : elsewhere w (tick w).
Proof. elsewhere. Qed.

Create HintDb elsewhere.
Lemma elsewhere_now : silent elsewhere read_now.
Proof. split; [intros w; elsewhere|done]. Qed.
Lemma elsewhere_mono : silent elsewhere read_mono.
Proof. split; [intros w; elsewhere|done]. Qed.
Lemma elsewhere_uuid : silent elsewhere uuid4.
Proof. split; [intros w; elsewhere|done]. Qed.
Lemma elsewhere_observe o : silent elsewhere (observe o).
Proof. split; [intros w; elsewhere|done]. Qed.
Lemma elsewhere_deref l : silent elsewhere (deref l).
Proof. split; [intros w; elsewhere|done]. Qed.
#[export] Hint Resolve elsewhere_now elsewhere_mono elsewhere_uuid elsewhere_observe elsewhere_deref : elsewhere.

Definition storage_elsewhere (s : ImageStorage) : Prop :=
  ∀ filename data, silent elsewhere (st_store s filename data).
Definition broker_elsewhere (b : MessageBroker) : Prop :=
  ∀ m, silent elsewhere (br_publish b m).

(** A cached object is the image of its key. *)
Definition cache_ids (w : world) : Prop :=
  ∀ id e, dict_get id (store_ (w_cache w)) = Some e →
  ∃ i, w_heap w !! ce_image e = Some i ∧ img_id i = id.

Definition deployed `{PyTables, Postgres} : ImageRepository :=
  CachedImageRepository.repository PostgresImageRepository.repository.

Definition upload_task `{PyTables, Postgres} (storage : ImageStorage) (broker : option MessageBroker)
    (key : pystr) (r : upload_request) : coro ImageResponse :=
  UploadImage.execute deployed storage broker (up_filename r) (up_data r) (up_tags r) (up_ttl r)
    (Some key).

(** The images table with at most one row put in. *)
Definition one_row (s : option Z) (t t' : gmap Z ImageModel) : Prop :=
  match s with None => t' = t | Some id => ∃ m, t' = <[id := m]> t end.

Lemma key_get_same `{PyTables} scope key d r d' : key_get_txn scope key d = Ok (r, d') → d' = d.
Proof.
  unfold key_get_txn. destruct (db_keys d !! _) as [k|]; [|by intros [= _ <-]].
  destruct (k_image_id k) as [[|c u]|]; cbn; [by intros [= _ <-]| |by intros [= _ <-]].
  destruct (uuid_parse (c :: u)); cbn; [by intros [= _ <-]|done].
Qed.

Module Lock.
Section logic.
Context `{PyTables, Postgres} (key : pystr) (E : env) (images0 : gmap Z ImageModel).

Definition key_row (w : world) : option IdempotencyKeyModel := db_keys (w_db w) !! (UPLOAD_SCOPE, key).

Definition good (w : world) : Prop := w_env w = E ∧ world_ok w ∧ cache_ids w.

(** The row of a claim that is not completed. *)
Definition claim_row (k : IdempotencyKeyModel) : Prop :=
  k_status k = lit "in_progress" ∧ k_image_id k = None.

Definition held (w : world) : Prop := ∃ k, key_row w = Some k ∧ claim_row k.

Definition sees (φ : phase) (w : world) : Prop := match φ with Out => True | In _ => held w end.

(** What a step of an upload may do to the key and the table. *)
Inductive move : phase → world → world → phase → Prop :=
| move_stay φ w w' :
    key_row w' = key_row w → db_images (w_db w') = db_images (w_db w) → move φ w w' φ
| move_claim w w' φ :
    φ = Out ∨ φ = In None → key_row w = None → held w' →
    db_images (w_db w') = db_images (w_db w) → move Out w w' φ
| move_save id m w w' :
    uuid_ok id →
    key_row w' = key_row w → db_images (w_db w') = <[id := m]> (db_images (w_db w)) →
    move (In None) w w' (In (Some id))
| move_release w w' :
    key_row w' = None → db_images (w_db w') = db_images (w_db w) → move (In None) w w' Out
| move_complete id k k' w w' :
    key_row w = Some k → key_row w' = Some k' →
    k_status k' = lit "completed" → k_image_id k' = Some (uuid_str id) →
    db_images (w_db w') = db_images (w_db w) → move (In (Some id)) w w' Out.

(** Objects keep their identity. *)
Definition same_ids (w w' : world) : Prop :=
  ∀ l i, w_heap w !! l = Some i → ∃ i', w_heap w' !! l = Some i' ∧ img_id i' = img_id i.

Definition guar (φ : phase) (w w' : world) (φ' : phase) : Prop := same_ids w w' ∧ move φ w w' φ'.

(** Knowledge: an object is the image [id]; the key was completed for [id]. *)
Definition knows (l : loc) (id : Z) (w : world) : Prop := ∃ i, w_heap w !! l = Some i ∧ img_id i = id.

Definition answered (id : Z) (w : world) : Prop :=
  ∃ k s, key_row w = Some k ∧ k_status k ≠ lit "in_progress" ∧ k_image_id k = Some s ∧
         uuid_parse s = Some id.

(** The invariant: at most one upload holds the key, the table gained at most
    the row of the holder or of the completed key. *)
Definition completed_for (s : option Z) (w : world) : Prop :=
  match key_row w with
  | None => s = None
  | Some k =>
      k_status k ≠ lit "in_progress" →
      ∃ id, s = Some id ∧ k_image_id k = Some (uuid_str id) ∧ uuid_ok id
  end.

Definition mutex (φs : list phase) (w : world) : Prop :=
  ∃ s, one_row s images0 (db_images (w_db w)) ∧
  ((Forall (λ φ, φ = Out) φs ∧ completed_for s w) ∨
   (∃ i, φs !! i = Some (In s) ∧ Forall (λ φ, φ = Out) (delete i φs) ∧ held w ∧
         (∀ id, s = Some id → uuid_ok id))).

Abbreviation stable := (Interleave.stable good sees guar).
Abbreviation safe := (Interleave.safe good sees guar).

(** ** Stability *)

Lemma knows_stable l id : stable (knows l id).
Proof.
  intros φ φ' w w' _ _ _ [Hids _] (i & Hl & Hi). destruct (Hids _ _ Hl) as (i' & ? & ?).
  exists i'. split; [done|congruence].
Qed.

Lemma answered_stable id : stable (answered id).
Proof.
  intros φ φ' w w' _ _ Hs [_ Hm] (k & s & Hk & Hst & Hid & Hp).
  destruct Hm as [φ w w' E1 _|w w' φ _ E1 _ _|id' m w w' _ E1 _|w w' _ _|id' k1 k2 w w' E1 _ _ _ _].
  - exists k, s. by rewrite E1.
  - congruence.
  - exists k, s. by rewrite E1.
  - destruct Hs as (k' & ? & ? & _). congruence.
  - destruct Hs as (k'' & ? & ? & _). congruence.
Qed.

(** No upload deletes a row. *)
Definition has_row (id : Z) (w : world) : Prop := is_Some (db_images (w_db w) !! id).

Lemma has_row_stable id : stable (has_row id).
Proof.
  intros φ φ' w w' _ _ _ [_ Hm]. unfold has_row.
  destruct Hm as [φ w w' _ ->|w w' φ _ _ _ ->|id' m w w' _ _ ->|w w' _ ->|id' k1 k2 w w' _ _ _ _ ->]; try done.
  intros Hid. destruct (decide (id = id')) as [->|]; [by rewrite lookup_insert_eq|by rewrite lookup_insert_ne].
Qed.

Lemma guar_elsewhere φ w w' : elsewhere w w' → good w → good w' ∧ guar φ w w' φ.
Proof.
  intros [Hh Hd Hc He _] (HE & Hok & Hids). split.
  - split_and!; [congruence|by eapply world_ok_same|]. intros id e. rewrite Hc, Hh. apply Hids.
  - split; [|by apply move_stay; unfold key_row; rewrite Hd]. intros l i. rewrite Hh. eauto.
Qed.

Lemma safe_elsewhere {A} (p : coro A) φ κ Ψ :
  stable κ → silent elsewhere p → (∀ o, Ψ φ κ o) → safe φ κ p Ψ.
Proof. intros. by eapply safe_silent; [apply guar_elsewhere|..]. Qed.
(** ** The operations *)

Lemma same_ids_heap w w' : w_heap w' = w_heap w → same_ids w w'.
Proof. intros Hh l i. rewrite Hh. eauto. Qed.

Lemma guar_stay φ w w' :
  w_db w' = w_db w → same_ids w w' → guar φ w w' φ.
Proof. intros Hd Hids. split; [done|]. apply move_stay; unfold key_row; by rewrite Hd. Qed.

Lemma good_db d w : good w → db_ok d → good (set_db d (tick w)).
Proof. intros (HE & [_ Hc] & Hids) Hd. by split_and!. Qed.

(** A transaction: what it may do to the tables decides the move. *)
Lemma safe_txn {A} op (f : world → outcome (A * db)) φ κ (Ψ : phase → (world → Prop) → outcome A → Prop) :
  (∀ w a d, f w = Ok (a, d) → db_ok (w_db w) → db_ok d) → stable κ →
  (∀ w o d, good w → sees φ w → κ w → txn_result w op (f (tick w)) o d →
   let w' := set_db d (tick w) in
   ∃ φ' κ', move φ w w' φ' ∧ stable κ' ∧ (κ w' → κ' w') ∧ Ψ φ' κ' o) →
  safe φ κ (txn op f) Ψ.
Proof.
  intros Hok Hst H1. apply safe_act_wp. intros w Hg Hs Hk. apply wp_txn. intros o d Ht.
  destruct (H1 w o d Hg Hs Hk Ht) as (φ' & κ' & Hm & Hst' & Hk' & HΨ). set (w' := set_db _ _) in *.
  assert (good w') as Hg'.
  { apply good_db; [done|]. destruct Hg as (_ & [Hdb _] & _).
    eapply txn_result_ok; [|exact Ht|done]. intros a d' Hf _. by eapply Hok. }
  assert (guar φ w w' φ') as Hgu by (split; [by apply same_ids_heap|done]).
  exists φ', κ'. exact (conj Hg' (conj Hgu (conj Hst' (conj (Hk' (Hst _ _ _ _ Hg Hg' Hs Hgu Hk)) HΨ)))).
Qed.

(** A transaction that changes nothing. *)
Lemma safe_read {A} op (f : db → outcome (A * db)) φ κ (Ψ : phase → (world → Prop) → outcome A → Prop) :
  (∀ d a d', f d = Ok (a, d') → d' = d) → stable κ →
  (∀ w o, good w → (∀ a, o = Ok a → f (w_db w) = Ok (a, w_db w)) →
   ∃ κ', stable κ' ∧ (κ (tick w) → κ' (tick w)) ∧ Ψ φ κ' o) →
  safe φ κ (db_txn op f) Ψ.
Proof.
  intros Hf Hst H1. apply safe_txn; [intros w a d Ef; by rewrite (Hf _ _ _ Ef)|done|].
  intros w o d Hg _ _ Ht. assert (d = w_db w) as ->.
  { apply (txn_result_keeps id) in Ht; [done|]. intros a d' Ef. by apply Hf in Ef. }
  destruct (H1 w o Hg) as (κ' & ? & ? & ?).
  { intros a ->. by apply txn_result_Ok in Ht. }
  exists φ, κ'. split_and!; [by apply move_stay|done..].
Qed.

Lemma safe_deref l id φ κ (Ψ : phase → (world → Prop) → outcome Image → Prop) :
  stable κ → (∀ w, κ w → knows l id w) →
  (∀ i, img_id i = id → Ψ φ κ (Ok i)) → safe φ κ (deref l) Ψ.
Proof.
  intros Hst Hl HΨ. apply safe_act. intros w Hg _ Hk. destruct (Hl w Hk) as (i & Hi & Hid).
  rewrite Hi. exists φ, κ. refine (conj Hg (conj _ (conj Hst (conj Hk _)))); [by apply guar_stay, same_ids_heap|by apply HΨ].
Qed.

Lemma safe_alloc i φ κ (Ψ : phase → (world → Prop) → outcome loc → Prop) :
  stable κ →
  (∀ l, Ψ φ (λ w, κ w ∧ knows l (img_id i) w) (Ok l)) → safe φ κ (alloc i) Ψ.
Proof.
  intros Hst HΨ w (HE & Hok & Hids) Hs Hk. set (l := fresh (dom (w_heap w))).
  assert (w_heap w !! l = None) as Hl by apply not_elem_of_dom, is_fresh.
  assert (guar φ w (set_heap (<[l := i]> (w_heap w)) w) φ) as Hm.
  { apply guar_stay; [done|]. intros l' j Hj. exists j. split; [|done]. cbn.
    rewrite lookup_insert_ne; [done|]. congruence. }
  assert (good (set_heap (<[l := i]> (w_heap w)) w)) as Hg.
  { split_and!; [done..|]. intros id e He. destruct (Hids id e He) as (j & Hj & ?). exists j.
    split; [|done]. cbn. rewrite lookup_insert_ne; [done|]. congruence. }
  exists φ, (λ w, κ w ∧ knows l (img_id i) w). refine (conj Hg (conj Hm (conj _ (conj (conj _ _) (HΨ _))))).
  - apply stable_and; [done|apply knows_stable].
  - by apply (Hst φ φ w).
  - exists i. split; [|done]. apply lookup_insert_eq.
Qed.

(** A change of the cache that puts no wrong object in it. *)
Lemma guar_cache φ n c w :
  good w → cache_ok c →
  (∀ id e, dict_get id (store_ c) = Some e →
     dict_get id (store_ (w_cache w)) = Some e ∨ knows (ce_image e) id w) →
  let w' := Nat.iter n tick (set_cache c w) in good w' ∧ guar φ w w' φ.
Proof.
  intros (HE & [Hdb _] & Hids) Hc Hsub. cbn zeta.
  assert (∀ n, w_env (Nat.iter n tick (set_cache c w)) = w_env w ∧
               w_db (Nat.iter n tick (set_cache c w)) = w_db w ∧
               w_heap (Nat.iter n tick (set_cache c w)) = w_heap w ∧
               w_cache (Nat.iter n tick (set_cache c w)) = c) as Hn by (induction n0; naive_solver).
  destruct (Hn n) as (H1 & H2 & H3 & H4). split.
  - split_and!; [congruence|split; congruence|]. intros id e. rewrite H4, H3. intros He.
    destruct (Hsub _ _ He) as [He'|He']; [by apply Hids|exact He'].
  - by apply guar_stay, same_ids_heap.
Qed.

Lemma safe_cache_get id φ κ (Ψ : phase → (world → Prop) → outcome (option loc) → Prop) :
  stable κ → Ψ φ κ (Ok None) → (∀ l, Ψ φ (λ w, κ w ∧ knows l id w) (Ok (Some l))) →
  safe φ κ (cache_get_coro id) Ψ.
Proof.
  intros Hst HN HS w Hg Hs Hk. pose proof Hg as (_ & [_ Hc] & _).
  cbn beta. set (now := e_mono (w_env w) (w_tick w)).
  destruct (cache_get_inv now id (w_cache w) (proj1 Hc)) as [Hhit Hsub].
  pose proof (cache_get_ok now id (w_cache w) Hc) as Hc'.
  destruct (cache_get now id (w_cache w)) as [r c] eqn:Eg. cbn [fst snd] in *.
  destruct (guar_cache φ 1 c w Hg Hc') as [Hg' Hm]; [by eauto|].
  destruct r as [l|].
  - exists φ, (λ w, κ w ∧ knows l id w). refine (conj Hg' (conj Hm (conj _ (conj (conj _ _) (HS l))))).
    + apply stable_and; [done|apply knows_stable].
    + exact (Hst φ φ _ _ Hg Hg' Hs Hm Hk).
    + destruct (Hhit l eq_refl) as (e & He & <-). destruct Hg as (_ & _ & Hids). exact (Hids id e He).
  - exists φ, κ. refine (conj Hg' (conj Hm (conj Hst (conj _ HN)))).
    exact (Hst φ φ _ _ Hg Hg' Hs Hm Hk).
Qed.

Lemma safe_cache_set l id φ κ (Ψ : phase → (world → Prop) → outcome unit → Prop) :
  stable κ → (∀ w, κ w → knows l id w) → Ψ φ κ (Ok tt) → safe φ κ (cache_set_coro l) Ψ.
Proof.
  intros Hst Hl HΨ. apply safe_act. intros w Hg Hs Hk. destruct (Hl w Hk) as (i & Hi & Hid).
  rewrite Hi. pose proof Hg as (_ & [_ Hc] & _). cbn [fst snd]. set (c := cache_set _ _ _ _ _).
  destruct (guar_cache φ 2 c w Hg) as [Hg' Hm]; [by apply cache_set_ok| |].
  - intros id' e He. apply cache_set_get_Some in He as [[-> ->]|[_ He]]; [|by left|apply Hc].
    right. exists i. done.
  - exists φ, κ. refine (conj Hg' (conj Hm (conj Hst (conj _ HΨ)))).
    exact (Hst φ φ _ _ Hg Hg' Hs Hm Hk).
Qed.

Lemma safe_cache_invalidate id φ κ (Ψ : phase → (world → Prop) → outcome unit → Prop) :
  stable κ → Ψ φ κ (Ok tt) → safe φ κ (cache_invalidate_coro id) Ψ.
Proof.
  intros Hst HΨ w Hg Hs Hk. pose proof Hg as (_ & [_ Hc] & _).
  destruct (guar_cache φ 0 (cache_invalidate id (w_cache w)) w Hg) as [Hg' Hm].
  - by apply cache_invalidate_ok.
  - intros id' e. rewrite cache_invalidate_get by apply Hc. case_decide; [done|by left].
  - exists φ, κ. refine (conj Hg' (conj Hm (conj Hst (conj _ HΨ)))).
    exact (Hst φ φ _ _ Hg Hg' Hs Hm Hk).
Qed.

(** A lookup yields the object of the id asked for. *)
Lemma safe_get id φ κ (Ψ : phase → (world → Prop) → outcome (option loc) → Prop) :
  stable κ → Ψ φ κ (Ok None) → (∀ e, Ψ φ κ (Exn e)) →
  (∀ l, Ψ φ (λ w, κ w ∧ knows l id w) (Ok (Some l))) →
  safe φ κ (repo_get_by_id deployed id) Ψ.
Proof.
  intros Hst HN HE HS. apply safe_bind, safe_cache_get; [done| |by intros l; apply safe_ret].
  apply safe_bind, safe_bind, safe_read; [by intros d a d' [= _ <-]|done|].
  intros w o Hg Ho. exists κ. refine (conj Hst (conj (λ Hk, Hk) _)).
  destruct o as [[m|]|e]; [|by apply safe_ret|apply HE].
  specialize (Ho _ eq_refl). injection Ho as Hm. destruct Hg as (_ & [Hdb _] & _).
  apply db_row_id in Hm; [|done]. destruct (model_to_entity m) as [i|e] eqn:Ei; [|apply HE].
  apply model_to_entity_id in Ei. apply safe_bind, safe_ret, safe_bind, safe_alloc; [done|].
  intros l. apply safe_ret. rewrite Ei, Hm. apply safe_bind.
  assert (stable (λ w, κ w ∧ knows l id w)) as Hst' by (apply stable_and; [done|apply knows_stable]).
  apply (safe_cache_set _ id); [done|by intros w' []|]. by apply safe_ret.
Qed.

(** ** The mutex is kept *)

Lemma others_out φs i j φ :
  Forall (λ φ, φ = Out) (delete j φs) → φs !! i = Some φ → i ≠ j → φ = Out.
Proof.
  intros Hout Hi Hne. destruct (decide (i < j)%nat).
  - apply (Forall_lookup_1 _ _ i φ Hout). by rewrite list_lookup_delete_lt.
  - apply (Forall_lookup_1 _ _ (i - 1)%nat φ Hout). rewrite list_lookup_delete_ge by lia.
    by replace (S (i - 1)) with i by lia.
Qed.

Lemma mutex_sees φs i φ w : mutex φs w → φs !! i = Some φ → sees φ w.
Proof.
  intros (s & _ & [[Hout _]|(j & Hj & Hout & Hheld & _)]) Hi.
  - by rewrite (Forall_lookup_1 _ _ _ _ Hout Hi).
  - destruct (decide (i = j)) as [->|Hne]; [by simplify_eq|].
    by rewrite (others_out _ _ _ _ Hout Hi Hne).
Qed.

(** A task in the critical section is the only one. *)
Lemma mutex_inside φs i s w :
  mutex φs w → φs !! i = Some (In s) →
  one_row s images0 (db_images (w_db w)) ∧ Forall (λ φ, φ = Out) (delete i φs) ∧ held w ∧
  (∀ id, s = Some id → uuid_ok id).
Proof.
  intros (s' & Hrow & [[Hout _]|(j & Hj & Hout & Hheld & Hid)]) Hi.
  { by pose proof (Forall_lookup_1 _ _ _ _ Hout Hi). }
  destruct (decide (i = j)) as [->|Hne]; [by simplify_eq|].
  by pose proof (others_out _ _ _ _ Hout Hi Hne).
Qed.

Lemma all_out φs i : Forall (λ φ, φ = Out) (delete i φs) → Forall (λ φ, φ = Out) (<[i := Out]> φs).
Proof.
  intros Hd. destruct (decide (i < length φs)%nat).
  - rewrite insert_take_drop by done. rewrite delete_take_drop in Hd.
    apply Forall_app in Hd as [? ?]. apply Forall_app. split; [done|by constructor].
  - rewrite list_insert_ge by lia. by rewrite delete_take_drop, take_ge, drop_ge, app_nil_r in Hd by lia.
Qed.

Lemma delete_insert_out φs i φ :
  Forall (λ φ, φ = Out) (delete i φs) → Forall (λ φ, φ = Out) (delete i (<[i := φ]> φs)).
Proof.
  intros Hd. rewrite delete_take_drop in *. by rewrite take_insert_ge, drop_insert_lt by lia.
Qed.

Lemma mutex_step φs i φ φ' w w' :
  mutex φs w → good w → good w' → φs !! i = Some φ → guar φ w w' φ' → mutex (<[i := φ']> φs) w'.
Proof.
  intros HI _ _ Hi [_ Hm]. pose proof (lookup_lt_Some _ _ _ Hi) as Hlt.
  destruct Hm as [φ w w' E1 E2|w w' φ Hφ E1 Hh E2|id m w w' Hok E1 E2|w w' E1 E2|id k k' w w' E1 E1' Est Eid E2].
  - rewrite list_insert_id by done. destruct HI as (s & Hrow & HI). exists s. rewrite E2.
    split; [done|]. unfold completed_for, held in *. by rewrite E1.
  - destruct HI as (s & Hrow & [[Hout Hc]|(j & _ & _ & (k & ? & _) & _)]); [|congruence].
    unfold completed_for in Hc. rewrite E1 in Hc. subst s. exists None. rewrite E2. split; [done|].
    destruct Hφ as [->| ->].
    + left. split; [by apply Forall_insert|]. unfold completed_for. by destruct Hh as (k & -> & ? & _).
    + right. exists i. split; [by rewrite list_lookup_insert_eq|]. split_and!; [|done..].
      apply delete_insert_out. by apply Forall_delete.
  - destruct (mutex_inside _ _ _ _ HI Hi) as (Hrow & Hout & Hheld & _). exists (Some id).
    split; [exists m; rewrite E2; by f_equal|]. right. exists i.
    split; [by rewrite list_lookup_insert_eq|].
    split_and!; [by apply delete_insert_out|unfold held in *; by rewrite E1|by intros ? [= <-]].
  - destruct (mutex_inside _ _ _ _ HI Hi) as (Hrow & Hout & _ & _). exists None.
    rewrite E2. split; [done|]. left. split; [by apply all_out|]. unfold completed_for. by rewrite E1.
  - destruct (mutex_inside _ _ _ _ HI Hi) as (Hrow & Hout & _ & Hid). exists (Some id).
    rewrite E2. split; [done|]. left. split; [by apply all_out|]. unfold completed_for. rewrite E1'.
    intros _. exists id. split_and!; [done|done|by apply Hid].
Qed.

(** Every answer is for the image whose row was added. *)
Lemma mutex_answered φs w :
  mutex φs w →
  ∃ s, one_row s images0 (db_images (w_db w)) ∧ ∀ id, answered id w → s = Some id.
Proof.
  intros (s & Hrow & HI). exists s. split; [done|]. intros id (k & u & Hk & Hst & Hu & Hp).
  destruct HI as [[_ Hc]|(i & _ & _ & (k' & ? & ? & _) & _)]; [|congruence].
  unfold completed_for in Hc. rewrite Hk in Hc. destruct (Hc Hst) as (id' & -> & Hid & Hok).
  rewrite Hu in Hid. injection Hid as ->. rewrite uuid_roundtrip in Hp by done. by simplify_eq.
Qed.

(** ** The upload *)

Context (storage : ImageStorage) (broker : option MessageBroker)
  (storage_quiet : storage_elsewhere storage)
  (broker_quiet : ∀ b, broker = Some b → broker_elsewhere b)
  (save_clean : ∀ t, match e_fault E OpSave t with FailAfter _ => False | _ => True end)
  (complete_reliable : ∀ t, e_fault E OpKeyComplete t = Fine).

(** The claim of the key either yields a recorded answer or the key. *)
Definition replayed (φ : phase) (κ : world → Prop) (o : outcome (option ImageResponse)) : Prop :=
  φ = Out ∧ stable κ ∧ match o with Ok (Some r) => ∀ w, κ w → answered (resp_id r) w | _ => True end.

Definition claimed (φ : phase) (κ : world → Prop) (o : outcome (option ImageResponse)) : Prop :=
  match o with
  | Ok (Some r) => stable κ ∧ ∀ w, κ w → answered (resp_id r) w
  | Ok None => φ = In None ∧ stable κ
  | Exn _ => True
  end.

Lemma safe_load h κ : stable κ → safe Out κ (UploadImage.load_idempotent_replay deployed key h) replayed.
Proof.
  intros Hst. assert (∀ e, replayed Out κ (Exn e)) as Hraise by (split; [done|split; done]).
  apply safe_bind, safe_read; [|done|].
  { intros d a d'. apply key_get_same. }
  intros w o Hg Ho. destruct o as [[r|]|e]; cycle 1.
  { exists κ. by refine (conj Hst (conj (λ Hk, Hk) _)). }
  { exists κ. by refine (conj Hst (conj (λ Hk, Hk) _)). }
  specialize (Ho _ eq_refl). unfold key_get_txn in Ho.
  destruct (db_keys (w_db w) !! (UPLOAD_SCOPE, key)) as [k|] eqn:Ek; [|done].
  destruct (bool_decide (ir_request_hash r = h)) eqn:Eh; cbn [negb]; cycle 1.
  { exists κ. by refine (conj Hst (conj (λ Hk, Hk) _)). }
  destruct (bool_decide (ir_status r = lit "in_progress")) eqn:Es; cbn [negb].
  { exists κ. by refine (conj Hst (conj (λ Hk, Hk) _)). }
  destruct (ir_image_id r) as [id|] eqn:Eid; cycle 1.
  { exists κ. by refine (conj Hst (conj (λ Hk, Hk) _)). }
  exists (answered id). split_and!; [apply answered_stable| |].
  - intros _. apply bool_decide_eq_false_1 in Es. destruct (k_image_id k) as [[|c u]|] eqn:Eu; cbn in Ho; [simplify_eq; done| |simplify_eq; done].
    destruct (uuid_parse (c :: u)) as [id'|] eqn:Ep; [|done]. cbn in Ho. simplify_eq. cbn in *. simplify_eq.
    exists k, (c :: u). by split_and!.
  - apply safe_bind, safe_get; [apply answered_stable|by (split; [|split; [apply answered_stable|]])..|].
    intros l. apply safe_bind, (safe_deref l id); [|by intros w' []|].
    + apply stable_and; [apply answered_stable|apply knows_stable].
    + intros i Hi. apply safe_ret. split_and!; [done| |].
      * apply stable_and; [apply answered_stable|apply knows_stable].
      * cbn. rewrite Hi. by intros w' [].
Qed.
Lemma key_create_cases t1 t2 sk h d b d' :
  key_create_txn t1 t2 sk key h None d = Ok (b, d') →
  db_images d' = db_images d ∧
  if b then db_keys d !! (sk, key) = None ∧
            ∃ k, db_keys d' !! (sk, key) = Some k ∧ claim_row k
  else d' = d.
Proof.
  unfold key_create_txn. case_match; [|done]. case_match; intros [= <- <-]; [done|]. split; [done|].
  split; [done|]. eexists. split; [apply lookup_insert_eq|done].
Qed.

(** An action that only advances the clock, or only adds to the trace. *)
Lemma safe_step {A} X (a : world → X * world) (k : X → coro A) φ κ Ψ :
  (∀ w, elsewhere w (a w).2) → stable κ → (∀ x, safe φ κ (k x) Ψ) → safe φ κ (Act X a k) Ψ.
Proof.
  intros Ha Hst Hkx w Hg Hs Hk. specialize (Ha w). destruct (a w) as [x w'].
  destruct (guar_elsewhere φ w w' Ha Hg) as [Hg' Hm]. exists φ, κ.
  refine (conj Hg' (conj Hm (conj Hst (conj _ (Hkx x))))). exact (Hst φ φ w w' Hg Hg' Hs Hm Hk).
Qed.

Lemma safe_now {B} (f : Z → coro B) φ κ Ψ :
  stable κ → (∀ t, safe φ κ (f t) Ψ) → safe φ κ (read_now ≫= f) Ψ.
Proof. intros Hst Hf. apply safe_step; [intros w; elsewhere|done..]. Qed.

Lemma safe_create h κ (Ψ : phase → (world → Prop) → outcome bool → Prop) :
  stable κ →
  Ψ (In None) (λ _, True) (Ok true) → Ψ Out (λ _, True) (Ok false) → (∀ e, Ψ Out (λ _, True) (Exn e)) →
  safe Out κ (repo_create_idem deployed UPLOAD_SCOPE key h None) Ψ.
Proof.
  intros Hst HT HF HE. change (safe Out κ (created ← read_now; updated ← read_now;
    db_txn OpKeyCreate (key_create_txn created updated UPLOAD_SCOPE key h None)) Ψ).
  apply safe_now; [done|]. intros t1. apply safe_now; [done|]. intros t2. apply safe_txn.
  { intros w a d. apply key_create_txn_ok. }
  { done. }
  intros w o d _ _ _ Ht. change (w_db (tick w)) with (w_db w) in Ht.
  assert (∀ b, key_create_txn t1 t2 UPLOAD_SCOPE key h None (w_db w) = Ok (b, d) →
    move Out w (set_db d (tick w)) (if b then In None else Out) ∧ move Out w (set_db d (tick w)) Out) as Hm.
  { intros b [Hi Hb]%key_create_cases. destruct b; [|by subst d; split; apply move_stay].
    destruct Hb as (Hn & k & Hk & Hs). split; apply move_claim; try done; try (by exists k); auto. }
  destruct Ht as [b d Hr|e _|e _|e b d Hr _ _].
  - exists (if b then In None else Out), (λ _, True). refine (conj (proj1 (Hm b Hr)) (conj (stable_true _ _ _) (conj (λ _, I) _))).
    by destruct b.
  - exists Out, (λ _, True). refine (conj _ (conj (stable_true _ _ _) (conj (λ _, I) (HE e)))). by apply move_stay.
  - exists Out, (λ _, True). refine (conj _ (conj (stable_true _ _ _) (conj (λ _, I) (HE e)))). by apply move_stay.
  - exists Out, (λ _, True). exact (conj (proj2 (Hm b Hr)) (conj (stable_true _ _ _) (conj (λ _, I) (HE e)))).
Qed.

Lemma safe_claim h : safe Out (λ _, True) (UploadImage.claim deployed (Some key) h) claimed.
Proof.
  apply safe_bind. eapply safe_mono; [apply safe_load, stable_true|].
  intros φ κ [[r|]|e] (-> & Hst & Hr); [by apply safe_ret| |done].
  apply safe_bind, safe_create; [done|by apply safe_ret| |done].
  apply safe_bind. eapply safe_mono; [apply safe_load, stable_true|].
  intros φ κ' [[r|]|e] (-> & Hst' & Hr'); [by apply safe_ret| |done]. by apply safe_done.
Qed.
Lemma safe_uuid {B} (f : Z → coro B) φ κ Ψ :
  stable κ → (∀ u, uuid_ok u → safe φ κ (f u) Ψ) → safe φ κ (uuid4 ≫= f) Ψ.
Proof.
  intros Hst Hf w Hg Hs Hk. destruct (guar_elsewhere φ w _ (elsewhere_tick w) Hg) as [Hg' Hm].
  exists φ, κ. refine (conj Hg' (conj Hm (conj Hst (conj (Hst φ φ w _ Hg Hg' Hs Hm Hk) _)))).
  apply Hf. unfold uuid_ok. apply Z.mod_pos_bound. lia.
Qed.

Lemma safe_new_image filename path tags expires_at φ κ (Ψ : phase → (world → Prop) → outcome loc → Prop) :
  stable κ → (∀ l id, uuid_ok id → Ψ φ (λ w, κ w ∧ knows l id w) (Ok l)) →
  safe φ κ (new_image filename path tags expires_at) Ψ.
Proof.
  intros Hst HΨ. apply safe_uuid; [done|]. intros u Hu. apply safe_now; [done|]. intros t1.
  apply safe_now; [done|]. intros t2. apply safe_alloc; [done|]. intros l. by apply HΨ.
Qed.

(** What a flush does to the tables of an upload. *)
Lemma flush_move i model w d r :
  uuid_ok (img_id i) → (model ≠ None → has_row (img_id i) w) →
  flush_txn i model (w_db w) = Ok (r, d) →
  move (In None) w (set_db d (tick w)) (In (Some (img_id i))).
Proof.
  intros Hid Hrow Hf. pose proof (flush_txn_keys _ _ _ _ _ Hf) as Hk.
  assert (∃ m, db_images d = <[img_id i := m]> (db_images (w_db w))) as [m Hm].
  { assert (model = None → d = w_db w → False) as Hnone.
    { intros -> ->. cbn in Hf. repeat case_match; try done. injection Hf as _ Eq.
      apply (f_equal db_images) in Eq. cbn in Eq.
      match goal with Hl : _ !! _ = None |- _ => rewrite <- Eq, lookup_insert_eq in Hl end. done. }
    apply flush_txn_inv in Hf as [->|(m & _ & -> & _)]; [|by exists m].
    destruct Hrow as [m Hm]; [by intros ->; apply Hnone|]. exists m. by rewrite insert_id. }
  eapply move_save; [done|unfold key_row; cbn; by rewrite Hk|exact Hm].
Qed.

(** A save that reports failure left no row. *)
Lemma safe_save l id κ (Ψ : phase → (world → Prop) → outcome loc → Prop) :
  stable κ → (∀ w, κ w → knows l id w) → uuid_ok id →
  Ψ (In (Some id)) κ (Ok l) → (∀ e, Ψ (In None) κ (Exn e)) →
  safe (In None) κ (repo_save deployed l) Ψ.
Proof.
  intros Hst Hl Hid HΨ HE. apply safe_bind, safe_bind, (safe_deref l id); [done..|]. intros i0 Hi0.
  apply safe_bind, safe_read; [by intros d a d' [= _ <-]|done|]. intros w o _ Ho.
  destruct o as [model|e]; [|exact (ex_intro _ κ (conj Hst (conj (λ Hk, Hk) (HE e))))].
  specialize (Ho _ eq_refl). injection Ho as Hmodel. rewrite Hi0 in Hmodel.
  set (κ' := λ w, κ w ∧ (model ≠ None → has_row id w)).
  assert (stable κ') as Hst'.
  { intros φ φ' v v' Hv Hv' Hs Hgu [Hk Hr]. split; [exact (Hst φ φ' v v' Hv Hv' Hs Hgu Hk)|].
    intros Hn. exact (has_row_stable id φ φ' v v' Hv Hv' Hs Hgu (Hr Hn)). }
  exists κ'. split_and!; [done| |].
  { intros Hk. split; [done|]. intros Hn. unfold has_row. cbn. rewrite Hmodel. by destruct model; [eexists|]. }
  apply safe_bind, (safe_deref l id); [done|intros v []; auto|]. intros i <-.
  apply safe_bind, safe_txn; [intros v a d; apply flush_txn_ok|done|].
  intros v o d Hg _ [Hk Hr] Ht. change (w_db (tick v)) with (w_db v) in Ht. destruct o as [[]|e].
  - apply txn_result_Ok in Ht. exists (In (Some (img_id i))), κ.
    refine (conj _ (conj Hst (conj (λ Hk, proj1 Hk) _))); [by eapply flush_move|].
    apply safe_ret, safe_bind, (safe_deref l (img_id i)); [done..|]. intros j _.
    apply safe_bind, safe_cache_invalidate; [done|]. by apply safe_ret.
  - assert (d = w_db v) as ->.
    { inversion Ht as [|e' _ E1 E2|e' _ E1 E2|e' l' d' _ _ Hc E1 E2]; [done..|].
      destruct Hc. destruct Hg as [HE' _]. unfold fails_cleanly. by rewrite HE'. }
    exists (In None), κ. refine (conj _ (conj Hst (conj (λ Hk, proj1 Hk) (HE e)))). by apply move_stay.
Qed.

Lemma safe_publish id φ κ (Ψ : phase → (world → Prop) → outcome unit → Prop) :
  stable κ → Ψ φ κ (Ok tt) → (∀ e, is_exception e = false → Ψ φ κ (Exn e)) →
  safe φ κ (UploadImage.publish_task broker id) Ψ.
Proof.
  intros Hst HΨ HE. unfold UploadImage.publish_task. destruct broker as [b|] eqn:Eb; [|by apply safe_ret].
  apply safe_except_if, safe_bind, safe_elsewhere; [done|by apply broker_quiet|].
  intros [[]|e]; [by apply safe_step; [intros w; elsewhere|..]|].
  destruct (is_exception e) eqn:Ee; [by apply safe_step; [intros w; elsewhere|..]|by apply HE].
Qed.

(** Completing a claim, whatever claim was loaded. *)
Lemma key_flush_claim now id k k' d :
  claim_row k → claim_row k' → db_keys d !! (UPLOAD_SCOPE, key) = Some k' →
  ∃ k'' d', key_flush_txn now UPLOAD_SCOPE key id k d = Ok (tt, d') ∧ db_images d' = db_images d ∧
    db_keys d' !! (UPLOAD_SCOPE, key) = Some k'' ∧
    k_status k'' = lit "completed" ∧ k_image_id k'' = Some (uuid_str id).
Proof.
  intros [Hs Hi] [_ _] Hk. unfold key_flush_txn. rewrite decide_False by (intros Eq; by rewrite <- Eq in Hs).
  rewrite Hk. eexists _, _. split_and!; [done|done|apply lookup_insert_eq|..]; cbn.
  - unfold column. rewrite decide_False; [done|]. by rewrite Hs.
  - unfold column. rewrite decide_False; [done|]. by rewrite Hi.
Qed.

Lemma safe_complete id κ (Ψ : phase → (world → Prop) → outcome unit → Prop) :
  stable κ → uuid_ok id → Ψ Out (λ w, κ w ∧ answered id w) (Ok tt) →
  safe (In (Some id)) κ (repo_complete_idem deployed UPLOAD_SCOPE key id) Ψ.
Proof.
  intros Hst Hid HΨ.
  assert (∀ w, good w → reliable w OpKeyComplete) as Hrel.
  { intros w [HE _] t. rewrite HE. apply complete_reliable. }
  apply safe_bind, safe_txn; [by intros w a d [= _ <-]|done|].
  intros w o d Hg (k & Hk & Hclaim) Hw Ht. change (w_db (tick w)) with (w_db w) in Ht.
  apply txn_result_reliable in Ht; [|by apply Hrel]. unfold key_row in Hk. cbn in Ht. rewrite Hk in Ht.
  destruct Ht as [-> ->]. exists (In (Some id)), κ.
  refine (conj _ (conj Hst (conj (λ Hk, Hk) _))); [by apply move_stay|].
  apply safe_now; [done|]. intros now. apply safe_txn; [intros v a d; apply key_flush_txn_ok|done|].
  clear w Hg Hk Hw. intros w o d Hg (k' & Hk & Hclaim') Hw Ht. change (w_db (tick w)) with (w_db w) in Ht.
  apply txn_result_reliable in Ht; [|by apply Hrel].
  destruct (key_flush_claim now id k k' (w_db w) Hclaim Hclaim' Hk) as (k'' & d' & Hf & Him & Hk'' & Hs & Hi).
  rewrite Hf in Ht. destruct Ht as [-> ->].
  exists Out, (λ w, κ w ∧ answered id w). refine (conj _ (conj _ (conj (λ Hk, conj Hk _) HΨ))).
  - by eapply move_complete.
  - apply stable_and; [done|apply answered_stable].
  - exists k'', (uuid_str id). split_and!; [done|by rewrite Hs|done|by apply uuid_roundtrip].
Qed.

Definition uploaded (φ : phase) (κ : world → Prop) (o : outcome ImageResponse) : Prop :=
  match o with
  | Ok r => ∀ w, κ w → answered (resp_id r) w
  | Exn e => (φ = In None ∧ stable κ) ∨ is_exception e = false
  end.

Lemma safe_upload filename data tags ttl κ :
  stable κ →
  safe (In None) κ (UploadImage.upload deployed storage broker filename data tags ttl (Some key)) uploaded.
Proof.
  intros Hst. apply safe_bind, safe_elsewhere; [done|apply storage_quiet|].
  intros [p|e]; [|by left]. apply safe_bind.
  assert (∀ x, safe (In None) κ (l ← new_image filename p tags x; saved ← repo_save deployed l;
    UploadImage.record_upload;; s ← deref saved; UploadImage.publish_task broker (img_id s);;
    repo_complete_idem deployed UPLOAD_SCOPE key (img_id s);; i ← deref saved; mret (to_response i)) uploaded)
    as Hrest.
  { intros x. apply safe_bind, safe_new_image; [done|]. intros l id Hid.
    set (κ' := λ w, κ w ∧ knows l id w).
    assert (stable κ') as Hst' by (apply stable_and; [done|apply knows_stable]).
    assert (∀ w, κ' w → knows l id w) as Hl by by intros w [].
    apply safe_bind, (safe_save l id); [done..| |by intros; left].
    apply safe_bind, safe_step; [intros w; elsewhere|done|]. intros _. apply safe_done.
    apply safe_bind, (safe_deref l id); [done..|]. intros s ->.
    apply safe_bind, safe_publish; [done| |by right].
    apply safe_bind, safe_complete; [done..|].
    apply safe_bind, (safe_deref l id);
      [exact (stable_and _ _ _ κ' _ Hst' (answered_stable id))|intros w [Hw _]; by apply Hl|].
    intros i Hi. apply safe_ret. cbn. rewrite Hi. by intros w []. }
  destruct ttl as [h|]; [|by apply safe_ret]. apply safe_now; [done|]. intros now.
  apply safe_bind. destruct (timedelta_hours h) as [d|e]; [|by left].
  apply safe_done, safe_bind. destruct (datetime_add now d) as [x|e]; [|by left].
  exact (Hrest (Some x)).
Qed.

Definition upload_done (φ : phase) (κ : world → Prop) (o : outcome ImageResponse) : Prop :=
  ∀ r, o = Ok r → ∀ w, κ w → answered (resp_id r) w.

(** A failed upload gives the key back. *)
Lemma safe_release κ (Ψ : phase → (world → Prop) → outcome unit → Prop) :
  stable κ → (∀ φ o, Ψ φ κ o) →
  safe (In None) κ (repo_delete_idem deployed UPLOAD_SCOPE key) Ψ.
Proof.
  intros Hst HΨ. apply safe_txn; [intros w a d; apply key_delete_txn_ok|done|].
  intros w o d _ _ _ Ht. assert (move (In None) w (set_db d (tick w)) Out ∨ d = w_db w) as [Hm| ->].
  { destruct Ht as [[] d [= <-]|e _|e _|e [] d [= <-] _ _]; [left|by right..|left];
      (apply move_release; [apply lookup_delete_eq|done]). }
  - exists Out, κ. exact (conj Hm (conj Hst (conj (λ Hk, Hk) (HΨ _ _)))).
  - exists (In None), κ. refine (conj _ (conj Hst (conj (λ Hk, Hk) (HΨ _ _)))). by apply move_stay.
Qed.

Lemma safe_task r : safe Out (λ _, True) (upload_task storage broker key r) upload_done.
Proof.
  apply safe_bind. eapply safe_mono; [apply safe_claim|].
  intros φ κ [[r'|]|e] Hc; [by destruct Hc as [? ?]; apply safe_ret; intros ? [= <-]| |done].
  destruct Hc as [-> Hst]. apply safe_except_if. eapply safe_mono; [by apply safe_upload|].
  intros φ κ' [r'|e] Hu; [by intros ? [= <-]|]. destruct (is_exception e) eqn:Ee; [|done].
  destruct Hu as [[-> Hst']|]; [|congruence]. apply safe_bind, safe_release; [done|].
  by intros φ' [[]|e'].
Qed.

Lemma uploads_reachable rs w0 c :
  good w0 → key_row w0 = None → db_images (w_db w0) = images0 →
  rtc pstep (upload_task storage broker key <$> rs, w0) c →
  Interleave.config_ok good sees guar upload_done mutex c.
Proof.
  intros Hg Hk Hi Hc. eapply safe_reachable; [apply mutex_step|apply mutex_sees|exact Hc|].
  exists (replicate (length rs) Out). split_and!; [exact Hg| |].
  - exists None. split; [done|]. left. split; [by apply Forall_replicate|]. unfold completed_for. cbn.
    by rewrite Hk.
  - cbn. apply Forall2_replicate_l; [by apply length_map|]. apply Forall_forall.
    intros p (r & -> & _)%list_elem_of_fmap. exists (λ _, True).
    split_and!; [apply stable_true|done|apply safe_task].
Qed.
End logic.
End Lock.

(** ** The adapters *)

Lemma local_storage_elsewhere `{FileSystem} base_dir :
  storage_elsewhere (LocalImageStorage.storage base_dir).
Proof.
  intros filename data. apply silent_bind; [done|]. intros p. apply silent_bind; [|done].
  apply silent_act. intros w. destruct (e_fault (w_env w) OpStore (w_tick w)); elsewhere.
Qed.

Lemma in_memory_elsewhere : broker_elsewhere InMemoryMessageBroker.broker.
Proof.
  intros m. split; [|done]. intros w. cbn.
  destruct (InMemoryMessageBroker.get_queue (msg_topic m) (w_queues w)). elsewhere.
Qed.

(** C2: mutual exclusion by the idempotency key.  However the awaits of any
    number of concurrent uploads under one key interleave, and whatever fails
    but a save that commits and reports failure and the completion of the key,
    at any moment the images table has gained at most one row; every upload
    that has answered (the one that ran and those that replayed it) named the
    image of that row. *)
Theorem one_upload_per_key `{PyTables, Postgres} (key : pystr) (storage : ImageStorage)
    (broker : option MessageBroker) (rs : list upload_request) (w0 w : world)
    (ts : list (coro ImageResponse)) :
  storage_elsewhere storage → (∀ b, broker = Some b → broker_elsewhere b) →
  world_ok w0 → cache_ids w0 → fails_cleanly w0 OpSave → reliable w0 OpKeyComplete →
  db_keys (w_db w0) !! (UPLOAD_SCOPE, key) = None →
  rtc pstep (upload_task storage broker key <$> rs, w0) (ts, w) →
  ∃ s, one_row s (db_images (w_db w0)) (db_images (w_db w)) ∧
       ∀ i r, ts !! i = Some (Done (Ok r)) → s = Some (resp_id r).
Proof.
  intros Hsto Hbr Hok Hids Hsave Hcomp Hkey Hsteps.
  assert (Lock.good (w_env w0) w0) as Hg by (by split_and!).
  destruct (Lock.uploads_reachable key (w_env w0) _ storage broker Hsto Hbr Hsave Hcomp rs w0 _ Hg Hkey eq_refl Hsteps)
    as (φs & _ & HI & Hts).
  destruct (Lock.mutex_answered _ _ _ _ HI) as (s & Hrow & Hans). exists s. split; [done|].
  intros i r Hi. destruct (Forall2_lookup_r _ _ _ _ _ Hts Hi) as (φ & _ & κ & _ & Hk & Hd).
  by apply Hans, (Hd r).
Qed.
