(* ===== verification/Invariant.v ===== *)
(** * The invariant of the running service

    Every use case, with the deployed repository, keeps the tables and the
    cache well formed action by action, hence under every interleaving of
    requests and worker rounds and under every fault. *)

From S2P Require Import Prelude PyDict PyText PyUuid Prog Interleave Domain Database Cache World Ports.
From S2P Require Import Repository Storage Broker Upload Process Consume Service Reads Retention Mutex.
Local Open Scope Z_scope.

(** The tables hold well-formed rows; the cache is bounded, without duplicates,
    and each entry holds an object of its id. *)
Definition service_ok (w : world) : Prop := world_ok w ∧ cache_ids w.

(** What runs in the service's processes: the requests, and rounds of a worker. *)
Inductive call :=
| CUpload (filename : pystr) (data : pybytes) (tags : option (list pystr)) (ttl_hours : option Z)
    (idempotency_key : option pystr)
| CProcess (image_id : Z) (idempotency_key : option pystr)
| CGet (image_id : Z)
| CDownload (image_id : Z) (thumbnail : bool)
| CList (offset limit : Z) (status : option pystr)
| CDelete (image_id : Z)
| CSweep (batch_size : Z)
| CWorker (cfg : ConsumeProcessingTasks.config) (n : nat).

Section calls.
Context `{PyTables, Postgres} (storage : ImageStorage) (processor : ImageProcessor) (broker : MessageBroker).

Definition run_call (c : call) : coro unit :=
  match c with
  | CUpload fn data tags ttl key =>
      _ ← UploadImage.execute deployed storage (Some broker) fn data tags ttl key; mret tt
  | CProcess id key => _ ← ProcessImage.execute deployed storage processor id key; mret tt
  | CGet id => _ ← GetImage.execute deployed id; mret tt
  | CDownload id thumbnail => _ ← GetImage.get_file deployed storage id thumbnail; mret tt
  | CList offset limit status => _ ← ListImages.execute deployed offset limit status; mret tt
  | CDelete id => _ ← repo_delete deployed id; mret tt
  | CSweep n => _ ← ApplyRetention.execute deployed storage n; mret tt
  | CWorker cfg n =>
      _ ← ConsumeProcessingTasks.rounds broker
            (λ id, ProcessImage.execute deployed storage processor id None) cfg n; mret tt
  end.

(** Storage, processor and broker leave the tables, the cache and the objects
    alone, in every action. *)
Record adapters_elsewhere : Prop := {
  ae_store filename data : silent elsewhere (st_store storage filename data);
  ae_retrieve path : silent elsewhere (st_retrieve storage path);
  ae_delete path : silent elsewhere (st_delete storage path);
  ae_thumbnail data : silent elsewhere (proc_thumbnail processor data);
  ae_publish m : silent elsewhere (br_publish broker m);
  ae_consume topic : silent elsewhere (br_consume broker topic)
}.

(** ** Actions *)

Abbreviation kept := (keeps service_ok).

Lemma service_ok_elsewhere w w' : elsewhere w w' → service_ok w → service_ok w'.
Proof.
  intros [Hh Hd Hc _ _] [Hok Hids]. split; [by eapply world_ok_same|].
  intros id e. rewrite Hc, Hh. apply Hids.
Qed.

Lemma kept_silent {A} (p : coro A) : silent elsewhere p → kept p.
Proof.
  induction p as [o|X a k IH]; [done|]. intros [Ha Hk]. split; [|by intros x; apply IH].
  intros w. by apply service_ok_elsewhere.
Qed.

Lemma kept_ret {A} (a : A) : kept (mret a).
Proof. done. Qed.

Lemma kept_raise {A} e : kept (raise e : coro A).
Proof. done. Qed.

Lemma kept_lift {A} (o : outcome A) : kept (lift o).
Proof. done. Qed.

Lemma kept_now : kept read_now.
Proof. apply kept_silent; auto with elsewhere. Qed.

Lemma kept_mono : kept read_mono.
Proof. apply kept_silent; auto with elsewhere. Qed.

Lemma kept_uuid : kept uuid4.
Proof. apply kept_silent; auto with elsewhere. Qed.

Lemma kept_observe o : kept (observe o).
Proof. apply kept_silent; auto with elsewhere. Qed.

Lemma kept_deref l : kept (deref l).
Proof. apply kept_silent; auto with elsewhere. Qed.

Lemma kept_txn {A} op (f : world → outcome (A * db)) :
  (∀ w a d, f w = Ok (a, d) → db_ok (w_db w) → db_ok d) → kept (txn op f).
Proof.
  intros Hf. split; [|done]. intros w [[Hd Hc] Hids].
  assert (∀ d, db_ok d → service_ok (set_db d (tick w))) as Hset by (intros d ?; by split).
  destruct (e_fault (w_env w) op (w_tick w)) as [|e|e|n e]; cbn; [|by split|..];
    (destruct (f (tick w)) as [[a d]|e'] eqn:E; cbn; [|by split]); [|by apply Hset; eapply Hf..|].
  - apply Hset. by eapply Hf.
  - by split.
Qed.

Lemma kept_heap (f : world → gmap loc Image) :
  (∀ w l i, w_heap w !! l = Some i → ∃ i', f w !! l = Some i' ∧ img_id i' = img_id i) →
  ∀ w, service_ok w → service_ok (set_heap (f w) w).
Proof.
  intros Hf w [Hok Hids]. split; [done|]. intros id e He. destruct (Hids id e He) as (i & Hi & <-).
  apply (Hf w _ _ Hi).
Qed.

Lemma kept_alloc i : kept (alloc i).
Proof.
  split; [|done]. apply (kept_heap (λ w, <[fresh (dom (w_heap w)) := i]> (w_heap w))).
  intros w l j Hj. exists j. split; [|done]. rewrite lookup_insert_ne; [done|].
  intros E. assert (fresh (dom (w_heap w)) ∉ dom (w_heap w)) as Hfr by apply is_fresh.
  apply Hfr. rewrite E. by apply elem_of_dom_2 in Hj.
Qed.

Lemma kept_mutate l f : (∀ i, img_id (f i) = img_id i) → kept (mutate l f).
Proof.
  intros Hf. split; [|done]. apply (kept_heap (λ w, alter f l (w_heap w))). intros w l' i Hi.
  destruct (decide (l' = l)) as [->|].
  - exists (f i). by rewrite lookup_alter_eq, Hi.
  - exists i. by rewrite lookup_alter_ne.
Qed.

(** A change of the cache that puts no wrong object in it. *)
Lemma service_ok_cache c w :
  service_ok w → cache_ok c →
  (∀ id e, dict_get id (store_ c) = Some e →
     dict_get id (store_ (w_cache w)) = Some e ∨
     ∃ i, w_heap w !! ce_image e = Some i ∧ img_id i = id) →
  service_ok (set_cache c w).
Proof.
  intros [[Hd _] Hids] Hc Hsub. split; [by split|]. intros id e He.
  destruct (Hsub id e He) as [He'|He']; [by apply Hids|exact He'].
Qed.

Lemma kept_cache_get id : kept (cache_get_coro id).
Proof.
  split; [|done]. intros w Hok. cbn beta. set (now := e_mono (w_env w) (w_tick w)).
  pose proof Hok as [[_ Hc] _]. destruct (cache_get_inv now id (w_cache w) (proj1 Hc)) as [_ Hsub].
  pose proof (cache_get_ok now id (w_cache w) Hc) as Hc'.
  destruct (cache_get now id (w_cache w)) as [r c]. cbn [fst snd] in *.
  apply (service_ok_elsewhere (set_cache c w)); [elsewhere|]. apply service_ok_cache; [done..|]. eauto.
Qed.

Lemma kept_cache_set l : kept (cache_set_coro l).
Proof.
  split; [|done]. intros w Hok. destruct (w_heap w !! l) as [i|] eqn:Hl; [|done]. cbn [fst snd].
  pose proof Hok as [[_ Hc] _]. set (c := cache_set _ _ _ _ _).
  apply (service_ok_elsewhere (set_cache c w)); [elsewhere|].
  apply service_ok_cache; [done|by apply cache_set_ok|]. intros id e He.
  apply cache_set_get_Some in He as [[-> ->]|[_ ?]]; [right; by exists i|by left|apply Hc].
Qed.

Lemma kept_cache_invalidate id : kept (cache_invalidate_coro id).
Proof.
  split; [|done]. intros w Hok. pose proof Hok as [[_ Hc] _]. apply service_ok_cache; [done|..].
  - by apply cache_invalidate_ok.
  - intros id' e. rewrite cache_invalidate_get by apply Hc. case_decide; [done|by left].
Qed.

Create HintDb kept discriminated.

(** Follow the code: every bind, handler and branch, then its actions. *)
Ltac keep_step :=
  lazymatch goal with
  | |- keeps _ (_ ≫= _) => apply keeps_bind; [|intros ?]
  | |- keeps _ (except_if _ _ _) => apply keeps_except_if; [|intros ?]
  | |- keeps _ (for_each _ _) => apply keeps_for_each; intros ?
  | |- keeps _ (match _ with _ => _ end) => case_match
  | |- keeps _ (mret _) => apply kept_ret
  | |- keeps _ (raise _) => apply kept_raise
  | |- keeps _ (lift _) => apply kept_lift
  | |- keeps _ read_now => apply kept_now
  | |- keeps _ read_mono => apply kept_mono
  | |- keeps _ uuid4 => apply kept_uuid
  | |- keeps _ (observe _) => apply kept_observe
  | |- keeps _ (deref _) => apply kept_deref
  | |- keeps _ (alloc _) => apply kept_alloc
  | |- keeps _ (cache_get_coro _) => apply kept_cache_get
  | |- keeps _ (cache_set_coro _) => apply kept_cache_set
  | |- keeps _ (cache_invalidate_coro _) => apply kept_cache_invalidate
  | |- keeps _ _ => solve [auto 2 with kept nocore]
  | |- _ => intros ?
  end.
Ltac keep := repeat keep_step.

(** ** The repository *)

Lemma kept_read {A} op (f : world → outcome (A * db)) :
  (∀ w a d', f w = Ok (a, d') → d' = w_db w) → kept (txn op f).
Proof. intros Hf. apply kept_txn. intros w a d E. by rewrite (Hf _ _ _ E). Qed.

Lemma kept_flush i model : kept (db_txn OpSave (flush_txn i model)).
Proof. apply kept_txn. intros w a d. apply flush_txn_ok. Qed.

Lemma kept_get_model op id : kept (db_txn op (get_txn id)).
Proof. apply kept_read. by intros w a d' [= _ <-]. Qed.

Lemma kept_save l : kept (repo_save deployed l).
Proof.
  apply keeps_bind; [|intros; keep]. apply keeps_bind; [keep|]. intros i0.
  apply keeps_bind; [apply kept_get_model|]. intros model. apply keeps_bind; [keep|]. intros i.
  apply keeps_bind; [apply kept_flush|intros; keep].
Qed.

Lemma kept_get id : kept (repo_get_by_id deployed id).
Proof.
  apply keeps_bind; [keep|]. intros [l|]; [keep|]. apply keeps_bind; [|intros; keep].
  apply keeps_bind; [|intros; keep]. apply kept_get_model.
Qed.

Lemma to_entities_same `{Postgres} (f : db → outcome (list ImageModel * db)) d es d' :
  (∀ d r d', f d = Ok (r, d') → d' = d) → to_entities (f d) = Ok (es, d') → d' = d.
Proof. intros Hf E. apply to_entities_Ok in E as (models & E & _). by eapply Hf. Qed.

Lemma kept_list offset limit status : kept (repo_list_images deployed offset limit status).
Proof.
  apply kept_read. intros w a d'. apply (to_entities_same (list_txn (w_tick w) offset limit status)).
  clear. intros d r d'. unfold list_txn. destruct (sql_window _ _ _); [|done]. by intros [= _ <-].
Qed.

Lemma kept_delete id : kept (repo_delete deployed id).
Proof. apply keeps_bind; [keep|]. intros []. apply kept_txn. intros w a d. apply delete_txn_ok. Qed.

Lemma kept_sweep n : kept (repo_delete_expired_batch deployed n).
Proof.
  apply keeps_bind; [|intros es; keep]. apply keeps_bind; [keep|]. intros now. apply kept_txn.
  intros w es d (models & E & _)%to_entities_Ok. by eapply sweep_txn_ok.
Qed.

Lemma kept_count status : kept (repo_count deployed status).
Proof. apply kept_read. by intros w a d' [= _ <-]. Qed.

Lemma kept_get_idem scope key : kept (repo_get_idem deployed scope key).
Proof.
  apply kept_read. intros w a d'. apply key_get_same.
Qed.

Lemma kept_create_idem scope key h u : kept (repo_create_idem deployed scope key h u).
Proof. apply keeps_bind; [keep|]. intros t1. apply keeps_bind; [keep|]. intros t2. apply kept_txn. intros w a d. apply key_create_txn_ok. Qed.

Lemma kept_complete_idem scope key u : kept (repo_complete_idem deployed scope key u).
Proof.
  apply keeps_bind; [apply kept_read; by intros w a d' [= _ <-]|]. intros [k|]; [|keep].
  apply keeps_bind; [keep|]. intros t. apply kept_txn. intros w a d. apply key_flush_txn_ok.
Qed.

Lemma kept_delete_idem scope key : kept (repo_delete_idem deployed scope key).
Proof. apply kept_txn. intros w a d. apply key_delete_txn_ok. Qed.

#[local] Hint Resolve kept_save kept_get kept_list kept_delete kept_sweep kept_count kept_get_idem
  kept_create_idem kept_complete_idem kept_delete_idem : kept.

(** ** The use cases *)

Context (adapters : adapters_elsewhere).

#[local] Hint Extern 2 (keeps _ (st_store _ _ _)) => apply kept_silent, (ae_store adapters) : kept.
#[local] Hint Extern 2 (keeps _ (st_retrieve _ _)) => apply kept_silent, (ae_retrieve adapters) : kept.
#[local] Hint Extern 2 (keeps _ (st_delete _ _)) => apply kept_silent, (ae_delete adapters) : kept.
#[local] Hint Extern 2 (keeps _ (proc_thumbnail _ _)) => apply kept_silent, (ae_thumbnail adapters) : kept.
#[local] Hint Extern 2 (keeps _ (br_publish _ _)) => apply kept_silent, (ae_publish adapters) : kept.
#[local] Hint Extern 2 (keeps _ (br_consume _ _)) => apply kept_silent, (ae_consume adapters) : kept.

Lemma kept_upload fn data tags ttl key :
  kept (UploadImage.execute deployed storage (Some broker) fn data tags ttl key).
Proof.
  unfold UploadImage.execute, UploadImage.claim, UploadImage.load_idempotent_replay, UploadImage.upload,
    UploadImage.publish_task, UploadImage.record_upload, UploadImage.record_publish,
    UploadImage.record_publish_error, new_image. keep.
Qed.

Lemma kept_mark_completed l now p md : kept (mutate l (mark_completed now p md)).
Proof. by apply kept_mutate. Qed.

Lemma kept_mark_failed l now : kept (mutate l (mark_failed now)).
Proof. by apply kept_mutate. Qed.

Lemma kept_mark_processing l now : kept (mutate l (mark_processing now)).
Proof. by apply kept_mutate. Qed.

#[local] Hint Resolve kept_mark_completed kept_mark_failed kept_mark_processing : kept.

Lemma kept_process id key : kept (ProcessImage.execute deployed storage processor id key).
Proof.
  unfold ProcessImage.execute, ProcessImage.claim, ProcessImage.load_idempotent_replay, ProcessImage.process,
    ProcessImage.make_thumbnail, ProcessImage.finish, ProcessImage.on_failure, ProcessImage.release_key,
    ProcessImage.record_duration. keep.
Qed.

#[local] Hint Resolve kept_process : kept.

Lemma kept_round process cfg :
  (∀ id, kept (process id)) → kept (ConsumeProcessingTasks.execute_once broker process cfg).
Proof.
  intros Hp. assert (∀ id, kept (process id)) by done.
  unfold ConsumeProcessingTasks.execute_once, ConsumeProcessingTasks.handle,
    ConsumeProcessingTasks.handle_retry_or_dlq, ConsumeProcessingTasks.publish_retry_message,
    ConsumeProcessingTasks.retry_delay,
    ConsumeProcessingTasks.publish_dead_letter_message, ConsumeProcessingTasks.record_consumed,
    ConsumeProcessingTasks.record_consume_error, ConsumeProcessingTasks.record_processing_duration,
    ConsumeProcessingTasks.record_retried, ConsumeProcessingTasks.record_dead_letter. keep.
Qed.

Lemma kept_rounds process cfg n :
  (∀ id, kept (process id)) → kept (ConsumeProcessingTasks.rounds broker process cfg n).
Proof.
  intros Hp. induction n as [|n IH]; cbn [ConsumeProcessingTasks.rounds]; [done|].
  apply keeps_bind; [by apply kept_round|]. intros b. by apply keeps_bind.
Qed.

Lemma kept_clean_up images errors : kept (ApplyRetention.clean_up storage images errors).
Proof.
  revert errors. induction images as [|i images IH]; intros errors; cbn [ApplyRetention.clean_up]; [done|].
  unfold ApplyRetention.delete_files. apply keeps_bind; [keep|done].
Qed.

#[local] Hint Resolve kept_clean_up : kept.

Lemma kept_call c : kept (run_call c).
Proof.
  destruct c as [fn data tags ttl key|id key|id|id thumbnail|offset limit status|id|n|cfg n];
    cbn [run_call]; (apply keeps_bind; [|done]).
  - apply kept_upload.
  - apply kept_process.
  - unfold GetImage.execute. keep.
  - unfold GetImage.get_file. keep.
  - unfold ListImages.execute. keep.
  - apply kept_delete.
  - unfold ApplyRetention.execute. keep.
  - apply kept_rounds. intros id. apply kept_process.
Qed.

(** C4: the invariant of the service.  However the awaits of any number of
    requests (uploads, processings, reads, downloads, listings, deletions,
    sweeps) and worker loops interleave, and whatever fails in any of them,
    every reachable state is well typed: rows fit their columns, carry their
    own id and a known status, the keys are stored under themselves, the cache
    is bounded and holds under each id an object of that id. *)
Theorem service_invariant (cs : list call) (w w' : world) (ts : list (coro unit)) :
  service_ok w → rtc pstep (run_call <$> cs, w) (ts, w') → service_ok w'.
Proof.
  intros Hok Hsteps. destruct (keeps_rtc service_ok _ _ Hsteps) as [H1 _]; [|exact Hok|exact H1].
  apply Forall_fmap, Forall_true. apply kept_call.
Qed.
End calls.

(** ** The adapters *)

Lemma local_storage_silent `{FileSystem} base_dir path :
  silent elsewhere (st_retrieve (LocalImageStorage.storage base_dir) path) ∧
  silent elsewhere (st_delete (LocalImageStorage.storage base_dir) path).
Proof.
  split.
  - apply silent_act. intros w. destruct (e_fault (w_env w) OpRetrieve (w_tick w)); cbn;
      destruct (w_fs w !! path); elsewhere.
  - apply silent_try; [|by intros e; destruct (LocalImageStorage.is_file_not_found e)].
    apply silent_bind; [|done]. apply silent_act. intros w.
    destruct (e_fault (w_env w) OpRemove (w_tick w)); cbn; destruct (w_fs w !! path); elsewhere.
Qed.

Lemma in_memory_silent topic : silent elsewhere (br_consume InMemoryMessageBroker.broker topic).
Proof.
  apply silent_act. intros w. destruct (e_fault (w_env w) OpConsume (w_tick w)); cbn;
    destruct (InMemoryMessageBroker.get_queue topic (w_queues w)) as [[|m q] qs]; elsewhere.
Qed.
