(* ===== verification/History.v ===== *)
(** * The history of an image

    What happens to one image while requests and worker loops run: its name,
    file, tags and dates never change, and it never becomes pending again.  More
    is not true: a save reads the row and writes the changed columns in two
    statements, so that two saves at once mix their columns ([Incidents.v] has a
    completed row without its thumbnail).

    By the logic of [Interleave.v], for one image id [X] at a time: the phase of
    a task says which object of the image it holds; the invariant says where [X]
    stands (unknown, minted, an object not yet saved, or known to the service).
    The claims are about the states before a tick, up to which UUIDs are fresh. *)

From S2P Require Import Prelude PyDict PyText PyUuid Prog Interleave Domain Database Cache World Ports.
From S2P Require Import Repository Storage Broker Upload Process Consume Service Reads Retention Mutex Invariant.
Local Open Scope Z_scope.

(** ** What stays *)

Definition fixed_part (i : Image) : pystr * pystr * list pystr * Z * option Z :=
  (img_filename i, img_original_path i, img_tags i, img_created_at i, img_expires_at i).
Definition fixed_columns (m : ImageModel) : pystr * pystr * list pystr * Z * option Z :=
  (m_filename m, m_original_path m, default [] (m_tags m), m_created_at m, m_expires_at m).

Lemma entity_to_model_fixed i m : fixed_columns (entity_to_model i m) = fixed_part i.
Proof. done. Qed.

Lemma status_value_inj s s' : status_value s = status_value s' → s = s'.
Proof. by destruct s, s'. Qed.

Lemma model_to_entity_fixed m i : model_to_entity m = Ok i → fixed_part i = fixed_columns m.
Proof.
  unfold model_to_entity. destruct (status_of (m_status m)) as [s|] eqn:Es; [|done]. cbn. by intros [= <-].
Qed.

(** The row a flush of an image with the fixed part [a] and the status [s] may
    leave when the row is [cur]: each column is the image's or the row's. *)
Definition saved_as (a : pystr * pystr * list pystr * Z * option Z) (s : ProcessingStatus)
    (cur : option ImageModel) (m : ImageModel) : Prop :=
  ((∀ c, cur = Some c → fixed_columns c = a) → fixed_columns m = a) ∧
  (m_status m = status_value s ∨ ∃ c, cur = Some c ∧ m_status m = m_status c).

Lemma column_same {A} `{EqDecision A} (old new cur : A) : cur = new → column old new cur = new.
Proof. intros ->. by destruct (column_either old new new). Qed.

Lemma update_row_saved i old cur :
  saved_as (fixed_part i) (img_status i) (Some cur) (update_row old (entity_to_model i old) cur).
Proof.
  split.
  - intros Hc. specialize (Hc cur eq_refl). unfold fixed_columns, fixed_part in *. injection Hc as H1 H2 H3 H4 H5.
    assert (default [] (column (m_tags old) (Some (img_tags i)) (m_tags cur)) = img_tags i) as Ht
      by by destruct (column_either (m_tags old) (Some (img_tags i)) (m_tags cur)) as [-> | ->].
    cbn [update_row entity_to_model m_filename m_original_path m_tags m_created_at m_expires_at].
    by rewrite Ht, !column_same.
  - cbn. destruct (column_either (m_status old) (status_value (img_status i)) (m_status cur)) as [-> | ->]; eauto.
Qed.

Lemma flush_effect i model d r d' X :
  flush_txn i model d = Ok (r, d') →
  db_images d' !! X = db_images d !! X ∨
  img_id i = X ∧ ∃ m, db_images d' !! X = Some m ∧ saved_as (fixed_part i) (img_status i) (db_images d !! X) m.
Proof.
  intros [->|(m & _ & -> & Hm)]%flush_txn_inv; [by left|]. cbn.
  destruct (decide (img_id i = X)) as [<-|Hne]; [right|left; by rewrite lookup_insert_ne].
  split; [done|]. exists m. rewrite lookup_insert_eq. split; [done|].
  destruct Hm as [(_ & -> & ->)|(old & cur & _ & -> & ->)]; [|apply update_row_saved].
  split; [done|by left].
Qed.

(** ** Phases *)

(** What a task holds of images: nothing, an entity just read, an object it
    shares with the cache, the id [X] it has minted, or the only object of it. *)
Inductive phase :=
| Idle
| Reads (i : Image)
| Holds (l : loc)
| Reserved
| Made (l : loc).

Definition loose (φ : phase) : Prop := match φ with Reserved | Made _ => False | _ => True end.

Module Life.
Section logic.
(** The claims are about states up to a tick, below which ids are drawn once. *)
Context `{PyTables, Postgres} (X : Z) (E : env) (horizon : nat).

Definition mint (t : nat) : Z := e_uuid E t mod 2 ^ 128.
Hypothesis mint_inj : ∀ t t', (t < horizon)%nat → (t' < horizon)%nat → mint t = X → mint t' = X → t = t'.

Definition early (w : world) : Prop := (w_tick w ≤ horizon)%nat.

Definition row (w : world) : option ImageModel := db_images (w_db w) !! X.
Definition in_cache (l : loc) (w : world) : Prop :=
  ∃ id e, dict_get id (store_ (w_cache w)) = Some e ∧ ce_image e = l.

Record good (w : world) : Prop := MkGood {
  good_env : w_env w = E;
  good_ok : world_ok w;
  good_ids : cache_ids w
}.

(** The cache holds no object it did not hold. *)
Definition cache_sub (w w' : world) : Prop := ∀ l, in_cache l w' → in_cache l w.

Definition updates (f : Image → Image) : Prop :=
  ∀ i, img_id (f i) = img_id i ∧ fixed_part (f i) = fixed_part i ∧ img_status (f i) ≠ PENDING.

(** What an action may do to the image, its objects and the cache. *)
Inductive move : phase → world → world → phase → Prop :=
| move_quiet φ w w' :
    w_heap w' = w_heap w → row w' = row w ∨ row w' = None →
    (∀ l, in_cache l w' → in_cache l w ∨ φ = Holds l) → move φ w w' φ
| move_mint φ w w' :
    loose φ → w_heap w' = w_heap w → row w' = row w → cache_sub w w' →
    mint (w_tick w) = X → (w_tick w < w_tick w')%nat → move φ w w' Reserved
| move_read φ i w w' :
    loose φ → w_heap w' = w_heap w → row w' = row w → cache_sub w w' →
    (img_id i = X → ∃ m, row w = Some m ∧ fixed_columns m = fixed_part i) → move φ w w' (Reads i)
| move_pick φ l w w' :
    loose φ → w_heap w' = w_heap w → row w' = row w → cache_sub w w' → in_cache l w →
    move φ w w' (Holds l)
| move_alloc i l w w' :
    w_heap w !! l = None → w_heap w' = <[l := i]> (w_heap w) → row w' = row w → cache_sub w w' →
    move (Reads i) w w' (Holds l)
| move_make i l w w' :
    w_heap w !! l = None → w_heap w' = <[l := i]> (w_heap w) → row w' = row w → cache_sub w w' →
    img_id i = X → move Reserved w w' (Made l)
| move_other φ i l w w' :
    loose φ → w_heap w !! l = None → w_heap w' = <[l := i]> (w_heap w) → row w' = row w → cache_sub w w' →
    img_id i ≠ X → move φ w w' φ
| move_mutate l f w w' :
    updates f → w_heap w' = alter f l (w_heap w) → row w' = row w → cache_sub w w' →
    move (Holds l) w w' (Holds l)
| move_save l i s m w w' :
    w_heap w !! l = Some i → img_id i = X → saved_as (fixed_part i) s (row w) m → s ≠ PENDING →
    w_heap w' = w_heap w → row w' = Some m → cache_sub w w' → move (Holds l) w w' (Holds l)
| move_own l i s m w w' :
    w_heap w !! l = Some i → saved_as (fixed_part i) s (row w) m →
    w_heap w' = w_heap w → row w' = row w ∨ row w' = Some m → cache_sub w w' → move (Made l) w w' Idle.

Definition guar (φ : phase) (w w' : world) (φ' : phase) : Prop :=
  (w_tick w ≤ w_tick w')%nat ∧ (early w' → move φ w w' φ').

(** A held object exists. *)
Definition sees (φ : phase) (w : world) : Prop :=
  match φ with Holds l | Made l => early w → is_Some (w_heap w !! l) | _ => True end.

(** ** The invariant *)

Definition future (w : world) : Prop := ∃ t, (w_tick w ≤ t < horizon)%nat ∧ mint t = X.
Definition no_object (w : world) : Prop := ∀ l i, w_heap w !! l = Some i → img_id i ≠ X.
Definition no_reads (φs : list phase) : Prop := ∀ j i, φs !! j = Some (Reads i) → img_id i ≠ X.
Definition all_loose (φs : list phase) : Prop := ∀ j φ, φs !! j = Some φ → loose φ.
Definition others_loose (φs : list phase) (j0 : nat) : Prop := ∀ j φ, φs !! j = Some φ → j ≠ j0 → loose φ.

(** Objects that tasks and the cache hold exist. *)
Definition held_exist (φs : list phase) (w : world) : Prop :=
  ∀ l, (∃ j, φs !! j = Some (Holds l)) ∨ in_cache l w → is_Some (w_heap w !! l).

(** The fixed part of every copy of the image. *)
Definition copies (a : pystr * pystr * list pystr * Z * option Z) (φs : list phase) (w : world) : Prop :=
  (∀ l i, w_heap w !! l = Some i → img_id i = X → fixed_part i = a) ∧
  (∀ m, row w = Some m → fixed_columns m = a) ∧
  (∀ j i, φs !! j = Some (Reads i) → img_id i = X → fixed_part i = a).

(** Where [X] stands. *)
Inductive stage (φs : list phase) (w : world) : Prop :=
| stage_unknown :
    all_loose φs → row w = None → no_object w → no_reads φs → stage φs w
| stage_reserved j :
    φs !! j = Some Reserved → others_loose φs j → ¬ future w → row w = None → no_object w → no_reads φs →
    stage φs w
| stage_made j l i :
    φs !! j = Some (Made l) → others_loose φs j → ¬ future w → row w = None → no_reads φs →
    w_heap w !! l = Some i → img_id i = X →
    (∀ l' i', w_heap w !! l' = Some i' → img_id i' = X → l' = l) →
    ¬ in_cache l w → (∀ j', φs !! j' ≠ Some (Holds l)) → stage φs w
| stage_known a :
    all_loose φs → ¬ future w → copies a φs w → stage φs w.

Definition life (φs : list phase) (w : world) : Prop := held_exist φs w ∧ stage φs w.

(** The image is known, with the fixed part [a], and [p]: it is not pending. *)
Definition known (a : pystr * pystr * list pystr * Z * option Z) (p : bool) (φs : list phase) (w : world) : Prop :=
  held_exist φs w ∧ all_loose φs ∧ ¬ future w ∧ copies a φs w ∧
  (p = true → ∀ m, row w = Some m → m_status m ≠ status_value PENDING).

(** ** The invariant is kept *)

Lemma insert_cases (φs : list phase) i φ' j ψ :
  <[i := φ']> φs !! j = Some ψ → j = i ∧ ψ = φ' ∨ j ≠ i ∧ φs !! j = Some ψ.
Proof. intros [(-> & -> & _)|[? ?]]%list_lookup_insert_Some; auto. Qed.

Lemma heap_grows φ w w' φ' l i :
  move φ w w' φ' → w_heap w !! l = Some i →
  ∃ i', w_heap w' !! l = Some i' ∧ img_id i' = img_id i ∧ fixed_part i' = fixed_part i ∧
        (img_status i ≠ PENDING → img_status i' ≠ PENDING).
Proof.
  intros Hm Hl. assert (∀ l' i' h, w_heap w !! l' = None → h = <[l' := i']> (w_heap w) → h !! l = Some i) as Hins
    by (intros l' i' h Hn ->; rewrite lookup_insert_ne; [done|congruence]).
  destruct Hm as [? ? ? Hh| ? ? ? _ Hh| ? ? ? ? _ Hh| ? ? ? ? _ Hh|? ? ? ? Hn Hh|? ? ? ? Hn Hh|? ? ? ? ? _ Hn Hh
    |l' f w w' Hf Hh|? ? ? ? ? ? _ _ _ _ Hh|? ? ? ? ? ? _ _ Hh];
    try (exists i; split; [first [by rewrite Hh|by eapply Hins]|done]).
  rewrite Hh. destruct (decide (l' = l)) as [->|Hne].
  - exists (f i). rewrite lookup_alter_eq, Hl. destruct (Hf i) as (? & ? & ?). by split_and!.
  - exists i. by rewrite lookup_alter_ne.
Qed.

(** Objects come from the heap before, or were just made. *)
Lemma heap_origin φ w w' φ' l i' :
  move φ w w' φ' → w_heap w' !! l = Some i' →
  (∃ i, w_heap w !! l = Some i ∧ img_id i = img_id i' ∧ fixed_part i = fixed_part i') ∨
  w_heap w !! l = None ∧
    (φ = Reads i' ∧ φ' = Holds l ∨ φ = Reserved ∧ φ' = Made l ∧ img_id i' = X ∨ φ' = φ ∧ img_id i' ≠ X).
Proof.
  intros Hm Hl. assert (∀ l0 i0, w_heap w !! l0 = None → w_heap w' = <[l0 := i0]> (w_heap w) →
    w_heap w !! l = Some i' ∨ l = l0 ∧ i' = i0) as Hins.
  { intros l0 i0 Hn Hh. rewrite Hh in Hl. apply lookup_insert_Some in Hl as [[-> ->]|[? ?]]; auto. }
  destruct Hm as [? ? ? Hh| ? ? ? _ Hh| ? ? ? ? _ Hh| ? ? ? ? _ Hh|? ? ? ? Hn Hh|? ? ? ? Hn Hh|? ? ? ? ? _ Hn Hh
    |l' f w w' Hf Hh|? ? ? ? ? ? _ _ _ _ Hh|? ? ? ? ? ? _ _ Hh];
    try (left; exists i'; rewrite <- Hh; done);
    try (destruct (Hins _ _ Hn Hh) as [?|[-> ->]]; [left; by exists i'|right; naive_solver]).
  left. rewrite Hh in Hl. destruct (decide (l' = l)) as [->|Hne].
  - rewrite lookup_alter_eq in Hl. destruct (w_heap w !! l) as [i|] eqn:Hi; [|done].
    injection Hl as <-. exists i. by destruct (Hf i) as (-> & -> & _).
  - rewrite lookup_alter_ne in Hl by done. by exists i'.
Qed.

Lemma cache_origin φ w w' φ' l : move φ w w' φ' → in_cache l w' → in_cache l w ∨ φ = Holds l.
Proof. unfold cache_sub. intros Hm Hl. destruct Hm; eauto. Qed.

(** A task holds what it held, what was in the cache or what it made. *)
Lemma held_origin φ w w' φ' l :
  move φ w w' φ' → φ' = Holds l → φ = Holds l ∨ in_cache l w ∨ w_heap w !! l = None ∧ is_Some (w_heap w' !! l).
Proof.
  intros Hm ->. inversion Hm; subst; eauto. right. right. split; [done|].
  match goal with Hh : w_heap w' = _ |- _ => rewrite Hh end. rewrite lookup_insert_eq. eauto.
Qed.

Lemma held_exist_step φs i φ φ' w w' :
  held_exist φs w → φs !! i = Some φ → move φ w w' φ' → held_exist (<[i := φ']> φs) w'.
Proof.
  intros Hex Hi Hm l Hl.
  assert (is_Some (w_heap w !! l) → is_Some (w_heap w' !! l)) as Hgrow
    by (intros [x Hx]; destruct (heap_grows _ _ _ _ _ _ Hm Hx) as (x' & Hx' & _); eauto).
  destruct Hl as [[j [[-> Eq]|[Hne Hj]]%insert_cases]|Hl].
  - destruct (held_origin _ _ _ _ l Hm (eq_sym Eq)) as [->|[?|[_ ?]]]; [|by eauto|done].
    apply Hgrow, Hex. left. by exists i.
  - apply Hgrow, Hex. left. by exists j.
  - apply Hgrow, Hex. destruct (cache_origin _ _ _ _ _ Hm Hl) as [?| ->]; [by right|left; by exists i].
Qed.

Lemma row_origin φ w w' φ' m :
  move φ w w' φ' → row w' = Some m →
  row w = Some m ∨
  ∃ l i s, w_heap w !! l = Some i ∧ saved_as (fixed_part i) s (row w) m ∧
           (φ = Made l ∨ φ = Holds l ∧ img_id i = X ∧ s ≠ PENDING).
Proof.
  intros Hm Hr. destruct Hm as [? ? ? _ [Hr'|Hr'] _| | | | | | | |l i s m' w w' ? ? ? ? _ Hr' _|l i s m' w w' ? ? _ [Hr'|Hr'] _];
    try (left; congruence); right; exists l, i, s; rewrite Hr' in Hr; injection Hr as <-; naive_solver.
Qed.

Lemma read_origin φ w w' φ' i :
  move φ w w' φ' → φ' = Reads i → φ = Reads i ∨ (img_id i = X → ∃ m, row w = Some m ∧ fixed_columns m = fixed_part i).
Proof. intros Hm. destruct Hm; intros E'; simplify_eq; auto. Qed.

Lemma move_loose φ w w' φ' :
  move φ w w' φ' → loose φ → loose φ' ∨ φ' = Reserved ∧ mint (w_tick w) = X ∧ (w_tick w < w_tick w')%nat.
Proof. intros Hm. destruct Hm; auto; by left. Qed.

Lemma all_loose_insert φs i φ' : all_loose φs → loose φ' → all_loose (<[i := φ']> φs).
Proof. intros Ha Hl j ψ [[-> ->]|[_ Hj]]%insert_cases; [done|by eapply Ha]. Qed.

Lemma future_later w w' : (w_tick w ≤ w_tick w')%nat → future w' → future w.
Proof. intros Ht (t & Hle & Hm). exists t. split; [lia|done]. Qed.

Lemma no_mint φ w w' φ' : early w' → ¬ future w → move φ w w' φ' → loose φ → loose φ'.
Proof.
  intros He Hf Hm Hl. destruct (move_loose _ _ _ _ Hm Hl) as [?|(_ & Hmt & Ht)]; [done|]. destruct Hf.
  exists (w_tick w). unfold early in He. split; [lia|done].
Qed.

(** Once known, the image keeps its fixed part, and does not become pending. *)
Lemma known_step a p φs i φ φ' w w' :
  early w' → known a p φs w → φs !! i = Some φ → guar φ w w' φ' → known a p (<[i := φ']> φs) w'.
Proof.
  intros He (Hex & Ha & Hf & (Ho & Hr & Hre) & Hp) Hi [Ht Hm]. specialize (Hm He). pose proof (Ha _ _ Hi) as Hl.
  assert (loose φ') as Hl'.
  { by eapply no_mint. }
  split_and!; [by eapply held_exist_step|by apply all_loose_insert|by intros ?%(future_later w)|split_and!|].
  - intros l o Hlo HX. destruct (heap_origin _ _ _ _ _ _ Hm Hlo) as [(o' & Ho' & Hid & <-)|[_ Hnew]].
    + apply (Ho l); [done|congruence].
    + destruct Hnew as [[-> _]|[(-> & _)|[_ ?]]]; [by eapply Hre|done..].
  - intros m Hr'. destruct (row_origin _ _ _ _ _ Hm Hr') as [?|(l & o & s & Hlo & [Hfix _] & [->|(_ & HX & _)])];
      [by apply Hr|done|]. rewrite <- (Ho l o Hlo HX). apply Hfix. intros c Hrc. rewrite (Ho l o Hlo HX). by apply Hr.
  - intros j o [[-> E']|[_ Hj]]%insert_cases HX; [|by eapply Hre].
    destruct (read_origin _ _ _ _ o Hm (eq_sym E')) as [->|Hrow]; [by eapply Hre|].
    destruct (Hrow HX) as (m & Hrm & <-). by apply Hr.
  - intros Hpt m Hr'. destruct (row_origin _ _ _ _ _ Hm Hr') as [?|(l & o & s & Hlo & [_ Hsm] & [->|(_ & _ & Hs)])];
      [by apply Hp|done|]. destruct Hsm as [->|(c & Hrc & ->)]; [by intros ?%status_value_inj|by apply Hp].
Qed.

Lemma no_reads_insert φs i φ φ' w w' :
  no_reads φs → φs !! i = Some φ → move φ w w' φ' → row w = None → no_reads (<[i := φ']> φs).
Proof.
  intros Hn Hi Hm Hr j o [[-> E']|[_ Hj]]%insert_cases; [|by eapply Hn].
  destruct (read_origin _ _ _ _ o Hm (eq_sym E')) as [->|Hrow]; [by eapply Hn|].
  intros HX. destruct (Hrow HX) as (m & ? & _). congruence.
Qed.

(** While no one has an object of [X], no action of a loose task makes one. *)
Lemma no_object_step φs i φ φ' w w' :
  no_object w → no_reads φs → φs !! i = Some φ → move φ w w' φ' → φ ≠ Reserved → no_object w'.
Proof.
  intros Ho Hn Hi Hm Hres l o Hlo. destruct (heap_origin _ _ _ _ _ _ Hm Hlo) as [(o' & Ho' & <- & _)|[_ Hnew]].
  - by eapply Ho.
  - destruct Hnew as [[-> _]|[(-> & _)|[_ ?]]]; [by eapply Hn|done|done].
Qed.

Lemma no_row_step φ w w' φ' :
  row w = None → move φ w w' φ' → no_object w → (∀ l, φ ≠ Made l) → row w' = None.
Proof.
  intros Hr Hm Ho Hnm. destruct (row w') as [m|] eqn:Hr'; [|done].
  destruct (row_origin _ _ _ _ _ Hm Hr') as [?|(l & o & s & Hlo & _ & [->|(-> & HX & _)])]; [congruence|by destruct (Hnm l)|by destruct (Ho _ _ Hlo)].
Qed.

Lemma loose_not_reserved φ : loose φ → φ ≠ Reserved ∧ ∀ l, φ ≠ Made l.
Proof. by destruct φ. Qed.

Lemma others_loose_insert φs i j φ' : others_loose φs j → loose φ' → others_loose (<[i := φ']> φs) j.
Proof. intros Ha Hl k ψ [[-> ->]|[_ Hk]]%insert_cases Hne; [done|by eapply Ha]. Qed.

Lemma others_loose_self φs j φ' : others_loose φs j → others_loose (<[j := φ']> φs) j.
Proof. intros Ha k ψ [[-> ->]|[_ Hk]]%insert_cases Hne; [done|by eapply Ha]. Qed.

Lemma others_loose_all φs j φ' : others_loose φs j → loose φ' → all_loose (<[j := φ']> φs).
Proof. intros Ha Hl k ψ [[-> ->]|[Hne Hk]]%insert_cases; [done|by eapply Ha]. Qed.

Lemma all_others φs j φ' : all_loose φs → others_loose (<[j := φ']> φs) j.
Proof. intros Ha k ψ [[-> ->]|[Hne Hk]]%insert_cases Hk'; [done|by eapply Ha]. Qed.

Lemma stage_unknown_step φs i φ φ' w w' :
  early w' → all_loose φs → row w = None → no_object w → no_reads φs →
  φs !! i = Some φ → guar φ w w' φ' → stage (<[i := φ']> φs) w'.
Proof.
  intros He Ha Hr Ho Hn Hi [Ht Hm]. specialize (Hm He). pose proof (Ha _ _ Hi) as Hl. destruct (loose_not_reserved _ Hl) as [Hres Hmade].
  pose proof (no_row_step _ _ _ _ Hr Hm Ho Hmade) as Hr'.
  pose proof (no_object_step _ _ _ _ _ _ Ho Hn Hi Hm Hres) as Ho'.
  pose proof (no_reads_insert _ _ _ _ _ _ Hn Hi Hm Hr) as Hn'.
  destruct (move_loose _ _ _ _ Hm Hl) as [Hl'|(-> & Hmt & Hlt)].
  - apply stage_unknown; [by apply all_loose_insert|done..].
  - apply (stage_reserved _ _ i); [apply list_lookup_insert_eq; by eapply lookup_lt_Some|by apply all_others| |done..].
    intros (t' & ? & Hmt'). unfold early in He. pose proof (mint_inj (w_tick w) t' ltac:(lia) ltac:(lia) Hmt Hmt'). lia.
Qed.

Lemma stage_reserved_step φs i j φ φ' w w' :
  early w' →
  φs !! j = Some Reserved → others_loose φs j → ¬ future w → row w = None → no_object w → no_reads φs →
  φs !! i = Some φ → guar φ w w' φ' → (∀ l, w_heap w !! l = None → ¬ in_cache l w ∧ ∀ k, φs !! k ≠ Some (Holds l)) →
  stage (<[i := φ']> φs) w'.
Proof.
  intros He Hj Ho Hf Hr Hno Hn Hi [Ht Hm] Hfresh. specialize (Hm He). assert (¬ future w') as Hf' by by intros ?%(future_later w).
  pose proof (no_reads_insert _ _ _ _ _ _ Hn Hi Hm Hr) as Hn'.
  destruct (decide (i = j)) as [->|Hne].
  - simplify_eq. inversion Hm as [φ0 w0 w1 Hh Hrow Hc| | | | |o l w0 w1 Hl Hh Hrow Hc HX| | | |]; simplify_eq;
      try (match goal with Hlo : loose _ |- _ => destruct Hlo end).
    + apply (stage_reserved _ _ j); [apply list_lookup_insert_eq; by eapply lookup_lt_Some|by apply others_loose_self|done| | |done].
      * destruct Hrow; congruence.
      * intros l o. rewrite Hh. apply Hno.
    + destruct (Hfresh l Hl) as [Hc' Hh'].
      apply (stage_made _ _ j l o); [apply list_lookup_insert_eq; by eapply lookup_lt_Some|by apply others_loose_self|done|congruence|done| |done| | |].
      * rewrite Hh. apply lookup_insert_eq.
      * intros l' o'. rewrite Hh. intros [[-> _]|[_ Hl']]%lookup_insert_Some HX'; [done|]. by destruct (Hno _ _ Hl').
      * intros Hin. by apply Hc', Hc.
      * intros k [[_ E']|[_ Hk]]%insert_cases; [done|by eapply Hh'].
  - pose proof (Ho _ _ Hi Hne) as Hl. pose proof (no_mint _ _ _ _ He Hf Hm Hl) as Hl'.
    destruct (loose_not_reserved _ Hl) as [Hres Hmade].
    apply (stage_reserved _ _ j); [by rewrite list_lookup_insert_ne|by apply others_loose_insert|done| | |done].
    + by eapply no_row_step.
    + exact (no_object_step φs i φ φ' w w' Hno Hn Hi Hm Hres).
Qed.

Lemma stage_made_step φs i j l o φ φ' w w' :
  early w' →
  φs !! j = Some (Made l) → others_loose φs j → ¬ future w → row w = None → no_reads φs →
  w_heap w !! l = Some o → img_id o = X →
  (∀ l' o', w_heap w !! l' = Some o' → img_id o' = X → l' = l) →
  ¬ in_cache l w → (∀ k, φs !! k ≠ Some (Holds l)) →
  φs !! i = Some φ → guar φ w w' φ' → stage (<[i := φ']> φs) w'.
Proof.
  intros He Hj Ho Hf Hr Hn Hlo HX Huniq Hc Hh Hi [Ht Hm]. specialize (Hm He). assert (¬ future w') as Hf' by by intros ?%(future_later w).
  pose proof (no_reads_insert _ _ _ _ _ _ Hn Hi Hm Hr) as Hn'.
  destruct (decide (i = j)) as [->|Hne].
  - simplify_eq. inversion Hm as [φ0 w0 w1 Hheap Hrow Hcache| | | | | | | | |l1 o1 s1 m1 w0 w1 Hlo1 [Hfix _] Hheap Hrow Hcache]; simplify_eq;
      try (match goal with Hlo : loose _ |- _ => destruct Hlo end).
    + apply (stage_made _ _ j l o); [apply list_lookup_insert_eq; by eapply lookup_lt_Some|by apply others_loose_self|done| |done|by rewrite Hheap|done| | |].
      * destruct Hrow; congruence.
      * intros l' o'. rewrite Hheap. apply Huniq.
      * intros Hin. by destruct (Hcache l Hin).
      * intros k [[_ Eq]|[_ Hk]]%insert_cases; [done|by eapply Hh].
    + apply (stage_known _ _ (fixed_part o)); [by apply others_loose_all|done|]. split_and!.
      * intros l' o'. rewrite Hheap. intros Hl' HX'. pose proof (Huniq _ _ Hl' HX') as ->. congruence.
      * intros m Hm'. destruct Hrow as [Hrow|Hrow]; [congruence|]. rewrite Hrow in Hm'. injection Hm' as <-.
        rewrite Hr in Hfix. by apply Hfix.
      * intros k o' Hk HX'. by destruct (Hn' k o' Hk).
  - pose proof (Ho _ _ Hi Hne) as Hl. pose proof (no_mint _ _ _ _ He Hf Hm Hl) as Hl'.
    destruct (loose_not_reserved _ Hl) as [Hres Hmade]. destruct (heap_grows _ _ _ _ _ _ Hm Hlo) as (o' & Hlo' & Hid & _).
    assert (φ ≠ Holds l) as Hnot by (intros ->; by destruct (Hh i)).
    apply (stage_made _ _ j l o'); [by rewrite list_lookup_insert_ne|by apply others_loose_insert|done| |done|done|congruence| | |].
    + destruct (row w') as [m|] eqn:Hr'; [|done].
      destruct (row_origin _ _ _ _ _ Hm Hr') as [?|(l1 & o1 & s1 & Hl1 & _ & [->|(-> & HX1 & _)])]; [congruence|by destruct (Hmade l1)|].
      by rewrite (Huniq _ _ Hl1 HX1) in Hnot.
    + intros l1 o1 Hl1 HX1. destruct (heap_origin _ _ _ _ _ _ Hm Hl1) as [(o2 & Ho2 & Hid2 & _)|[_ Hnew]].
      * apply (Huniq l1 o2); [done|congruence].
      * destruct Hnew as [[-> _]|[(-> & _)|[_ ?]]]; [by destruct (Hn i o1)|done|done].
    + intros Hin. by destruct (cache_origin _ _ _ _ _ Hm Hin).
    + intros k [[_ Eq]|[_ Hk]]%insert_cases; [|by eapply Hh].
      destruct (held_origin _ _ _ _ l Hm (eq_sym Eq)) as [?|[?|[? _]]]; [done|done|congruence].
Qed.

Lemma life_step φs i φ φ' w w' :
  early w' → life φs w → φs !! i = Some φ → guar φ w w' φ' → life (<[i := φ']> φs) w'.
Proof.
  intros He [Hex Hst] Hi Hg. split; [by eapply held_exist_step; [..|apply Hg]|].
  destruct Hst as [Ha Hr Ho Hn|j Hj Ho Hf Hr Hno Hn|j l o Hj Ho Hf Hr Hn Hlo HX Hu Hc Hh|a Ha Hf Hc].
  - by eapply stage_unknown_step.
  - eapply stage_reserved_step; [exact He|done..|]. intros l Hl.
    assert (∀ P : Prop, P → (P → is_Some (w_heap w !! l)) → False) as Habs
      by (intros P HP HPl; destruct (HPl HP); congruence).
    split; [intros Hin|intros k Hk]; eapply Habs; [exact Hin| |exact Hk|]; intros ?; apply Hex; eauto.
  - by eapply stage_made_step.
  - assert (known a false φs w) as Hk by by split_and!.
    destruct (known_step _ _ _ _ _ _ _ _ He Hk Hi Hg) as (_ & Ha' & Hf' & Hc' & _). by eapply stage_known.
Qed.

(** The invariants are claimed of the early states. *)
Definition whenever (P : list phase → world → Prop) (φs : list phase) (w : world) : Prop := early w → P φs w.

Lemma early_before φ w w' φ' : guar φ w w' φ' → early w' → early w.
Proof. unfold early. intros [Ht _]. lia. Qed.

Lemma life_sees φs i φ w : whenever life φs w → φs !! i = Some φ → sees φ w.
Proof.
  intros Hlife Hi. destruct φ as [|o|l| |l]; try done; intros He; destruct (Hlife He) as [Hex Hst].
  - apply Hex. left. by exists i.
  - destruct Hst as [Ha|j Hj Ho|j l' o Hj Ho _ _ _ Hlo|a Ha]; [by destruct (Ha _ _ Hi)|..|by destruct (Ha _ _ Hi)].
    + destruct (decide (i = j)) as [->|Hne]; [congruence|by destruct (Ho _ _ Hi Hne)].
    + destruct (decide (i = j)) as [->|Hne]; [|by destruct (Ho _ _ Hi Hne)]. rewrite Hi in Hj. injection Hj as ->. by exists o.
Qed.

Lemma known_sees a p φs i φ w : whenever (known a p) φs w → φs !! i = Some φ → sees φ w.
Proof.
  intros Hk Hi. destruct φ as [|o|l| |l]; try done; intros He; destruct (Hk He) as (Hex & Ha & _); [|by destruct (Ha _ _ Hi)].
  apply Hex. left. by exists i.
Qed.

(** A row of the image means it is known. *)
Lemma life_known φs w m :
  life φs w → row w = Some m → known (fixed_columns m) (negb (bool_decide (m_status m = status_value PENDING))) φs w.
Proof.
  intros [Hex Hst] Hr. destruct Hst as [? Hr'|? ? ? ? Hr'|? ? ? ? ? ? Hr'|a Ha Hf Hc]; try congruence.
  pose proof Hc as (Ho & Hrow & Hre). rewrite (Hrow m Hr). split_and!; [done..|].
  intros Hp m' Hm'. rewrite Hr in Hm'. injection Hm' as <-. by case_bool_decide.
Qed.

(** ** Tasks *)

Abbreviation stable := (Interleave.stable good sees guar).
Abbreviation safe := (Interleave.safe good sees guar).

(** From a phase and knowledge in [S] the task stays in [S]. *)
Definition stays {A} (S : phase → (world → Prop) → Prop) (p : coro A) : Prop :=
  ∀ φ κ, S φ κ → safe φ κ p (λ φ' κ' _, S φ' κ').

Section stays.
Context (S : phase → (world → Prop) → Prop).

Lemma life_done {A} (o : outcome A) : stays S (Done o).
Proof. intros φ κ HS. exact HS. Qed.

Lemma life_bind {A B} (p : coro A) (f : A → coro B) : stays S p → (∀ x, stays S (f x)) → stays S (p ≫= f).
Proof.
  intros Hp Hf φ κ HS. apply safe_bind. eapply safe_mono; [by apply Hp|]. intros φ' κ' [x|e] HS'; [by apply Hf|done].
Qed.

Lemma stays_try {A} (p : coro A) h : stays S p → (∀ e, stays S (h e)) → stays S (try_except p h).
Proof.
  intros Hp Hh φ κ HS. apply safe_try. eapply safe_mono; [by apply Hp|]. intros φ' κ' [x|e] HS'; [done|by apply Hh].
Qed.

Lemma stays_except_if {A} (c : exn → bool) (p : coro A) h :
  stays S p → (∀ e, stays S (h e)) → stays S (except_if c p h).
Proof. intros Hp Hh. apply stays_try; [done|]. intros e. destruct (c e); [apply Hh|apply life_done]. Qed.

Lemma stays_for_each {A} (l : list A) f : (∀ x, stays S (f x)) → stays S (for_each l f).
Proof. intros Hf. induction l; cbn [for_each]; [apply life_done|]. by apply life_bind. Qed.
End stays.

(** A task that neither takes nor gives up an object. *)
Definition still {A} (p : coro A) : Prop := ∀ φ κ, stable κ → stays (λ φ' κ', φ' = φ ∧ κ' = κ) p.

Lemma still_stays {A} (S : phase → (world → Prop) → Prop) (p : coro A) :
  (∀ φ κ, S φ κ → stable κ) → still p → stays S p.
Proof.
  intros HS Hp φ κ Hin. eapply safe_mono; [by apply (Hp φ κ (HS _ _ Hin))|]. by intros φ' κ' o [-> ->].
Qed.

Lemma still_bind {A B} (p : coro A) (f : A → coro B) : still p → (∀ x, still (f x)) → still (p ≫= f).
Proof. intros Hp Hf φ κ Hst. apply life_bind; [by apply Hp|]. intros x. by apply Hf. Qed.

Lemma still_ret {A} (o : outcome A) : still (Done o).
Proof. intros φ κ _. apply life_done. Qed.

(** ** Actions *)

Lemma guar_quiet φ w w' :
  (w_tick w ≤ w_tick w')%nat → w_heap w' = w_heap w → row w' = row w ∨ row w' = None → cache_sub w w' →
  guar φ w w' φ.
Proof. intros Ht Hh Hr Hc. split; [done|intros _]. apply move_quiet; [done..|]. intros l Hl. left. by apply Hc. Qed.

Lemma good_same w w' :
  good w → w_env w' = w_env w → world_ok w' → cache_ids w' → good w'.
Proof. intros [? ? ?] He Hok Hids. split; [congruence|done|done]. Qed.

Lemma life_guar_elsewhere φ w w' : elsewhere w w' → good w → good w' ∧ guar φ w w' φ.
Proof.
  intros [Hh Hd Hc He Ht] Hg. pose proof Hg as [_ Hok Hids].
  assert (row w' = row w ∨ row w' = None) as Hr by (left; unfold row; by rewrite Hd). split.
  - eapply good_same; [done..|by eapply world_ok_same|]. intros id e. rewrite Hc, Hh. apply Hids.
  - apply guar_quiet; [done..|]. intros l (id & e & Hin & He'). exists id, e. by rewrite <- Hc.
Qed.

Lemma still_silent {A} (p : coro A) : silent elsewhere p → still p.
Proof.
  intros Hp φ κ Hst ? ? [-> ->]. eapply safe_silent; [|done|exact Hp|done]. apply life_guar_elsewhere.
Qed.

Lemma life_safe_txn {A} op (f : world → outcome (A * db)) φ κ (Ψ : phase → (world → Prop) → outcome A → Prop) :
  (∀ w o d, good w → sees φ w → κ w → txn_result w op (f (tick w)) o d →
   ∃ φ' κ', good (set_db d (tick w)) ∧ guar φ w (set_db d (tick w)) φ' ∧ stable κ' ∧ κ' (set_db d (tick w)) ∧ Ψ φ' κ' o) →
  safe φ κ (txn op f) Ψ.
Proof. intros Hf. apply safe_act_wp. intros w Hg Hs Hk. apply wp_txn. intros o d. by apply Hf. Qed.

Lemma still_txn {A} op (f : world → outcome (A * db)) :
  (∀ w a d, f w = Ok (a, d) → (db_ok (w_db w) → db_ok d) ∧
     (db_images d !! X = db_images (w_db w) !! X ∨ db_images d !! X = None)) →
  still (txn op f).
Proof.
  intros Hf φ κ Hst ? ? [-> ->]. apply life_safe_txn. intros w o d Hg Hs Hk Ht.
  set (w' := set_db d (tick w)). pose proof Hg as [_ [Hdb Hc] Hids].
  assert (db_ok d ∧ (row w' = row w ∨ row w' = None)) as [Hd Hr].
  { destruct Ht as [a d Hr|e _|e _|e a d Hr _ _]; [|by auto..|]; (split; [by eapply Hf|]; by destruct (Hf _ _ _ Hr)). }
  assert (good w') as Hg' by by eapply good_same.
  assert (guar φ w w' φ) as Hgu by (apply guar_quiet; [cbn; lia|done|done|by intros l]).
  exists φ, κ. exact (conj Hg' (conj Hgu (conj Hst (conj (Hst _ _ _ _ Hg Hg' Hs Hgu Hk) (conj eq_refl eq_refl))))).
Qed.

(** Nothing but the cache and the clock. *)
Lemma good_cache n c w :
  good w → cache_ok c →
  (∀ id e, dict_get id (store_ c) = Some e →
     dict_get id (store_ (w_cache w)) = Some e ∨ ∃ i, w_heap w !! ce_image e = Some i ∧ img_id i = id) →
  let w' := Nat.iter n tick (set_cache c w) in
  good w' ∧ (w_tick w ≤ w_tick w')%nat ∧ w_heap w' = w_heap w ∧ row w' = row w ∧ w_cache w' = c ∧ w_db w' = w_db w.
Proof.
  intros Hg Hc Hsub. cbn zeta.
  assert (good (set_cache c w)) as Hg0.
  { pose proof Hg as [He Hok Hids]. destruct (service_ok_cache c w (conj Hok Hids) Hc Hsub) as [Hok' Hids'].
    by eapply good_same. }
  induction n as [|n (IHg & IHt & IHh & IHr & IHc & IHd)]; [by split_and!|]. cbn [Nat.iter].
  destruct (life_guar_elsewhere Idle _ _ (elsewhere_tick (Nat.iter n tick (set_cache c w))) IHg) as [Hg' _].
  split_and!; [done|by etrans; [exact IHt|apply Nat.le_succ_diag_r]|done..].
Qed.

Lemma still_cache_invalidate id : still (cache_invalidate_coro id).
Proof.
  intros φ κ Hst ? ? [-> ->] w Hg Hs Hk. pose proof (good_ok _ Hg) as [_ Hc].
  destruct (good_cache 0 (cache_invalidate id (w_cache w)) w Hg) as (Hg' & Ht & Hh & Hr & Hce & _).
  { by apply cache_invalidate_ok. }
  { intros id' e. rewrite cache_invalidate_get by apply Hc. case_decide; [done|by left]. }
  assert (guar φ w (set_cache (cache_invalidate id (w_cache w)) w) φ) as Hgu.
  { apply guar_quiet; [done|done|by left|]. intros l (id' & e & Hin & He). exists id', e. split; [|done].
    cbn [w_cache set_cache] in Hin. rewrite cache_invalidate_get in Hin by apply Hc. by case_decide. }
  exists φ, κ. exact (conj Hg' (conj Hgu (conj Hst (conj (Hst _ _ _ _ Hg Hg' Hs Hgu Hk) (conj eq_refl eq_refl))))).
Qed.

Lemma life_safe_cache_get id φ κ (Ψ : phase → (world → Prop) → outcome (option loc) → Prop) :
  loose φ → stable κ → Ψ φ κ (Ok None) → (∀ l, Ψ (Holds l) κ (Ok (Some l))) → safe φ κ (cache_get_coro id) Ψ.
Proof.
  intros Hl Hst HN HS w Hg Hs Hk. pose proof (good_ok _ Hg) as [_ Hc].
  cbn beta. set (now := e_mono (w_env w) (w_tick w)).
  destruct (cache_get_inv now id (w_cache w) (proj1 Hc)) as [Hhit Hsub].
  pose proof (cache_get_ok now id (w_cache w) Hc) as Hc'.
  destruct (cache_get now id (w_cache w)) as [r c] eqn:Eg. cbn [fst snd] in *.
  destruct (good_cache 1 c w Hg Hc') as (Hg' & Ht & Hh & Hr & Hce & _); [by eauto|].
  assert (cache_sub w (tick (set_cache c w))) as Hcs by (intros l (id' & e & Hin & He); exists id', e; auto).
  destruct r as [l|].
  - assert (guar φ w (tick (set_cache c w)) (Holds l)) as Hgu.
    { split; [done|intros _]. apply move_pick; [done..|]. destruct (Hhit l eq_refl) as (e & He & He'). by exists id, e. }
    exists (Holds l), κ. exact (conj Hg' (conj Hgu (conj Hst (conj (Hst _ _ _ _ Hg Hg' Hs Hgu Hk) (HS l))))).
  - assert (guar φ w (tick (set_cache c w)) φ) as Hgu by (apply guar_quiet; [done|done|by left|done]).
    exists φ, κ. exact (conj Hg' (conj Hgu (conj Hst (conj (Hst _ _ _ _ Hg Hg' Hs Hgu Hk) HN)))).
Qed.

Lemma life_safe_cache_set l κ (Ψ : phase → (world → Prop) → outcome unit → Prop) :
  stable κ → (∀ o, Ψ (Holds l) κ o) → safe (Holds l) κ (cache_set_coro l) Ψ.
Proof.
  intros Hst HΨ. apply safe_act. intros w Hg Hs Hk. destruct (w_heap w !! l) as [i|] eqn:Hl; cbn [fst snd].
  - pose proof (good_ok _ Hg) as [_ Hc]. set (c := cache_set _ _ _ _ _).
    assert (∀ id e, dict_get id (store_ c) = Some e → id = img_id i ∧ ce_image e = l ∨ dict_get id (store_ (w_cache w)) = Some e) as Hin.
    { intros id e He. apply cache_set_get_Some in He as [[-> ->]|[_ ?]]; [by left|by right|apply Hc]. }
    destruct (good_cache 2 c w Hg) as (Hg' & Ht & Hh & Hr & Hce & _).
    { by apply cache_set_ok. }
    { intros id e He. destruct (Hin id e He) as [[-> Hce]|?]; [right; rewrite Hce; by exists i|by left]. }
    assert (guar (Holds l) w (tick (tick (set_cache c w))) (Holds l)) as Hgu.
    { split; [done|intros _]. apply move_quiet; [done|by left|]. intros l' (id & e & He & Hl').
      destruct (Hin id e He) as [[_ E']|?]; [right; congruence|left; by exists id, e]. }
    exists (Holds l), κ. exact (conj Hg' (conj Hgu (conj Hst (conj (Hst _ _ _ _ Hg Hg' Hs Hgu Hk) (HΨ _))))).
  - assert (guar (Holds l) w w (Holds l)) as Hgu by (apply guar_quiet; [done|done|by left|by intros ?]).
    exists (Holds l), κ. exact (conj Hg (conj Hgu (conj Hst (conj Hk (HΨ _))))).
Qed.

(** *** The lookup *)

(** After a lookup: the task holds the object found. *)
Definition found (φ : phase) (κ : world → Prop) (o : outcome (option loc)) : Prop :=
  stable κ ∧ match o with Ok (Some l) => φ = Holds l | _ => loose φ end.

Lemma safe_get_txn id φ κ (Ψ : phase → (world → Prop) → outcome (option ImageModel) → Prop) :
  loose φ → stable κ →
  (∀ o, (∀ m, o ≠ Ok (Some m)) → Ψ φ κ o) →
  (∀ m,
     match model_to_entity m with Ok i => Ψ (Reads i) κ (Ok (Some m)) | Exn _ => Ψ φ κ (Ok (Some m)) end) →
  safe φ κ (db_txn OpGet (get_txn id)) Ψ.
Proof.
  intros Hl Hst HN HS. apply life_safe_txn. intros w o d Hg Hs Hk Ht. change (w_db (tick w)) with (w_db w) in Ht.
  assert (d = w_db w ∧ ∀ m, o = Ok (Some m) → db_images (w_db w) !! id = Some m) as [-> Ho].
  { destruct Ht as [a d [= <- <-]|e _|e _|e a d [= _ <-] _ _]; split; try done. intros m [= Hm]. done. }
  destruct (life_guar_elsewhere φ _ _ (elsewhere_tick w) Hg) as [Hg' Hgu].
  change (set_db (w_db w) (tick w)) with (tick w).
  pose proof (Hst _ _ _ _ Hg Hg' Hs Hgu Hk) as Hk'.
  assert ((∀ m, o ≠ Ok (Some m)) ∨ ∃ m, o = Ok (Some m)) as [Hno|[m ->]]
    by (destruct o as [[m|]|e]; [right; by exists m|by left..]).
  { exists φ, κ. exact (conj Hg' (conj Hgu (conj Hst (conj Hk' (HN o Hno))))). }
  specialize (Ho m eq_refl). pose proof Hg as [_ [Hdb _] _].
  assert (Hid := db_row_id _ _ _ Hdb Ho). assert (m_id m = X → row w = Some m) as HX by (intros E'; unfold row; congruence).
  specialize (HS m).
  destruct (model_to_entity m) as [i|e] eqn:Em; [|exists φ, κ; exact (conj Hg' (conj Hgu (conj Hst (conj Hk' HS))))].
  assert (guar φ w (tick w) (Reads i)) as Hread.
  { split; [apply Hgu|intros _]. apply move_read; [done|done|done|by intros l|]. intros E'. exists m. split.
    - apply HX. rewrite <- E'. symmetry. by apply model_to_entity_id.
    - symmetry. by apply model_to_entity_fixed. }
  exists (Reads i), κ. exact (conj Hg' (conj Hread (conj Hst (conj (Hst _ _ _ _ Hg Hg' Hs Hread Hk) HS)))).
Qed.

Lemma good_heap h w :
  good w → (∀ l i, w_heap w !! l = Some i → ∃ i', h !! l = Some i' ∧ img_id i' = img_id i) →
  good (set_heap h w).
Proof.
  intros [He Hok Hids] Hsub. split; try done. intros id e Hin. destruct (Hids id e Hin) as (i & Hi & <-). by apply Hsub.
Qed.

Lemma good_alloc l i w :
  good w → w_heap w !! l = None → good (set_heap (<[l := i]> (w_heap w)) w).
Proof.
  intros Hg Hl. apply good_heap; [done|].
  intros l' i' Hl'. exists i'. split; [|done]. rewrite lookup_insert_ne; [done|congruence].
Qed.

(** Making an object: the phase and the knowledge after it depend on it. *)
Lemma life_safe_alloc i φ φ' κ κ' (Ψ : phase → (world → Prop) → outcome loc → Prop) :
  stable κ → (∀ l, stable (κ' l)) → (∀ l w, κ w → w_heap w !! l = Some i → κ' l w) →
  (∀ l w w', w_heap w !! l = None → w_heap w' = <[l := i]> (w_heap w) → row w' = row w → cache_sub w w' →
             move φ w w' (φ' l)) →
  (∀ l, Ψ (φ' l) (κ' l) (Ok l)) → safe φ κ (alloc i) Ψ.
Proof.
  intros Hst Hst' Hk' Hm HΨ w Hg Hs Hk. set (l := fresh (dom (w_heap w))).
  assert (w_heap w !! l = None) as Hl by apply not_elem_of_dom, is_fresh.
  pose proof (good_alloc l i w Hg Hl) as Hg'.
  assert (guar φ w (set_heap (<[l := i]> (w_heap w)) w) (φ' l)) as Hgu by (split; [done|intros _; apply Hm; [done|done|done|by intros ?]]).
  exists (φ' l), (κ' l). refine (conj Hg' (conj Hgu (conj (Hst' l) (conj _ (HΨ l))))).
  apply Hk'; [exact (Hst _ _ _ _ Hg Hg' Hs Hgu Hk)|apply lookup_insert_eq].
Qed.

Lemma life_safe_get id φ κ : loose φ → stable κ → safe φ κ (repo_get_by_id deployed id) found.
Proof.
  intros Hl Hst. assert (∀ e, found φ κ (Exn e)) as HE by by intros e.
  apply safe_bind, life_safe_cache_get; [done|done| |by intros l; apply safe_ret].
  apply safe_bind, safe_bind, safe_get_txn; [done|done| |].
  - intros [[m|]|e] Hno; [by destruct (Hno m)| |apply HE]. by apply safe_ret, safe_ret.
  - intros m. destruct (model_to_entity m) as [i|e] eqn:Em; [|apply HE].
    apply safe_bind, safe_done, safe_bind, (life_safe_alloc i _ Holds κ (λ _, κ)); [done..|by intros; apply move_alloc|].
    intros l. apply safe_ret, safe_bind, life_safe_cache_set; [done|]. intros [[]|e]; [by apply safe_ret|done].
Qed.

(** *** Changing and saving an object *)

Definition not_pending (l : loc) (w : world) : Prop := early w → ∃ i, w_heap w !! l = Some i ∧ img_status i ≠ PENDING.
Definition another (l : loc) (w : world) : Prop := early w → ∃ i, w_heap w !! l = Some i ∧ img_id i ≠ X.

Lemma not_pending_stable l : stable (not_pending l).
Proof.
  intros φ φ' w w' _ _ _ Hg Hk He. destruct (Hk (early_before _ _ _ _ Hg He)) as (i & Hi & Hp).
  destruct (heap_grows _ _ _ _ _ _ (proj2 Hg He) Hi) as (i' & ? & _ & _ & ?).
  exists i'. auto.
Qed.

Lemma another_stable l : stable (another l).
Proof.
  intros φ φ' w w' _ _ _ Hg Hk He. destruct (Hk (early_before _ _ _ _ Hg He)) as (i & Hi & Hp).
  destruct (heap_grows _ _ _ _ _ _ (proj2 Hg He) Hi) as (i' & ? & ? & _).
  exists i'. split; [done|congruence].
Qed.

Lemma safe_mutate l f κ (Ψ : phase → (world → Prop) → outcome unit → Prop) :
  updates f → stable κ →
  Ψ (Holds l) (not_pending l) (Ok tt) → safe (Holds l) κ (mutate l f) Ψ.
Proof.
  intros Hf Hst HΨ w Hg Hs Hk.
  assert (good (set_heap (alter f l (w_heap w)) w)) as Hg'.
  { apply good_heap; [done|]. intros l' i' Hl'. destruct (decide (l = l')) as [<-|Hne].
    - exists (f i'). rewrite lookup_alter_eq, Hl'. split; [done|apply Hf].
    - exists i'. by rewrite lookup_alter_ne. }
  assert (guar (Holds l) w (set_heap (alter f l (w_heap w)) w) (Holds l)) as Hgu
    by (split; [done|intros _; eapply move_mutate; [exact Hf|done|done|by intros ?]]).
  exists (Holds l), (not_pending l). refine (conj Hg' (conj Hgu (conj (not_pending_stable l) (conj _ HΨ)))).
  intros He. destruct (Hs He) as [i Hi]. exists (f i). split; [cbn; by rewrite lookup_alter_eq, Hi|apply Hf].
Qed.

(** What a task knows of a copy [i] it took of the object at [l]. *)
Definition snapshot (P : Image → Prop) (l : loc) (i : Image) (w : world) : Prop :=
  early w → P i ∧ ∃ o, w_heap w !! l = Some o ∧ img_id o = img_id i ∧ fixed_part o = fixed_part i.

Lemma snapshot_stable P l i : stable (snapshot P l i).
Proof.
  intros φ φ' w w' _ _ _ Hg Hk He. destruct (Hk (early_before _ _ _ _ Hg He)) as (HP & o & Ho & Hid & Hfix).
  destruct (heap_grows _ _ _ _ _ _ (proj2 Hg He) Ho) as (o' & Ho' & Hid' & Hfix' & _).
  split; [done|]. exists o'. split_and!; [done|congruence..].
Qed.

(** A dangling reference would raise, and leave the task in [φ']. *)
Lemma life_safe_deref P l φ φ' κ (Ψ : phase → (world → Prop) → outcome Image → Prop) :
  stable κ → (∀ w, early w → sees φ w → κ w → ∃ o, w_heap w !! l = Some o ∧ P o) →
  (∀ i, Ψ φ (λ w, κ w ∧ snapshot P l i w) (Ok i)) → (∀ e, Ψ φ' κ (Exn e)) → safe φ κ (deref l) Ψ.
Proof.
  intros Hst Hl HΨ HE. apply safe_act. intros w Hg Hs Hk. destruct (w_heap w !! l) as [i|] eqn:Hi; cbn [or_raise fst snd].
  - assert (guar φ w w φ) as Hgu by (apply guar_quiet; [done|done|by left|by intros ?]).
    exists φ, (λ w, κ w ∧ snapshot P l i w). refine (conj Hg (conj Hgu (conj _ (conj (conj Hk _) (HΨ i))))).
    + apply stable_and; [done|apply snapshot_stable].
    + intros He. destruct (Hl w He Hs Hk) as (o & Ho & HP). assert (o = i) as -> by congruence. eauto.
  - exists φ', κ. refine (conj Hg (conj (conj (Nat.le_refl _) _) (conj Hst (conj Hk (HE _))))).
    intros He. destruct (Hl w He Hs Hk) as (o & Ho & _). congruence.
Qed.

(** A save: the phase after it depends on the one before; its move is that of
    the flush, of what the object was just before. *)
Lemma life_safe_save (P : Image → Prop) l φ φ' κ :
  stable κ → (∀ w, early w → sees φ w → κ w → ∃ o, w_heap w !! l = Some o ∧ P o) →
  (∀ w w' o s, early w → κ w → w_heap w !! l = Some o → w_heap w' = w_heap w → cache_sub w w' →
     row w' = row w ∨
     (∃ i, P i ∧ img_status i = s ∧ img_id i = img_id o) ∧ img_id o = X ∧
       (∃ m, row w' = Some m ∧ saved_as (fixed_part o) s (row w) m) →
     move φ w w' φ') →
  safe φ κ (repo_save deployed l) (λ φ'' κ' _, φ'' = φ' ∧ κ' = κ).
Proof.
  intros Hst Hl Hm. assert (still (i ← deref l; cache_invalidate_coro (img_id i);; mret l)) as Hrest.
  { apply still_bind; [apply still_silent; auto with elsewhere|]. intros i.
    apply still_bind; [apply still_cache_invalidate|]. intros _. apply still_ret. }
  apply safe_bind, safe_bind, (life_safe_deref P l φ φ'); [done..| |done]. intros i0.
  apply safe_bind, life_safe_txn. intros w o d Hg Hs [Hk _] Ht. change (w_db (tick w)) with (w_db w) in Ht.
  assert (d = w_db w) as -> by (unfold get_txn in Ht; inversion Ht; by simplify_eq). change (set_db (w_db w) (tick w)) with (tick w).
  destruct (life_guar_elsewhere φ _ _ (elsewhere_tick w) Hg) as [Hg' Hgu].
  assert (guar φ w (tick w) φ') as Hgu'.
  { split; [apply Hgu|]. intros He. pose proof (early_before _ _ _ _ Hgu He) as He0.
    destruct (Hl w He0 Hs Hk) as (o' & Ho' & _). eapply (Hm w _ o' PENDING); [done..|by intros ?|by left]. }
  destruct o as [model|e];
    [|exists φ', κ; exact (conj Hg' (conj Hgu' (conj Hst (conj (Hst _ _ _ _ Hg Hg' Hs Hgu' Hk) (conj eq_refl eq_refl)))))].
  exists φ, κ. refine (conj Hg' (conj Hgu (conj Hst (conj (Hst _ _ _ _ Hg Hg' Hs Hgu Hk) _)))).
  clear w Hg Hs Hk Ht Hg' Hgu Hgu'.
  apply safe_bind, (life_safe_deref P l φ φ'); [done..| |done]. intros i.
  apply safe_bind, life_safe_txn. intros w o d Hg Hs [Hk Hsnap] Ht. change (w_db (tick w)) with (w_db w) in Ht.
  pose proof Hg as [HE [Hdb Hc] Hids].
  assert (db_ok d ∧ (row (set_db d (tick w)) = row w ∨ img_id i = X ∧ ∃ m, row (set_db d (tick w)) = Some m ∧
            saved_as (fixed_part i) (img_status i) (row w) m)) as [Hd Hrow].
  { destruct Ht as [[] d E0|e _|e _|e [] d E0 _ _]; [|by auto..|];
      (split; [by eapply flush_txn_ok|by eapply flush_effect]). }
  assert (good (set_db d (tick w))) as Hg' by by eapply good_same.
  assert (guar φ w (set_db d (tick w)) φ') as Hgu.
  { assert (w_tick w ≤ w_tick (set_db d (tick w)))%nat as Ht' by (cbn; lia). split; [exact Ht'|]. intros He.
    assert (early w) as He0 by (unfold early in *; lia). destruct (Hsnap He0) as (HP & o' & Ho' & Hid & Hfix).
    apply (Hm w _ o' (img_status i)); [done..|by intros ?|]. destruct Hrow as [?|[HX Hrow]]; [by left|right].
    split; [by exists i|]. split; [congruence|]. by rewrite Hfix. }
  exists φ', κ. refine (conj Hg' (conj Hgu (conj Hst (conj (Hst _ _ _ _ Hg Hg' Hs Hgu Hk) _)))).
  destruct o as [[]|e]; [|done]. apply safe_ret. by apply (Hrest φ' κ Hst).
Qed.

(** The object of a processing run: shared, and not pending. *)
Definition active (l : loc) (φ : phase) (κ : world → Prop) : Prop := φ = Holds l ∧ κ = not_pending l.

Lemma active_save l : stays (active l) (repo_save deployed l).
Proof.
  intros φ κ [-> ->]. apply (life_safe_save (λ i, img_status i ≠ PENDING));
    [apply not_pending_stable|by intros w He _ Hnp; apply Hnp|].
  intros w w' o s He Hnp Ho Hh Hc [Hr|((i & Hp & <- & _) & HX & m & Hr & Hsaved)].
  - apply move_quiet; [done|by left|]. intros l' Hl'. left. by apply Hc.
  - by eapply move_save.
Qed.

Lemma updates_processing now : updates (mark_processing now).
Proof. by intros i. Qed.
Lemma updates_completed now p md : updates (mark_completed now p md).
Proof. by intros i. Qed.
Lemma updates_failed now : updates (mark_failed now).
Proof. by intros i. Qed.

(** *** Calm tasks: they may hold a shared object, and know nothing *)

Definition calm (φ : phase) (κ : world → Prop) : Prop := loose φ ∧ stable κ.

Lemma calm_get id : stays calm (repo_get_by_id deployed id).
Proof.
  intros φ κ [Hl Hst]. eapply safe_mono; [by apply life_safe_get|]. intros φ' κ' o [Hst' Ho]. split; [|done].
  by destruct o as [[l|]|e]; [subst φ'|..].
Qed.

Lemma still_read {A} op (f : world → outcome (A * db)) :
  (∀ w a d', f w = Ok (a, d') → d' = w_db w) → still (txn op f).
Proof. intros Hf. apply still_txn. intros w a d Ef. rewrite (Hf _ _ _ Ef). auto. Qed.

Lemma still_keys {A} op (f : db → outcome (A * db)) :
  (∀ d a d', f d = Ok (a, d') → (db_ok d → db_ok d') ∧ db_images d' = db_images d) → still (db_txn op f).
Proof. intros Hf. apply still_txn. intros w a d Ef. destruct (Hf _ _ _ Ef) as [? ->]. auto. Qed.

(** *** A new image *)

Definition made (φ : phase) (κ : world → Prop) (o : outcome loc) : Prop :=
  match o with
  | Ok l => φ = Made l ∧ stable κ ∨ loose φ ∧ κ = another l
  | Exn _ => calm φ κ
  end.

Lemma life_safe_uuid {B} (f : Z → coro B) φ κ Ψ :
  loose φ → stable κ → safe Reserved κ (f X) Ψ → (∀ u, u ≠ X → safe φ κ (f u) Ψ) → safe φ κ (uuid4 ≫= f) Ψ.
Proof.
  intros Hl Hst HX Hne w Hg Hs Hk. destruct (life_guar_elsewhere φ _ _ (elsewhere_tick w) Hg) as [Hg' Hgu].
  rewrite (good_env _ Hg). destruct (decide (mint (w_tick w) = X)) as [Heq|Hneq].
  - assert (guar φ w (tick w) Reserved) as Hgr
      by (split; [apply Hgu|intros _]; apply move_mint; [done..|by intros ?|done|apply Nat.lt_succ_diag_r]).
    exists Reserved, κ. unfold mint in Heq. rewrite Heq.
    exact (conj Hg' (conj Hgr (conj Hst (conj (Hst _ _ _ _ Hg Hg' Hs Hgr Hk) HX)))).
  - exists φ, κ. exact (conj Hg' (conj Hgu (conj Hst (conj (Hst _ _ _ _ Hg Hg' Hs Hgu Hk) (Hne _ Hneq))))).
Qed.

Lemma life_safe_now {B} (f : Z → coro B) φ κ Ψ : stable κ → (∀ t, safe φ κ (f t) Ψ) → safe φ κ (read_now ≫= f) Ψ.
Proof.
  intros Hst Hf w Hg Hs Hk. destruct (life_guar_elsewhere φ _ _ (elsewhere_tick w) Hg) as [Hg' Hgu].
  exists φ, κ. exact (conj Hg' (conj Hgu (conj Hst (conj (Hst _ _ _ _ Hg Hg' Hs Hgu Hk) (Hf _))))).
Qed.

Lemma life_safe_new_image filename path tags expires_at φ κ :
  loose φ → stable κ → safe φ κ (new_image filename path tags expires_at) made.
Proof.
  intros Hl Hst. apply life_safe_uuid; [done..| |].
  - apply life_safe_now; [done|]. intros t1. apply life_safe_now; [done|]. intros t2.
    apply (life_safe_alloc _ _ Made κ (λ _, κ)); [done..|intros; eapply move_make; eauto|]. intros l. left. done.
  - intros u Hu. apply life_safe_now; [done|]. intros t1. apply life_safe_now; [done|]. intros t2.
    apply (life_safe_alloc _ _ (λ _, φ) κ another); [done|apply another_stable|intros l w _ Hlo _; by eexists|intros; eapply move_other; eauto|].
    intros l. by right.
Qed.

Lemma made_save l φ κ : made φ κ (Ok l) → safe φ κ (repo_save deployed l) (λ φ' κ' _, calm φ' κ').
Proof.
  intros [[-> Hst]|[Hl ->]].
  - eapply safe_mono; [apply (life_safe_save (λ _, True) l _ Idle); [done| |]|by intros φ' κ' o [-> ->]].
    { intros w He Hs _. destruct (Hs He) as [o Ho]. eauto. }
    intros w w' o s _ _ Ho Hh Hc [Hr|(_ & _ & m & Hr & Hsaved)].
    + eapply (move_own l o (img_status o) (entity_to_model o (new_image_model X))); [done| |done|by left|done].
      split; [done|by left].
    + eapply (move_own l o s m); [done|done|done|by right|done].
  - eapply safe_mono; [apply (life_safe_save (λ _, True) l φ φ)|by intros φ' κ' o [-> ->]; split; [done|apply another_stable]].
    + apply another_stable.
    + intros w He _ Hk. destruct (Hk He) as (i & Hi & _). by exists i.
    + intros w w' i s He Hk Hi Hh Hc [Hr|(_ & HX & _)]; [|destruct (Hk He) as (i' & Hi' & Hne); congruence].
      apply move_quiet; [done|by left|]. intros l' Hl'. left. by apply Hc.
Qed.

(** *** The other operations *)

Lemma still_now : still read_now.
Proof. apply still_silent; auto with elsewhere. Qed.
Lemma still_mono : still read_mono.
Proof. apply still_silent; auto with elsewhere. Qed.
Lemma still_observe o : still (observe o).
Proof. apply still_silent; auto with elsewhere. Qed.
Lemma still_deref l : still (deref l).
Proof. apply still_silent; auto with elsewhere. Qed.

Lemma still_list offset limit status : still (repo_list_images deployed offset limit status).
Proof.
  apply still_read. intros w a d'. apply (to_entities_same (list_txn (w_tick w) offset limit status)).
  clear. intros d r d'. unfold list_txn. destruct (sql_window _ _ _); [|done]. by intros [= _ <-].
Qed.

Lemma still_count status : still (repo_count deployed status).
Proof. apply still_read. by intros w a d' [= _ <-]. Qed.

Lemma still_delete id : still (repo_delete deployed id).
Proof.
  apply still_bind; [apply still_cache_invalidate|]. intros [].
  apply still_txn. intros w a d E0. split; [by eapply delete_txn_ok|]. injection E0 as _ <-. cbn.
  destruct (decide (id = X)) as [->|Hne]; [right; apply lookup_delete_eq|left; by apply lookup_delete_ne].
Qed.

Lemma still_for_each {A} (l : list A) f : (∀ x, still (f x)) → still (for_each l f).
Proof. intros Hf φ κ Hst. apply stays_for_each. intros x. by apply Hf. Qed.

Lemma still_sweep n : still (repo_delete_expired_batch deployed n).
Proof.
  apply still_bind; [|intros es; apply still_bind; [apply still_for_each; intros i; apply still_cache_invalidate|intros; apply still_ret]].
  apply still_bind; [apply still_now|]. intros now. apply still_txn.
  intros w es d (models & E0 & _)%to_entities_Ok. split; [by eapply sweep_txn_ok|].
  unfold sweep_txn in E0. destruct (sql_window _ _ _) as [rows|]; [|done]. cbn in E0. injection E0 as _ <-.
  case_bool_decide; [by left|]. cbn. destruct (db_images (w_db w) !! X) as [m|] eqn:Em; cycle 1.
  - left. apply map_lookup_filter_None. by left.
  - destruct (decide (X ∈ m_id <$> rows)) as [Hin|Hnin].
    + right. apply map_lookup_filter_None. right. intros x _ Hx. by apply Hx.
    + left. apply map_lookup_filter_Some. by split.
Qed.

Lemma still_get_idem scope key : still (repo_get_idem deployed scope key).
Proof. apply still_read. intros w a d'. apply key_get_same. Qed.

Lemma still_create_idem scope key h u : still (repo_create_idem deployed scope key h u).
Proof.
  apply still_bind; [apply still_now|]. intros t1. apply still_bind; [apply still_now|]. intros t2.
  apply still_keys. intros d a d' E0. split; [by eapply key_create_txn_ok|].
  unfold key_create_txn in E0. case_match; [|done]. case_match; by injection E0 as _ <-.
Qed.

Lemma still_complete_idem scope key u : still (repo_complete_idem deployed scope key u).
Proof.
  apply still_bind; [apply still_read; by intros w a d' [= _ <-]|]. intros [k|]; [|apply still_ret].
  apply still_bind; [apply still_now|]. intros t. apply still_keys. intros d a d' E0.
  split; [by eapply key_flush_txn_ok|]. by eapply key_flush_txn_images.
Qed.

Lemma still_delete_idem scope key : still (repo_delete_idem deployed scope key).
Proof. apply still_keys. intros d a d' E0. split; [by eapply key_delete_txn_ok|]. by injection E0 as _ <-. Qed.

Create HintDb still discriminated.
#[local] Hint Resolve still_now still_mono still_observe still_deref still_list still_count still_delete still_sweep
  still_get_idem still_create_idem still_complete_idem still_delete_idem : still.

(** An object held, with any knowledge. *)
Definition holding (l : loc) (φ : phase) (κ : world → Prop) : Prop := φ = Holds l ∧ stable κ.

Lemma holding_update l f {B} (k : loc → coro B) :
  updates f → (∀ x, stays (holding l) (k x)) →
  stays (holding l) (mutate l f;; x ← repo_save deployed l; k x).
Proof.
  intros Hf Hk φ κ [-> Hst]. apply safe_bind, safe_mutate; [done..|]. apply safe_bind.
  eapply safe_mono; [by apply (active_save l)|]. intros φ' κ' [x|e] [-> ->]; [apply Hk|];
    (split; [done|apply not_pending_stable]).
Qed.

Lemma calm_still {A} (p : coro A) : still p → stays calm p.
Proof. apply still_stays. by intros φ κ []. Qed.

Lemma holding_still {A} l (p : coro A) : still p → stays (holding l) p.
Proof. apply still_stays. by intros φ κ []. Qed.

(** ** The use cases *)

Context (storage : ImageStorage) (processor : ImageProcessor) (broker : MessageBroker).
Context (adapters : adapters_elsewhere storage processor broker).

Create HintDb calm discriminated.
#[local] Hint Extern 2 (still (st_store _ _ _)) => apply still_silent, (ae_store _ _ _ adapters) : still.
#[local] Hint Extern 2 (still (st_retrieve _ _)) => apply still_silent, (ae_retrieve _ _ _ adapters) : still.
#[local] Hint Extern 2 (still (st_delete _ _)) => apply still_silent, (ae_delete _ _ _ adapters) : still.
#[local] Hint Extern 2 (still (proc_thumbnail _ _)) => apply still_silent, (ae_thumbnail _ _ _ adapters) : still.
#[local] Hint Extern 2 (still (br_publish _ _)) => apply still_silent, (ae_publish _ _ _ adapters) : still.
#[local] Hint Extern 2 (still (br_consume _ _)) => apply still_silent, (ae_consume _ _ _ adapters) : still.
#[local] Hint Resolve updates_processing updates_completed updates_failed : still.
#[local] Hint Resolve calm_get : calm.

(** Follow the code: every bind, handler and branch, then its actions. *)
Ltac stay_step :=
  lazymatch goal with
  | |- stays (holding _) (mutate _ _ ≫= _) => apply holding_update; [auto 2 with still nocore|intros ?]
  | |- stays _ (_ ≫= _) => apply life_bind; [|intros ?]
  | |- stays _ (except_if _ _ _) => apply stays_except_if; [|intros ?]
  | |- stays _ (for_each _ _) => apply stays_for_each; intros ?
  | |- stays _ (match _ with _ => _ end) => case_match
  | |- stays _ (mret _) => apply life_done
  | |- stays _ (raise _) => apply life_done
  | |- stays _ (lift _) => apply life_done
  | |- stays calm _ => solve [auto 2 with calm nocore|apply calm_still; auto 2 with still nocore]
  | |- stays (holding _) _ => apply holding_still; solve [auto 2 with still nocore]
  | |- _ => intros ?
  end.
Ltac stay := repeat stay_step.

Lemma holding_failure {A} l key p e : stays (holding l) (ProcessImage.on_failure (A := A) deployed storage l key p e).
Proof. unfold ProcessImage.on_failure, ProcessImage.release_key. stay. Qed.

Lemma holding_process l image_id key :
  stays (holding l) (
      _ ← read_mono;
      '(result, thumb_path) ←
        except_if is_exception (ProcessImage.make_thumbnail deployed storage processor l)
          (ProcessImage.on_failure deployed storage l key None);
      except_if is_exception (ProcessImage.finish deployed l result thumb_path)
        (ProcessImage.on_failure deployed storage l key (Some thumb_path));;
      match key with
      | None => mret tt
      | Some key => repo_complete_idem deployed PROCESS_SCOPE key image_id
      end;;
      mret true).
Proof.
  unfold ProcessImage.make_thumbnail, ProcessImage.finish, ProcessImage.record_duration.
  stay; apply holding_failure.
Qed.

Lemma calm_process id key : stays calm (ProcessImage.execute deployed storage processor id key).
Proof.
  unfold ProcessImage.execute. apply life_bind.
  { unfold ProcessImage.claim, ProcessImage.load_idempotent_replay. stay. }
  intros [b|]; [apply life_done|]. intros φ κ [Hl Hst]. apply safe_bind.
  eapply safe_mono; [by apply life_safe_get|]. intros φ' κ' [[l|]|e] [Hst' Hφ]; [| |done].
  - subst φ'. eapply safe_mono; [by apply (holding_process l id key)|]. by intros φ' κ'' o [-> ?].
  - assert (stays calm (ProcessImage.release_key deployed key;; mret false)) as Hrel
      by (unfold ProcessImage.release_key; stay). by apply Hrel.
Qed.

Lemma calm_upload fn data tags ttl key :
  stays calm (UploadImage.execute deployed storage (Some broker) fn data tags ttl key).
Proof.
  unfold UploadImage.execute. apply life_bind.
  { unfold UploadImage.claim, UploadImage.load_idempotent_replay. stay. }
  intros [r|]; [apply life_done|]. apply stays_except_if; [|intros e; stay].
  unfold UploadImage.upload. apply life_bind; [stay|]. intros p. apply life_bind; [stay|]. intros x φ κ [Hl Hst].
  apply safe_bind. eapply safe_mono; [by apply life_safe_new_image|]. intros φ' κ' [l|e] Hm; [|done].
  apply safe_bind. eapply safe_mono; [by apply made_save|]. intros φ2 κ2 [l'|e] Hc; [|done].
  revert φ2 κ2 Hc. change (stays calm (UploadImage.record_upload;;
    s ← deref l'; UploadImage.publish_task (Some broker) (img_id s);;
    match key with None => mret tt | Some key => repo_complete_idem deployed UPLOAD_SCOPE key (img_id s) end;;
    i ← deref l'; mret (to_response i))).
  unfold UploadImage.publish_task, UploadImage.record_upload, UploadImage.record_publish, UploadImage.record_publish_error.
  stay.
Qed.

#[local] Hint Resolve calm_process : calm.

Lemma calm_round process cfg :
  (∀ id, stays calm (process id)) → stays calm (ConsumeProcessingTasks.execute_once broker process cfg).
Proof.
  intros Hp. unfold ConsumeProcessingTasks.execute_once, ConsumeProcessingTasks.handle,
    ConsumeProcessingTasks.handle_retry_or_dlq, ConsumeProcessingTasks.publish_retry_message,
    ConsumeProcessingTasks.retry_delay,
    ConsumeProcessingTasks.publish_dead_letter_message, ConsumeProcessingTasks.record_consumed,
    ConsumeProcessingTasks.record_consume_error, ConsumeProcessingTasks.record_processing_duration,
    ConsumeProcessingTasks.record_retried, ConsumeProcessingTasks.record_dead_letter. stay.
Qed.

Lemma calm_rounds process cfg n :
  (∀ id, stays calm (process id)) → stays calm (ConsumeProcessingTasks.rounds broker process cfg n).
Proof.
  intros Hp. induction n as [|n IH]; cbn [ConsumeProcessingTasks.rounds]; [apply life_done|].
  apply life_bind; [by apply calm_round|]. intros b. apply life_bind; [done|intros; apply life_done].
Qed.

Lemma calm_clean_up images errors : stays calm (ApplyRetention.clean_up storage images errors).
Proof.
  revert errors. induction images as [|i images IH]; intros errors; cbn [ApplyRetention.clean_up]; [apply life_done|].
  unfold ApplyRetention.delete_files. apply life_bind; [stay|intros; apply IH].
Qed.

#[local] Hint Resolve calm_clean_up : calm.

Lemma calm_call c : stays calm (run_call storage processor broker c).
Proof.
  destruct c as [fn data tags ttl key|id key|id|id thumbnail|offset limit status|id|n|cfg n];
    cbn [run_call]; (apply life_bind; [|intros; apply life_done]).
  - apply calm_upload.
  - apply calm_process.
  - unfold GetImage.execute. stay.
  - unfold GetImage.get_file. stay.
  - unfold ListImages.execute. stay.
  - stay.
  - unfold ApplyRetention.execute. stay.
  - apply calm_rounds. intros id. apply calm_process.
Qed.
End logic.
End Life.

(** ** The theorem *)

(** The service as it starts: no object yet, well-formed rows, and a source of
    UUIDs whose draws before the tick [n] are all different and not the id of a
    row. *)
Record starting (n : nat) (w : world) : Prop := MkStarting {
  start_world_ok : world_ok w;
  start_no_objects : w_heap w = ∅;
  start_no_cache : cache_ids w;
  start_fresh_ids t : (t < n)%nat → db_images (w_db w) !! (e_uuid (w_env w) t mod 2 ^ 128) = None;
  start_once t t' : (t < n)%nat → (t' < n)%nat → e_uuid (w_env w) t mod 2 ^ 128 = e_uuid (w_env w) t' mod 2 ^ 128 → t = t'
}.

(** From the row [m] of an image to a later one. *)
Record evolves (m m' : ImageModel) : Prop := MkEvolves {
  evolves_fixed : fixed_columns m' = fixed_columns m;
  evolves_status : m_status m ≠ status_value PENDING → m_status m' ≠ status_value PENDING
}.

Section history.
Context `{PyTables, Postgres} (storage : ImageStorage) (processor : ImageProcessor) (broker : MessageBroker).
Context (n : nat) (w0 : world).
Hypothesis adapters : adapters_elsewhere storage processor broker.
Hypothesis start : starting n w0.

Abbreviation good := (Life.good (w_env w0)).
Abbreviation sees := (Life.sees n).
Abbreviation guar X := (Life.guar X (w_env w0) n).

Lemma start_mint X t t' :
  (t < n)%nat → (t' < n)%nat → Life.mint (w_env w0) t = X → Life.mint (w_env w0) t' = X → t = t'.
Proof. intros Hlt Hlt' Ht Ht'. apply (start_once n w0 start); [done..|]. unfold Life.mint in *. congruence. Qed.

Lemma start_config X cs :
  Interleave.config_ok good sees (guar X) (λ _ _ _, True)
    (Life.whenever n (Life.life X (w_env w0) n)) (run_call storage processor broker <$> cs, w0).
Proof.
  destruct start as [Hok Hheap Hids Hfr _].
  assert (∀ l i, w_heap w0 !! l = Some i → False) as Hno by (intros l i; by rewrite Hheap, lookup_empty).
  assert (∀ l, ¬ Life.in_cache l w0) as Hnc.
  { intros l (id & e & He & <-). destruct (Hids id e He) as (i & Hi & _). by eapply Hno. }
  assert (∀ j φ, replicate (length cs) Idle !! j = Some φ → φ = Idle) as Hidle by by intros j φ [? _]%lookup_replicate.
  exists (replicate (length cs) Idle). cbn [fst snd]. refine (conj _ (conj (λ _, _) _)).
  - by split.
  - split; [intros l [[j [=]%Hidle]|Hl]; by destruct (Hnc l)|].
    destruct (db_images (w_db w0) !! X) as [m|] eqn:Hm.
    + apply (Life.stage_known _ _ _ _ _ (fixed_columns m)).
      * by intros j φ ->%Hidle.
      * intros (t & [_ Hlt] & Ht). specialize (Hfr t Hlt). unfold Life.mint in Ht. congruence.
      * split_and!; [by intros l i ?%Hno|unfold Life.row; intros; congruence|by intros j i [=]%Hidle].
    + apply Life.stage_unknown; [by intros j φ ->%Hidle|done|by intros l i ?%Hno|by intros j i [=]%Hidle].
  - apply Forall2_replicate_l; [by apply length_map|]. apply Forall_fmap, Forall_true. intros c.
    exists (λ _, True). split_and!; [apply stable_true|done|]. eapply safe_mono; [|done].
    apply (Life.calm_call X (w_env w0) n storage processor broker adapters c). split; [done|apply stable_true].
Qed.

Abbreviation lives X := (Life.whenever n (Life.life X (w_env w0) n)).

Lemma lives_step X φs i φ φ' w w' :
  lives X φs w → good w → good w' → φs !! i = Some φ → guar X φ w w' φ' → lives X (<[i := φ']> φs) w'.
Proof.
  intros Hlife _ _ Hi Hg He. eapply Life.life_step; [apply start_mint|exact He| |exact Hi|exact Hg].
  by apply Hlife, (Life.early_before _ _ _ _ _ _ _ Hg).
Qed.

Lemma known_kept X a p φs i φ φ' w w' :
  Life.whenever n (Life.known X (w_env w0) n a p) φs w → good w → good w' → φs !! i = Some φ →
  guar X φ w w' φ' → Life.whenever n (Life.known X (w_env w0) n a p) (<[i := φ']> φs) w'.
Proof.
  intros Hk _ _ Hi Hg He. eapply Life.known_step; [exact He| |exact Hi|exact Hg].
  by apply Hk, (Life.early_before _ _ _ _ _ _ _ Hg).
Qed.

(** The clock does not go back. *)
Lemma ticks_grow X (Ψ : phase → (world → Prop) → outcome unit → Prop) c c' :
  Interleave.config_ok good sees (guar X) Ψ (lives X) c → rtc pstep c c' → (w_tick c.2 ≤ w_tick c'.2)%nat.
Proof.
  intros (φs & Hg & Hl & Hts) Hsteps.
  destruct (safe_reachable good sees (guar X) Ψ (λ φs w, (w_tick c.2 ≤ w_tick w)%nat ∧ lives X φs w)
    (λ φs i φ φ' w w' Hk Hw Hw' Hi Hgu, conj (Nat.le_trans _ _ _ (proj1 Hk) (proj1 Hgu))
       (lives_step X φs i φ φ' w w' (proj2 Hk) Hw Hw' Hi Hgu))
    (λ φs i φ w Hk, Life.life_sees X (w_env w0) n φs i φ w (proj2 Hk)) _ _ Hsteps) as (φs' & _ & [Ht _] & _); [|done].
  by exists φs.
Qed.

(** C3: the history of an image.  However the awaits of any number of requests
    and worker loops interleave, and whatever fails, from any row an image has
    to any row it has later (also when it was deleted in between): its file
    name, its file, its tags and its dates of creation and expiry are the
    same, and once it has left [pending] it is not pending again.  A save is two
    statements here, a [SELECT] and an [UPDATE] of the columns that changed,
    between which any other request may save or delete the same row. *)
Theorem image_history (cs : list call) (w1 w2 : world) (ts1 ts2 : list (coro unit)) :
  rtc pstep (run_call storage processor broker <$> cs, w0) (ts1, w1) → rtc pstep (ts1, w1) (ts2, w2) →
  (w_tick w2 ≤ n)%nat →
  ∀ id m1 m2, db_images (w_db w1) !! id = Some m1 → db_images (w_db w2) !! id = Some m2 → evolves m1 m2.
Proof.
  intros H01 H12 Hn X m1 m2 Hm1 Hm2.
  pose proof (safe_reachable _ _ _ _ _ (lives_step X) (Life.life_sees X (w_env w0) n) _ _ H01 (start_config X cs)) as Hc1.
  pose proof (ticks_grow X _ _ _ Hc1 H12) as Hle. cbn [snd] in Hle.
  assert (Life.early n w1) as Hn1 by (unfold Life.early; lia).
  destruct Hc1 as (φs & Hg & Hlife & Hts). pose proof (Life.life_known _ _ _ _ _ _ (Hlife Hn1) Hm1) as Hk.
  set (a := fixed_columns m1) in Hk. set (p := negb _) in Hk.
  destruct (safe_reachable _ _ _ (λ _ _ _, True) _ (known_kept X a p) (Life.known_sees X (w_env w0) n a p) _ _ H12)
    as (φs' & Hg' & Hk' & _); [by exists φs; split; [|split; [intros _|]]|].
  destruct (Hk' Hn) as (_ & _ & _ & (_ & Hfix & _) & Hp). split.
  - by apply Hfix.
  - intros Hne. apply Hp; [|done]. unfold p. by rewrite bool_decide_eq_false_2.
Qed.
End history.
