(* ===== verification/Sanitize.v ===== *)
(** * File name sanitization

    Models [src/src/presentation/sanitize.py]: the name of an upload, as the
    client sends it, becomes a flat, plain ASCII name. *)

From S2P Require Import Prelude PyText PyHash PyPath Prog World Ports Storage.
Local Open Scope Z_scope.

Definition MAX_FILENAME_LENGTH : nat := 255.

Definition dot : Z := 46.
Definition underscore : Z := 95.
Definition backslash : Z := 92.

(** The class [\w.\-] under [re.ASCII]; [_SAFE_CHARS] matches the others. *)
Definition is_safe_char (c : Z) : bool :=
  is_digit c || is_upper c || is_lower c || (c =? underscore) || (c =? dot) || (c =? 45).

(** The class [_.] *)
Definition is_sep (c : Z) : bool := (c =? underscore) || (c =? dot).

Definition replace_unsafe (s : pystr) : pystr :=
  map (λ c, if is_safe_char c then c else underscore) s.

(** What is written for a run of separators: itself when it has one character,
    an underscore when it has more. *)
Definition flush (run : pystr) : pystr :=
  match run with
  | [] => []
  | [c] => [c]
  | _ => [underscore]
  end.

(** [re.sub(r"[_.]{2,}", "_", s)], with the run being read. *)
Fixpoint collapse_runs (run : pystr) (s : pystr) : pystr :=
  match s with
  | [] => flush run
  | c :: s' =>
      if is_sep c then collapse_runs (run ++ [c]) s'
      else flush run ++ c :: collapse_runs [] s'
  end.

(** [encode("ascii", "ignore").decode("ascii")] *)
Definition ascii_only (s : pystr) : pystr := filter (λ c, is_ascii c = true) s.

(** The character-level part of the function, after the name is ASCII. *)
Definition clean (s : pystr) : pystr :=
  let s := path_name s in
  let s := if bool_decide (backslash ∈ s) then py_rsplit_last backslash s else s in
  let s := py_lstrip (λ c, c =? dot) s in
  let s := replace_unsafe s in
  let s := collapse_runs [] s in
  let s := py_strip is_sep s in
  let s := if bool_decide (MAX_FILENAME_LENGTH < length s)%nat then take MAX_FILENAME_LENGTH s else s in
  match s with [] => lit "unnamed" | _ => s end.

Definition sanitize_filename `{PyTables} (filename : pystr) : pystr :=
  clean (ascii_only (tbl_nfkd (py_replace [0] [] filename))).

(** ** Runs of separators *)

Fixpoint no_runs (s : pystr) : bool :=
  match s with
  | a :: s' => negb (is_sep a && match s' with b :: _ => is_sep b | [] => false end) && no_runs s'
  | [] => true
  end.

Lemma no_runs_cons c s : is_sep c = false → no_runs (c :: s) = no_runs s.
Proof. intros Hc. cbn. by rewrite Hc. Qed.

Lemma no_runs_app s t : no_runs (s ++ t) = true → no_runs s = true ∧ no_runs t = true.
Proof.
  induction s as [|a s IH]; [done|]. cbn [app no_runs]. intros [H1 H2]%andb_true_iff.
  destruct (IH H2) as [H3 H4]. split; [|done]. rewrite H3, andb_true_r.
  destruct s; [by rewrite andb_false_r|exact H1].
Qed.

Lemma no_runs_flush run c s :
  is_sep c = false → no_runs s = true → no_runs (flush run ++ c :: s) = true.
Proof.
  intros Hc Hs. destruct run as [|a [|b run]]; cbn [flush app]; [by rewrite no_runs_cons|..];
    cbn [no_runs]; by rewrite Hc, andb_false_r, Hs.
Qed.

Lemma no_runs_flush_end run : no_runs (flush run) = true.
Proof. destruct run as [|a [|b run]]; cbn; [done| |done]. by rewrite andb_false_r. Qed.

Lemma collapse_no_runs run s : no_runs (collapse_runs run s) = true.
Proof.
  revert run. induction s as [|c s IH]; intros run; cbn [collapse_runs]; [apply no_runs_flush_end|].
  destruct (is_sep c) eqn:E; [done|]. by apply no_runs_flush.
Qed.

Lemma sep_safe c : is_sep c = true → is_safe_char c = true.
Proof.
  unfold is_sep, is_safe_char. intros [->| ->]%orb_true_iff; by rewrite ?orb_true_r.
Qed.

Lemma collapse_chars run s :
  Forall (λ c, is_safe_char c = true) run → Forall (λ c, is_safe_char c = true) s →
  Forall (λ c, is_safe_char c = true) (collapse_runs run s).
Proof.
  assert (∀ run, Forall (λ c, is_safe_char c = true) run →
    Forall (λ c, is_safe_char c = true) (flush run)) as Hflush.
  { intros [|a [|b r]] Hr; cbn; [done|done|]. by repeat constructor. }
  intros Hr Hs. revert run Hr. induction Hs as [|c s Hc Hs IH]; intros run Hr; cbn; [auto|].
  destruct (is_sep c); [apply IH, Forall_app; auto|]. apply Forall_app. auto.
Qed.

(** Nothing to collapse. *)
Lemma collapse_id s : no_runs s = true → collapse_runs [] s = s.
Proof.
  enough (∀ run, (length run ≤ 1)%nat → Forall (λ c, is_sep c = true) run →
    no_runs (run ++ s) = true → collapse_runs run s = run ++ s) as Hgen by (intros; apply (Hgen []); [cbn; lia|done|done]).
  induction s as [|c s IH]; intros run Hlen Hrun Hn.
  { rewrite app_nil_r. destruct run as [|a [|b run]]; cbn in *; [done..|lia]. }
  cbn [collapse_runs]. assert (no_runs s = true) as Hs.
  { apply no_runs_app in Hn as [_ Hn]. cbn in Hn. by apply andb_true_iff in Hn as [_ ?]. }
  destruct (is_sep c) eqn:Ec.
  - destruct run as [|a run].
    + apply (IH [c]); [done|by constructor|]. exact Hn.
    + exfalso. destruct run; cbn in Hlen; [|lia]. inversion Hrun as [|? ? Ha _]. subst.
      cbn in Hn. by rewrite Ha, Ec in Hn.
  - rewrite (IH []); [|cbn; lia|done|done]. destruct run as [|a [|b run]]; cbn in *; [done..|lia].
Qed.

(** ** What comes out *)

(** Neither the first nor the last character is a separator. *)
Definition starts_clean (s : pystr) : Prop := ∀ c s', s = c :: s' → is_sep c = false.
Definition ends_clean (s : pystr) : Prop := ∀ c s', s = s' ++ [c] → is_sep c = false.

(** A name the function may return. *)
Definition sanitized (s : pystr) : Prop :=
  s ≠ [] ∧ (length s ≤ MAX_FILENAME_LENGTH)%nat ∧ Forall (λ c, is_safe_char c = true) s ∧
  no_runs s = true ∧ starts_clean s.

Lemma strip_parts (p : Z → bool) s : ∃ a b, s = a ++ py_strip p s ++ b.
Proof.
  unfold py_strip, py_rstrip, py_lstrip. exists (take_while p s).
  set (t := drop_while p s). exists (reverse (take_while p (reverse t))).
  rewrite <- (take_drop_while p s) at 1. f_equal. fold t. rewrite <- reverse_app.
  rewrite take_drop_while. by rewrite reverse_involutive.
Qed.

Lemma rstrip_prefix (p : Z → bool) s : ∃ b, s = py_rstrip p s ++ b.
Proof.
  unfold py_rstrip. exists (reverse (take_while p (reverse s))).
  by rewrite <- reverse_app, take_drop_while, reverse_involutive.
Qed.

Lemma rstrip_ends (p : Z → bool) s c s' : py_rstrip p s = s' ++ [c] → p c = false.
Proof.
  unfold py_rstrip. intros E. apply (f_equal reverse) in E. rewrite reverse_involutive, reverse_snoc in E.
  by eapply drop_while_head.
Qed.

Lemma strip_starts (p : Z → bool) s c s' : py_strip p s = c :: s' → p c = false.
Proof.
  unfold py_strip, py_lstrip. set (t := drop_while p s). intros E.
  destruct (rstrip_prefix p t) as [b Hb]. rewrite E in Hb. cbn in Hb. by eapply drop_while_head.
Qed.

Lemma replace_unsafe_safe s : Forall (λ c, is_safe_char c = true) (replace_unsafe s).
Proof.
  apply Forall_forall. intros c [x [-> _]]%list_elem_of_fmap. by destruct (is_safe_char x) eqn:E.
Qed.

Lemma replace_unsafe_id s : Forall (λ c, is_safe_char c = true) s → replace_unsafe s = s.
Proof. induction 1 as [|c s Hc _ IH]; [done|]. cbn. rewrite Hc. by f_equal. Qed.

Lemma sanitized_unnamed : sanitized (lit "unnamed").
Proof. split_and!; [done|vm_compute; lia|by repeat constructor|done|]. by intros c s' [= <- _]. Qed.

Lemma sanitized_take s :
  Forall (λ c, is_safe_char c = true) s → no_runs s = true → starts_clean s →
  let t := if bool_decide (MAX_FILENAME_LENGTH < length s)%nat then take MAX_FILENAME_LENGTH s else s in
  sanitized (match t with [] => lit "unnamed" | _ => t end).
Proof.
  intros Hsafe Hruns Hstart t.
  assert ((length t ≤ MAX_FILENAME_LENGTH)%nat ∧ ∃ b, s = t ++ b) as [Hlen [b Hb]].
  { subst t. case_bool_decide; [|split; [lia|exists []; by rewrite app_nil_r]].
    split; [rewrite length_take; lia|]. exists (drop MAX_FILENAME_LENGTH s). by rewrite take_drop. }
  clearbody t. subst s. apply Forall_app in Hsafe as [Hsafe _]. apply no_runs_app in Hruns as [Hruns _].
  destruct t as [|c t]; [apply sanitized_unnamed|]. split_and!; [done|exact Hlen|exact Hsafe|exact Hruns|].
  intros d t' [= <- <-]. by eapply Hstart.
Qed.

Lemma clean_sanitized s : sanitized (clean s).
Proof.
  unfold clean. cbv zeta. set (u := collapse_runs [] _).
  assert (Forall (λ c, is_safe_char c = true) u) as Hsafe.
  { apply collapse_chars; [constructor|apply replace_unsafe_safe]. }
  assert (no_runs u = true) as Hruns by apply collapse_no_runs. clearbody u.
  apply sanitized_take.
  - destruct (strip_parts is_sep u) as (a & b & E). rewrite E, !Forall_app in Hsafe. apply Hsafe.
  - destruct (strip_parts is_sep u) as (a & b & E). rewrite E in Hruns.
    apply no_runs_app in Hruns as [_ Hruns]. by apply no_runs_app in Hruns as [? _].
  - intros c s'. apply strip_starts.
Qed.

(** ** Clean names are left alone *)

Lemma safe_char_plain c : is_safe_char c = true → 0 < c < 128 ∧ c ≠ slash ∧ c ≠ backslash.
Proof.
  unfold is_safe_char, is_digit, is_upper, is_lower, underscore, dot, slash, backslash. intros Hc.
  repeat (apply orb_true_iff in Hc as [Hc|Hc]); zbool; lia.
Qed.

Lemma safe_no c s : is_safe_char c = false → Forall (λ c, is_safe_char c = true) s → c ∉ s.
Proof. intros Hc Hs Hin. pose proof (proj1 (Forall_forall _ _) Hs c Hin). congruence. Qed.

(** A plain component is its own last component. *)
Lemma path_name_single s : slash ∉ s → s ≠ [] → s ≠ [46] → path_name s = s.
Proof.
  intros Hs Hne Hd. unfold path_name, path_parts. rewrite py_split_single by done.
  rewrite filter_cons_True by done. done.
Qed.

(** Stripping a name that starts clean only strips its end. *)
Lemma clean_sanitized_name s : sanitized s → clean s = py_rstrip is_sep s.
Proof.
  intros (Hne & Hlen & Hsafe & Hruns & Hstart).
  destruct s as [|c s]; [done|]. pose proof (Hstart c s eq_refl) as Hc.
  assert (c ≠ dot ∧ c ≠ underscore) as [Hcd Hcu].
  { unfold is_sep in Hc. apply orb_false_iff in Hc as [??]. zbool. done. }
  assert (py_lstrip is_sep (c :: s) = c :: s) as Hl by (unfold py_lstrip; cbn; by rewrite Hc).
  assert (∃ r, py_rstrip is_sep (c :: s) = c :: r ∧ (length (c :: r) ≤ length (c :: s))%nat) as (r & Hr & Hrlen).
  { destruct (rstrip_prefix is_sep (c :: s)) as [b Hb].
    destruct (py_rstrip is_sep (c :: s)) as [|d r] eqn:E.
    - exfalso. unfold py_rstrip in E. apply (f_equal reverse) in E. rewrite reverse_involutive in E.
      pose proof (take_drop_while is_sep (reverse (c :: s))) as Ht. rewrite E, reverse_nil, app_nil_r in Ht.
      pose proof (take_while_Forall is_sep (reverse (c :: s))) as Hall. rewrite Ht in Hall.
      apply (proj1 (Forall_reverse _ _)) in Hall. apply Forall_cons in Hall as [Hall _]. congruence.
    - injection Hb as <- Hb. exists r. split; [done|]. rewrite Hb. cbn. rewrite length_app. lia. }
  unfold clean. cbv zeta. rewrite path_name_single; [|by apply safe_no|done|by intros [= -> _]].
  rewrite (bool_decide_false (backslash ∈ _)) by by apply safe_no.
  assert (py_lstrip (λ c, c =? dot) (c :: s) = c :: s) as ->.
  { unfold py_lstrip. cbn [drop_while]. by rewrite (proj2 (Z.eqb_neq _ _) Hcd). }
  rewrite replace_unsafe_id by done. rewrite collapse_id by done. unfold py_strip. rewrite Hl, Hr.
  rewrite bool_decide_false by lia. done.
Qed.

Lemma rstrip_id (p : Z → bool) s : (∀ c s', s = s' ++ [c] → p c = false) → py_rstrip p s = s.
Proof.
  intros He. unfold py_rstrip. destruct (reverse s) as [|c r] eqn:E.
  - apply (f_equal reverse) in E. rewrite reverse_involutive in E. by rewrite E.
  - assert (s = reverse r ++ [c]) as Hs.
    { apply (f_equal reverse) in E. rewrite reverse_involutive, reverse_cons in E. done. }
    cbn [drop_while]. rewrite (He _ _ Hs), <- E. apply reverse_involutive.
Qed.

(** A short result ends clean: only the truncation can cut a name after a
    separator. *)
Lemma clean_ends s : (length (clean s) < MAX_FILENAME_LENGTH)%nat → ends_clean (clean s).
Proof.
  unfold clean. cbv zeta. set (u := collapse_runs [] _). clearbody u. intros Hlen c s'.
  destruct (bool_decide _) eqn:E.
  - apply bool_decide_eq_true in E. exfalso. revert Hlen.
    destruct (take MAX_FILENAME_LENGTH (py_strip is_sep u)) as [|d t] eqn:Et.
    + apply (f_equal length) in Et. rewrite length_take in Et. unfold MAX_FILENAME_LENGTH in *. cbn [length] in Et. lia.
    + rewrite <- Et, length_take. lia.
  - clear Hlen E. unfold py_strip. destruct (py_rstrip is_sep _) as [|d t] eqn:Et.
    + intros Hs. change (lit "unnamed") with (lit "unname" ++ [100]) in Hs.
      apply app_inj_tail in Hs as [_ <-]. reflexivity.
    + rewrite <- Et. apply rstrip_ends.
Qed.

Lemma safe_ascii c : is_safe_char c = true → is_ascii c = true.
Proof. intros Hc%safe_char_plain. unfold is_ascii. zdecide. done. Qed.

(** ** Properties *)

Section sanitize.
Context `{PyTables}.

(** C36: whatever the client sends, the sanitized name is not empty, has at most
    255 characters, all of them ASCII letters, digits, [_], [.] or [-], starts
    with none of [_] and [.] and has no two of them in a row: so it is one plain
    path component, neither hidden nor a way out of a directory. *)
Theorem sanitize_safe (filename : pystr) :
  let s := sanitize_filename filename in
  sanitized s ∧ plain_name s ∧ backslash ∉ s ∧ 0 ∉ s ∧ base_name s = s.
Proof.
  cbv zeta. unfold sanitize_filename. set (t := ascii_only _). clearbody t.
  pose proof (clean_sanitized t) as Hs. pose proof Hs as (Hne & _ & Hsafe & _ & Hstart).
  assert (∀ r, clean t ≠ dot :: r) as Hdot by (intros r E; by specialize (Hstart _ _ E)).
  assert (slash ∉ clean t) as Hslash by by apply safe_no.
  split_and!; [done| |by apply safe_no|by apply safe_no|].
  - split_and!; [done|apply Hdot|apply Hdot|done].
  - unfold base_name. rewrite path_name_single; [by destruct (clean t)|done|done|apply Hdot].
Qed.

(** NFKD leaves ASCII text alone (Unicode Standard Annex 15). *)
Definition nfkd_keeps_ascii : Prop := ∀ s, Forall (λ c, is_ascii c = true) s → tbl_nfkd s = s.

Lemma sanitize_clean s :
  nfkd_keeps_ascii → Forall (λ c, is_safe_char c = true) s → sanitize_filename s = clean s.
Proof.
  intros Hn Hs. unfold sanitize_filename. rewrite py_replace_char.
  assert (Forall (λ c, is_ascii c = true) s) as Ha by (eapply Forall_impl_bool; [apply safe_ascii|done]).
  assert (filter (λ x, 0 ≠ x) s = s) as ->.
  { apply list_filter_all, Forall_forall. intros c Hc <-. by eapply (safe_no 0). }
  rewrite Hn by done. unfold ascii_only. f_equal. by apply list_filter_all.
Qed.

(** The names [sanitize_filename] leaves alone are exactly the clean ones.
    Applied twice it strips once more the separators its truncation may have
    left at the end, and a result shorter than 255 is not changed again. *)
Theorem sanitize_stable (filename s : pystr) :
  nfkd_keeps_ascii →
  (sanitize_filename s = s ↔ sanitized s ∧ ends_clean s) ∧
  sanitize_filename (sanitize_filename filename) = py_rstrip is_sep (sanitize_filename filename) ∧
  ((length (sanitize_filename filename) < MAX_FILENAME_LENGTH)%nat →
   sanitize_filename (sanitize_filename filename) = sanitize_filename filename).
Proof.
  intros Hn. assert (∀ t, sanitized t → sanitize_filename t = py_rstrip is_sep t) as Hrs.
  { intros t Ht. rewrite sanitize_clean; [by apply clean_sanitized_name|done|apply Ht]. }
  split_and!.
  - split.
    + intros E. assert (sanitized s) as Hs by (rewrite <- E; apply clean_sanitized). split; [done|].
      rewrite Hrs in E by done. intros c s' Ec. rewrite <- E in Ec. by eapply rstrip_ends.
    + intros [Hs He]. rewrite Hrs by done. by apply rstrip_id.
  - apply Hrs, clean_sanitized.
  - intros Hlen. rewrite Hrs by apply clean_sanitized. apply rstrip_id. by apply clean_ends.
Qed.

(** ** What the storage does with a sanitized name *)

(** The outcome of finding the place of a file [name]: the name, with the 13
    characters of the hash prefix in front, or a refusal of a name too long. *)
Definition placed_or_too_long (name : pystr) (data : pybytes) (o : outcome pystr) : Prop :=
  match o with
  | Ok p => (length name ≤ 242)%nat ∧ path_name p = take 12 (sha256_hex data) ++ lit "_" ++ name
  | Exn e => (242 < length name)%nat ∧ ∃ m, e = EOS m
  end.

Context `{FileSystem} (base_dir : pystr).

(** A sanitized name, or that of its thumbnail, in the storage directory. *)
Lemma sanitized_store_path (filename name : pystr) (data : pybytes) :
  fs_refuses (fs_resolve base_dir) = None →
  name ∈ [sanitize_filename filename; lit "thumb_" ++ sanitize_filename filename] →
  base_name name = name ∧ Forall (λ c, 0 < c < 128) (LocalImageStorage.safe_name name data) ∧
  if decide (length name ≤ 242)%nat
  then LocalImageStorage.store_path base_dir name data =
       Ok (path_join (fs_resolve base_dir) (LocalImageStorage.safe_name name data))
  else ∃ m, LocalImageStorage.store_path base_dir name data = Exn (EOS m).
Proof.
  intros Hdir Hname. pose proof (clean_sanitized (ascii_only (tbl_nfkd (py_replace [0] [] filename)))) as Hs.
  fold (sanitize_filename filename) in Hs. destruct Hs as (Hne & _ & Hsafe & _ & Hstart).
  assert (Forall (λ c, is_safe_char c = true) name ∧ base_name name = name) as [Hn Hb].
  { assert (∀ s, Forall (λ c, is_safe_char c = true) s → (∀ r, s ≠ dot :: r) → s ≠ [] → base_name s = s) as Hbase.
    { intros s Hs Hd Hs0. unfold base_name. rewrite path_name_single; [by destruct s|by apply safe_no|done|apply Hd]. }
    apply elem_of_cons in Hname as [->| ->%list_elem_of_singleton].
    - split; [done|]. apply Hbase; [done| |done]. intros r E. by specialize (Hstart _ _ E).
    - assert (Forall (λ c, is_safe_char c = true) (lit "thumb_" ++ sanitize_filename filename)) as Hs.
      { apply Forall_app. split; [|done]. by repeat constructor. }
      split; [done|]. by apply Hbase. }
  pose proof (safe_name_plain name data) as Hp.
  assert (length (LocalImageStorage.safe_name name data) = 13 + length name)%nat as Hlen.
  { rewrite safe_name_eq, !length_app, hash_prefix_length, Hb. done. }
  assert (Forall (λ c, 0 < c < 128) (LocalImageStorage.safe_name name data)) as Hchars.
  { rewrite safe_name_eq, Hb. apply Forall_app. split; [|apply Forall_app; split].
    - apply Forall_take. eapply Forall_impl; [apply sha256_hex_chars|]. intros c Hc.
      unfold is_hex_char, is_digit in Hc. apply orb_true_iff in Hc as [Hc|Hc]; zbool; lia.
    - by repeat constructor.
    - eapply Forall_impl; [exact Hn|]. intros c Hc. by apply safe_char_plain. }
  rewrite store_path_eq. cbv zeta. split_and!; [done..|]. destruct (decide (length name ≤ 242)%nat) as [Hle|Hgt].
  - by rewrite fs_accepts by (done || lia).
  - destruct (fs_too_long (fs_resolve base_dir) (LocalImageStorage.safe_name name data)) as [m ->];
      [done|done|lia|done|]. eauto.
Qed.

(** The storage takes a sanitized name, or the name of its thumbnail, exactly
    when with the 13 characters it puts in front the name still has at most 255;
    otherwise, for names the sanitizer accepted, the operating system refuses. *)
Theorem sanitized_name_fits (filename name : pystr) (data : pybytes) :
  fs_refuses (fs_resolve base_dir) = None →
  name ∈ [sanitize_filename filename; lit "thumb_" ++ sanitize_filename filename] →
  placed_or_too_long name data (LocalImageStorage.store_path base_dir name data).
Proof.
  intros Hdir Hname. destruct (sanitized_store_path filename name data Hdir Hname) as (Hb & _ & Hp).
  unfold placed_or_too_long. destruct (decide (length name ≤ 242)%nat).
  - rewrite Hp. split; [done|]. destruct (safe_name_plain name data) as (? & ? & _ & ?).
    by rewrite path_name_join, safe_name_eq, Hb.
  - destruct Hp as [m ->]. split; [lia|eauto].
Qed.
End sanitize.
