(* ===== verification/RateLimit.v ===== *)
(** * The rate limiter

    Models [src/src/presentation/api/rate_limit.py] and the limiters of
    [src/src/presentation/api/dependencies.py].  Each call runs under the lock
    and does not wait inside it, so it is one function of the state; instants
    and windows are in microseconds. *)

From S2P Require Import Prelude PyText Prog.
Local Open Scope Z_scope.

Record RateLimiter := MkLimiter {
  max_requests : Z;
  window : Z;
  requests : gmap pystr (list Z)
}.

Definition with_requests (m : gmap pystr (list Z)) (r : RateLimiter) : RateLimiter :=
  MkLimiter (max_requests r) (window r) m.

(** What the limiter looks at in a request: the [X-Forwarded-For] header and
    the address of the peer. *)
Record Client := MkClient {
  forwarded_for : option pystr;
  peer : option pystr
}.

(** [_client_ip] *)
Definition client_ip (c : Client) : pystr :=
  match forwarded_for c with
  | Some ((_ :: _) as f) => py_strip is_space (py_split_first 44 f)
  | _ => default (lit "unknown") (peer c)
  end.

(** [self._requests[key]] of a [defaultdict] inserts the missing list. *)
Definition get_default (key : pystr) (m : gmap pystr (list Z)) : list Z * gmap pystr (list Z) :=
  match m !! key with
  | Some ts => (ts, m)
  | None => ([], <[key := []]> m)
  end.

(** [_cleanup] *)
Definition cleanup (key : pystr) (now : Z) (r : RateLimiter) : RateLimiter :=
  let '(ts, m) := get_default key (requests r) in
  let ts := drop_while (λ t, t <? now - window r) ts in
  with_requests (match ts with [] => delete key m | _ => <[key := ts]> m end) r.

Definition rate_limited : exn := EHTTP 429 (lit "Rate limit exceeded. Try again later.").

(** [__call__], for the key and the instant it computes. *)
Definition check (key : pystr) (now : Z) (r : RateLimiter) : outcome unit * RateLimiter :=
  let r := cleanup key now r in
  let '(ts, m) := get_default key (requests r) in
  if max_requests r <=? Z.of_nat (length ts)
  then (Exn rate_limited, with_requests m r)
  else (Ok tt, with_requests (<[key := ts ++ [now]]> m) r).

Definition call (c : Client) (now : Z) (r : RateLimiter) : outcome unit * RateLimiter :=
  check (client_ip c) now r.

(** [_get_rate_limiter]: one limiter per name, made on first use. *)
Definition get_rate_limiter (name : pystr) (max_requests window : Z) (ls : gmap pystr RateLimiter) :
    RateLimiter * gmap pystr RateLimiter :=
  match ls !! name with
  | Some r => (r, ls)
  | None => let r := MkLimiter max_requests window ∅ in (r, <[name := r]> ls)
  end.

(** A request under the limiter [name]. *)
Definition limit (name : pystr) (max_requests window : Z) (c : Client) (now : Z)
    (ls : gmap pystr RateLimiter) : outcome unit * gmap pystr RateLimiter :=
  let '(r, ls) := get_rate_limiter name max_requests window ls in
  let '(o, r) := call c now r in
  (o, <[name := r]> ls).

(** ** The specification: a log of accepted requests *)

Definition is_ok {A} (o : outcome A) : bool := match o with Ok _ => true | Exn _ => false end.

(** The instants of a key's accepted requests. *)
Definition times (key : pystr) (log : list (pystr * Z)) : list Z :=
  (filter (λ e, e.1 = key) log).*2.

(** Of those, the ones still in the window. *)
Definition recent (window now : Z) (key : pystr) (log : list (pystr * Z)) : list Z :=
  filter (λ t, now - window ≤ t) (times key log).

(** A request is accepted when fewer than [max] of its key are in the window. *)
Definition spec_step (max window : Z) (log : list (pystr * Z)) (q : pystr * Z) :
    bool * list (pystr * Z) :=
  if max <=? Z.of_nat (length (recent window q.2 q.1 log)) then (false, log) else (true, log ++ [q]).

Fixpoint spec_run (max window : Z) (log : list (pystr * Z)) (qs : list (pystr * Z)) :
    list bool * list (pystr * Z) :=
  match qs with
  | [] => ([], log)
  | q :: qs' =>
      let '(b, log') := spec_step max window log q in
      let '(bs, log'') := spec_run max window log' qs' in
      (b :: bs, log'')
  end.

Fixpoint run_limiter (r : RateLimiter) (qs : list (pystr * Z)) : list bool * RateLimiter :=
  match qs with
  | [] => ([], r)
  | (key, now) :: qs' =>
      let '(o, r') := check key now r in
      let '(bs, r'') := run_limiter r' qs' in
      (is_ok o :: bs, r'')
  end.

(** ** The simulation *)

(** What is stored under a key: its accepted requests from some instant on, an
    instant that had left the window by [last]. *)
Definition kept (window last : Z) (key : pystr) (log : list (pystr * Z)) (ts : list Z) : Prop :=
  ∃ c, c ≤ last - window ∧ ts = filter (λ t, c ≤ t) (times key log).

Record simulates (last : Z) (log : list (pystr * Z)) (r : RateLimiter) : Prop := {
  sim_kept key : kept (window r) last key log (default [] (requests r !! key));
  sim_sorted key : Sorted Z.le (times key log);
  sim_last key : Forall (λ t, t ≤ last) (times key log)
}.

Lemma times_app key log1 log2 : times key (log1 ++ log2) = times key log1 ++ times key log2.
Proof. unfold times. by rewrite filter_app, fmap_app. Qed.

Lemma times_one key q : times key [q] = if decide (q.1 = key) then [q.2] else [].
Proof.
  unfold times. destruct (decide (q.1 = key)); [by rewrite filter_cons_True|by rewrite filter_cons_False].
Qed.

(** Dropping a sorted list's small elements is filtering them. *)
Lemma drop_while_sorted c l :
  Sorted Z.le l → drop_while (λ t, t <? c) l = filter (λ t, c ≤ t) l.
Proof.
  intros Hs%Sorted_StronglySorted; [|intros ???; lia]. induction Hs as [|x l Hs IH Hall]; [done|].
  cbn [drop_while]. destruct (x <? c) eqn:E; zbool.
  - rewrite IH. by rewrite filter_cons_False by lia.
  - symmetry. apply list_filter_all. constructor; [lia|]. eapply Forall_impl; [exact Hall|].
    cbn. intros t Ht. lia.
Qed.

Lemma filter_later c1 c2 (l : list Z) :
  c1 ≤ c2 → filter (λ t, c2 ≤ t) (filter (λ t, c1 ≤ t) l) = filter (λ t : Z, c2 ≤ t) l.
Proof. intros Hc. rewrite list_filter_filter. apply list_filter_iff. intros t. lia. Qed.

Lemma sorted_filter c l : Sorted Z.le l → Sorted Z.le (filter (λ t : Z, c ≤ t) l).
Proof.
  intros Hs%Sorted_StronglySorted; [|intros ???; lia]. apply StronglySorted_Sorted.
  induction Hs as [|x l Hs IH Hall]; [constructor|].
  destruct (decide (c ≤ x)); [rewrite filter_cons_True by done|by rewrite filter_cons_False].
  constructor; [done|]. apply Forall_forall. intros y [_ Hy]%list_elem_of_filter.
  by apply (proj1 (Forall_forall _ _) Hall).
Qed.

Lemma kept_pruned window last now key log ts :
  kept window last key log ts → Sorted Z.le (times key log) → last ≤ now →
  drop_while (λ t, t <? now - window) ts = recent window now key log.
Proof.
  intros (c & Hc & ->) Hs Hl. rewrite drop_while_sorted by by apply sorted_filter.
  apply filter_later. lia.
Qed.

(** After the clean-up, the list of the key is its recent requests. *)
Lemma cleanup_requests key now r k :
  default [] (requests (cleanup key now r) !! k) =
  if decide (k = key) then drop_while (λ t, t <? now - window r) (default [] (requests r !! key))
  else default [] (requests r !! k).
Proof.
  unfold cleanup, get_default. destruct (requests r !! key) as [ts|] eqn:E; cbn.
  - destruct (drop_while _ ts) as [|t ts'] eqn:Ed; cbn; case_decide as Hk;
      [subst; by rewrite lookup_delete_eq|by rewrite lookup_delete_ne|
       subst; by rewrite lookup_insert_eq|by rewrite lookup_insert_ne].
  - case_decide as Hk; [subst; by rewrite lookup_delete_eq|].
    by rewrite lookup_delete_ne, lookup_insert_ne.
Qed.

Lemma cleanup_config key now r :
  max_requests (cleanup key now r) = max_requests r ∧ window (cleanup key now r) = window r.
Proof. unfold cleanup. by destruct (get_default _ _). Qed.

Lemma get_default_spec key m :
  (get_default key m).1 = default [] (m !! key) ∧
  ∀ k, default [] ((get_default key m).2 !! k) = default [] (m !! k).
Proof.
  unfold get_default. destruct (m !! key) as [ts|] eqn:E; [done|]. split; [done|]. intros k. cbn.
  destruct (decide (k = key)) as [->|]; [by rewrite lookup_insert_eq, E|by rewrite lookup_insert_ne].
Qed.

Lemma check_result key now r :
  let ts := drop_while (λ t, t <? now - window r) (default [] (requests r !! key)) in
  let b := negb (max_requests r <=? Z.of_nat (length ts)) in
  let '(o, r') := check key now r in
  is_ok o = b ∧ max_requests r' = max_requests r ∧ window r' = window r ∧
  ∀ k, default [] (requests r' !! k) =
       if decide (k = key) then (if b then ts ++ [now] else ts) else default [] (requests r !! k).
Proof.
  intros ts b. unfold check. destruct (cleanup_config key now r) as [Hm Hw].
  pose proof (cleanup_requests key now r) as Hreq. set (r1 := cleanup key now r) in *. clearbody r1.
  destruct (get_default_spec key (requests r1)) as [Hts Hoth].
  destruct (get_default key (requests r1)) as [ts1 m]. cbn [fst snd] in *.
  assert (ts1 = ts) as -> by (rewrite Hts, Hreq, decide_True by done; done).
  rewrite Hm. subst b. destruct (max_requests r <=? _); cbn [negb is_ok max_requests window requests with_requests].
  - split_and!; [done..|]. intros k. rewrite Hoth, Hreq. done.
  - split_and!; [done..|]. intros k. case_decide as Hk; [subst; by rewrite lookup_insert_eq|].
    rewrite lookup_insert_ne by done. rewrite Hoth, Hreq. by rewrite decide_False.
Qed.

Lemma sorted_snoc l x : Sorted Z.le l → Forall (λ t, t ≤ x) l → Sorted Z.le (l ++ [x]).
Proof.
  intros Hs%Sorted_StronglySorted Hall; [|intros ???; lia]. apply StronglySorted_Sorted.
  apply StronglySorted_app_2; [|done|by repeat constructor].
  intros y z Hy ->%list_elem_of_singleton. by apply (proj1 (Forall_forall _ _) Hall).
Qed.

(** One request: the limiter decides as the specification, and stays in step. *)
Lemma check_simulates last log r key now :
  0 ≤ window r → simulates last log r → last ≤ now →
  let '(o, r') := check key now r in
  let '(b, log') := spec_step (max_requests r) (window r) log (key, now) in
  is_ok o = b ∧ simulates now log' r' ∧ max_requests r' = max_requests r ∧ window r' = window r.
Proof.
  intros Hw0 [Hk Hs Hl] Hle. pose proof (check_result key now r) as Hc. cbv zeta in Hc.
  rewrite (kept_pruned _ last now key log _ (Hk key) (Hs key) Hle) in Hc.
  destruct (check key now r) as [o r']. destruct Hc as (-> & Hm & Hw & Hreq).
  unfold spec_step. cbn [fst snd].
  assert (∀ k, kept (window r') now k log (default [] (requests r !! k))) as Hkept.
  { intros k. destruct (Hk k) as (c & Hc & ->). exists c. rewrite Hw. split; [lia|done]. }
  assert (∀ k, Forall (λ t, t ≤ now) (times k log)) as Hnow.
  { intros k. eapply Forall_impl; [apply Hl|]. cbn. intros t Ht. lia. }
  destruct (max_requests r <=? _); cbn [negb] in *; (split_and!; [done| |done|done]); split; try done.
  - intros k. rewrite Hreq. case_decide as E; [subst|done]. exists (now - window r).
    rewrite Hw. split; [lia|done].
  - intros k. rewrite Hreq. destruct (decide (k = key)) as [->|Hne].
    + exists (now - window r). rewrite Hw. split; [lia|].
      rewrite times_app, times_one, decide_True by done. cbn [snd]. rewrite filter_app.
      f_equal. by rewrite filter_cons_True by lia.
    + destruct (Hkept k) as (c & Hc & ->). exists c. split; [done|].
      rewrite times_app, times_one, decide_False by (cbn; congruence). by rewrite app_nil_r.
  - intros k. rewrite times_app, times_one. case_decide; [|by rewrite app_nil_r].
    cbn [snd]. by apply sorted_snoc.
  - intros k. rewrite times_app, times_one. apply Forall_app. split; [done|].
    case_decide; [|done]. by repeat constructor.
Qed.

Lemma simulates_empty last max w : simulates last [] (MkLimiter max w ∅).
Proof.
  split; intros key; [|constructor|constructor]. cbn. rewrite lookup_empty. cbn. by exists (last - w).
Qed.

(** Requests in the order of the clock, from [last] on. *)
Fixpoint in_order (last : Z) (qs : list (pystr * Z)) : Prop :=
  match qs with
  | [] => True
  | q :: qs' => last ≤ q.2 ∧ in_order q.2 qs'
  end.

Lemma run_simulates qs : ∀ last log r,
  0 ≤ window r → simulates last log r → in_order last qs →
  (run_limiter r qs).1 = (spec_run (max_requests r) (window r) log qs).1.
Proof.
  induction qs as [|[key now] qs IH]; intros last log r Hw Hsim Hord; [done|]. destruct Hord as [Hle Hord].
  cbn [run_limiter spec_run]. pose proof (check_simulates last log r key now Hw Hsim Hle) as Hstep.
  destruct (check key now r) as [o r'], (spec_step _ _ _ _) as [b log'].
  destruct Hstep as (-> & Hsim' & Hm' & Hw'). cbn [snd] in Hord.
  specialize (IH now log' r' ltac:(lia) Hsim' Hord). rewrite Hm', Hw' in IH.
  destruct (run_limiter r' qs), (spec_run _ _ _ qs). cbn in *. by rewrite IH.
Qed.

(** C20: the limiter refines its specification.  On any sequence of requests, from
    any clients, with a clock that does not go back, it answers as a log of the
    accepted requests would: a request is accepted exactly when fewer than
    [max_requests] accepted requests of its client lie in the window that ends
    with it.  What it forgets never changes an answer. *)
Theorem limiter_refines_log (max w last : Z) (qs : list (pystr * Z)) :
  0 ≤ w → in_order last qs →
  (run_limiter (MkLimiter max w ∅) qs).1 = (spec_run max w [] qs).1.
Proof. intros Hw Hord. by apply (run_simulates qs last [] (MkLimiter max w ∅)); [|apply simulates_empty|]. Qed.

(** ** The bound *)

(** Every accepted request found room. *)
Inductive bounded_log (max w : Z) : list (pystr * Z) → Prop :=
| bounded_nil : bounded_log max w []
| bounded_snoc log q :
    bounded_log max w log → Forall (λ e, e.2 ≤ q.2) log →
    Z.of_nat (length (recent w q.2 q.1 log)) < max → bounded_log max w (log ++ [q]).

Lemma spec_run_bounded max w qs : ∀ last log,
  bounded_log max w log → Forall (λ e, e.2 ≤ last) log → in_order last qs →
  bounded_log max w (spec_run max w log qs).2.
Proof.
  induction qs as [|q qs IH]; intros last log Hb Hl Hord; [done|]. destruct Hord as [Hle Hord].
  assert (Forall (λ e, e.2 ≤ q.2) log) as Hq.
  { eapply Forall_impl; [exact Hl|]. cbn. intros e He. lia. }
  cbn [spec_run]. unfold spec_step. destruct (max <=? _) eqn:E; zbool.
  - specialize (IH q.2 log Hb Hq Hord). by destruct (spec_run _ _ _ qs).
  - specialize (IH q.2 (log ++ [q]) ltac:(by constructor)).
    destruct (spec_run _ _ _ qs). apply IH; [|done]. apply Forall_app. split; [done|]. by constructor.
Qed.

(** The requests of [key] between two instants. *)
Definition between (key : pystr) (t1 t2 : Z) (log : list (pystr * Z)) : list Z :=
  filter (λ t, t1 ≤ t ≤ t2) (times key log).

Lemma filter_length_le (P Q : Z → Prop) `{∀ x, Decision (P x), ∀ x, Decision (Q x)} (l : list Z) :
  (∀ x, P x → Q x) → (length (filter P l) ≤ length (filter Q l))%nat.
Proof.
  intros HPQ. induction l as [|x l IH]; [done|]. destruct (decide (P x)).
  - rewrite !filter_cons_True by auto. cbn. lia.
  - rewrite filter_cons_False by done. destruct (decide (Q x)).
    + rewrite filter_cons_True by done. cbn. lia.
    + by rewrite filter_cons_False.
Qed.

Lemma between_bound max w log key t :
  0 ≤ max → bounded_log max w log → Z.of_nat (length (between key t (t + w) log)) ≤ max.
Proof.
  intros Hmax. induction 1 as [|log q Hb IH Hl Hroom]; [done|].
  unfold between in *. rewrite times_app, filter_app, length_app, times_one.
  case_decide as Hk; [|cbn; lia]. destruct (decide (t ≤ q.2 ≤ t + w)) as [Hin|Hout].
  - rewrite filter_cons_True by done. cbn [length].
    enough (length (filter (λ x : Z, (t ≤ x ≤ t + w)%Z) (times key log)) ≤ length (recent w q.2 q.1 log))%nat
      by (cbn; lia).
    unfold recent. rewrite Hk. apply filter_length_le. intros x. lia.
  - rewrite filter_cons_False by done. cbn. lia.
Qed.

(** The log is what was accepted. *)
Lemma spec_run_log max w qs : ∀ log,
  (spec_run max w log qs).2 = log ++ (filter (λ x, x.2 = true) (zip qs (spec_run max w log qs).1)).*1.
Proof.
  induction qs as [|q qs IH]; intros log; cbn [spec_run]; [by rewrite app_nil_r|]. unfold spec_step.
  destruct (max <=? _).
  - specialize (IH log). destruct (spec_run max w log qs) as [bs log']. cbn [fst snd zip zip_with] in *.
    by rewrite filter_cons_False.
  - specialize (IH (log ++ [q])). destruct (spec_run max w (log ++ [q]) qs) as [bs log'].
    cbn [fst snd zip zip_with] in *. rewrite filter_cons_True by done. rewrite IH. by rewrite <- app_assoc.
Qed.

(** C35: the bound.  Whatever the requests, in every window of the configured
    length, wherever it starts, at most [max_requests] requests of a client are
    accepted. *)
Theorem limiter_bound (max w last t : Z) (key : pystr) (qs : list (pystr * Z)) :
  0 ≤ max → 0 ≤ w → in_order last qs →
  let answers := (run_limiter (MkLimiter max w ∅) qs).1 in
  let accepted := (filter (λ x, x.2 = true) (zip qs answers)).*1 in
  Z.of_nat (length (between key t (t + w) accepted)) ≤ max.
Proof.
  intros Hmax Hw Hord answers accepted. subst accepted answers.
  rewrite (run_simulates qs last [] (MkLimiter max w ∅) Hw (simulates_empty last max w) Hord).
  cbn [max_requests window]. rewrite <- (app_nil_l (_.*1)), <- spec_run_log.
  apply between_bound; [done|]. eapply (spec_run_bounded _ _ _ last); [constructor|constructor|done].
Qed.
