(* ===== verification/DlqReplay.v ===== *)
(** * Replaying dead letters

    Models [src/src/dlq_replay.py].  The Kafka clients are third-party code:
    they are a record of coroutines over a state of their own, whose documented
    behaviour is a class of laws. *)

From S2P Require Import Prelude PyDict PyText PyJson PyUuid PyTime Prog Domain World Ports Upload Consume Config.
Local Open Scope Z_scope.

(** ** Messages *)

Record ReplayMessage := MkReplay {
  rm_key : pystr;
  rm_value : pybytes
}.

(** [_parse_dlq_payload] *)
Definition parse_dlq_payload `{PyTables} (raw_value : pybytes) : outcome (list (pystr * json)) :=
  payload ← or_raise (EValue (tbl_json_error raw_value)) (loads raw_value);
  match payload with
  | JObj o => Ok o
  | _ => Exn (EValue (lit "DLQ payload must be a JSON object"))
  end.

(** [{"image_id": ..., "attempt": 0}] *)
Definition replay_payload (image_id : pystr) : json :=
  JObj [(lit "image_id", JStr image_id); (lit "attempt", JInt 0)].

(** [payload.get("original_key") or default] *)
Definition original_key_or `{PyTables} (payload : list (pystr * json)) (default_key : json) : json :=
  match dict_get (lit "original_key") payload with
  | Some k => if json_truthy k then k else default_key
  | None => default_key
  end.

(** The image id of the embedded payload, unless it is missing or [None]. *)
Definition embedded_image_id (payload : list (pystr * json)) : option json :=
  match dict_get (lit "payload") payload with
  | Some (JObj o) =>
      match dict_get (lit "image_id") o with
      | Some JNull | None => None
      | Some v => Some v
      end
  | _ => None
  end.

(** The other source: the original message, kept as text. *)
Definition build_from_original `{PyTables} (payload : list (pystr * json)) : outcome ReplayMessage :=
  match dict_get (lit "original_value") payload with
  | Some (JStr s) =>
      parsed ← or_raise (EValue (tbl_json_error s)) (loads_str s);
      match parsed with
      | JObj o =>
          image_id ← or_raise (EValue (lit "original_value does not contain a replayable image_id"))
                       (dict_get (lit "image_id") o);
          let image_id := py_str_json image_id in
          Ok (MkReplay (py_str_json (original_key_or payload (JStr image_id)))
                (dumps (replay_payload image_id)))
      | _ => Exn (EValue (lit "original_value does not contain a replayable image_id"))
      end
  | _ => Exn (EValue (lit "DLQ payload is missing both 'payload.image_id' and 'original_value'"))
  end.

(** [_build_replay_message] *)
Definition build_replay_message `{PyTables} (payload : list (pystr * json)) : outcome ReplayMessage :=
  match embedded_image_id payload with
  | Some image_id =>
      Ok (MkReplay (py_str_json (original_key_or payload image_id))
            (dumps (replay_payload (py_str_json image_id))))
  | None => build_from_original payload
  end.

(** ** The replay *)

(** The part of a consumer record the replay reads. *)
Record DlqRecord := MkRecord { rec_offset : Z; rec_value : pybytes }.

Record Clients (St : Type) := MkClients {
  consumer_start : prog St unit;
  producer_start : prog St unit;
  getmany : Z → Z → prog St (list (list DlqRecord));
  send_and_wait : pystr → pybytes → pybytes → prog St unit;
  commit : prog St unit;
  consumer_stop : prog St unit;
  producer_stop : prog St unit
}.
Arguments MkClients {St}.
Arguments consumer_start {St}. Arguments producer_start {St}. Arguments getmany {St}.
Arguments send_and_wait {St}. Arguments commit {St}. Arguments consumer_stop {St}.
Arguments producer_stop {St}.

Record Args := MkArgs {
  limit : Z;
  arg_source_topic : option pystr;
  target_topic : pystr;
  arg_consumer_group : option pystr;
  poll_timeout_ms : Z;
  dry_run : bool
}.

(** What [_parse_args] yields for an empty command line. *)
Definition default_args : Args := MkArgs 100 None IMAGE_PROCESSING_TOPIC None 1000 false.

(** The topic read and the group it is read in; an empty argument counts as none. *)
Definition source_topic (settings : Settings) (args : Args) : pystr :=
  match arg_source_topic args with None | Some [] => kafka_dlq_topic settings | Some t => t end.
Definition consumer_group (settings : Settings) (args : Args) : pystr :=
  match arg_consumer_group args with
  | None | Some [] => kafka_consumer_group settings ++ lit "-dlq-replay"
  | Some g => g
  end.

Record Counts := MkCounts { inspected : Z; replayed : Z; skipped : Z }.

Section replay.
Context `{PyTables} {St : Type} (k : Clients St) (args : Args).

Definition replay_message (r : DlqRecord) : outcome ReplayMessage :=
  payload ← parse_dlq_payload (rec_value r); build_replay_message payload.

(** The body of the record loop. *)
Definition replay_record (r : DlqRecord) (c : Counts) : prog St Counts :=
  let c := MkCounts (inspected c + 1) (replayed c) (skipped c) in
  match replay_message r with
  | Exn e =>
      if is_value_error e then mret (MkCounts (inspected c) (replayed c) (skipped c + 1))
      else raise e
  | Ok m =>
      if dry_run args then mret c
      else
        key ← lift (or_raise (EValue (lit "surrogates not allowed")) (utf8_encode (rm_key m)));
        send_and_wait k (target_topic args) key (rm_value m);;
        mret (MkCounts (inspected c) (replayed c + 1) (skipped c))
  end.

Fixpoint replay_records (rs : list DlqRecord) (c : Counts) : prog St Counts :=
  match rs with
  | [] => mret c
  | r :: rs' => c' ← replay_record r c; replay_records rs' c'
  end.

(** [while inspected < args.limit]; [None] is running out of fuel. *)
Fixpoint replay_loop (fuel : nat) (c : Counts) : prog St (option Counts) :=
  match fuel with
  | O => mret None
  | S fuel' =>
      if inspected c <? limit args then
        batches ← getmany k (poll_timeout_ms args) (limit args - inspected c);
        match batches with
        | [] => mret (Some c)
        | _ =>
            c' ← replay_records (concat batches) c;
            (if negb (dry_run args) && negb (bool_decide (concat batches = [])) then commit k else mret tt);;
            replay_loop fuel' c'
        end
      else mret (Some c)
  end.

(** [_run_replay] once the clients are made; the counts are what it logs at the end. *)
Definition run_replay (fuel : nat) : prog St (option Counts) :=
  consumer_start k;;
  (if dry_run args then mret tt else producer_start k);;
  try_finally (replay_loop fuel (MkCounts 0 0 0))
    (consumer_stop k;; if dry_run args then mret tt else producer_stop k).
End replay.

(** [main], for the parsed arguments; clients are made for a topic, the servers and
    a group. *)
Definition main `{PyTables} {St} (clients : pystr → pystr → pystr → Clients St) (settings : Settings) (args : Args)
    (fuel : nat) : prog St (option Counts) :=
  if limit args <? 1 then raise (EValue (lit "--limit must be >= 1"))
  else if poll_timeout_ms args <? 1 then raise (EValue (lit "--poll-timeout-ms must be >= 1"))
  else
    run_replay (clients (source_topic settings args) (kafka_bootstrap_servers settings) (consumer_group settings args))
      args fuel.

(** ** The clients' promises *)

(** What the consumer has still to deliver, what it has delivered since the
    last commit, and what the producer has sent.  [getmany] delivers in order
    and at most as many records as asked for; its answer has no partition
    without records; a failed [send_and_wait] may have sent, a failed [commit]
    may have committed. *)
Class KafkaLaws {St} (k : Clients St) := {
  pending : St → list DlqRecord;
  uncommitted : St → list DlqRecord;
  sent : St → list (pystr * pybytes * pybytes);
  idle w w' := pending w' = pending w ∧ uncommitted w' = uncommitted w ∧ sent w' = sent w;
  consumer_start_law w : wp (consumer_start k) (λ _ w', idle w w') w;
  producer_start_law w : wp (producer_start k) (λ _ w', idle w w') w;
  consumer_stop_law w : wp (consumer_stop k) (λ _ w', idle w w') w;
  producer_stop_law w : wp (producer_stop k) (λ _ w', idle w w') w;
  getmany_law t n w :
    wp (getmany k t n)
      (λ o w', sent w' = sent w ∧
         match o with
         | Ok batches =>
             let rs := concat batches in
             (batches = [] ∨ rs ≠ []) ∧ Z.of_nat (length rs) ≤ Z.max 0 n ∧
             pending w = rs ++ pending w' ∧ uncommitted w' = uncommitted w ++ rs
         | Exn _ => pending w' = pending w ∧ uncommitted w' = uncommitted w
         end) w;
  send_law topic key value w :
    wp (send_and_wait k topic key value)
      (λ o w', pending w' = pending w ∧ uncommitted w' = uncommitted w ∧
         match o with
         | Ok _ => sent w' = sent w ++ [(topic, key, value)]
         | Exn _ => sent w' = sent w ∨ sent w' = sent w ++ [(topic, key, value)]
         end) w;
  commit_law w :
    wp (commit k)
      (λ o w', pending w' = pending w ∧ sent w' = sent w ∧
         match o with
         | Ok _ => uncommitted w' = []
         | Exn _ => uncommitted w' = uncommitted w ∨ uncommitted w' = []
         end) w
}.

Section proofs.
Context `{PyTables} {St : Type} (k : Clients St) `{!KafkaLaws k} (args : Args).

(** What replaying a record sends. *)
Definition send_of (r : DlqRecord) : option (pystr * pybytes * pybytes) :=
  match replay_message r with
  | Ok m => (λ key, (target_topic args, key, rm_value m)) <$> utf8_encode (rm_key m)
  | Exn _ => None
  end.

Definition sends (rs : list DlqRecord) : list (pystr * pybytes * pybytes) :=
  if dry_run args then [] else omap send_of rs.

Definition replayable (r : DlqRecord) : bool := match replay_message r with Ok _ => true | Exn _ => false end.

(** What the counts say of the records inspected. *)
Definition counted (rs : list DlqRecord) (c c' : Counts) : Prop :=
  inspected c' = inspected c + Z.of_nat (length rs) ∧
  replayed c' = replayed c + Z.of_nat (length (sends rs)) ∧
  skipped c' = skipped c + Z.of_nat (length (filter (λ r, replayable r = false) rs)) ∧
  (dry_run args = false → inspected c' - replayed c' - skipped c' = inspected c - replayed c - skipped c).

Lemma counted_nil c : counted [] c c.
Proof. unfold counted, sends. by destruct (dry_run args); cbn; split_and!; try lia. Qed.

Lemma sends_app rs1 rs2 : sends (rs1 ++ rs2) = sends rs1 ++ sends rs2.
Proof. unfold sends. destruct (dry_run args); [done|]. apply omap_app. Qed.

Lemma counted_app rs1 rs2 c1 c2 c3 : counted rs1 c1 c2 → counted rs2 c2 c3 → counted (rs1 ++ rs2) c1 c3.
Proof.
  intros (H1 & H2 & H3 & H4) (G1 & G2 & G3 & G4). unfold counted.
  rewrite sends_app, filter_app, !length_app. split_and!; try lia. intros Hd. rewrite G4, H4; done.
Qed.

(** Only messages are sent; nothing is fetched or committed. *)
Definition only_sent (ms : list (pystr * pybytes * pybytes)) (w w' : St) : Prop :=
  pending w' = pending w ∧ uncommitted w' = uncommitted w ∧ sent w' = sent w ++ ms.

(** Every error of the conversion is a [ValueError]. *)
Lemma build_replay_error payload e : build_replay_message payload = Exn e → is_value_error e = true.
Proof.
  unfold build_replay_message, build_from_original. destruct (embedded_image_id payload); [done|].
  destruct (dict_get _ payload) as [[]|]; try (by intros [= <-]). destruct (loads_str _) as [[]|]; cbn;
    try (by intros [= <-]). by destruct (dict_get _ _); cbn; intros [= <-].
Qed.

Lemma replay_message_error r e : replay_message r = Exn e → is_value_error e = true.
Proof.
  unfold replay_message, parse_dlq_payload. destruct (loads _) as [[]|]; cbn; try (by intros [= <-]).
  apply build_replay_error.
Qed.

Lemma counted_one r i re sk re' sk' :
  re' = re + Z.of_nat (length (sends [r])) → sk' = sk + (if replayable r then 0 else 1) →
  (dry_run args = false → re' - re + (sk' - sk) = 1) →
  counted [r] (MkCounts i re sk) (MkCounts (i + 1) re' sk').
Proof.
  intros Hre Hsk Hsum. unfold counted. cbn [inspected replayed skipped length].
  destruct (replayable r) eqn:E; [rewrite filter_cons_False by congruence|rewrite filter_cons_True by done];
    cbn [length]; (split_and!; [lia|done|cbn; lia|intros Hd; specialize (Hsum Hd); lia]).
Qed.

Lemma wp_replay_record r c (Q : outcome Counts → St → Prop) w :
  (∀ c' w', counted [r] c c' → only_sent (sends [r]) w w' → Q (Ok c') w') →
  (∀ e ms w', only_sent ms w w' → Q (Exn e) w') →
  wp (replay_record k args r c) Q w.
Proof.
  intros HQ HE. destruct c as [i re sk]. unfold replay_record. cbv zeta. cbn [inspected replayed skipped].
  assert (only_sent [] w w) as Hnone by (split_and!; [done..|by rewrite app_nil_r]).
  pose proof (counted_one r i re sk) as Hone. unfold sends, replayable, send_of in *. cbn [omap list_omap] in *.
  destruct (replay_message r) as [m|e] eqn:Em.
  - destruct (dry_run args); [by apply wp_ret, HQ; [apply Hone; cbn; lia|]|].
    apply wp_bind, wp_done. destruct (utf8_encode (rm_key m)) as [key|]; cbn [or_raise fmap option_fmap option_map] in *.
    + apply wp_bind. eapply wp_mono; [apply send_law|]. intros [[]|e] w' (Hp & Hu & Hs).
      * apply wp_ret, HQ; [apply Hone; cbn; lia|by split_and!].
      * destruct Hs as [Hs|Hs]; eapply HE; split_and!; [done|done| |done|done|exact Hs].
        rewrite Hs. by rewrite app_nil_r.
    + by eapply HE.
  - rewrite (replay_message_error r e Em). apply wp_ret, HQ.
    + apply Hone; destruct (dry_run args); cbn; lia.
    + by destruct (dry_run args).
Qed.

Lemma only_sent_app ms1 ms2 w1 w2 w3 :
  only_sent ms1 w1 w2 → only_sent ms2 w2 w3 → only_sent (ms1 ++ ms2) w1 w3.
Proof. intros (H1 & H2 & H3) (G1 & G2 & G3). split_and!; [congruence..|]. by rewrite G3, H3, <- app_assoc. Qed.

Lemma wp_replay_records rs : ∀ c (Q : outcome Counts → St → Prop) w,
  (∀ c' w', counted rs c c' → only_sent (sends rs) w w' → Q (Ok c') w') →
  (∀ e ms w', only_sent ms w w' → Q (Exn e) w') →
  wp (replay_records k args rs c) Q w.
Proof.
  induction rs as [|r rs IH]; intros c Q w HQ HE; cbn [replay_records].
  - apply wp_ret, HQ; [apply counted_nil|]. unfold sends. split_and!; [done..|].
    destruct (dry_run args); by rewrite app_nil_r.
  - apply wp_bind, wp_replay_record; [|exact HE]. intros c1 w1 Hc1 Hs1. apply IH.
    + intros c2 w2 Hc2 Hs2. apply HQ; [by eapply (counted_app [r])|].
      assert (sends (r :: rs) = sends [r] ++ sends rs) as -> by apply (sends_app [r] rs).
      by eapply only_sent_app.
    + intros e ms w2 Hs2. eapply HE. by eapply only_sent_app.
Qed.

(** ** The loop *)

(** [rs] was fetched since [w0], and all of it settled: sent and, but for a
    dry run, committed. *)
Definition settled (w0 : St) (rs : list DlqRecord) (w : St) : Prop :=
  pending w0 = rs ++ pending w ∧ sent w = sent w0 ++ sends rs ∧
  uncommitted w = (if dry_run args then uncommitted w0 ++ rs else []).

(** When the run fails: what is committed was sent; the rest is delivered again
    to the next run. *)
Definition interrupted (w0 : St) (w : St) : Prop :=
  ∃ done rest extra, pending w0 = done ++ rest ++ pending w ∧
    sent w = sent w0 ++ sends done ++ extra ∧
    uncommitted w = (if dry_run args then uncommitted w0 ++ done else []) ++ rest.

Lemma settled_interrupted w0 rs w : settled w0 rs w → interrupted w0 w.
Proof.
  intros (Hp & Hs & Hu). exists rs, [], []. by rewrite app_nil_r, Hu, app_nil_r.
Qed.

(** The loop ends within [limit + 1] rounds: each fetches a record. *)
Lemma wp_replay_loop fuel : ∀ rs c (Q : outcome (option Counts) → St → Prop) w0 w,
  (dry_run args = false → uncommitted w0 = []) →
  settled w0 rs w → counted rs (MkCounts 0 0 0) c → inspected c ≤ Z.max 0 (limit args) →
  (Z.to_nat (limit args - inspected c) < fuel)%nat →
  (∀ rs' c' w', settled w0 rs' w' → counted rs' (MkCounts 0 0 0) c' →
                inspected c' ≤ Z.max 0 (limit args) → Q (Ok (Some c')) w') →
  (∀ e w', interrupted w0 w' → Q (Exn e) w') →
  wp (replay_loop k args fuel c) Q w.
Proof.
  induction fuel as [|fuel IH]; intros rs c Q w0 w Hu0 Hset Hc Hlim Hfuel HQ HE; [lia|].
  cbn [replay_loop]. destruct (inspected c <? limit args) eqn:Hlt; zbool; [|by apply wp_ret, (HQ rs)].
  pose proof Hset as (Hp & Hs & Hu).
  apply wp_bind. eapply wp_mono; [apply getmany_law|]. intros [batches|e] w1 (Hs1 & Ho).
  2:{ destruct Ho as [Hp1 Hu1]. apply HE, (settled_interrupted _ rs). split_and!; congruence. }
  destruct Ho as (Hne & Hlen & Hp1 & Hu1). set (new := concat batches) in *.
  destruct batches as [|b batches].
  { apply wp_ret, (HQ rs); [|done|done]. cbn in new. subst new. rewrite app_nil_r in Hu1. cbn [app] in Hp1.
    split_and!; congruence. }
  destruct Hne as [|Hne]; [done|]. clearbody new. clear b batches.
  assert (0 < Z.of_nat (length new)) as Hpos by (destruct new; cbn; [done|lia]).
  apply wp_bind, wp_replay_records.
  2:{ intros e ms w2 (Hp2 & Hu2 & Hs2). apply HE. exists rs, new, ms.
      rewrite Hp2, Hu2, Hs2, Hs1, Hs, Hu1, Hu, Hp, Hp1, <- !app_assoc. by split_and!. }
  intros c2 w2 Hc2 (Hp2 & Hu2 & Hs2). pose proof Hc2 as (Hi2 & _).
  assert (counted (rs ++ new) (MkCounts 0 0 0) c2) as Hc02 by by eapply counted_app.
  rewrite (bool_decide_false (new = [])) by done. cbn [negb andb]. rewrite andb_true_r.
  assert (pending w0 = (rs ++ new) ++ pending w2) as Hp02.
  { by rewrite Hp, Hp1, Hp2, <- app_assoc. }
  assert (sent w2 = sent w0 ++ sends (rs ++ new)) as Hs02.
  { by rewrite Hs2, Hs1, Hs, sends_app, <- app_assoc. }
  assert (∀ w3, settled w0 (rs ++ new) w3 → wp (replay_loop k args fuel c2) Q w3) as Hgo.
  { intros w3 Hset3. apply (IH (rs ++ new) c2 Q w0 w3); try done; lia. }
  apply wp_bind. destruct (dry_run args) eqn:Hd; cbn [negb].
  - apply wp_ret, Hgo. split_and!; [done|done|]. rewrite Hd, Hu2, Hu1, Hu. by rewrite <- app_assoc.
  - eapply wp_mono; [apply commit_law|]. intros [[]|e] w3 (Hp3 & Hs3 & Hu3).
    + apply Hgo. split_and!; [by rewrite Hp3|by rewrite Hs3|by rewrite Hd].
    + apply HE. destruct Hu3 as [Hu3|Hu3].
      * exists rs, new, (sends new). rewrite Hp3, Hs3, Hu3, Hu2, Hu1, Hu, Hd.
        rewrite Hp02, Hs02, sends_app, <- !app_assoc. by split_and!.
      * exists (rs ++ new), [], []. rewrite Hp3, Hs3, Hu3, Hd. rewrite Hp02, Hs02, app_nil_r. by split_and!.
Qed.

Lemma idle_settled w0 rs w w' : settled w0 rs w → idle w w' → settled w0 rs w'.
Proof. intros (Hp & Hs & Hu) (Ip & Iu & Is). split_and!; congruence. Qed.

Lemma idle_interrupted w0 w w' : interrupted w0 w → idle w w' → interrupted w0 w'.
Proof.
  intros (d & r & x & Hp & Hs & Hu) (Ip & Iu & Is). exists d, r, x. rewrite Ip, Is, Iu. by split_and!.
Qed.

Lemma idle_trans w1 w2 w3 : idle w1 w2 → idle w2 w3 → idle w1 w3.
Proof. intros (? & ? & ?) (? & ? & ?). split_and!; congruence. Qed.

(** Starting or stopping the producer, when there is one. *)
Lemma wp_if_live (p : prog St unit) (Q : outcome unit → St → Prop) w :
  wp p (λ _ w', idle w w') w → (∀ o w', idle w w' → Q o w') →
  wp (if dry_run args then mret tt else p) Q w.
Proof. intros Hp HQ. destruct (dry_run args); [by apply wp_ret, HQ|]. by eapply wp_mono. Qed.

Lemma wp_stop (Q : outcome unit → St → Prop) w :
  (∀ o w', idle w w' → Q o w') →
  wp (consumer_stop k;; if dry_run args then mret tt else producer_stop k) Q w.
Proof.
  intros HQ. apply wp_bind. eapply wp_mono; [apply consumer_stop_law|]. intros [[]|e] w1 H1; [|by apply HQ].
  apply wp_if_live; [apply producer_stop_law|]. intros o w2 H2. apply HQ. by eapply idle_trans.
Qed.

(** C12: a replay is at least once, and ends.  A run inspects at most [limit]
    records, in the order of the topic; it sends the replay message of each
    replayable one, once and in that order, counts the others as skipped, and
    commits what it inspected; a dry run sends and commits nothing.  If it fails
    at any point, all that is committed was sent, so no dead letter is lost: the
    uncommitted ones are delivered again to the next run. *)
Theorem replay_at_least_once (fuel : nat) (w : St) :
  (dry_run args = false → uncommitted w = []) →
  (Z.to_nat (limit args) < fuel)%nat →
  wp (run_replay k args fuel)
    (λ o w', match o with
             | Ok None => False
             | Ok (Some c) => ∃ rs, settled w rs w' ∧ counted rs (MkCounts 0 0 0) c ∧
                                    inspected c ≤ Z.max 0 (limit args)
             | Exn _ => interrupted w w'
             end) w.
Proof.
  intros Hu Hfuel.
  assert (settled w [] w) as H0.
  { split_and!; [done|unfold sends; destruct (dry_run args); by rewrite app_nil_r|].
    destruct (dry_run args); [by rewrite app_nil_r|auto]. }
  assert (∀ w', idle w w' → interrupted w w') as Hidle.
  { intros w' Hi. by eapply settled_interrupted, idle_settled. }
  apply wp_bind. eapply wp_mono; [apply consumer_start_law|]. intros [[]|e] w1 H1; [|by apply Hidle].
  apply wp_bind. apply wp_if_live; [apply producer_start_law|]. intros o w2 H2.
  pose proof (idle_trans _ _ _ H1 H2) as H12. destruct o as [[]|e]; [|by apply Hidle].
  apply wp_bind, wp_try. eapply (wp_replay_loop _ [] _ _ w);
    [done|by eapply idle_settled|apply counted_nil|cbn; lia|cbn; lia| |].
  - intros rs c w3 Hset Hc Hlim. apply wp_bind, wp_stop. intros [[]|e] w4 H4.
    + apply wp_ret. exists rs. split_and!; [by eapply idle_settled|done|done].
    + eapply settled_interrupted, idle_settled; [exact Hset|done].
  - intros e w3 Hint. apply wp_bind, wp_stop. intros [[]|e'] w4 H4; by eapply idle_interrupted.
Qed.

(** ** From a task to its dead letter and back *)

Lemma lit_ok s : forallb is_text (lit s) = true → str_ok (lit s) = true.
Proof. intros Hs. apply text_str_ok, lit_text, Hs. Qed.

Lemma dead_letter_payload_ok now m reason error payload :
  str_ok reason = true → str_ok error = true → str_ok (msg_key m) = true →
  Forall (λ b, 0 ≤ b) (msg_value m) → json_ok (JObj payload) = true →
  json_ok (JObj (dead_letter_payload now m reason error payload)) = true.
Proof.
  intros Hr He Hk Hv Hp. unfold dead_letter_payload. cbn [json_ok forallb fmap list_fmap fst] in *.
  rewrite Hr, He, Hk, Hp, (text_str_ok _ (isoformat_text now)).
  assert (str_ok (utf8_decode_replace (msg_value m)) = true) as ->.
  { apply forallb_forall. intros c Hc%list_elem_of_In.
    by apply (proj1 (Forall_forall _ _) (utf8_decode_replace_scalar _ Hv)). }
  rewrite bool_decide_true; [reflexivity|]. vm_compute. repeat constructor; set_solver.
Qed.

Lemma replay_payload_ok s : str_ok s = true → json_ok (replay_payload s) = true.
Proof.
  intros Hs. unfold replay_payload. cbn [json_ok forallb fmap list_fmap fst]. rewrite Hs.
  rewrite bool_decide_true; [reflexivity|]. vm_compute. repeat constructor; set_solver.
Qed.

(** Parsing a task whose id is a string. *)
Lemma parse_task_id o s id n o' :
  dict_get (lit "image_id") o = Some (JStr s) → parse_task o = Ok (id, n, o') → uuid_parse s = Some id ∧ o' = o.
Proof.
  intros Hget. unfold parse_task. rewrite Hget, or_raise_Some.
  change (py_str_json (JStr s)) with s. destruct (uuid_parse s) as [u|]; cbn [or_raise mbind outcome_bind]; [|done].
  destruct (json_as_int _) as [z|]; cbn [or_raise mbind outcome_bind]; [|done].
  by destruct (z <? 0); [|intros [= -> _ <-]].
Qed.

Lemma parse_replay_payload s id topic key :
  str_ok s = true → uuid_parse s = Some id →
  parse_payload (MkMessage topic key (dumps (replay_payload s))) =
  Ok (id, 0, [(lit "image_id", JStr s); (lit "attempt", JInt 0)]).
Proof.
  intros Hs Hu. unfold replay_payload. rewrite parse_payload_dumps by by apply replay_payload_ok.
  set (o := [_; _]). unfold parse_task.
  change (dict_get (lit "image_id") o) with (Some (JStr s)). rewrite or_raise_Some.
  change (dict_get (lit "attempt") o) with (Some (JInt 0)).
  change (py_str_json (JStr s)) with s. by rewrite Hu, or_raise_Some.
Qed.

(** C33: a dead-lettered task can be replayed.  From the dead letter of a task the
    worker could read (whatever the reason it gave up), [dlq_replay] builds a
    message that the worker reads as the same image with the attempt count back
    at 0, under the original key, or the image id when there was none. *)
Theorem dead_letter_replays (m : Message) (id n now offset : Z) (payload : list (pystr * json))
    (s dlq_topic reason error : pystr) :
  parse_task payload = Ok (id, n, payload) → dict_get (lit "image_id") payload = Some (JStr s) →
  json_ok (JObj payload) = true → str_ok s = true → str_ok reason = true → str_ok error = true →
  str_ok (msg_key m) = true → Forall (λ b, 0 ≤ b) (msg_value m) →
  ∃ r, replay_message (MkRecord offset
         (msg_value (dead_letter_message dlq_topic now m reason error payload))) = Ok r ∧
       rm_key r = (match msg_key m with [] => s | _ => msg_key m end) ∧
       parse_payload (MkMessage IMAGE_PROCESSING_TOPIC (rm_key r) (rm_value r)) =
       Ok (id, 0, [(lit "image_id", JStr s); (lit "attempt", JInt 0)]).
Proof.
  intros Hparse Hget Hp Hs Hr He Hk Hv. destruct (parse_task_id _ _ _ _ _ Hget Hparse) as [Hu _].
  pose proof (dead_letter_payload_ok now m reason error payload Hr He Hk Hv Hp) as Hok.
  assert (embedded_image_id (dead_letter_payload now m reason error payload) = Some (JStr s)) as Hemb.
  { unfold embedded_image_id.
    assert (dict_get (lit "payload") (dead_letter_payload now m reason error payload) = Some (JObj payload)) as ->
      by reflexivity.
    by rewrite Hget. }
  assert (dict_get (lit "original_key") (dead_letter_payload now m reason error payload) = Some (JStr (msg_key m)))
    as Hkey by reflexivity.
  unfold replay_message, parse_dlq_payload. cbn [rec_value msg_value dead_letter_message].
  rewrite loads_dumps by exact Hok. cbn [or_raise mbind outcome_bind].
  unfold build_replay_message. rewrite Hemb. eexists. split; [reflexivity|]. cbn [rm_key rm_value]. split.
  - unfold original_key_or. rewrite Hkey. unfold json_truthy. by destruct (msg_key m).
  - by apply parse_replay_payload.
Qed.
End proofs.
