(* ===== verification/Api.v ===== *)
(** * The HTTP interface

    Models [src/src/presentation/api]: the routes ([routes/images.py],
    [routes/retention.py]), their parameter constraints and schemas
    ([schemas/image_schemas.py]), authentication, rate limits and wiring
    ([dependencies.py]); the settings are in [Config.v].  FastAPI is a class: what
    it does with a route's dependencies, constraints and handler. *)

From S2P Require Import Prelude PyText PyUuid Prog Domain Database Cache World Ports Repository Storage.
From S2P Require Import Upload Process Consume Reads Retention Schemas Sanitize RateLimit Processing Pipeline Config.
Local Open Scope Z_scope.

(** ** The state of a server process *)

Record server := MkServer {
  sv_world : world;
  sv_limiters : gmap pystr RateLimiter;
  sv_max_pixels : Z
}.

Definition set_world (w : world) (s : server) : server := MkServer w (sv_limiters s) (sv_max_pixels s).
Definition set_limiters (ls : gmap pystr RateLimiter) (s : server) : server :=
  MkServer (sv_world s) ls (sv_max_pixels s).
Definition set_max_pixels (n : Z) (s : server) : server := MkServer (sv_world s) (sv_limiters s) n.

Definition in_world {A} (p : coro A) : prog server A := zoom sv_world set_world p.
Definition in_pillow {A} (p : prog Z A) : prog server A := zoom sv_max_pixels set_max_pixels p.

(** ** Requests *)

(** What the dependencies see of a request. *)
Record Request := MkRequest {
  rq_api_key : option pystr;
  rq_client : Client
}.

Record UploadFile := MkUploadFile {
  uf_content_type : option pystr;
  uf_filename : option pystr;
  uf_data : pybytes
}.

(** FastAPI resolves the dependencies of a route in order and validates the
    constraints of its parameters, the order of the two being its own; a
    dependency that raises, or a constraint that fails, ends the request. *)
Definition unprocessable : exn := EHTTP 422 (lit "validation error").

Fixpoint run_all {St} (ps : list (prog St unit)) : prog St unit :=
  match ps with [] => mret tt | p :: ps' => p;; run_all ps' end.

Class FastAPI := {
  serve {A} : list (prog server unit) → bool → prog server A → prog server A;
  serve_valid {A} deps (handler : prog server A) s :
    run (serve deps true handler) s = run (run_all deps;; handler) s;
  serve_invalid {A} deps (handler : prog server A) s :
    ∃ n, run (serve deps false handler) s = run (run_all (take n deps);; raise unprocessable) s
}.

(** The status of the response to an outcome. *)
Definition http_status {A} (success : Z) (o : outcome A) : Z :=
  match o with Ok _ => success | Exn (EHTTP st _) => st | Exn _ => 500 end.

(** ** Constraints *)

Definition MAX_TAGS : Z := 20.
Definition MAX_UPLOAD_SIZE : Z := 50 * 1024 * 1024.
Definition MAX_IDEMPOTENCY_KEY_LENGTH : Z := 255.
Definition ALLOWED_CONTENT_TYPES : list pystr :=
  [lit "image/jpeg"; lit "image/png"; lit "image/webp"; lit "image/tiff"].

(** [Query(ge=1, le=8760)], [Header(min_length=1, max_length=255)] *)
Definition idempotency_key_ok (key : option pystr) : bool :=
  nullable (size_within 1 MAX_IDEMPOTENCY_KEY_LENGTH) key.
Definition upload_params_ok (ttl_hours : option Z) (key : option pystr) : bool :=
  nullable (within 1 8760) ttl_hours && idempotency_key_ok key.
(** [Query(ge=0)], [Query(ge=1, le=100)] *)
Definition list_params_ok (offset limit : Z) : bool := (0 <=? offset) && within 1 100 limit.
(** ** Dependencies *)

Section api.
Context `{PyTables, Pillow} (settings : Settings).
Context (repository : ImageRepository) (storage : ImageStorage) (processor : ImageProcessor)
  (broker : option MessageBroker).

Definition unauthorized : exn := EHTTP 401 (lit "Invalid or missing API key").

(** [secrets.compare_digest] on two [str] refuses characters outside ASCII. *)
Definition compare_digest (a b : pystr) : outcome bool :=
  if forallb is_ascii a && forallb is_ascii b then Ok (bool_decide (a = b))
  else Exn (EType (lit "comparing strings with non-ASCII characters is not supported")).

(** [require_api_key] *)
Definition require_api_key (r : Request) : prog server unit :=
  match api_key settings with
  | [] => mret tt
  | configured_key =>
      match rq_api_key r with
      | None => raise unauthorized
      | Some key =>
          same ← lift (compare_digest key configured_key);
          if (same : bool) then mret tt else raise unauthorized
      end
  end.

(** [upload_rate_limiter], [process_rate_limiter], [read_rate_limiter] *)
Definition rate_limiter (name : pystr) (max_requests window_seconds : Z) (r : Request) : prog server unit :=
  now ← in_world read_mono;
  act (λ s, let '(o, ls) := limit name max_requests (1000000 * window_seconds) (rq_client r) now (sv_limiters s) in
            (o, set_limiters ls s)).

Definition upload_rate_limiter : Request → prog server unit :=
  rate_limiter (lit "upload") (rate_limit_upload_max settings) (rate_limit_upload_window settings).
Definition process_rate_limiter : Request → prog server unit :=
  rate_limiter (lit "process") (rate_limit_process_max settings) (rate_limit_process_window settings).
Definition read_rate_limiter : Request → prog server unit :=
  rate_limiter (lit "read") (rate_limit_read_max settings) (rate_limit_read_window settings).

(** ** Handlers *)

(** The [except] clauses of the two handlers with an idempotency key. *)
Definition conflict (e : exn) : exn :=
  match e with
  | EIdempotencyInProgress m | EIdempotencyConflict m => EHTTP 409 m
  | _ => e
  end.

(** [file.content_type in ALLOWED_CONTENT_TYPES] *)
Definition content_type_allowed (file : UploadFile) : bool :=
  match uf_content_type file with Some t => bool_decide (t ∈ ALLOWED_CONTENT_TYPES) | None => false end.

(** The checks of [upload_image] on the file and the tags. *)
Definition check_upload (file : UploadFile) (tags : list pystr) : prog server unit :=
  (if content_type_allowed file then mret tt
   else raise (EHTTP 415 (lit "Content type " ++ default (lit "None") (uf_content_type file) ++
                          lit " not supported")));;
  (if MAX_TAGS <? Z.of_nat (length tags) then raise (EHTTP 422 (lit "Maximum 20 tags allowed"))
   else mret tt);;
  (if MAX_UPLOAD_SIZE <? Z.of_nat (length (uf_data file)) then raise (EHTTP 413 (lit "File exceeds 50 MB limit"))
   else mret tt);;
  try_except (in_pillow (validate_image_bytes (uf_data file) None))
    (λ e, match e with
          | EInvalidImage m => raise (EHTTP 422 (lit "Image validation failed: " ++ m))
          | _ => raise e
          end).

(** [file.filename or "unnamed"] *)
Definition filename_or (file : UploadFile) : pystr :=
  match uf_filename file with None | Some [] => lit "unnamed" | Some n => n end.

Definition upload_image (file : UploadFile) (tags : option (list pystr)) (ttl_hours : option Z)
    (idempotency_key : option pystr) : prog server ImageResponse :=
  let tags := default [] tags in
  check_upload file tags;;
  let safe_filename := sanitize_filename (filename_or file) in
  try_except
    (in_world (UploadImage.execute repository storage broker safe_filename (uf_data file) (Some tags)
                 ttl_hours idempotency_key))
    (λ e, raise (conflict e)).

Definition list_images (offset limit : Z) (status_filter : option pystr) : prog server ImageListResponse :=
  in_world (ListImages.execute repository offset limit status_filter).

Definition get_image (image_id : Z) : prog server ImageResponse :=
  result ← in_world (GetImage.execute repository image_id);
  match result with
  | None => raise (EHTTP 404 (lit "Image not found"))
  | Some r => mret r
  end.

Definition download_image (image_id : Z) (thumbnail : bool) : prog server pybytes :=
  data ← in_world (GetImage.get_file repository storage image_id thumbnail);
  match data with
  | None => raise (EHTTP 404 (lit "Image file not found"))
  | Some data => mret data
  end.

(** The state in which the batch of [process_batch_images] starts. *)
Definition process_batch_images (body : BatchProcessRequest) (w : world) : batch :=
  gather (image_ids body) (Z.to_nat (concurrency body)) w.

(** Its response, once the batch has ended. *)
Definition batch_answer (b : batch) : option BatchProcessResponse := batch_response <$> batch_result b.

(** A handler that returns [None] for a response model fails in FastAPI. *)
Definition response_validation : exn := ERuntime (lit "ResponseValidationError").

Definition process_single_image (image_id : Z) (idempotency_key : option pystr) :
    prog server ImageResponse :=
  ok ← try_except (in_world (ProcessImage.execute repository storage processor image_id idempotency_key))
         (λ e, raise (conflict e));
  if negb ok then raise (EHTTP 404 (lit "Image not found"))
  else
    result ← in_world (GetImage.execute repository image_id);
    lift (or_raise response_validation result).

Definition trigger_retention_sweep : prog server RetentionResponse :=
  result ← in_world (ApplyRetention.execute repository storage (retention_batch_size settings));
  mret (retention_response result).

(** ** Routes *)

(** The requests of the routers [images] and [retention], but for the batch,
    with the values of their parameters. *)
Inductive api_call :=
| PostImage (file : UploadFile) (tags : option (list pystr)) (ttl_hours : option Z)
    (idempotency_key : option pystr)
| GetImages (offset limit : Z) (status_filter : option pystr)
| GetImageById (image_id : Z)
| GetDownload (image_id : Z) (thumbnail : bool)
| PostProcess (image_id : Z) (idempotency_key : option pystr)
| PostSweep.

Inductive body :=
| OutImage (r : ImageOut)
| OutList (r : ImageListOut)
| Content (data : pybytes)
| OutRetention (r : RetentionResponse).

Definition rate_limit_of (c : api_call) : Request → prog server unit :=
  match c with
  | PostImage _ _ _ _ => upload_rate_limiter
  | GetImages _ _ _ | GetImageById _ | GetDownload _ _ => read_rate_limiter
  | PostProcess _ _ | PostSweep => process_rate_limiter
  end.

Definition constraints (c : api_call) : bool :=
  match c with
  | PostImage _ _ ttl_hours key => upload_params_ok ttl_hours key
  | GetImages offset limit _ => list_params_ok offset limit
  | PostProcess _ key => idempotency_key_ok key
  | GetImageById _ | GetDownload _ _ | PostSweep => true
  end.

Definition handler (c : api_call) : prog server body :=
  match c with
  | PostImage file tags ttl_hours key => r ← upload_image file tags ttl_hours key; mret (OutImage (image_out r))
  | GetImages offset limit status => r ← list_images offset limit status; mret (OutList (image_list_out r))
  | GetImageById image_id => r ← get_image image_id; mret (OutImage (image_out r))
  | GetDownload image_id thumbnail => data ← download_image image_id thumbnail; mret (Content data)
  | PostProcess image_id key => r ← process_single_image image_id key; mret (OutImage (image_out r))
  | PostSweep => r ← trigger_retention_sweep; mret (OutRetention r)
  end.

Definition success_status (c : api_call) : Z := match c with PostImage _ _ _ _ => 201 | _ => 200 end.

Context `{FastAPI}.

(** The router's dependency on the API key comes before the route's own.  The
    repository, storage, processor and broker of this section are what the cached
    getters of [Wiring.v] answered: the service is wired.  A getter that raises
    (an unbuilt [cpp] backend, say) ends the request with a 500 before the
    handler, and is not among these dependencies. *)
Definition respond (r : Request) (c : api_call) : prog server body :=
  serve [require_api_key r; rate_limit_of c r] (constraints c) (handler c).

(** The batch route: once the request is let in, the batch starts. *)
Definition accept_batch (r : Request) (body : BatchProcessRequest) : prog server BatchProcessRequest :=
  serve [require_api_key r; process_rate_limiter r] (batch_request_ok body) (mret body).

Definition started_batch (r : Request) (body : BatchProcessRequest) (s : server) : option batch :=
  match run (accept_batch r body) s with
  | (Ok body, s') => Some (process_batch_images body (sv_world s'))
  | (Exn _, _) => None
  end.

(** ** The gate *)

(** The verdict on the API key. *)
Definition authentication (r : Request) : outcome unit :=
  match api_key settings, rq_api_key r with
  | [], _ => Ok tt
  | _, None => Exn unauthorized
  | configured_key, Some key =>
      same ← compare_digest key configured_key; if (same : bool) then Ok tt else Exn unauthorized
  end.

(** The limiter's verdict and the state after it. *)
Definition admission (r : Request) (c : api_call) (s : server) : outcome unit * server :=
  run (rate_limit_of c r) s.

(** Nothing but the clock and the limiters has moved. *)
Definition untouched (s s' : server) : Prop :=
  sv_max_pixels s' = sv_max_pixels s ∧ ∃ n, sv_world s' = Nat.iter n tick (sv_world s).

Lemma run_require r s : run (require_api_key r) s = (authentication r, s).
Proof.
  unfold require_api_key, authentication. destruct (api_key settings) as [|c k]; [done|].
  destruct (rq_api_key r) as [key|]; [|done]. destruct (compare_digest key (c :: k)) as [[]|e]; done.
Qed.

Lemma rate_limiter_untouched name max win r s :
  untouched s (run (rate_limiter name max win r) s).2 ∧
  ∀ e, (run (rate_limiter name max win r) s).1 = Exn e → e = rate_limited.
Proof.
  unfold rate_limiter. cbn. set (now := e_mono _ _). unfold limit.
  destruct (get_rate_limiter _ _ _ _) as [l ls]. unfold call.
  destruct (check _ now l) as [o l'] eqn:E. cbn.
  assert (∀ e, o = Exn e → e = rate_limited) as He.
  { unfold check in E. destruct (get_default _ _) as [ts m]. intros e ->. destruct (_ <=? _); by simplify_eq. }
  destruct o as [[]|e]; (split; [split; [done|by exists 1%nat]|]); [done|]. intros e' [= <-]. by apply He.
Qed.

Lemma admission_untouched r c s :
  untouched s (admission r c s).2 ∧ ∀ e, (admission r c s).1 = Exn e → e = rate_limited.
Proof. destruct c; apply rate_limiter_untouched. Qed.

Lemma untouched_refl s : untouched s s.
Proof. split; [done|by exists 0%nat]. Qed.

Lemma run_gate r (limiter : Request → prog server unit) {A} (h : prog server A) s :
  run (run_all [require_api_key r; limiter r];; h) s =
  match authentication r with
  | Exn e => (Exn e, s)
  | Ok _ => match run (limiter r) s with
            | (Exn e, s1) => (Exn e, s1)
            | (Ok _, s1) => run h s1
            end
  end.
Proof.
  cbn [run_all]. rewrite run_bind, run_bind, run_require.
  destruct (authentication r) as [[]|e]; [|done]. rewrite run_bind.
  by destruct (run (limiter r) s) as [[[]|e] s1].
Qed.

(** A request that does not reach its handler. *)
Definition refused {A} (valid : bool) (s : server) (o : outcome A) (s' : server) : Prop :=
  untouched s s' ∧
  (o = Exn unprocessable ∧ valid = false ∨ o = Exn rate_limited ∨
   (o = Exn unauthorized ∨ ∃ m, o = Exn (EType m)) ∧ s' = s).

Lemma authentication_Exn r e : authentication r = Exn e → e = unauthorized ∨ ∃ m, e = EType m.
Proof.
  unfold authentication, compare_digest. destruct (api_key settings) as [|x k]; [done|].
  destruct (rq_api_key r) as [key|]; [|intros [= <-]; by left].
  destruct (_ && _); cbn; [|intros [= <-]; right; by eexists]. case_bool_decide; [done|].
  intros [= <-]. by left.
Qed.

Lemma authentication_Ok r :
  authentication r = Ok tt ↔
  api_key settings = [] ∨
  rq_api_key r = Some (api_key settings) ∧ forallb is_ascii (api_key settings) = true.
Proof.
  unfold authentication, compare_digest. destruct (api_key settings) as [|x k]; [naive_solver|].
  remember (x :: k) as conf eqn:Ec. assert (conf ≠ []) as Hne by by subst. clear Ec.
  destruct (rq_api_key r) as [key|]; [|naive_solver].
  destruct (forallb is_ascii key) eqn:Ea; cbn [andb]; cycle 1.
  { split; [done|]. intros [?|[[= ->] ?]]; [done|congruence]. }
  destruct (forallb is_ascii conf) eqn:Eb; [|naive_solver]. cbn.
  case_bool_decide; naive_solver.
Qed.

(** What a limiter may do. *)
Definition limits (limiter : Request → prog server unit) : Prop :=
  ∀ r s, untouched s (run (limiter r) s).2 ∧ ∀ e, (run (limiter r) s).1 = Exn e → e = rate_limited.

(** The dependencies FastAPI ran before it refused the parameters. *)
Lemma refused_invalid {A} r limiter s (o : outcome A) s' n :
  limits limiter →
  run (run_all (take n [require_api_key r; limiter r]);; raise unprocessable) s = (o, s') →
  refused false s o s'.
Proof.
  intros Hl. destruct (Hl r s) as [Hu He].
  destruct n as [|[|n]].
  - intros [= <- <-]. split; [apply untouched_refl|by left].
  - cbn [take run_all]. rewrite run_bind, run_bind, run_require.
    destruct (authentication r) as [[]|e] eqn:Ea; cbn.
    + intros [= <- <-]. split; [apply untouched_refl|by left].
    + intros [= <- <-]. split; [apply untouched_refl|]. right. right. split; [|done].
      destruct (authentication_Exn _ _ Ea) as [->|[m ->]]; [by left|right; by eexists].
  - rewrite take_ge by (cbn; lia). rewrite run_gate. destruct (authentication r) as [[]|e] eqn:Ea.
    + destruct (run (limiter r) s) as [[[]|e] s1]; intros [= <- <-]; (split; [exact Hu|]).
      * by left.
      * right. left. by rewrite (He _ eq_refl).
    + intros [= <- <-]. split; [apply untouched_refl|]. right. right. split; [|done].
      destruct (authentication_Exn _ _ Ea) as [->|[m ->]]; [by left|right; by eexists].
Qed.

(** Served from the state the limiter left, or refused. *)
Definition gated {A} (r : Request) (limiter : Request → prog server unit) (valid : bool) (h : prog server A)
    (s : server) (o : outcome A) (s' : server) : Prop :=
  match authentication r, run (limiter r) s with
  | Ok _, (Ok _, s1) => if valid then run h s1 = (o, s') else refused valid s o s'
  | _, _ => refused valid s o s'
  end.

Lemma serve_gated {A} r limiter valid (h : prog server A) s :
  limits limiter →
  let x := run (serve [require_api_key r; limiter r] valid h) s in gated r limiter valid h s x.1 x.2.
Proof.
  intros Hl. destruct (run _ s) as [o s'] eqn:E. cbn [fst snd]. unfold gated.
  destruct (Hl r s) as [Hu He]. destruct valid.
  - rewrite serve_valid, run_gate in E. destruct (authentication r) as [[]|e] eqn:Ea.
    + destruct (run (limiter r) s) as [[[]|e] s1]; [done|]. simplify_eq. split; [exact Hu|].
      right. left. by rewrite (He _ eq_refl).
    + simplify_eq. split; [apply untouched_refl|]. right. right. split; [|done].
      destruct (authentication_Exn _ _ Ea) as [->|[m ->]]; [by left|right; by eexists].
  - destruct (serve_invalid [require_api_key r; limiter r] h s) as [n Hn].
    rewrite Hn in E. apply refused_invalid in E; [|done].
    by destruct (authentication r) as [[]|e], (run (limiter r) s) as [[[]|e'] s1].
Qed.

(** C11: the gate.  A request is authenticated exactly when no API key is
    configured or it carries the configured one (in ASCII).  An authenticated
    request its limiter admits, with parameters that satisfy the constraints,
    is served by the handler from the state the limiter left.  Any other ends in
    401, 429 or 422 (500 for a key that is not ASCII), and nothing but the clock
    and the limiters has moved. *)
Theorem request_gate (r : Request) (c : api_call) (s : server) :
  (authentication r = Ok tt ↔
     api_key settings = [] ∨
     rq_api_key r = Some (api_key settings) ∧ forallb is_ascii (api_key settings) = true) ∧
  gated r (rate_limit_of c) (constraints c) (handler c) s (run (respond r c) s).1 (run (respond r c) s).2.
Proof. split; [apply authentication_Ok|]. apply serve_gated. intros r' s'. apply admission_untouched. Qed.
End api.

(** ** An upload over HTTP *)

Lemma run_in_world {A} (p : coro A) s :
  run (in_world p) s = ((run p (sv_world s)).1, set_world (run p (sv_world s)).2 s).
Proof. apply run_zoom; [done|done|by intros []]. Qed.

Lemma run_in_pillow {A} (p : prog Z A) s :
  run (in_pillow p) s = ((run p (sv_max_pixels s)).1, set_max_pixels (run p (sv_max_pixels s)).2 s).
Proof. apply run_zoom; [done|done|by intros []]. Qed.

Section upload.
Context `{PyTables, Postgres, Pillow, !PillowLaws, FileSystem, FastAPI, !RepoLaws repository}.
Context (settings : Settings) (processor : ImageProcessor) (base_dir : pystr).
Context (broker : option MessageBroker) (broker_laws : ∀ b, broker = Some b → BrokerLaws b).

Abbreviation storage := (LocalImageStorage.storage base_dir).
Abbreviation respond := (respond settings repository storage processor broker).
Abbreviation admission := (admission settings).

(** The file and the tags are what the route takes. *)
Definition file_ok (file : UploadFile) (tags : list pystr) : Prop :=
  content_type_allowed file = true ∧ Z.of_nat (length tags) ≤ MAX_TAGS ∧
  Z.of_nat (length (uf_data file)) ≤ MAX_UPLOAD_SIZE ∧
  ∃ img, acceptable ALLOWED_FORMATS (uf_data file) img.

(** The answers of the checks. *)
Definition file_error (e : exn) : Prop :=
  (∃ st m, e = EHTTP st m ∧ st ∈ [415; 422; 413]) ∨ is_exception e = false.

Lemma run_check file tags s :
  (run (check_upload file tags) s).2 = s ∧
  match (run (check_upload file tags) s).1 with
  | Ok _ => file_ok file tags
  | Exn e => file_error e ∧ ¬ file_ok file tags
  end.
Proof.
  unfold check_upload, file_ok.
  assert (∀ st m, st ∈ [415; 422; 413] → file_error (EHTTP st m)) as Hst by (intros; left; eauto).
  destruct (content_type_allowed file); [|split; [done|split; [apply Hst; set_solver|by intros []]]].
  cbn [mbind prog_bind prog_bind_def mret prog_ret].
  destruct (MAX_TAGS <? _) eqn:Et; zbool.
  { split; [done|]. split; [apply Hst; set_solver|]. intros (_ & ? & _). lia. }
  cbn [mbind prog_bind prog_bind_def mret prog_ret].
  destruct (MAX_UPLOAD_SIZE <? _) eqn:Es; zbool.
  { split; [done|]. split; [apply Hst; set_solver|]. intros (_ & _ & ? & _). lia. }
  cbn [mbind prog_bind prog_bind_def mret prog_ret].
  rewrite run_try, run_in_pillow.
  pose proof (validate_spec (uf_data file) None (sv_max_pixels s)) as Hv. cbn zeta in Hv.
  destruct (run _ (sv_max_pixels s)) as [o limit]. destruct Hv as (-> & Ho & He). cbn [fst snd].
  assert (set_max_pixels (sv_max_pixels s) s = s) as -> by by destruct s.
  destruct o as [[]|e].
  - split; [done|]. split_and!; [done..|]. by apply Ho.
  - assert (¬ ∃ img, acceptable ALLOWED_FORMATS (uf_data file) img) as Hna by by intros Hn%Ho.
    destruct (He e eq_refl) as [[m ->]|Hb].
    + split; [done|]. split; [apply Hst; set_solver|tauto].
    + destruct e; try done. split; [done|]. split; [by right|tauto].
Qed.

Lemma iter_tick n w :
  w_db (Nat.iter n tick w) = w_db w ∧ w_env (Nat.iter n tick w) = w_env w ∧
  w_fs (Nat.iter n tick w) = w_fs w ∧ w_queues (Nat.iter n tick w) = w_queues w ∧
  w_cache (Nat.iter n tick w) = w_cache w.
Proof. induction n as [|n IH]; [done|]. exact IH. Qed.

Lemma no_overflow ttl w e :
  nullable (within 1 8760) ttl = true →
  (∀ t, datetime_min ≤ e_now (w_env w) t ≤ datetime_max - 8760 * microseconds_per_hour) →
  ¬ expiry_overflow ttl w e.
Proof.
  intros Httl Hclock (h & t & -> & E). cbn in Httl. unfold within in Httl.
  apply andb_true_iff in Httl as [Hh1 Hh2]. zbool. specialize (Hclock t).
  revert E. unfold timedelta_hours, microseconds_per_hour in *.
  assert (0 ≤ h / 24 ≤ 365) as [Hd1 Hd2].
  { split; [apply Z.div_pos; lia|]. apply Z.div_le_upper_bound; lia. }
  rewrite Z.abs_eq by done. rewrite (proj2 (Z.leb_le _ _)) by lia. cbn. unfold datetime_add.
  rewrite (proj2 (Z.leb_le datetime_min _)) by lia. rewrite (proj2 (Z.leb_le _ datetime_max)) by lia. done.
Qed.

(** The file name an upload is stored under. *)
Definition stored_name (file : UploadFile) : pystr := sanitize_filename (filename_or file).

(** The state and the configuration under which an accepted upload succeeds. *)
Record upload_ready (file : UploadFile) (tags : option (list pystr)) (key : option pystr) (w : world) : Prop := {
  ur_ok : world_ok w;
  ur_fresh : fresh_uuids w;
  ur_absent : absent key (w_db w);
  ur_env : upload_env w;
  ur_clock t : datetime_min ≤ e_now (w_env w) t ≤ datetime_max - 8760 * microseconds_per_hour;
  ur_dir : fs_refuses (fs_resolve base_dir) = None;
  ur_dir_text : pg_text (fs_resolve base_dir) = true;
  ur_name : (length (stored_name file) ≤ 242)%nat;
  ur_tags : forallb pg_text (default [] tags) = true;
  ur_key k : key = Some k → pg_text k = true
}.

Lemma upload_ready_tick file tags key n w :
  upload_ready file tags key w → upload_ready file tags key (Nat.iter n tick w).
Proof.
  destruct (iter_tick n w) as (Hd & He & _ & _ & Hc).
  intros [R1 R2 R3 [R4 R4'] R5 R6 R7 R8 R9 R10].
  split; [by eapply world_ok_same|..|done|done|done|done|done].
  - unfold fresh_uuids in *. by rewrite He, Hd.
  - by rewrite Hd.
  - split; [intros op Hop; by apply (reliable_env w), R4|].
    intros e Hi. apply R4'. by eapply injects_env.
  - by rewrite He.
Qed.

Lemma upload_ready_path file tags key w data :
  upload_ready file tags key w →
  ∃ p, st_path (s := storage) (stored_name file) data = Ok p ∧
       (idempotency_key_ok key = true → request_fits (stored_name file) p (default [] tags) key).
Proof.
  intros [_ _ _ _ _ Hd Hdt Hn Ht Hk].
  destruct (sanitized_store_path base_dir (filename_or file) (stored_name file) data Hd) as (Hb & Hc & Hp).
  { left. }
  rewrite decide_True in Hp by done. eexists. split; [exact Hp|]. intros Hko.
  pose proof (clean_sanitized (ascii_only (tbl_nfkd (py_replace [0] [] (filename_or file))))) as (_ & Hl & Hs & _).
  fold (sanitize_filename (filename_or file)) in Hl, Hs. fold (stored_name file) in Hl, Hs.
  split_and!; [|by apply pg_text_join|done|].
  - unfold pg_varchar. apply andb_true_iff. split.
    + apply ascii_pg_text. eapply Forall_impl; [exact Hs|]. intros c Hcc.
      apply safe_char_plain in Hcc as [? _]. apply andb_true_iff. split; apply Z.ltb_lt; lia.
    + apply bool_decide_eq_true_2. unfold MAX_FILENAME_LENGTH in Hl. lia.
  - intros k ->. unfold pg_varchar. rewrite (Hk k eq_refl). apply bool_decide_eq_true_2.
    cbn in Hko. unfold size_within, within, MAX_IDEMPOTENCY_KEY_LENGTH in Hko.
    apply andb_true_iff in Hko as [_ Hko]. zbool. lia.
Qed.

(** The handler's use of an accepted file. *)
Lemma run_execute_accepted file tags ttl key w :
  upload_ready file tags key w → upload_params_ok ttl key = true →
  let '(o, w') := run (UploadImage.execute repository storage broker (stored_name file) (uf_data file)
                         (Some (default [] tags)) ttl key) w in
  ∃ resp, o = Ok resp ∧ world_ok w' ∧
    uploaded (storage := storage) broker (stored_name file) (uf_data file) (default [] tags) ttl key w resp w'.
Proof.
  intros Hready [Httl Hko]%andb_true_iff.
  destruct (upload_ready_path _ _ _ _ (uf_data file) Hready) as (p & Hp & Hfits).
  destruct Hready as [R1 R2 R3 R4 R5 _ _ _ _ _].
  pose proof (wp_upload_succeeds broker broker_laws (stored_name file) (uf_data file)
    (Some (default [] tags)) ttl key p w R1 R2 R3 R4 Hp (λ e, no_overflow ttl w e Httl R5) (Hfits Hko)) as Hwp.
  unfold wp in Hwp. destruct (run _ w) as [o w']. cbn [fst snd] in Hwp. destruct Hwp as (w1 & resp & -> & Hcl & Hpost).
  exists resp. split; [done|]. split; [exact (proj1 Hpost)|by eapply claimed_uploaded].
Qed.

Lemma uploaded_tick filename data tags ttl key n w resp w' :
  uploaded (storage := storage) broker filename data tags ttl key (Nat.iter n tick w) resp w' →
  uploaded (storage := storage) broker filename data tags ttl key w resp w'.
Proof.
  destruct (iter_tick n w) as (Hd & He & Hf & Hq & _).
  intros (i & p & m & Hcr & Hp & Hr & Hi & Hm & Hfs & Hk & Ht). exists i, p, m. rewrite Hd, Hf in *.
  split_and!; try done; [by eapply created_env|].
  destruct Ht as [Ht|[e Ht]]; [left|right; exists e; by eapply injects_env].
  unfold task_queued, queues_are, queue in *. by rewrite Hq in Ht.
Qed.

(** The answer to an admitted upload and the state after it. *)
Definition upload_answered (file : UploadFile) (tags : option (list pystr)) (ttl_hours : option Z)
    (key : option pystr) (s : server) (o : outcome body) (s' : server) : Prop :=
  (file_ok file (default [] tags) →
     ∃ resp, o = Ok (OutImage (image_out resp)) ∧ world_ok (sv_world s') ∧
       uploaded (storage := storage) broker (stored_name file) (uf_data file) (default [] tags) ttl_hours key
         (sv_world s) resp (sv_world s')) ∧
  (¬ file_ok file (default [] tags) → untouched s s' ∧ ∃ e, o = Exn e ∧ file_error e).

(** C7: an upload over HTTP, from the request to the tables.  Once admitted, a
    file of an allowed type, with at most 20 tags and 50 MB, that Pillow opens,
    verifies and decodes, answers with the image now stored under its
    sanitized name: its file, its row, its task and its completed key.  Any
    other file is answered 415, 422 or 413 (or raises a [BaseException]) and
    leaves everything as it was. *)
Theorem upload_endpoint (r : Request) (file : UploadFile) (tags : option (list pystr))
    (ttl_hours : option Z) (key : option pystr) (s : server) :
  let c := PostImage file tags ttl_hours key in
  authentication settings r = Ok tt → (admission r c s).1 = Ok tt → constraints c = true →
  upload_ready file tags key (sv_world s) →
  upload_answered file tags ttl_hours key s (run (respond r c) s).1 (run (respond r c) s).2.
Proof.
  cbn zeta. intros Ha Hl Hc Hready. set (c := PostImage _ _ _ _) in *. unfold upload_answered.
  destruct (admission_untouched settings r c s) as [[Hpx [n Hw]] _].
  unfold Api.respond. rewrite Hc, serve_valid, run_gate, Ha.
  change (run (rate_limit_of settings c r) s) with (admission r c s). destruct (admission r c s) as [[[]|e] s1]; [|done]. cbn [fst snd] in *.
  pose proof (upload_ready_tick _ _ _ n _ Hready) as Hready1. rewrite <- Hw in Hready1.
  cbn [handler c]. unfold upload_image. cbn zeta. rewrite run_bind, run_bind.
  destruct (run_check file (default [] tags) s1) as [Hs Ho].
  destruct (run (check_upload file (default [] tags)) s1) as [[[]|e] s2]; cbn [fst snd] in *; subst s2.
  - rewrite run_try, run_in_world.
    pose proof (run_execute_accepted file tags ttl_hours key _ Hready1 Hc) as Hex.
    fold (stored_name file). destruct (run (UploadImage.execute _ _ _ _ _ _ _ _) (sv_world s1)) as [o w'].
    destruct Hex as (resp & -> & Hok & Hup). cbn. split; [intros _|done]. exists resp.
    split_and!; [done|done|].
    rewrite Hw in Hup. by apply uploaded_tick in Hup.
  - destruct Ho as [He Hn]. split; [done|]. intros _. split; [|by exists e]. split; [done|by exists n].
Qed.
End upload.
