(* ===== verification/Batches.v ===== *)
(** * A batch among other requests

    The batch route of [src/src/presentation/api/routes/images.py] from the
    request to its answer.  [Pipeline.v] runs a batch alone; here its tasks
    run next to the service's other requests and worker loops, on one world
    ([service_step]).  The semaphore only delays tasks, so every such run is one
    of single processing requests ([batch_refines_requests]), and what holds
    of those ([Invariant.v], [History.v]) holds of batches. *)

From S2P Require Import Prelude PyText Prog Interleave Domain Database World Ports Repository Process.
From S2P Require Import RateLimit Schemas Pipeline Config Api Mutex Invariant.
From Stdlib Require Import Relation_Operators Lexicographic_Product.
Local Open Scope Z_scope.

(** An image the batch counts as a success. *)
Definition processed (o : outcome bool) : bool := match o with Ok true => true | _ => false end.

Definition successes (os : list (outcome bool)) : Z := Z.of_nat (length (List.filter processed os)).
Definition failures (os : list (outcome bool)) : Z := Z.of_nat (length (List.filter (λ o, negb (processed o)) os)).

Lemma tally_counts os s f : tally os s f = (s + successes os, f + failures os).
Proof.
  revert s f. unfold successes, failures.
  induction os as [|[[]|e] os IH]; intros s f; cbn; rewrite ?IH; f_equal; lia.
Qed.

Lemma successes_failures os : successes os + failures os = Z.of_nat (length os).
Proof.
  unfold successes, failures. induction os as [|o os IH]; [done|]. cbn. destruct (processed o); cbn; lia.
Qed.

Section batches.
Context `{PyTables, Postgres} (storage : ImageStorage) (processor : ImageProcessor) (broker : MessageBroker).

Abbreviation request := (run_call storage processor broker).

(** What a task of the batch runs inside of the semaphore: [use_case.execute(image_id)]. *)
Definition batch_task (image_id : Z) : coro bool :=
  ProcessImage.execute deployed storage processor image_id None.

(** The event loop advances a task of the batch, or another request. *)
Inductive service_step : list (coro unit) * batch → list (coro unit) * batch → Prop :=
| step_batch ts b b' :
    bstep batch_task b b' → service_step (ts, b) (ts, b')
| step_request ts ts' b w' :
    pstep (ts, b_world b) (ts', w') → service_step (ts, b) (ts', MkBatch (b_tasks b) (b_value b) w').

(** The same, for an explicit schedule: a task of the batch, or a request. *)
Inductive turn := TaskTurn (i : nat) | RequestTurn (i : nat).

Definition service_next (t : turn) (c : list (coro unit) * batch) : list (coro unit) * batch :=
  let '(ts, b) := c in
  match t with
  | TaskTurn i => (ts, default b (bnext batch_task i b))
  | RequestTurn i =>
      let '(ts', w') := sched [i] (ts, b_world b) in (ts', MkBatch (b_tasks b) (b_value b) w')
  end.

Lemma requests_service b ts ts' w' :
  rtc pstep (ts, b_world b) (ts', w') →
  rtc service_step (ts, b) (ts', MkBatch (b_tasks b) (b_value b) w').
Proof.
  remember (ts, b_world b) as c eqn:Ec. remember (ts', w') as c' eqn:Ec'. intros Hs.
  revert b ts Ec. induction Hs as [c|c [ts1 w1] c' Hs _ IH]; intros b ts ->.
  - injection Ec' as -> <-. by destruct b.
  - eapply rtc_l; [by apply step_request|]. by apply (IH Ec' (MkBatch (b_tasks b) (b_value b) w1)).
Qed.

Lemma service_sched_reachable turns c : rtc service_step c (foldl (flip service_next) c turns).
Proof.
  revert c. induction turns as [|t turns IH]; intros c; cbn [foldl]; [done|]. etrans; [|apply IH].
  destruct c as [ts b], t as [i|i]; cbn [flip service_next].
  - destruct (bnext _ i b) as [b'|] eqn:E; cbn; [|done]. apply rtc_once, step_batch. by eapply bnext_step.
  - destruct (sched [i] (ts, b_world b)) as [ts' w'] eqn:E. apply requests_service. rewrite <- E.
    apply sched_reachable.
Qed.

(** ** A batch is its requests *)

(** A task of the batch, seen as a request of its own. *)
Definition as_request (t : task) : coro unit :=
  match t with
  | Waiting image_id => request (CProcess image_id None)
  | Inside p => _ ← p; mret tt
  | Finished o => _ ← Done o; mret tt
  end.

Definition as_requests (c : list (coro unit) * batch) : list (coro unit) * world :=
  (c.1 ++ (as_request <$> b_tasks c.2), b_world c.2).

(** Taking and releasing the semaphore changes nothing of the requests. *)
Lemma as_request_insert (ts : list task) (i : nat) t t' :
  ts !! i = Some t → as_request t' = as_request t → as_request <$> <[i := t']> ts = as_request <$> ts.
Proof.
  intros Hi Ht. rewrite list_fmap_insert, Ht. apply list_insert_id. by rewrite list_lookup_fmap, Hi.
Qed.

Lemma bstep_requests ts b b' :
  bstep batch_task b b' → rtc pstep (as_requests (ts, b)) (as_requests (ts, b')).
Proof.
  intros [us v w i id Hi|us v w i X a k x w' Hi Ha|us v w i o Hi]; unfold as_requests; cbn.
  - by erewrite as_request_insert by done.
  - rewrite list_fmap_insert, <- (insert_app_r ts). apply rtc_once.
    refine (pstep_act (length ts + i) X a (λ y, as_request (Inside (k y))) _ w x w' _ Ha).
    rewrite lookup_app_r by lia. replace (length ts + i - length ts)%nat with i by lia.
    by rewrite list_lookup_fmap, Hi.
  - by erewrite as_request_insert by done.
Qed.

Lemma pstep_app (ts ts' us : list (coro unit)) (w w' : world) :
  pstep (ts, w) (ts', w') → pstep (ts ++ us, w) (ts' ++ us, w').
Proof.
  intros Hs. inversion Hs as [i X a k ts0 w0 x w1 Hi Ha]; subst.
  rewrite <- insert_app_l by (by eapply lookup_lt_Some).
  econstructor; [|exact Ha]. rewrite lookup_app_l; [done|by eapply lookup_lt_Some].
Qed.

Lemma service_requests c c' : rtc service_step c c' → rtc pstep (as_requests c) (as_requests c').
Proof.
  induction 1 as [|c1 c2 c3 Hs _ IH]; [done|]. etrans; [|exact IH].
  destruct Hs as [ts b b' Hb|ts ts' b w' Ht]; [by apply bstep_requests|]. by apply rtc_once, pstep_app.
Qed.

Lemma gather_requests cs ids c w :
  as_requests (request <$> cs, gather ids c w) =
  (request <$> (cs ++ ((λ id, CProcess id None) <$> ids)), w).
Proof.
  unfold as_requests, gather. cbn. rewrite fmap_app. do 2 f_equal.
  rewrite <- list_fmap_compose. induction ids as [|id ids IH]; cbn; by f_equal.
Qed.

(** C17: a batch refines its requests.  Whatever the semaphore's value, every
    state that a batch reaches among other requests and worker loops is one
    that these reach among single processing requests, one per image of the
    batch, without any semaphore: a waiting task is a request not begun, a task
    inside is a request under way, and a finished one a request that ended with
    the same outcome. *)
Theorem batch_refines_requests (cs : list call) (ids : list Z) (concurrency : nat) (w : world)
    (ts : list (coro unit)) (b : batch) :
  rtc service_step (request <$> cs, gather ids concurrency w) (ts, b) →
  rtc pstep (request <$> (cs ++ ((λ id, CProcess id None) <$> ids)), w)
            (ts ++ (as_request <$> b_tasks b), b_world b).
Proof. intros Hs. rewrite <- (gather_requests cs ids concurrency w). by apply (service_requests _ (ts, b)). Qed.

(** ** Bounds and ends *)

Lemma service_semaphore n m c c' :
  rtc service_step c c' → semaphore_ok n m c.2 → semaphore_ok n m c'.2.
Proof.
  induction 1 as [|c1 c2 c3 Hs _ IH]; [done|]. intros Hb. apply IH.
  destruct Hs as [ts b b' Hs|ts ts' b w' _]; [by eapply bstep_semaphore|exact Hb].
Qed.

Lemma gather_semaphore ids n w : semaphore_ok n (length ids) (gather ids n w).
Proof.
  split; [|apply length_map]. cbn. assert (count_inside (map Waiting ids) = 0%nat) as ->; [|lia].
  by induction ids.
Qed.

(** Neither the batch nor the other requests run for ever. *)
Lemma service_terminates c : Acc (flip service_step) c.
Proof.
  destruct c as [ts b].
  pose proof (list_step_wf _ prog_lt_wf ts) as Hts. pose proof (list_step_wf _ (task_lt_wf batch_task) (b_tasks b)) as Hus.
  pose proof (Acc_symprod _ _ _ _ _ Hts _ Hus) as Hacc.
  remember (ts, b_tasks b) as p eqn:E. revert ts b E Hts Hus. induction Hacc as [p _ IH].
  intros ts b -> _ _. constructor. intros c' Hs. inversion Hs as [ts0 b0 b' Hb|ts0 ts' b0 w' Ht]; subst.
  - eapply (IH (ts, b_tasks b')); [|reflexivity|apply list_step_wf, prog_lt_wf|apply list_step_wf, task_lt_wf].
    right. by apply (bstep_list_step batch_task).
  - eapply (IH (ts', b_tasks b)); [|reflexivity|apply list_step_wf, prog_lt_wf|apply list_step_wf, task_lt_wf].
    left. by apply (pstep_list_step (ts, b_world b) (ts', w')).
Qed.

Lemma service_stuck ts b : (∀ c', ¬ service_step (ts, b) c') → ∀ b', ¬ bstep batch_task b b'.
Proof. intros Hs b' Hb. eapply Hs. by apply step_batch. Qed.

Lemma service_ok_ticks n w : service_ok w → service_ok (Nat.iter n tick w).
Proof.
  intros Hok. induction n as [|n IH]; [done|]. change (service_ok (tick (Nat.iter n tick w))).
  eapply service_ok_elsewhere; [|exact IH]. elsewhere.
Qed.

(** ** The endpoint *)

(** The answer of a finished batch counts its outcomes. *)
Definition answers (ids : list Z) (b : batch) : Prop :=
  ∃ os, results (b_tasks b) = Some os ∧ length os = length ids ∧
        batch_answer b = Some (MkBatchResponse (successes os) (failures os)) ∧
        successes os + failures os = Z.of_nat (length ids).

Lemma stuck_answers c ids b :
  (0 < c)%nat → semaphore_ok c (length ids) b → (∀ b', ¬ bstep batch_task b b') → answers ids b.
Proof.
  intros Hc Hsem Hstuck. destruct (stuck_finished _ _ _ _ Hc Hsem Hstuck) as (os & E & Hl).
  exists os. unfold batch_answer, batch_result. rewrite E. cbn. rewrite tally_counts, successes_failures, Hl.
  by split_and!.
Qed.

Context `{FastAPI} (settings : Settings) (adapters : adapters_elsewhere storage processor broker).

(** What a started batch promises, whatever runs besides it. *)
Definition batch_ok (body : BatchProcessRequest) (cs : list call) (b0 : batch) : Prop :=
  ∀ ts b, rtc service_step (request <$> cs, b0) (ts, b) →
  (Z.of_nat (count_inside (b_tasks b)) ≤ concurrency body) ∧ service_ok (b_world b) ∧
  Acc (flip service_step) (ts, b) ∧
  ((∀ c', ¬ service_step (ts, b) c') → answers (image_ids body) b).

Lemma gather_ok body cs w :
  1 ≤ concurrency body → service_ok w →
  batch_ok body cs (gather (image_ids body) (Z.to_nat (concurrency body)) w).
Proof.
  intros Hc Hok ts b Hs. pose proof (service_semaphore _ _ _ _ Hs (gather_semaphore _ _ _)) as Hsem.
  split_and!.
  - destruct Hsem. cbn in *. lia.
  - pose proof (service_requests _ _ Hs) as Hr. rewrite gather_requests in Hr.
    destruct (keeps_rtc service_ok _ _ Hr) as [Hw _]; [|exact Hok|exact Hw].
    apply Forall_fmap, Forall_true. by apply kept_call.
  - apply service_terminates.
  - intros Hstuck. eapply stuck_answers; [|exact Hsem|by eapply service_stuck]. lia.
Qed.

(** A request that is let in has passed everything. *)
Lemma gated_Ok {A} r limiter valid (x : A) s a s' :
  limits limiter → gated settings r limiter valid (mret x) s (Ok a) s' →
  valid = true ∧ untouched s s' ∧ a = x.
Proof.
  intros Hl. destruct (Hl r s) as [Hu _]. unfold gated, refused.
  destruct (authentication settings r) as [[]|e], (run (limiter r) s) as [[[]|e'] s1], valid; naive_solver.
Qed.

(** C15: a batch over HTTP, from the request to the answer.  Unless the request
    is authenticated, admitted by the limiter of processings and has between 1
    and 100 images and a concurrency between 1 and 32, it is refused and no
    batch starts.  The batch it starts may interleave with any other requests
    and worker loops, under any fault: never more than [concurrency] images
    are in work, the service's invariant holds throughout, the whole comes to
    an end, and then the answer counts as [success] the images whose processing
    returned [True], as [failed] all others, and each image once. *)
Theorem batch_endpoint (r : Request) (body : BatchProcessRequest) (s : server) (cs : list call) :
  service_ok (sv_world s) →
  let x := run (accept_batch settings r body) s in
  gated settings r (process_rate_limiter settings) (batch_request_ok body) (mret body) s x.1 x.2 ∧
  ∀ b0, started_batch settings r body s = Some b0 →
    x.1 = Ok body ∧ 1 ≤ Z.of_nat (length (image_ids body)) ≤ 100 ∧ 1 ≤ concurrency body ≤ 32 ∧
    b0 = gather (image_ids body) (Z.to_nat (concurrency body)) (sv_world x.2) ∧ batch_ok body cs b0.
Proof.
  intros Hok. cbn zeta. assert (Hl : limits (process_rate_limiter settings)) by (intros r' s'; apply rate_limiter_untouched).
  pose proof (serve_gated settings r (process_rate_limiter settings) (batch_request_ok body) (mret body) s Hl) as Hg.
  cbn zeta in Hg. fold (accept_batch settings r body) in Hg. split; [exact Hg|]. unfold started_batch. intros b0 Hb0.
  destruct (run (accept_batch settings r body) s) as [[body'|e] s']; [|done]. injection Hb0 as <-. cbn [fst snd] in *.
  destruct (gated_Ok _ _ _ _ _ _ _ Hl Hg) as (Hv & [_ [n Hn]] & [= <-]).
  apply batch_request_ok_bounds in Hv as [Hids Hc]. split_and!; [done|lia..|done|].
  apply gather_ok; [lia|]. rewrite Hn. by apply service_ok_ticks.
Qed.
End batches.
