(* ===== verification/Concrete.v ===== *)
(** * A concrete environment

    Instances of the parameters of the development (character tables, server,
    file system, processor, clocks) and small states, on which the theorems'
    hypotheses hold and the definitions run. *)

From S2P Require Import Prelude PyText PyUuid PyPath Prog Domain Database Cache World Ports.
From S2P Require Import Repository Storage Broker RateLimit Processing Kernel Resampling DlqReplay Kafka Config Api.
Local Open Scope Z_scope.

(** ** Parameters *)

(** ASCII only; no character has a decomposition. *)
Definition ascii_tables : PyTables := {|
  tbl_printable c := (32 <=? c) && (c <=? 126);
  tbl_decimal c := if is_digit c then Some (c - 48) else None;
  tbl_upper c := [c];
  tbl_nfkd s := s;
  tbl_float_repr s := s;
  tbl_json_error _ := lit "Expecting value: line 1 column 1 (char 0)";
  tbl_decode_wide _ _ := None
|}.

(** A server that scans by id. *)
Definition map_postgres : Postgres := {| pg_scan _ t := (map_to_list t).*2; pg_scan_perm _ t := reflexivity _ |}.

(** One whose scans go forward and backward in turn. *)
Definition fickle_postgres : Postgres.
Proof.
  refine {| pg_scan n t := let l := (map_to_list t).*2 in if Nat.even n then l else rev l |}.
  intros n t. cbn. destruct (Nat.even n); [done|]. by rewrite <- Permutation_rev.
Defined.

(** A file system without links, with [/srv] as the working directory. *)
Definition srv_resolve (p : pystr) : pystr :=
  match p with
  | [] => lit "/srv"
  | c :: _ => if c =? slash then p
              else if bool_decide (p = lit ".") then lit "/srv"
              else lit "/srv/" ++ p
  end.

(** It takes text without NUL, and names of up to 255 characters. *)
Definition srv_refuses (p : pystr) : option exn :=
  if negb (pg_text p) then Some (EValue (lit "embedded null byte"))
  else if bool_decide (length (path_name p) ≤ 255)%nat then None
  else Some (EOS (lit "File name too long")).

Lemma srv_resolve_abs p : ∃ rest, srv_resolve p = slash :: rest.
Proof.
  unfold srv_resolve. destruct p as [|c p]; [by eexists|].
  destruct (c =? slash) eqn:E; zbool; [subst; eauto|].
  case_bool_decide; by eexists.
Qed.

Lemma srv_resolve_child base name :
  plain_name name → srv_resolve (path_join base name) = path_join (srv_resolve base) name.
Proof.
  intros (Hne & Hd & _ & Hs). assert (srv_resolve name = path_join (lit "/srv") name) as Hname.
  { destruct name as [|c name]; [done|]. unfold srv_resolve.
    rewrite (proj2 (Z.eqb_neq c slash)) by set_solver. by rewrite bool_decide_false. }
  destruct base as [|c base]; [exact Hname|]. destruct (decide (c :: base = lit ".")) as [E|E].
  { rewrite E. exact Hname. }
  unfold path_join at 1. rewrite bool_decide_false by exact E. cbn [orb bool_decide].
  rewrite (bool_decide_false (c :: base = [])) by done. cbn [orb]. case_bool_decide as E2.
  { rewrite E2. done. }
  unfold srv_resolve. cbn [app]. destruct (c =? slash) eqn:Ec; zbool.
  - unfold path_join. rewrite bool_decide_false by exact E. rewrite (bool_decide_false (c :: base = [])) by done.
    cbn [orb]. by rewrite bool_decide_false.
  - rewrite (bool_decide_false (c :: base = lit ".")) by exact E.
    rewrite bool_decide_false; [done|]. intros E3. apply (f_equal length) in E3. revert E3.
    cbn [length]. rewrite length_app. change (length (lit ".")) with 1%nat. cbn. lia.
Qed.

Lemma plain_name_path name base :
  plain_name name → path_name (path_join base name) = name.
Proof. intros (? & ? & _ & ?). by apply path_name_join. Qed.

Lemma srv_refuses_None p : srv_refuses p = None → pg_text p = true.
Proof. unfold srv_refuses. by destruct (pg_text p). Qed.

Definition srv_files : FileSystem.
Proof.
  refine {| fs_resolve := srv_resolve; fs_refuses := srv_refuses; fs_mkdir := srv_refuses |}.
  - apply srv_resolve_abs.
  - apply srv_resolve_child.
  - intros dir name Hn Hp Hlen Hd%srv_refuses_None. unfold srv_refuses.
    rewrite pg_text_join, plain_name_path by done. by rewrite bool_decide_true.
  - intros dir name Hn Hp Hlen Hd%srv_refuses_None. eexists. unfold srv_refuses.
    rewrite pg_text_join, plain_name_path by done. rewrite bool_decide_false by lia. reflexivity.
Defined.

(** ** The image processor: every non-empty file is a 640 x 480 JPEG. *)
Definition jpeg_result (data : pybytes) : ProcessingResult :=
  MkResult (take 4 data) 640 480 (lit "JPEG") (Z.of_nat (length data)) 3.

Definition jpeg_fun (data : pybytes) : outcome ProcessingResult :=
  match data with
  | [] => Exn (EProcessor (lit "cannot identify image file"))
  | _ => Ok (jpeg_result (take 1000 data))
  end.

Definition jpeg_metadata (data : pybytes) : outcome Metadata :=
  r ← jpeg_fun data; Ok (MkMeta 640 480 (Some (lit "JPEG")) (pr_size_bytes r) 3 (lit "RGB")).

Definition jpeg_processor : ImageProcessor :=
  MkProcessor (λ data, in_pool (jpeg_fun data)) (λ data, in_pool (jpeg_metadata data)).

#[local] Existing Instance ascii_tables.
#[local] Existing Instance map_postgres.
#[local] Existing Instance srv_files.

Definition jpeg_laws : ProcessorLaws jpeg_processor.
Proof.
  refine {| proc_fun := jpeg_fun; metadata_fun := jpeg_metadata |}; intros data w; apply wp_in_pool.
Defined.

(** ** States *)

Definition no_faults : opname → nat → fault := λ _ _, Fine.

(** A clock that starts in November 2023 and stands still in the end. *)
Definition clock_env (faults : opname → nat → fault) : env := {|
  e_now t := 1700000000000000 + 1000000 * Z.min (Z.of_nat t) 1000000;
  e_mono t := 1000000 * Z.of_nat t;
  e_uuid t := 2 ^ 64 + Z.of_nat t;
  e_fault := faults
|}.

Definition start (faults : opname → nat → fault) : world :=
  MkWorld ∅ (MkDb ∅ ∅) ∅ (empty_cache 60000000 1024) ∅ ∅ [] (clock_env faults) 0.

Lemma start_ok faults : world_ok (start faults).
Proof. split; [split; apply map_Forall_empty|]. split; [apply NoDup_nil_2|done]. Qed.

Lemma start_reliable op : reliable (start no_faults) op.
Proof. done. Qed.

Lemma start_no_inject op e : ¬ injects (start no_faults) op e.
Proof. apply reliable_no_inject, start_reliable. Qed.

(** ** A dead-letter topic with one partition *)

Record topic_state := MkTopic {
  tp_pending : list DlqRecord;
  tp_uncommitted : list DlqRecord;
  tp_sent : list (pystr * pybytes * pybytes)
}.

Definition topic_getmany (timeout max : Z) : prog topic_state (list (list DlqRecord)) :=
  act (λ s,
    match take (Z.to_nat max) (tp_pending s) with
    | [] => (Ok [], s)
    | rs => (Ok [rs], MkTopic (drop (Z.to_nat max) (tp_pending s)) (tp_uncommitted s ++ rs) (tp_sent s))
    end).

Definition topic_clients : Clients topic_state :=
  MkClients (mret tt) (mret tt) topic_getmany
    (λ topic key value, modify (λ s,
       MkTopic (tp_pending s) (tp_uncommitted s) (tp_sent s ++ [(topic, key, value)])))
    (modify (λ s, MkTopic (tp_pending s) [] (tp_sent s))) (mret tt) (mret tt).

Definition topic_laws : KafkaLaws topic_clients.
Proof.
  refine {| pending := tp_pending; uncommitted := tp_uncommitted; sent := tp_sent |};
    try (intros; apply wp_ret; done).
  - intros t n w. apply wp_act. destruct (take (Z.to_nat n) (tp_pending w)) as [|r rs] eqn:E; cbn [fst snd].
    + split; [done|]. split_and!; [by left|cbn; lia|done|by rewrite app_nil_r].
    + split; [done|]. cbn [concat]. rewrite app_nil_r. split_and!; [by right| | |done].
      * rewrite <- E, length_take. lia.
      * rewrite <- E. symmetry. apply take_drop.
  - intros topic key value w. by apply wp_modify.
  - intros w. by apply wp_modify.
Defined.

(** ** A small Pillow: the header is the format, then width and height in
    thousands of pixels. *)

Record demo_image := MkDemoImage {
  di_format : option pystr;
  di_mode : pystr;
  di_size : Z * Z
}.

Definition demo_open (limit : Z) (data : pybytes) : outcome demo_image :=
  match data with
  | f :: w :: h :: _ =>
      let fmt := if f =? 1 then Some (lit "jpeg") else if f =? 2 then Some (lit "GIF") else None in
      if (w <=? 0) || (h <=? 0) then Exn (EOS (lit "cannot identify image file"))
      else if 2 * limit <? (1000 * w) * (1000 * h)
      then Exn (EDecompressionBomb (lit "Image size exceeds limit"))
      else Ok (MkDemoImage fmt (lit "RGB") (1000 * w, 1000 * h))
  | _ => Exn (EOS (lit "cannot identify image file"))
  end.

Definition demo_fit (box : Z * Z) (img : demo_image) : outcome demo_image :=
  Ok (MkDemoImage (di_format img) (di_mode img)
        (Z.max 1 (Z.min (di_size img).1 box.1), Z.max 1 (Z.min (di_size img).2 box.2))).

Definition demo_pillow : Pillow := {|
  pil_image := demo_image;
  pil_open := demo_open;
  pil_format := di_format;
  pil_mode := di_mode;
  pil_size := di_size;
  pil_bands _ := [lit "R"; lit "G"; lit "B"];
  pil_verify _ := Ok tt;
  pil_load _ := Ok tt;
  pil_thumbnail := demo_fit;
  pil_convert mode img := Ok (MkDemoImage None mode (di_size img));
  pil_save f img := Ok (f ++ [(di_size img).1; (di_size img).2]);
  pil_tobytes _ := Ok [];
  pil_frombytes mode size _ := Ok (MkDemoImage None mode size);
  pil_default_limit := 89478485
|}.

Lemma demo_open_Ok limit data img :
  demo_open limit data = Ok img →
  1 ≤ (di_size img).1 ∧ 1 ≤ (di_size img).2 ∧ (di_size img).1 * (di_size img).2 ≤ 2 * limit ∧
  ∀ limit', demo_open limit' data =
            if 2 * limit' <? (di_size img).1 * (di_size img).2
            then Exn (EDecompressionBomb (lit "Image size exceeds limit")) else Ok img.
Proof.
  unfold demo_open. destruct data as [|f [|w [|h rest]]]; try done.
  destruct (_ || _) eqn:E; [done|]. apply orb_false_iff in E as [Ew Eh]. zbool.
  destruct (2 * limit <? _) eqn:El; [done|]. zbool. intros [= <-]. cbn. split_and!; try lia. done.
Qed.

Definition demo_pillow_laws : @PillowLaws demo_pillow.
Proof.
  split; cbn.
  - intros limit data img E. by apply demo_open_Ok in E as (_ & _ & ? & _).
  - intros limit data img E. apply demo_open_Ok in E as (? & ? & _). done.
  - intros limit limit' data img (_ & _ & _ & Hl)%demo_open_Ok Hpx. rewrite Hl.
    unfold pixels in Hpx. cbn in Hpx. by rewrite (proj2 (Z.ltb_ge _ _)).
  - intros limit limit' data img (_ & _ & _ & Hl)%demo_open_Ok Hpx. eexists. rewrite Hl.
    unfold pixels in Hpx. cbn in Hpx. by rewrite (proj2 (Z.ltb_lt _ _)).
  - intros box img img' Hw Hh [= <-]. cbn. lia.
  - by intros box img img' [= <-].
  - by intros mode img img' [= <-].
  - by intros mode size data img [= <-].
Qed.

(** The compiled module, where undefined behaviour is a crash. *)
Definition demo_resize : FastResize := fast_resize true (λ _, Exn (ERuntime (lit "Segmentation fault"))).

(** ** A FastAPI that resolves the dependencies before it validates *)

Definition demo_fastapi : FastAPI.
Proof.
  refine {| serve := λ A deps valid handler, run_all deps;; if valid then handler else raise unprocessable |}.
  - done.
  - intros A deps handler s. exists (length deps). by rewrite firstn_all.
Defined.

Definition demo_server (w : world) : server := MkServer w ∅ 89478485.
Definition demo_client : Client := MkClient None (Some (lit "10.0.0.1")).
Definition with_api_key (key : pystr) (s : Settings) : Settings := {|
  app_name := app_name s; debug := debug s; db_user := db_user s; db_password := db_password s;
  db_host := db_host s; db_port := db_port s; db_name := db_name s; db_pool_size := db_pool_size s;
  db_max_overflow := db_max_overflow s; storage_base_dir := storage_base_dir s;
  processing_max_workers := processing_max_workers s; thumbnail_max_size := thumbnail_max_size s;
  processing_backend := processing_backend s; cache_ttl_seconds := cache_ttl_seconds s;
  cache_max_size := cache_max_size s; retention_batch_size := retention_batch_size s;
  broker_enabled := broker_enabled s; kafka_bootstrap_servers := kafka_bootstrap_servers s;
  kafka_consumer_group := kafka_consumer_group s; kafka_retry_max_attempts := kafka_retry_max_attempts s;
  kafka_retry_backoff_seconds := kafka_retry_backoff_seconds s; kafka_dlq_topic := kafka_dlq_topic s;
  rate_limit_upload_max := rate_limit_upload_max s; rate_limit_upload_window := rate_limit_upload_window s;
  rate_limit_process_max := rate_limit_process_max s;
  rate_limit_process_window := rate_limit_process_window s;
  rate_limit_read_max := rate_limit_read_max s; rate_limit_read_window := rate_limit_read_window s;
  api_key := key; cors_origins := cors_origins s; cors_allow_methods := cors_allow_methods s;
  cors_allow_headers := cors_allow_headers s; otel_enabled := otel_enabled s;
  otel_exporter_otlp_endpoint := otel_exporter_otlp_endpoint s; otel_service_name := otel_service_name s
|}.

Definition keyed_settings : Settings :=
  with_api_key (lit "secret") (default_settings (lit "app") (lit "p@ss/word")).


(** ** A Kafka with one topic and one consumer, which waits for ever (until it is
    cancelled) when nothing is left to read.  Every second record is sent twice,
    and a constructor knows its arguments. *)

Record demo_topic := MkDemoTopic {
  dt_logs : gmap pystr (list (option pybytes * pybytes));
  dt_pos : nat
}.

Definition demo_name : pystr := lit "image.processing".
Definition dt_log (topic : pystr) (s : demo_topic) : list (option pybytes * pybytes) :=
  default [] (dt_logs s !! topic).

Definition demo_kafka : Aiokafka demo_topic := {|
  new_producer _ s := (Ok 1%nat, s);
  producer_start _ := mret tt;
  send_and_wait _ topic key value :=
    modify (λ s, let copies := S (Nat.modulo (length (dt_log topic s)) 2) in
                 MkDemoTopic (<[topic := dt_log topic s ++ replicate copies (key, value)]> (dt_logs s)) (dt_pos s));
  producer_stop _ := mret tt;
  new_consumer _ arguments s :=
    if decide (Forall (λ a, a.1 ∈ consumer_keywords) arguments) then (Ok 2%nat, s)
    else (Exn (EType (lit "got an unexpected keyword argument")), s);
  consumer_start _ := mret tt;
  getone _ :=
    act (λ s, match dt_log demo_name s !! dt_pos s with
              | Some (key, value) =>
                  (Ok (MkKafkaRecord demo_name 0 (Z.of_nat (dt_pos s)) key value), MkDemoTopic (dt_logs s) (S (dt_pos s)))
              | None => (Exn ECancelled, s)
              end);
  highwater _ topic _ s := Some (Z.of_nat (length (dt_log topic s)));
  consumer_stop _ := mret tt
|}.

Definition demo_kafka_laws : AiokafkaLaws demo_kafka.
Proof.
  refine {| topic_log := dt_log;
            producing := λ _ s, True;
            reading := λ _ t n s, t = demo_name ∧ dt_pos s = n |}.
  - done.
  - done.
  - intros p topic key value s _. apply wp_modify. split; [done|]. eexists. split; [|intros _; apply Nat.lt_0_succ].
    unfold dt_log at 1. cbn -[replicate]. by rewrite lookup_insert_eq.
  - intros topics arguments name value s Hin Hn. eexists. cbn. rewrite decide_False; [done|].
    rewrite Forall_forall. intros Hall. apply Hn, (Hall _ Hin).
  - intros c topic n s [-> <-]. apply wp_act.
    by destruct (dt_log demo_name s !! dt_pos s) as [[key value]|] eqn:E.
Defined.
