(* ===== verification/Incidents.v ===== *)
(** * Incidents

    Runs of the service that end badly, each of them short: the order of the
    steps, or the one fault, that the code does not guard against. *)

From S2P Require Import RateLimit Prelude PyText PyJson PyUuid PyHash PyPath Prog Domain Database Cache World Ports.
From S2P Require Import Repository Storage Broker Concrete Upload Process Consume Service.
From S2P Require Import Interleave Reads Retention Mutex Invariant History Kafka Processing Config Api Scenarios.
Local Open Scope Z_scope.

#[local] Existing Instance ascii_tables.
#[local] Existing Instance map_postgres.
#[local] Existing Instance srv_files.

(** One fault: the operation [op] fails before its effect at one tick. *)
Definition fails_at (op : opname) (t : nat) (e : exn) : opname → nat → fault :=
  λ op' t', if decide (op' = op ∧ t' = t) then FailBefore e else Fine.

(** ** A deleted image that is still served *)

(** A read has found the row when a sweep deletes it and drops the cached object;
    then the read caches the image again. *)
Definition serve_deleted : list (coro unit) * world :=
  sched ([0; 0] ++ replicate 12 1 ++ replicate 8 0)%nat
    (run_call disk jpeg_processor mem <$> [CGet cat_id; CSweep 10], cat_world no_faults).

Example deleted_but_served :
  serve_deleted.1 = [Done (Ok tt); Done (Ok tt)] ∧ db_images (w_db serve_deleted.2) !! cat_id = None ∧
  match (run (GetImage.execute cached cat_id) serve_deleted.2).1 with Ok (Some r) => resp_id r = cat_id | _ => False end.
Proof. vm_compute. done. Qed.

(** ** A failed image whose thumbnail is announced but gone *)

Definition db_down : exn := EDatabase (lit "connection refused").

(** The save of the completed image fails, at tick 13. *)
Definition half_failed : outcome bool * world :=
  run (ProcessImage.execute cached disk jpeg_processor cat_id None) (cat_world (fails_at OpSave 13 db_down)).

Example announced_but_gone :
  half_failed.1 = Exn db_down ∧
  match run (GetImage.execute cached cat_id) half_failed.2 with
  | (Ok (Some r), w) =>
      resp_status r = lit "failed" ∧ resp_thumbnail_available r = true ∧
      (run (GetImage.get_file cached disk cat_id true) w).1 = Exn (EFileNotFound thumb_path)
  | _ => False
  end.
Proof. vm_compute. done. Qed.

(** ** A key that stays in progress *)

Definition read_fails : outcome bool * world :=
  run (ProcessImage.execute cached disk jpeg_processor cat_id (Some (lit "job-1"))) (cat_world (fails_at OpGet 5 db_down)).

Example key_stuck :
  read_fails.1 = Exn db_down ∧
  (run (ProcessImage.execute cached disk jpeg_processor cat_id (Some (lit "job-1"))) read_fails.2).1 =
    Exn in_progress_process.
Proof. vm_compute. done. Qed.

(** ** A task that is lost *)

(** The image cannot be processed, and neither the retry nor the dead letter can be
    published. *)
Definition leaderless : MessageBroker := MkBroker (λ _, raise (EBroker (lit "no leader"))) (br_consume mem) (br_close mem).

Definition lost_task : outcome bool * world :=
  run (ConsumeProcessingTasks.execute_once leaderless (λ _, raise disk_full) demo_cfg) task_world.

Example task_lost :
  lost_task.1 = Ok true ∧ queue IMAGE_PROCESSING_TOPIC task_world = [cat_task] ∧
  queue IMAGE_PROCESSING_TOPIC lost_task.2 = [] ∧ queue (ConsumeProcessingTasks.dlq_topic demo_cfg) lost_task.2 = [].
Proof. vm_compute. done. Qed.

(** ** A retry that ends the worker *)

(** Two thousand retries are allowed; the task has been retried 1024 times, or
    says so. *)
Definition patient_cfg : ConsumeProcessingTasks.config :=
  ConsumeProcessingTasks.init 2000 1000000 IMAGE_PROCESSING_DLQ_TOPIC.

Definition late_retry : outcome bool * world :=
  run (ConsumeProcessingTasks.execute_once mem (λ _, raise disk_full) patient_cfg)
    (queued_world (retry_message cat_task cat_id 1024) (cat_world no_faults)).

Example retry_ends_worker :
  late_retry.1 = Exn (EOverflow (lit "int too large to convert to float")) ∧
  queue IMAGE_PROCESSING_TOPIC late_retry.2 = [] ∧ queue IMAGE_PROCESSING_DLQ_TOPIC late_retry.2 = [].
Proof. vm_compute. done. Qed.

(** ** A processed image that is answered 500 *)

(** It is swept between its processing and the read of its response. *)
Definition swept_meanwhile : list (prog server unit) * server :=
  sched (replicate 24 0 ++ replicate 12 1 ++ replicate 12 0)%nat
    ([_ ← process_single_image cached disk jpeg_processor cat_id None; mret tt;
      in_world (run_call disk jpeg_processor mem (CSweep 10))],
     demo_server (cat_world no_faults)).

Example processed_but_500 :
  match swept_meanwhile.1 with
  | [Done o; Done (Ok _)] => http_status 200 o = 500
  | _ => False
  end.
Proof. vm_compute. done. Qed.

(** ** A completed image without its thumbnail *)

(** Three worker processes run the same image, the second from an object it read
    while the image was new.  Its save, which clears the thumbnail, comes between
    the [SELECT] and the [UPDATE] of the third, which therefore writes the status
    and no thumbnail. *)
Definition three_workers : list (coro unit) * world :=
  sched (replicate 2 1 ++ replicate 60 0 ++ replicate 18 2 ++ replicate 7 1 ++ replicate 60 2)%nat
    (replicate 3 (_ ← ProcessImage.execute pg disk jpeg_processor cat_id None; mret tt), cat_world no_faults).

Example completed_without_thumbnail :
  match db_images (w_db three_workers.2) !! cat_id with
  | Some m => m_status m = lit "completed" ∧ m_thumbnail_path m = None ∧ m_width m = Some 640
  | None => False
  end.
Proof. vm_compute. done. Qed.

(** ** An image that no page lists *)

(** Two images of the same date, in pages of one: the second page is a scan in
    another order, and lists the first image again. *)
Definition twins : db := MkDb {[ 1 := dated_row 1 30; 2 := dated_row 2 30 ]} ∅.

Example listed_twice_or_never :
  db_ok twins ∧
  (m_id <$> concat (map (@page fickle_postgres (λ i, i) None 1 twins) (seq 0 2))) = [2; 2].
Proof.
  split; [split; [|apply map_Forall_empty]|vm_compute; reflexivity].
  repeat (apply map_Forall_insert_2; [split_and!; [done|vm_compute; reflexivity|by exists PENDING]|]).
  apply map_Forall_empty.
Qed.

(** ** A record that ends the worker *)

(** A record whose key is not UTF-8 makes [consume] raise (if there is a consumer). *)
Definition strange_record : demo_topic := MkDemoTopic {[demo_name := [(Some [255], [1])]]} 0.

Example consume_raises :
  match (run (KafkaMessageBroker.consume demo_kafka (lit "localhost:9092") (lit "workers") [demo_name] demo_name)
           (KafkaMessageBroker.MkState None (Some 2%nat) [] [] strange_record)).1 with
  | Exn e => is_exception e = true
  | Ok _ => False
  end.
Proof. vm_compute. done. Qed.

(** ** A limit that is evaded *)

(** One peer, another header in each request: a limiter of one request an hour
    accepts them all. *)
Definition forged (c : Z) : Client := MkClient (Some [c]) (Some (lit "203.0.113.9")).

Example limit_evaded :
  (foldl (λ '(os, ls) c, let '(o, ls) := limit (lit "upload") 1 3600000000 (forged c) 0 ls in (os ++ [o], ls))
     ([], ∅) [65; 66; 67; 68]).1 = [Ok tt; Ok tt; Ok tt; Ok tt].
Proof. vm_compute. reflexivity. Qed.

(** ** A user name that is a host *)

Example user_not_quoted :
  database_url (default_settings (lit "app:x@evil:1/db?") (lit "secret")) =
    Ok (lit "postgresql+asyncpg://app:x@evil:1/db?:secret@localhost:5432/images").
Proof. vm_compute. reflexivity. Qed.
